(* ===== verification/_CoqProject ===== *)
-Q . S2P
Prelude.v
Types.v
ErrorText.v
Paths.v
Link.v
Transport.v
DirCache.v
CentralDb.v
DirTree.v
CentralInv.v
Sample.v
CentralDir.v
CentralTables.v
CentralFacts.v
CentralRuns.v
Conc.v
Traces.v
CentralServer.v
CentralHandlers.v
CentralUpdate.v
CentralSafety.v
CentralFiles.v
CentralReads.v
CentralRegistry.v
VolumeDb.v
VolumeIo.v
Volume.v
VolumeInv.v
VolumeFacts.v
VolumeBundles.v
VolumeSafety.v
VolumeSample.v
VolumeLife.v
VolumeRuns.v
VolumeCommits.v
VolumeCatalog.v
Storage.v
StorageSample.v
StorageSafety.v
StorageSync.v
StorageRequests.v
ClientScheduler.v
ClientSchedulerInv.v
ClientSchedulerFacts.v
ClientSession.v
ClientSessionFacts.v
ClientTransfer.v
ClientTransferInv.v
ClientTransferRuns.v
ClientTransferFacts.v
ClientLayout.v
ClientFiles.v
ClientReads.v
ClientDownload.v
System.v
Protocol.v
Config.v
TransportServe.v
CentralLife.v
Namespace.v
CentralLeases.v
StorageLife.v
Cli.v
CliFacts.v
CliVolumes.v
