(* ===== verification/Prelude.v ===== *)
(** * fs0: a verification of the distributed file store

    fs0 is three kinds of processes.  The _central server_ keeps the names: a SQLite database of
    directories, files, the bundles of files, the replicas of bundles, update leases and the change log, and in
    memory the clients and storages that are connected.  A _storage_ keeps the data: each of its _volumes_ is a directory
    with a SQLite database and data files of 4 GiB, in which compressed chunks lie one after another.  A _client_
    uploads a file in chunks of 1 MiB, 128 to a bundle, and downloads it again.  Clients and storages register with the
    central server over a control connection; a client talks to a storage over a data connection.

    An upload is: [BeginUpdate] at the central server, which chooses a volume, records a lease and grants it to the
    storage; [UploadChunk] and [CommitBundle] at the storage, which reports the new bundle to the central
    server through an outbox; [CommitUpdate] at the central server.  A download asks the central server for a read
    plan and the storages for the chunks.

    ** How the program is modelled

    Data are records and inductive types with the fields and constructors of the source; a [u64] is a [Z] with its
    checked, saturating and wrapping operations written out, a [String] the bytes of its text, a path of the store a
    string that [Paths.v] relates to its components.  A table is a list of rows in the order of their row ids, a
    [HashMap] a [gmap].  Code that runs in one transaction or under one lock is a function in an error-state
    monad ([ST] below; [Tx] and [VDb] for the two databases).  An [async fn] is a program of atomic blocks and questions
    ([Conc.v]): a block is what happens under a lock, a question is put to the environment (the clock, the outcome of
    a COMMIT, of a system call or of an rpc).  [run] executes a program alone, [pool_step] interleaves any number of
    them block by block, [may_return] is what it may end with under any interference, and [may_do] ([Traces.v]) also
    what it asked and was told on its way.

    ** The files

    - [Prelude.v]: results, the error-state monad with inversion lemmas ([minv]) and Hoare triples, machine integers
      ([zlia]), lists, the hint database [fs0].
    - [Types.v], [ErrorText.v] (fs0-core: lib, error, hash, sqlite, compression, protocol) and [Paths.v] (utils.rs).
    - [Link.v], [Transport.v], [TransportServe.v] (fs0-transport): a connection as its users see it; frames, the
      streams of a connection, rpc and the retries of connecting; the endpoint, the timeouts and the loop that accepts.
    - [DirCache.v], [CentralDb.v], [DirTree.v], [CentralDir.v], [CentralTables.v] (fs0-central/src/db, schema.sql): the
      cache of directory paths, the tables with their constraints and transactions, the directory tree, and the methods on
      files, bundles, replicas, leases, events and volumes.  [CentralInv.v], [CentralFacts.v], [CentralRuns.v]: the invariant of
      the tables, that each statement keeps it, and what each method does.
    - [CentralServer.v], [CentralHandlers.v] (server.rs, server/spawn.rs, request_handlers): the registry, every
      handler and the serving of a connection.  [CentralSafety.v], [CentralUpdate.v], [CentralFiles.v], [CentralReads.v],
      [CentralRegistry.v]: what they keep and do.  [CentralLife.v] (server.rs, spawn.rs, server/relay.rs, db.rs, and
      fs0-cli/src/commands/server.rs): the process, from its start to its shutdown and over restarts.  [Namespace.v]: what
      the tables mean, as a transition system of five operations on directories, files and logged names.
      [CentralLeases.v]: what an update lease excludes while the server goes on working.
    - [VolumeDb.v], [VolumeIo.v], [Volume.v] (fs0-volume: db.rs, data_file_cache.rs with the loops of io_platform.rs,
      volume.rs).  [VolumeInv.v], [VolumeFacts.v], [VolumeBundles.v], [VolumeSafety.v], [VolumeLife.v]: the invariant, with the byte
      ranges that calls in flight own, in every interleaving and over restarts.  [VolumeRuns.v], [VolumeCommits.v],
      [VolumeCatalog.v]: what the calls answer, and the outbox.
    - [Storage.v] (fs0-storage): volumes, leases, data and control requests, the connection to the central server
      and the bundle reporter.  [StorageSafety.v], [StorageSync.v], [StorageRequests.v]: its properties.
      [StorageLife.v]: the process around it.
    - [ClientScheduler.v] (storage_session/request_scheduler.rs), a step relation of its tasks, with
      [ClientSchedulerInv.v], [ClientSchedulerFacts.v].  [ClientSession.v] (central_session, storage_session, part of
      client.rs), [ClientSessionFacts.v].  [ClientTransfer.v] (the loops of client.rs that schedule chunks, and their
      callbacks), [ClientTransferInv.v], [ClientTransferRuns.v], [ClientTransferFacts.v], [ClientLayout.v]; [ClientFiles.v] and
      [ClientDownload.v], whole uploads and downloads; [ClientReads.v], what a short read does to a file.
    - [System.v]: the way of a file through the client, the central server and the volumes.
    - [Protocol.v]: which responses a request may get, for the servers and their callers.
    - [Config.v] (fs0-config); [Cli.v], [CliFacts.v], [CliVolumes.v] (fs0-cli).
    - [Sample.v], [VolumeSample.v], [StorageSample.v]: concrete states and environments, on which the witnesses of the
      theorems are evaluated.

    ** What is proved

    - Across the processes: a file whose upload was committed is what a download by any later read plan gives
      back, whatever replicas it reads ([System.v]); after a synchronisation the
      central server's replicas are the bundles of the volume ([StorageSync.v]); a chunk that one client uploads another
      downloads ([StorageRequests.v]); servers answer in kind and callers take every such answer ([Protocol.v]).
    - Refinement of the namespace: every transaction of the central server makes the operation its request names, or none; a
      refusal tells what is missing or in the way; over its whole life the tables represent what such operations made, and
      the change log tells the names that lead to the files ([Namespace.v]).
    - Invariants of all interleavings: the tables and the directory cache of the central server over any number of runs, the chunks, bundles and
      outbox of a volume whatever is cut off and however often it is opened, the request scheduler, a transfer.
    - Functional behaviour: commits of updates, and leases, which keep other updates off their file until they expire
      or end, whatever else the server does ([CentralLeases.v]); what an upload that succeeded asked for and was told; the removal of directories, copies, renames, directory listings and the change log
      followed page by page, read plans, registration and roles, every branch of a volume's calls, what put-dir
      collects, what creating a volume leaves behind.
    - Termination: the scheduler and a transfer end from every state they reach, without deadlock, in a bounded
      number of steps; the walk from a directory to the root ends.
    - Round trips and equivalences: paths, printed sizes, frames and rpcs, chunks through a volume, the cached
      directory lookup and the walk through the table, the choice of a volume and its specification, the loaders of
      one section of the configuration and of the whole file.
    - Where the program fails its purpose the theorems say so: a directory cache that is stale after a failed COMMIT, a change that
      is lost during a round of the reporter, a transfer that forgets the failure of a chunk, an upload after short
      reads that cannot be read back, a volume whose creation cannot be repeated.

    ** Fuel

    Recursion that is not structural has fuel, and a theorem or the definition says that it is enough: the
    walk to the root gets the number of directories plus one; [chunks] the length of the list; following pages and
    the change log as much as there are rows; the loops of partial reads and writes the number of bytes, since a call that
    moves none ends them; the reporter's loop any number above the records in the outbox; the trimming of text its length.

    ** Assumptions

    - [RowIdLaws]: a row id is not in use and positive.  [PostcardLaws]: postcard decodes what it encodes.  BLAKE3 is any function;
      only the theorems on whole files suppose that no digest of the file's chunks and bundles collides.  zstd is any pair of
      functions.
    - SQLite executes statements and transactions as documented.  A statement of a volume's transaction fails only by
      a constraint, a COMMIT may always fail; the invariant of the central server supposes that none does, which
      [CentralSafety.v] shows to be needed.  The limit on the variables of a statement is not reached.
    - A database file whose creation failed before its row of meta data was inserted is, if it is there, one without that
      row; that its tables may be missing too only changes the text of the error that opening it gives.
    - A write to a data file that returned is there after the process stops; a loss of power is outside the model.
    - Semaphores and the reporter's locks only delay.  A session's lock is held through [ensure_connected], so nothing of
      that session runs in between.  The targets are 64-bit and unix; arithmetic wraps as in a release build.

    ** Not modelled

    What iroh, rustls and the relay make of their settings, and the log of the paths of a connection.  The
    TOML and the argument parser are libraries; so are the texts of their errors.  The variants of io_platform.rs for other
    systems.  Log lines, timings, and the lines put-dir prints for single files. *)

From Stdlib Require Export ZArith Lia.
From Stdlib Require Export Ascii String.
From stdpp Require Export prelude gmap strings sorting pretty vector.

#[global] Open Scope Z_scope.

(** ** Results and the error-state monad *)

(** [Result<A, E>] of the Rust standard library. *)
Inductive Result (E A : Type) : Type :=
| Ok (a : A)
| Err (e : E).
Arguments Ok {E A} a.
Arguments Err {E A} e.

#[export] Instance Result_eq_dec {E A} `{EqDecision E, EqDecision A} : EqDecision (Result E A).
Proof. solve_decision. Defined.

#[export] Instance Result_ret {E} : MRet (Result E) := λ A a, Ok a.
#[export] Instance Result_bind {E} : MBind (Result E) := λ A B f m,
  match m with Ok a => f a | Err e => Err e end.
#[export] Instance Result_fmap {E} : FMap (Result E) := λ A B f m,
  match m with Ok a => Ok (f a) | Err e => Err e end.

Definition map_err {E F A} (f : E → F) (r : Result E A) : Result F A :=
  match r with Ok a => Ok a | Err e => Err (f e) end.

Definition is_ok {E A} (r : Result E A) : bool :=
  match r with Ok _ => true | Err _ => false end.

Definition ok_or {E A} (e : E) (o : option A) : Result E A :=
  match o with Some a => Ok a | None => Err e end.

(** A computation that reads and writes a state [S] and may stop with an error
    [E]: Rust's [fn f(&mut self) -> Result<A, E>].  The state reached before an
    error is kept, because the callers see it. *)
Definition ST (S E A : Type) : Type := S → Result E A * S.

#[export] Instance ST_ret {S E} : MRet (ST S E) := λ A a s, (Ok a, s).
#[export] Instance ST_bind {S E} : MBind (ST S E) := λ A B f m s,
  match m s with
  | (Ok a, s') => f a s'
  | (Err e, s') => (Err e, s')
  end.

Definition st_fail {S E A} (e : E) : ST S E A := λ s, (Err e, s).
Definition st_get {S E} : ST S E S := λ s, (Ok s, s).
Definition st_gets {S E A} (f : S → A) : ST S E A := λ s, (Ok (f s), s).
Definition st_modify {S E} (f : S → S) : ST S E unit := λ s, (Ok tt, f s).
(** the [?] operator on a pure [Result] *)
Definition st_lift {S E A} (r : Result E A) : ST S E A := λ s, (r, s).

(** [match m { Ok(a) => .., Err(e) => .. }]: the error as a value *)
Definition st_try {S E A} (m : ST S E A) : ST S E (Result E A) := λ s,
  let '(r, s') := m s in (Ok r, s').
(** [m.map_err(f)?] *)
Definition st_map_err {S E A} (f : E → E) (m : ST S E A) : ST S E A := λ s,
  let '(r, s') := m s in (map_err f r, s').

(** the effect of a loop [for x in xs { body(x)?; }] *)
Fixpoint st_for {S E A} (xs : list A) (body : A → ST S E unit) : ST S E unit :=
  match xs with
  | [] => mret tt
  | x :: xs' => body x;; st_for xs' body
  end.

(** [iter.map(f).collect::<Result<Vec<_>, _>>()] and [for row in rows { v.push(row?) }] *)
Fixpoint collect {E A B} (f : A → Result E B) (xs : list A) : Result E (list B) :=
  match xs with
  | [] => Ok []
  | x :: xs' => y ← f x; ys ← collect f xs'; Ok (y :: ys)
  end.

(** [try_fold] with [checked_add] style steps *)
Fixpoint try_fold {E A B} (f : B → A → Result E B) (b : B) (xs : list A) : Result E B :=
  match xs with
  | [] => Ok b
  | x :: xs' => b' ← f b x; try_fold f b' xs'
  end.

(** ** Machine integers *)

Definition u64_max : Z := 2 ^ 64 - 1.
Definition i64_max : Z := 2 ^ 63 - 1.
Definition u32_max : Z := 2 ^ 32 - 1.

(** [x] is the value of a [u64] (on the 64-bit targets also of a [usize]) *)
Definition is_u64 (x : Z) : Prop := 0 ≤ x ≤ u64_max.
Definition is_i64_nonneg (x : Z) : Prop := 0 ≤ x ≤ i64_max.

Definition u64_checked_add (a b : Z) : option Z :=
  if bool_decide (a + b ≤ u64_max) then Some (a + b) else None.
Definition u64_checked_mul (a b : Z) : option Z :=
  if bool_decide (a * b ≤ u64_max) then Some (a * b) else None.
Definition u64_saturating_add (a b : Z) : Z := Z.min (a + b) u64_max.
Definition u64_saturating_sub (a b : Z) : Z := Z.max (a - b) 0.
(** [+] and [fetch_add] where the build wraps (release profile) *)
Definition u64_wrapping_add (a b : Z) : Z := (a + b) mod 2 ^ 64.
Definition u64_div_ceil (a b : Z) : Z := (a + b - 1) / b.
Definition zclamp (lo hi x : Z) : Z := Z.max lo (Z.min hi x).

(** ** Lists *)

(** [slice.chunks(n)]; [fuel] is the length of the list, enough when [n > 0] *)
Fixpoint chunks_fuel {A} (fuel n : nat) (l : list A) : list (list A) :=
  match fuel, l with
  | O, _ | _, [] => []
  | S fuel', _ => take n l :: chunks_fuel fuel' n (drop n l)
  end.
Definition chunks {A} (n : nat) (l : list A) : list (list A) := chunks_fuel (length l) n l.

Definition zsum (l : list Z) : Z := foldr Z.add 0 l.

(** [iter.find(p)] *)
Fixpoint lfind {A} (p : A → bool) (l : list A) : option A :=
  match l with
  | [] => None
  | x :: l' => if p x then Some x else lfind p l'
  end.

(** [iter.find_map(f)] *)
Fixpoint lfind_map {A B} (f : A → option B) (l : list A) : option B :=
  match l with
  | [] => None
  | x :: l' => match f x with Some y => Some y | None => lfind_map f l' end
  end.

(** ** Lists: lemmas *)

Lemma lfind_Some {A} (p : A → bool) l x : lfind p l = Some x → x ∈ l ∧ p x = true.
Proof.
  induction l as [|y l IH]; simpl; [done|]. destruct (p y) eqn:Hp.
  - intros [= <-]. split; [by left|done].
  - intros [? ?]%IH. split; [by right|done].
Qed.

Lemma lfind_None {A} (p : A → bool) l : lfind p l = None ↔ ∀ x, x ∈ l → p x = false.
Proof.
  induction l as [|y l IH]; simpl.
  - split; [intros _ x []%elem_of_nil|done].
  - destruct (p y) eqn:Hp.
    + split; [done|]. intros Hx. specialize (Hx y (list_elem_of_here _ _)). congruence.
    + rewrite IH. split.
      * intros Hl x [->|Hx]%elem_of_cons; auto.
      * intros Hl x Hx. apply Hl. by right.
Qed.

Lemma lfind_app {A} (p : A → bool) l l' :
  lfind p (l ++ l') = match lfind p l with Some x => Some x | None => lfind p l' end.
Proof. induction l as [|x l IH]; simpl; [done|]. by destruct (p x). Qed.

Lemma NoDup_map_filter {A B} (f : A → B) (P : A → Prop) `{∀ x, Decision (P x)} (l : list A) :
  NoDup (map f l) → NoDup (map f (base.filter P l)).
Proof.
  induction l as [|x l IH]; simpl; [done|]. intros [Hx Hl]%NoDup_cons.
  destruct (decide (P x)).
  - rewrite filter_cons_True by done. simpl. apply NoDup_cons. split; [|auto].
    intros (y & Hy & Hin)%list_elem_of_fmap. apply Hx. rewrite Hy.
    apply (list_elem_of_fmap_2 f). by apply list_elem_of_filter in Hin as [_ ?].
  - rewrite filter_cons_False by done. auto.
Qed.

Lemma NoDup_map_snoc {A B} (f : A → B) (l : list A) x :
  NoDup (map f l) → f x ∉ map f l → NoDup (map f (l ++ [x])).
Proof.
  intros. rewrite map_app. apply NoDup_app. split_and!; [done| |apply NoDup_singleton].
  intros y Hy ->%list_elem_of_singleton. done.
Qed.

Lemma Forall_filter_2 {A} (Q P : A → Prop) `{∀ x, Decision (P x)} (l : list A) :
  Forall Q l → Forall Q (base.filter P l).
Proof. rewrite !Forall_forall. setoid_rewrite list_elem_of_filter. naive_solver. Qed.

Lemma NoDup_map_inj {A B} (f : A → B) (l : list A) x y :
  NoDup (map f l) → x ∈ l → y ∈ l → f x = f y → x = y.
Proof.
  induction l as [|z l IH]; simpl; [by intros _ ?%elem_of_nil|].
  intros [Hz Hl]%NoDup_cons. rewrite !elem_of_cons. intros [->|Hx] [->|Hy] Heq; auto.
  - destruct Hz. rewrite Heq. by apply (list_elem_of_fmap_2 f).
  - destruct Hz. rewrite <- Heq. by apply (list_elem_of_fmap_2 f).
Qed.

Lemma lfind_key {A B} `{EqDecision B} (f : A → B) (l : list A) x :
  NoDup (map f l) → x ∈ l → lfind (λ y, bool_decide (f y = f x)) l = Some x.
Proof.
  intros Hnd Hx. destruct (lfind _ l) as [y|] eqn:Hf.
  - apply lfind_Some in Hf as [Hy Heq%bool_decide_eq_true]. f_equal. by eapply NoDup_map_inj.
  - rewrite lfind_None in Hf. specialize (Hf x Hx). by rewrite bool_decide_true in Hf.
Qed.

Lemma filter_nil_iff {A} (P : A → Prop) `{∀ x, Decision (P x)} (l : list A) :
  base.filter P l = [] ↔ ∀ x, x ∈ l → ¬ P x.
Proof.
  split.
  - intros Hf x Hx HP. assert (x ∈ base.filter P l) as Hin by (by apply list_elem_of_filter).
    rewrite Hf in Hin. by apply elem_of_nil in Hin.
  - intros Hn. destruct (base.filter P l) as [|x l'] eqn:Hf; [done|].
    assert (x ∈ base.filter P l) as [HP Hx]%list_elem_of_filter by (rewrite Hf; by left).
    by apply Hn in Hx.
Qed.

Lemma StronglySorted_filter {A} (R : A → A → Prop) (P : A → Prop) `{∀ x, Decision (P x)} l :
  StronglySorted R l → StronglySorted R (base.filter P l).
Proof.
  induction 1 as [|x l Hs IH Hf]; [constructor|]. destruct (decide (P x)).
  - rewrite filter_cons_True by done. constructor; [done|]. by apply Forall_filter_2.
  - by rewrite filter_cons_False.
Qed.

Lemma StronglySorted_impl {A} (R R' : A → A → Prop) l :
  (∀ x y, R x y → R' x y) → StronglySorted R l → StronglySorted R' l.
Proof.
  intros HR. induction 1 as [|x l Hs IH Hx]; constructor; [done|].
  eapply Forall_impl; [exact Hx|]. auto.
Qed.

(** two sorted permutations are equal when the order is antisymmetric on them *)
Lemma sorted_perm_unique {A} (R : A → A → Prop) (l l' : list A) :
  StronglySorted R l → StronglySorted R l' → l ≡ₚ l' →
  (∀ x y, x ∈ l → y ∈ l → R x y → R y x → x = y) → l = l'.
Proof.
  intros Hl. revert l'. induction Hl as [|x l Hl IH Hx]; intros l' Hl' Hp Hanti.
  { by apply Permutation_nil in Hp. }
  destruct Hl' as [|y l' Hl' Hy]; [by apply Permutation_sym, Permutation_nil in Hp|].
  assert (x = y) as ->.
  { assert (x ∈ y :: l') as Hin by (rewrite <- Hp; by left).
    assert (y ∈ x :: l) as Hin' by (rewrite Hp; by left).
    apply elem_of_cons in Hin as [|Hin]; [done|]. apply elem_of_cons in Hin' as [|Hin']; [done|].
    rewrite Forall_forall in Hx. rewrite Forall_forall in Hy.
    apply Hanti; [by left|by right|auto|auto]. }
  f_equal. apply IH; [done|by eapply Permutation_cons_inv|].
  intros ????. apply Hanti; by right.
Qed.

(** sorting by a key a permutation of what is sorted by it *)
Lemma merge_sort_key_perm {A} (key : A → Z) (R : A → A → Prop) `{!RelDecision R} (l l' : list A) :
  (∀ a b, R a b ↔ key a ≤ key b) → StronglySorted (λ a b, key a < key b) l → l' ≡ₚ l → merge_sort R l' = l.
Proof.
  intros HR Hsorted Hperm. symmetry. apply (sorted_perm_unique R).
  - eapply StronglySorted_impl; [|exact Hsorted]. intros a b Hab. apply HR. simpl in Hab. lia.
  - apply StronglySorted_merge_sort; intros a *; rewrite !HR; lia.
  - by rewrite merge_sort_Permutation.
  - intros x y Hx Hy Hxy Hyx. assert (key x = key y) as Heq by (apply HR in Hxy, Hyx; lia).
    eapply (NoDup_map_inj key); [|done..]. clear -Hsorted.
    induction Hsorted as [|r l _ IH Hr]; cbn [map]; constructor; [|done].
    intros (r' & Hr' & Hin)%list_elem_of_fmap. pose proof (proj1 (Forall_forall _ _) Hr _ Hin). simpl in *. lia.
Qed.

Lemma merge_sort_key {A} (key : A → Z) (R : A → A → Prop) `{!RelDecision R} (l : list A) :
  (∀ a b, R a b ↔ key a ≤ key b) → StronglySorted (λ a b, key a < key b) l → merge_sort R l = l.
Proof. intros HR Hsorted. by apply (merge_sort_key_perm key). Qed.

Lemma filter_all {A} (P : A → Prop) `{∀ x, Decision (P x)} (l : list A) :
  (∀ x, x ∈ l → P x) → base.filter P l = l.
Proof.
  induction l as [|x l IH]; intros Hl; [done|]. rewrite filter_cons_True by (apply Hl; by left).
  f_equal. apply IH. intros y Hy. apply Hl. by right.
Qed.

Lemma concat_Permutation {A} (ls ls' : list (list A)) : ls ≡ₚ ls' → concat ls ≡ₚ concat ls'.
Proof.
  induction 1 as [|l ls ls' _ IH|l l' ls|ls ls' ls'' _ IH _ IH']; simpl; [done|by f_equiv| |by etrans].
  rewrite !(assoc_L (++)). f_equiv. apply Permutation_app_comm.
Qed.

Lemma zsum_nonneg l : Forall (λ x, 0 ≤ x) l → 0 ≤ zsum l.
Proof. induction 1; simpl; [done|]. unfold zsum in *. simpl. lia. Qed.

Lemma Forall_combine {A} (P Q R : A → Prop) l :
  Forall P l → Forall Q l → (∀ x, P x → Q x → R x) → Forall R l.
Proof. rewrite !Forall_forall. naive_solver. Qed.

(** ** Automation *)

(** [fs0] collects the facts the components export for [eauto with fs0]. *)
Create HintDb fs0 discriminated.

Ltac unfold_u64 :=
  unfold is_u64, is_i64_nonneg, u64_checked_add, u64_checked_mul, u64_saturating_add,
    u64_saturating_sub, u64_max, i64_max, u32_max, zclamp in *.

(** arithmetic with the machine bounds unfolded *)
Ltac zlia := unfold_u64; repeat case_bool_decide; simplify_eq; lia.

(** ** Inversion of monadic runs *)

Lemma ST_bind_Ok {S E A B} (m : ST S E A) (f : A → ST S E B) s b s' :
  (m ≫= f) s = (Ok b, s') ↔ ∃ a s1, m s = (Ok a, s1) ∧ f a s1 = (Ok b, s').
Proof.
  unfold mbind, ST_bind. destruct (m s) as [[a|e] s1]; naive_solver.
Qed.

Lemma ST_bind_Err {S E A B} (m : ST S E A) (f : A → ST S E B) s e s' :
  (m ≫= f) s = (Err e, s') ↔
  m s = (Err e, s') ∨ ∃ a s1, m s = (Ok a, s1) ∧ f a s1 = (Err e, s').
Proof.
  unfold mbind, ST_bind. destruct (m s) as [[a|e'] s1]; naive_solver.
Qed.

Lemma ST_bind_run {S E A B} (m : ST S E A) (f : A → ST S E B) s a s1 :
  m s = (Ok a, s1) → (m ≫= f) s = f a s1.
Proof. intros H. unfold mbind, ST_bind. by rewrite H. Qed.

Lemma ST_bind_run_Err {S E A B} (m : ST S E A) (f : A → ST S E B) s e s1 :
  m s = (Err e, s1) → (m ≫= f) s = (Err e, s1).
Proof. intros H. unfold mbind, ST_bind. by rewrite H. Qed.

Lemma run_value {S E A} (m : ST S E A) s r : (m s).1 = r → m s = (r, (m s).2).
Proof. intros <-. by destruct (m s). Qed.

Lemma Result_bind_Ok {E A B} (m : Result E A) (f : A → Result E B) b :
  m ≫= f = Ok b ↔ ∃ a, m = Ok a ∧ f a = Ok b.
Proof. destruct m; unfold mbind, Result_bind; naive_solver. Qed.

Lemma Result_bind_Err {E A B} (m : Result E A) (f : A → Result E B) e :
  m ≫= f = Err e ↔ m = Err e ∨ ∃ a, m = Ok a ∧ f a = Err e.
Proof. destruct m; unfold mbind, Result_bind; naive_solver. Qed.

Lemma Ok_bind {E A B} (a : A) (f : A → Result E B) : Ok a ≫= f = f a.
Proof. done. Qed.

Lemma Err_bind {E A B} (e : E) (f : A → Result E B) : Err e ≫= f = Err e.
Proof. done. Qed.

Lemma ok_or_Ok {E A} (e : E) (o : option A) a : ok_or e o = Ok a ↔ o = Some a.
Proof. destruct o; simpl; naive_solver. Qed.

Lemma collect_map {E A B} (f : A → Result E B) (g : A → B) xs :
  Forall (λ x, f x = Ok (g x)) xs → collect f xs = Ok (map g xs).
Proof. induction 1 as [|x xs Hx _ IH]; simpl; [done|]. by rewrite Hx, IH. Qed.

(** *** Hoare triples *)

(** From a state with [P], the run ends with a value and a state of [Q], or with
    an error in a state of [R]. *)
Definition triple {S E A} (P : S → Prop) (m : ST S E A) (Q : A → S → Prop) (R : S → Prop) : Prop :=
  ∀ s, P s → match m s with (Ok a, s') => Q a s' | (Err _, s') => R s' end.

Lemma triple_ret {S E A} (P : S → Prop) (a : A) (Q : A → S → Prop) R :
  (∀ s, P s → Q a s) → triple (E := E) P (mret a) Q R.
Proof. intros HQ s Hs. by apply HQ. Qed.

Lemma triple_bind {S E A B} (P : S → Prop) (m : ST S E A) (f : A → ST S E B) M Q R :
  triple P m M R → (∀ a, triple (M a) (f a) Q R) → triple P (m ≫= f) Q R.
Proof.
  intros Hm Hf s Hs. specialize (Hm s Hs). unfold mbind, ST_bind.
  destruct (m s) as [[a|e] s1]; [by apply Hf|done].
Qed.

Lemma triple_fail {S E A} (P : S → Prop) (e : E) (Q : A → S → Prop) (R : S → Prop) :
  (∀ s, P s → R s) → triple P (st_fail e) Q R.
Proof. intros HR s Hs. by apply HR. Qed.

(** [?] on a pure result keeps the state and records how the result came about *)
Lemma triple_lift {S E A} (P : S → Prop) (r : Result E A) (Q : A → S → Prop) (R : S → Prop) :
  (∀ s a, P s → r = Ok a → Q a s) → (∀ s, P s → R s) → triple P (st_lift r) Q R.
Proof. intros HQ HR s Hs. unfold st_lift. destruct r; auto. Qed.

Lemma triple_conseq {S E A} (P P' : S → Prop) (m : ST S E A) (Q Q' : A → S → Prop) (R R' : S → Prop) :
  triple P' m Q' R' → (∀ s, P s → P' s) → (∀ a s, Q' a s → Q a s) → (∀ s, R' s → R s) →
  triple P m Q R.
Proof.
  intros Hm HP HQ HR s Hs. specialize (Hm s (HP s Hs)). destruct (m s) as [[a|e] s1]; auto.
Qed.

(** one inversion step on a hypothesis that says how a monadic run ended *)
Ltac minv_step :=
  match goal with
  | H : mret _ _ = (_, _) |- _ => unfold mret, ST_ret in H; simplify_eq
  | H : mret _ = Ok _ |- _ => unfold mret, Result_ret in H; simplify_eq
  | H : mret _ = Err _ |- _ => unfold mret, Result_ret in H; simplify_eq
  | H : st_fail _ _ = (_, _) |- _ => unfold st_fail in H; simplify_eq
  | H : st_get _ = (_, _) |- _ => unfold st_get in H; simplify_eq
  | H : st_gets _ _ = (_, _) |- _ => unfold st_gets in H; simplify_eq
  | H : st_modify _ _ = (_, _) |- _ => unfold st_modify in H; simplify_eq
  | H : st_lift _ _ = (_, _) |- _ => unfold st_lift in H; simplify_eq
  | H : (_ ≫= _) _ = (Ok _, _) |- _ => apply ST_bind_Ok in H as (? & ? & ? & ?)
  | H : (_ ≫= _) _ = (Err _, _) |- _ =>
      apply ST_bind_Err in H as [H|(? & ? & ? & H)]
  | H : _ ≫= _ = Ok _ |- _ => apply Result_bind_Ok in H as (? & ? & ?)
  | H : _ ≫= _ = Err _ |- _ => apply Result_bind_Err in H as [H|(? & ? & H)]
  | H : ok_or _ _ = Ok _ |- _ => apply ok_or_Ok in H
  end.
Ltac minv := repeat (minv_step; simpl in *; simplify_eq).

