(* ===== verification/Types.v ===== *)
(** * fs0-core: constants, errors, hashes and the protocol's data types

    Models [fs0-core/src/{lib,error,hash,sqlite,compression,protocol}.rs]: the constants, the
    error enum, [HashId], the record of every message the three processes
    exchange, and the conversions between [u64] values and SQLite's [i64]
    columns.  BLAKE3, zstd and rusqlite's error texts are parameters (classes
    [Blake3], [Zstd], [SqliteText]). *)

From S2P Require Import Prelude.

(** ** Constants *)

Definition FS0_VERSION : string := "0.2.4".
Definition TRANSPORT_FRAME_LEN_BYTES : nat := 4.
Definition TRANSPORT_MAX_FRAME_BODY_LEN : Z := 2 * 1024 * 1024.
Definition VOLUME_BUNDLE_RAW_SIZE : Z := 128 * 1024 * 1024.
Definition VOLUME_RAW_CHUNK_SIZE : Z := 1024 * 1024.
Definition VOLUME_DEFAULT_DATA_FILE_SIZE : Z := 4 * 1024 * 1024 * 1024.
Definition VOLUME_DB_FILE : string := ".fs0.sqlite".
Definition VOLUME_DATA_FILE_PREFIX : string := ".fs0.data.".
Definition VOLUME_FORMAT_VERSION : Z := 1.
Definition VOLUME_DATA_FILE_IDLE_TTL_MS : Z := 60000.
Definition UPDATE_LEASE_TTL_MS : Z := 60000.
Definition DEFAULT_ZSTD_LEVEL : Z := 9.

(** ** HashId *)

#[export] Instance byte_eq_dec : EqDecision Byte.byte := Byte.byte_eq_dec.
#[export] Program Instance byte_countable : Countable Byte.byte :=
  inj_countable Byte.to_N Byte.of_N _.
Next Obligation. apply Byte.of_to_N. Qed.

(** [pub struct HashId(pub [u8; 32])] *)
Record HashId := mkHashId { hash_bytes : vec Byte.byte 32 }.

#[export] Instance HashId_eq_dec : EqDecision HashId.
Proof. solve_decision. Defined.
(** the vector of a list of its length *)
Fixpoint vec_of_list {A} (n : nat) (l : list A) : option (vec A n) :=
  match n, l with
  | O, [] => Some [#]
  | S n, x :: l => match vec_of_list n l with Some v => Some (x ::: v) | None => None end
  | _, _ => None
  end.

Lemma vec_of_list_to_list {A} n (v : vec A n) : vec_of_list n (vec_to_list v) = Some v.
Proof. induction v as [|x n v IH]; simpl; [done|]. by rewrite IH. Qed.

#[export] Program Instance HashId_countable : Countable HashId :=
  inj_countable (λ h, vec_to_list (hash_bytes h))
    (λ l, match vec_of_list 32 l with Some v => Some (mkHashId v) | None => None end) _.
Next Obligation. intros [v]. cbn [hash_bytes]. by rewrite vec_of_list_to_list. Qed.

(** SQLite compares BLOBs with memcmp; on 32-byte strings that is the order of
    the big-endian numbers they spell. *)
Definition hash_key (h : HashId) : Z :=
  foldl (λ acc b, acc * 256 + Z.of_N (Byte.to_N b)) 0 (vec_to_list (hash_bytes h)).

(** the hash whose 32 bytes are all [b] *)
Definition hash_repeat (b : Byte.byte) : HashId := mkHashId (vreplicate 32 b).

(** ** Errors *)

Inductive Fs0Error :=
| InvalidFrame (message : string)
| FrameTooLarge (actual max : Z)
| Io (message : string)
| Postcard (message : string)
| ZstdError (message : string)
| Sqlite (message : string)
| InvalidConfig (message : string)
| InvalidData (message : string)
| InvalidPath (path : string)
| IntegerConversion (message : string)
| AlreadyExists (path : string)
| VolumeNotFound (path : string)
| NoAvailableVolume (prefer_volume_name : option string) (update_size_hint : option Z)
| ChunkNotFound (chunk_id : HashId)
| BundleNotFound (bundle_id : HashId)
| CapacityExceeded (required_end max_bytes : Z)
| HashMismatch (volume_offset : Z)
| Unsupported
| NotFound
| VolumeAlreadyMounted
| VersionConflict (message : string)
| ChunkNotReady
| InvalidRequest
| Unauthorized
| UnknownVolume
| CentralUnavailable
| Internal (message : string)
| Fs0Version (required actual : string).

#[export] Instance Fs0Error_eq_dec : EqDecision Fs0Error.
Proof. solve_decision. Defined.

Abbreviation Fs0Result := (Result Fs0Error).

(** ** SQLite errors *)

(** The ways a statement of this program can fail.  The first is raised by the
    program's own row readers, the others by the engine's documented checks. *)
Inductive SqlType := SqlInteger | SqlText | SqlBlob.
Inductive SqlError :=
| FromSqlConversionFailure (index : Z) (ty : SqlType) (message : string)
| ConstraintUnique
| ConstraintForeignKey
| ConstraintCheck
| IntegerOverflow
| QueryReturnedNoRows
| DatabaseFull.

(** rusqlite's [Display] of its errors *)
Class SqliteText := sqlite_error_text : SqlError → string.

(** [impl From<rusqlite::Error> for Fs0Error] *)
Definition from_sqlite `{SqliteText} (e : SqlError) : Fs0Error := Sqlite (sqlite_error_text e).

(** [Row::u64] and [Row::optional_u64] *)
Definition row_u64 `{SqliteText} (index : Z) (name : string) (value : Z) : Fs0Result Z :=
  if bool_decide (0 ≤ value) then Ok value
  else Err (from_sqlite (FromSqlConversionFailure index SqlInteger
              (name +:+ " value " +:+ pretty value +:+ " is negative"))).
Definition row_optional_u64 `{SqliteText} (index : Z) (name : string) (value : option Z)
  : Fs0Result (option Z) :=
  match value with
  | None => Ok None
  | Some v => v' ← row_u64 index name v; Ok (Some v')
  end.

(** [u64_to_i64] and [i64_to_u64] of [utils.rs] *)
Definition u64_to_i64 (value : Z) (name : string) : Fs0Result Z :=
  if bool_decide (value ≤ i64_max) then Ok value
  else Err (IntegerConversion (name +:+ " value " +:+ pretty value +:+ " does not fit in i64")).
Definition i64_to_u64 (value : Z) (name : string) : Fs0Result Z :=
  if bool_decide (0 ≤ value) then Ok value
  else Err (IntegerConversion (name +:+ " value " +:+ pretty value +:+ " is negative")).

(** ** Protocol messages (protocol.rs) *)

Record BundleChunkRef := mkBundleChunkRef { bc_chunk_index : Z; bc_chunk_id : HashId }.

Record UploadChunkRequest := mkUploadChunkRequest {
  ucr_lease_id : Z; ucr_file_id : Z; ucr_volume_id : Z;
  ucr_chunk_id : HashId; ucr_raw_len : Z; ucr_compressed_bytes : list Byte.byte }.

Record DownloadChunkRequest := mkDownloadChunkRequest {
  dcr_volume_id : Z; dcr_chunk_id : HashId }.

Record CommitBundleRequest := mkCommitBundleRequest {
  cbr_lease_id : Z; cbr_file_id : Z; cbr_volume_id : Z;
  cbr_bundle_id : HashId; cbr_chunks : list BundleChunkRef }.

Record UploadChunkResponse := mkUploadChunkResponse {
  ucs_chunk_id : HashId; ucs_raw_len : Z; ucs_compressed_len : Z }.

Record CommitBundleResponse := mkCommitBundleResponse {
  cbs_bundle_id : HashId; cbs_raw_len : Z; cbs_compressed_len : Z }.

Record ReplicaLocation := mkReplicaLocation { rl_storage_id : Z; rl_volume_id : Z }.

Record FileBundleRef := mkFileBundleRef {
  fbr_bundle_index : Z; fbr_raw_len : Z; fbr_compressed_len : Z;
  fbr_bundle_id : HashId; fbr_replicas : list ReplicaLocation }.

Record FileReadPlan := mkFileReadPlan {
  plan_file_id : Z; plan_path : string; plan_size : Z; plan_bundles : list FileBundleRef }.

Record StorageVolumeInfo := mkStorageVolumeInfo {
  svi_volume_id : Z; svi_name : string; svi_max_bytes : Z;
  svi_max_volume_offset : Z; svi_read_only : bool }.

Record StoragePeerInfo := mkStoragePeerInfo {
  spi_storage_id : Z; spi_name : string;
  spi_volumes : list StorageVolumeInfo; spi_iroh_endpoint : list Byte.byte }.

Record FileRecord := mkFileRecord {
  fr_file_id : Z; fr_path : string; fr_size_bytes : Z; fr_compressed_size_bytes : Z;
  fr_created_at_ms : Z; fr_updated_at_ms : Z }.

Record DirectoryEntry := mkDirectoryEntry {
  de_name : string; de_path : string; de_file_id : Z; de_size_bytes : Z;
  de_compressed_size_bytes : Z; de_created_at_ms : Z; de_updated_at_ms : Z }.

Record DirectoryEntries := mkDirectoryEntries {
  des_entries : list DirectoryEntry; des_next_cursor : option Z }.

Record BeginUpdateRequest := mkBeginUpdateRequest {
  bur_path : string; bur_offset : Z;
  bur_prefer_volume_name : option string; bur_update_size_hint : option Z }.

Record GrantUploadLeaseRequest := mkGrantUploadLeaseRequest {
  gul_lease_id : Z; gul_file_id : Z; gul_volume_id : Z; gul_base_size : Z;
  gul_expires_at_ms : Z; gul_prefer_volume_name : option string }.

Record UpdateLease := mkUpdateLease {
  ul_lease_id : Z; ul_file_id : Z; ul_volume_id : Z; ul_base_size : Z; ul_offset : Z;
  ul_expires_at_ms : Z; ul_prefer_volume_name : option string }.

Record CommittedBundle := mkCommittedBundle {
  cb_bundle_id : HashId; cb_raw_len : Z; cb_compressed_len : Z }.

Record CommitUpdateRequest := mkCommitUpdateRequest {
  cur_lease_id : Z; cur_file_id : Z; cur_base_size : Z; cur_new_size : Z;
  cur_bundles : list CommittedBundle }.

Inductive BundleReplicaEventKind := Stored | Deleted.

Record BundleReplicaEvent := mkBundleReplicaEvent {
  bre_event_id : Z; bre_kind : BundleReplicaEventKind; bre_volume_id : Z;
  bre_bundle_id : HashId; bre_raw_len : option Z; bre_compressed_len : option Z }.

Inductive FileChangeLogKind := KCreated | KUpdated | KMoved | KDeleted.

Record FileChangeLog := mkFileChangeLog {
  fcl_event_id : Z; fcl_kind : FileChangeLogKind; fcl_file_id : option Z;
  fcl_new_path : option string; fcl_created_at_ms : Z }.

Record FileChangeLogs := mkFileChangeLogs {
  fcls_operations : list FileChangeLog; fcls_next_event_id : option Z }.

Inductive ControlRequest :=
| RegisterClientRq (name : option string) (token version : string)
| RegisterStorageRq (name token version : string) (volumes : list StorageVolumeInfo)
    (iroh_endpoint : list Byte.byte)
| UpdateStorageEndpointRq (storage_id : Z) (iroh_endpoint : list Byte.byte)
| CreateVolumeRq (name : string) (max_bytes : Z)
| CentralStatusRq
| ListDirectoryRq (dir : string) (limit : Z) (cursor : option Z)
| GetFileReadPlanRq (path : string)
| GetFileReadPlanByIdRq (file_id : Z)
| HasBundleRq (bundle_id : HashId) (volume_id : option Z)
| DeleteFileRq (path : string)
| DeleteFileByIdRq (file_id : Z)
| CopyFileRq (source_path target_path : string)
| CopyFileByIdRq (source_file_id : Z) (target_path : string)
| RenameFileRq (source_path target_path : string)
| RenameFileByIdRq (file_id : Z) (target_path : string)
| GetFileChangeLogsRq (after_event_id limit : Z)
| BeginUpdateRq (request : BeginUpdateRequest)
| CommitUpdateRq (request : CommitUpdateRequest)
| AbortUpdateRq (lease_id file_id : Z)
| GrantUploadLeaseRq (request : GrantUploadLeaseRequest)
| RevokeUploadLeaseRq (lease_id : Z)
| ReportBundleReplicaRq (events : list BundleReplicaEvent)
| UpdateStorageVolumeOffsetRq (volume_id max_volume_offset : Z)
| ValidateClientAuthRq (client_id : Z) (client_token : string).

Inductive ControlResponse :=
| RegisterClientRs (client_id : Z) (storages : list StoragePeerInfo)
| RegisterStorageRs (storage_id : Z) (storages : list StoragePeerInfo)
| UpdateStorageEndpointRs
| CreateVolumeRs (volume_id : Z)
| CentralStatusRs (clients_count : Z) (storages : list StoragePeerInfo)
| ListDirectoryRs (entries : DirectoryEntries)
| GetFileReadPlanRs (plan : FileReadPlan)
| GetFileReadPlanByIdRs (plan : FileReadPlan)
| HasBundleRs (exists_ : bool)
| DeleteFileRs
| DeleteFileByIdRs
| CopyFileRs (file : FileRecord)
| CopyFileByIdRs (file : FileRecord)
| RenameFileRs (file : FileRecord)
| RenameFileByIdRs (file : FileRecord)
| GetFileChangeLogsRs (logs : FileChangeLogs)
| BeginUpdateRs (lease : UpdateLease)
| CommitUpdateRs (file : FileRecord)
| AbortUpdateRs
| GrantUploadLeaseRs (lease_id : Z)
| RevokeUploadLeaseRs
| ReportBundleReplicaRs
| UpdateStorageVolumeOffsetRs
| ValidateClientAuthRs (client_id : Z).

Inductive DataRequest :=
| AuthenticateRq (client_id : Z) (client_token : string)
| HasChunkRq (volume_id : Z) (chunk_id : HashId)
| UploadChunkRq (request : UploadChunkRequest)
| DownloadChunkRq (request : DownloadChunkRequest)
| DataHasBundleRq (volume_id : Z) (bundle_id : HashId)
| CommitBundleRq (request : CommitBundleRequest)
| ListBundleChunksRq (volume_id : Z) (bundle_id : HashId).

Inductive DataResponse :=
| AuthenticateRs (client_id : Z)
| HasChunkRs (exists_ : bool) (raw_len compressed_len : option Z)
| UploadChunkRs (response : UploadChunkResponse)
| DownloadChunkRs (compressed_bytes : list Byte.byte)
| DataHasBundleRs (exists_ : bool) (raw_len compressed_len : option Z)
| CommitBundleRs (response : CommitBundleResponse)
| ListBundleChunksRs (chunks : list BundleChunkRef).

Inductive ProtocolEvent :=
| StorageChanged (peer : StoragePeerInfo)
| StorageRemoved (storage_id : Z).

Inductive CentralAdminRequest := CentralAdminStatusRq.
Record CentralAdminStatus := mkCentralAdminStatus {
  cas_clients_count : Z; cas_storages : list StoragePeerInfo }.
Inductive CentralAdminResponse := CentralAdminStatusRs (status : CentralAdminStatus).
Inductive StorageAdminRequest := StorageAdminStatusRq.
Record StorageAdminStatus := mkStorageAdminStatus {
  sas_storage_id : Z; sas_volumes : list StorageVolumeInfo; sas_connected_storages : list Z }.
Inductive StorageAdminResponse := StorageAdminStatusRs (status : StorageAdminStatus).

Inductive ProtocolRequest :=
| ReqControl (request : ControlRequest)
| ReqData (request : DataRequest)
| ReqEvent (event : ProtocolEvent)
| ReqCentralAdmin (request : CentralAdminRequest)
| ReqStorageAdmin (request : StorageAdminRequest).

Inductive ProtocolResponse :=
| RespError (err : Fs0Error)
| RespControl (response : ControlResponse)
| RespData (response : DataResponse)
| RespCentralAdmin (response : CentralAdminResponse)
| RespStorageAdmin (response : StorageAdminResponse).

(** ** BLAKE3 and zstd *)

(** the digest function of the blake3 crate; a [Hasher] fed piecewise digests
    the concatenation of the pieces *)
Class Blake3 := blake3_digest : list Byte.byte → vec Byte.byte 32.

Definition blake3_hash `{Blake3} (bytes : list Byte.byte) : HashId :=
  mkHashId (blake3_digest bytes).

Definition bundle_hash_from_chunks `{Blake3} (chunks : list BundleChunkRef) : HashId :=
  mkHashId (blake3_digest
    (concat (map (λ c, vec_to_list (hash_bytes (bc_chunk_id c))) chunks))).

(** the zstd crate's bulk functions; an error carries its text *)
Class Zstd := {
  zstd_bulk_compress : list Byte.byte → Z → Result string (list Byte.byte);
  zstd_bulk_decompress : list Byte.byte → Z → Result string (list Byte.byte) }.

Definition zstd_compress `{Zstd} (input : list Byte.byte) (level : Z)
  : Fs0Result (list Byte.byte) := map_err ZstdError (zstd_bulk_compress input level).
Definition zstd_decompress `{Zstd} (input : list Byte.byte) (max_output_size : Z)
  : Fs0Result (list Byte.byte) := map_err ZstdError (zstd_bulk_decompress input max_output_size).

(** ** Conversions: lemmas *)

Lemma u64_to_i64_Ok v name x : u64_to_i64 v name = Ok x ↔ x = v ∧ v ≤ i64_max.
Proof. unfold u64_to_i64. case_bool_decide; naive_solver. Qed.

Lemma u64_to_i64_fits v name : v ≤ i64_max → u64_to_i64 v name = Ok v.
Proof. intros. by apply u64_to_i64_Ok. Qed.

Lemma i64_to_u64_Ok v name x : i64_to_u64 v name = Ok x ↔ x = v ∧ 0 ≤ v.
Proof. unfold i64_to_u64. case_bool_decide; naive_solver. Qed.

Lemma row_u64_Ok `{SqliteText} i name v x : row_u64 i name v = Ok x ↔ x = v ∧ 0 ≤ v.
Proof. unfold row_u64. case_bool_decide; naive_solver. Qed.

Lemma row_u64_fits `{SqliteText} i name v : 0 ≤ v → row_u64 i name v = Ok v.
Proof. intros. by apply row_u64_Ok. Qed.

Lemma row_optional_u64_Ok `{SqliteText} i name v x :
  row_optional_u64 i name v = Ok x ↔ x = v ∧ ∀ y, v = Some y → 0 ≤ y.
Proof.
  destruct v as [v|]; simpl.
  - unfold row_u64, mbind, Result_bind. case_bool_decide; naive_solver.
  - naive_solver.
Qed.

#[export] Hint Resolve u64_to_i64_fits row_u64_fits : fs0.
