(* ===== verification/ErrorText.v ===== *)
(** * Hashes and errors as text

    Models the printers of [fs0-core/src/{hash,error}.rs]: [to_hex], and the messages thiserror
    derives for [Fs0Error].  [{:?}] of a string, which escapes by Unicode's tables, is a parameter. *)

From S2P Require Import Prelude Types.

(** ** HashId *)

(** [{byte:02x}] *)
Definition hex_digit (n : N) : ascii :=
  ascii_of_N (if bool_decide (n < 10)%N then 48 + n else 87 + n)%N.
Definition hex_byte (b : Byte.byte) : string :=
  String (hex_digit (Byte.to_N b / 16)) (String (hex_digit (Byte.to_N b mod 16)) EmptyString).
Fixpoint hex_bytes (bytes : list Byte.byte) : string :=
  match bytes with [] => EmptyString | b :: bytes => hex_byte b +:+ hex_bytes bytes end.
(** [HashId::to_hex] and its [Display] *)
Definition to_hex (id : HashId) : string := hex_bytes (vec_to_list (hash_bytes id)).

Lemma hex_byte_inj : Inj (=) (=) hex_byte.
Proof.
  intros a b Heq. enough (Byte.eqb a b = true) as Hab by (by apply Byte.byte_dec_bl).
  revert Heq. destruct (Byte.eqb a b) eqn:Hab; [done|]. intros Heq. exfalso.
  assert (forallb (λ n, forallb (λ m, bool_decide (n = m) ||
    negb (bool_decide ((hex_digit (n / 16), hex_digit (n mod 16)) = (hex_digit (m / 16), hex_digit (m mod 16)))))
      (map N.of_nat (seq 0 256))) (map N.of_nat (seq 0 256)) = true) as Hall by (vm_compute; reflexivity).
  rewrite forallb_forall in Hall.
  assert (∀ c, In (Byte.to_N c) (map N.of_nat (seq 0 256))) as Hin.
  { intros c. apply in_map_iff. exists (N.to_nat (Byte.to_N c)). split; [by rewrite N2Nat.id|]. apply in_seq.
    pose proof (Byte.to_N_bounded c). lia. }
  specialize (Hall _ (Hin a)). cbv beta in Hall. rewrite forallb_forall in Hall. specialize (Hall _ (Hin b)). cbv beta in Hall.
  apply orb_true_iff in Hall as [Hn%bool_decide_eq_true|Hn%negb_true_iff%bool_decide_eq_false].
  - apply (f_equal Byte.of_N) in Hn. rewrite !Byte.of_to_N in Hn. injection Hn as ->. by rewrite Byte.byte_dec_lb in Hab.
  - apply Hn. unfold hex_byte in Heq. by injection Heq as -> ->.
Qed.

Lemma hex_bytes_inj a : ∀ b, hex_bytes a = hex_bytes b → a = b.
Proof.
  induction a as [|x a IH]; intros [|y b] Heq; try done. cbn [hex_bytes] in Heq. unfold hex_byte in Heq at 1 2.
  cbn [String.append] in Heq. injection Heq as Hhigh Hlow Heq. f_equal; [|by apply IH]. apply hex_byte_inj. unfold hex_byte. by rewrite Hhigh, Hlow.
Qed.

(** two ids with one text are one *)
Lemma to_hex_inj : Inj (=) (=) to_hex.
Proof. intros [a] [b] Heq%hex_bytes_inj. f_equal. by apply vec_to_list_inj2. Qed.

Lemma to_hex_length id : String.length (to_hex id) = 64%nat.
Proof.
  unfold to_hex. assert (∀ l, String.length (hex_bytes l) = (2 * length l)%nat) as Hlen by (induction l as [|b l IH]; [done|]; change (String.length (hex_bytes (b :: l))) with (S (S (String.length (hex_bytes l)))); simpl length; lia).
  by rewrite Hlen, length_vec_to_list.
Qed.

(** ** Fs0Error *)

(** [{:?}] of a [String] *)
Class DebugString := debug_string : string → string.
Definition debug_option {A} (debug : A → string) (x : option A) : string :=
  match x with Some x => "Some(" +:+ debug x +:+ ")" | None => "None" end.

(** the [Display] of an error *)
Definition error_text `{DebugString} (e : Fs0Error) : string :=
  match e with
  | InvalidFrame message => "invalid frame: " +:+ message
  | FrameTooLarge actual max => "frame length " +:+ pretty actual +:+ " exceeds maximum " +:+ pretty max
  | Io message => "io error: " +:+ message
  | Postcard message => "postcard error: " +:+ message
  | ZstdError message => "zstd error: " +:+ message
  | Sqlite message => "sqlite error: " +:+ message
  | InvalidConfig message => "invalid config: " +:+ message
  | InvalidData message => "invalid data: " +:+ message
  | InvalidPath path => "invalid path: " +:+ path
  | IntegerConversion message => "integer conversion failed: " +:+ message
  | AlreadyExists path => "path already exists: " +:+ path
  | VolumeNotFound path => "volume does not exist: " +:+ path
  | NoAvailableVolume prefer_volume_name update_size_hint =>
      "no available volume for update: preferred " +:+ debug_option debug_string prefer_volume_name
      +:+ ", size hint " +:+ debug_option pretty update_size_hint
  | ChunkNotFound chunk_id => "chunk " +:+ to_hex chunk_id +:+ " was not found"
  | BundleNotFound bundle_id => "bundle " +:+ to_hex bundle_id +:+ " was not found"
  | CapacityExceeded required_end max_bytes =>
      "volume capacity exceeded: required end " +:+ pretty required_end +:+ ", max " +:+ pretty max_bytes
  | HashMismatch volume_offset => "hash mismatch at volume offset " +:+ pretty volume_offset
  | Unsupported => "unsupported"
  | NotFound => "not found"
  | VolumeAlreadyMounted => "volume already mounted"
  | VersionConflict message => "version conflict: " +:+ message
  | ChunkNotReady => "chunk not ready"
  | InvalidRequest => "invalid request"
  | Unauthorized => "unauthorized"
  | UnknownVolume => "unknown volume"
  | CentralUnavailable => "central connection is unavailable"
  | Internal message => "internal: " +:+ message
  | Fs0Version required actual =>
      "fs0 version mismatch: required " +:+ required +:+ ", actual " +:+ actual +:+ "; update fs0 client and storage binaries"
  end.
