(* ===== verification/Paths.v ===== *)
(** * fs0 paths

    Models the path functions of [fs0-core/src/utils.rs].  A remote path is
    [/] or a sequence of [/component]s, no component being empty, [.] or [..]
    or holding a slash.  [render] prints a list of components; the theorems
    show that the two parsers accept exactly the printed paths. *)

From S2P Require Import Prelude Types.

Definition slash : ascii := "/"%char.

#[global] Arguments String.append : simpl nomatch.

(** ** The [str] methods of the standard library the source uses *)

(** [s.starts_with(c)] *)
Definition starts_with_char (c : ascii) (s : string) : bool :=
  match s with String a _ => bool_decide (a = c) | EmptyString => false end.

(** [s.ends_with(c)] *)
Fixpoint ends_with_char (c : ascii) (s : string) : bool :=
  match s with
  | EmptyString => false
  | String a EmptyString => bool_decide (a = c)
  | String _ s' => ends_with_char c s'
  end.

(** [s.contains(c)] *)
Fixpoint contains_char (c : ascii) (s : string) : bool :=
  match s with
  | EmptyString => false
  | String a s' => bool_decide (a = c) || contains_char c s'
  end.

(** [s.contains(cc)] for a doubled character *)
Fixpoint contains_double (c : ascii) (s : string) : bool :=
  match s with
  | String a s' => (bool_decide (a = c) && starts_with_char c s') || contains_double c s'
  | EmptyString => false
  end.

(** [s.split(c)] *)
Fixpoint split_char (c : ascii) (s : string) : list string :=
  match s with
  | EmptyString => [EmptyString]
  | String a s' =>
      if decide (a = c) then EmptyString :: split_char c s'
      else match split_char c s' with
           | [] => [String a EmptyString]
           | w :: ws => String a w :: ws
           end
  end.

(** [s.rsplit_once(c)] *)
Fixpoint rsplit_once (c : ascii) (s : string) : option (string * string) :=
  match s with
  | EmptyString => None
  | String a s' =>
      match rsplit_once c s' with
      | Some (p, n) => Some (String a p, n)
      | None => if decide (a = c) then Some (EmptyString, s') else None
      end
  end.

(** [&s[1..]] on a string that starts with an ASCII character *)
Definition str_tail (s : string) : string :=
  match s with String _ s' => s' | EmptyString => EmptyString end.

(** ** The source's functions *)

Definition is_dot (s : string) : bool := bool_decide (s = ".") || bool_decide (s = "..").

Definition split_fs0_path_dir_and_name (path : string) : Fs0Result (string * string) :=
  if negb (starts_with_char slash path) || ends_with_char slash path
     || contains_double slash path
  then Err (InvalidPath path)
  else
    '(parent, name) ← ok_or (InvalidPath path) (rsplit_once slash path);
    if bool_decide (name = "") || is_dot name || contains_char slash name
    then Err (InvalidPath path)
    else if existsb is_dot (split_char slash parent)
    then Err (InvalidPath path)
    else
      let parent := if bool_decide (parent = "") then "/" else parent in
      Ok (parent, name).

Definition join_fs0_path (dir name : string) : Fs0Result string :=
  if bool_decide (dir = "/") then Ok ("/" +:+ name)
  else Ok (dir +:+ "/" +:+ name).

Definition split_fs0_path_components (path : string) : Fs0Result (list string) :=
  if negb (starts_with_char slash path) then Err (InvalidPath path)
  else if bool_decide (path = "/") then Ok []
  else
    let components := split_char slash (str_tail path) in
    if existsb (λ c, bool_decide (c = "") || is_dot c) components
    then Err (InvalidPath path)
    else Ok components.

(** ** Specification: the paths of a component list *)

Definition valid_component (c : string) : bool :=
  negb (bool_decide (c = "")) && negb (is_dot c) && negb (contains_char slash c).

(** [/c1/c2/...], without the special case of the root *)
Fixpoint render_rel (cs : list string) : string :=
  match cs with
  | [] => ""
  | c :: cs' => "/" +:+ c +:+ render_rel cs'
  end.

Definition render (cs : list string) : string :=
  match cs with [] => "/" | _ => render_rel cs end.

(** ** Lemmas *)

Lemma append_assoc (a b c : string) : (a +:+ b) +:+ c = a +:+ (b +:+ c).
Proof. induction a; simpl; [done|]. by f_equal. Qed.

Lemma append_nil_r (a : string) : a +:+ "" = a.
Proof. induction a; simpl; [done|]. by f_equal. Qed.

Lemma contains_char_app c a b : contains_char c (a +:+ b) = contains_char c a || contains_char c b.
Proof. induction a as [|x a IH]; simpl; [done|]. by rewrite IH, orb_assoc. Qed.

Lemma render_rel_app cs ds : render_rel (cs ++ ds) = render_rel cs +:+ render_rel ds.
Proof.
  induction cs as [|c cs IH]; simpl; [done|]. by rewrite IH, append_assoc.
Qed.

Lemma render_rel_snoc cs c : render_rel (cs ++ [c]) = render_rel cs +:+ "/" +:+ c.
Proof. rewrite render_rel_app. simpl. by rewrite append_nil_r. Qed.

Lemma render_rel_render cs : cs ≠ [] → render cs = render_rel cs.
Proof. by destruct cs. Qed.

Lemma split_char_nonempty c s : split_char c s ≠ [].
Proof. destruct s; simpl; [done|]. repeat case_decide; [done|]. by destruct split_char. Qed.

(** Splitting never yields a piece with the separator in it, and joining the
    pieces back gives the string. *)
Lemma split_char_render s :
  render_rel (split_char slash s) = String slash s.
Proof.
  induction s as [|a s IH]; simpl; [done|]. case_decide as Ha.
  - subst a. simpl. by rewrite IH.
  - destruct (split_char slash s) as [|w ws]; simpl in *; [done|]. by injection IH as ->.
Qed.

Lemma split_char_pieces s :
  Forall (λ w, contains_char slash w = false) (split_char slash s).
Proof.
  induction s as [|a s IH]; simpl; [by repeat constructor|]. case_decide as Ha.
  - by constructor.
  - destruct (split_char slash s) as [|w ws]; simpl.
    + constructor; [|done]. simpl. by rewrite bool_decide_false.
    + inversion_clear IH. constructor; [|done]. simpl. by rewrite bool_decide_false.
Qed.

Lemma split_char_word w : contains_char slash w = false → split_char slash w = [w].
Proof.
  induction w as [|a w IH]; simpl; [done|]. intros [Ha Hw]%orb_false_elim.
  apply bool_decide_eq_false in Ha. rewrite decide_False by done. by rewrite IH.
Qed.

Lemma split_char_app w s :
  contains_char slash w = false →
  split_char slash (w +:+ String slash s) = w :: split_char slash s.
Proof.
  induction w as [|a w IH]; simpl; [done|].
  intros [Ha Hw]%orb_false_elim. apply bool_decide_eq_false in Ha.
  rewrite decide_False by done. by rewrite IH.
Qed.

Lemma valid_component_no_slash c : valid_component c = true → contains_char slash c = false.
Proof. unfold valid_component. rewrite !andb_true_iff, !negb_true_iff. naive_solver. Qed.

Lemma split_render cs c :
  Forall (λ w, contains_char slash w = false) (c :: cs) →
  split_char slash (c +:+ render_rel cs) = c :: cs.
Proof.
  revert c. induction cs as [|d cs IH]; intros c [Hc Hcs]%Forall_cons; simpl.
  - rewrite append_nil_r. by apply split_char_word.
  - rewrite split_char_app by done. f_equal. apply IH. done.
Qed.

Lemma ends_with_char_no c s : contains_char c s = false → ends_with_char c s = false.
Proof.
  induction s as [|a s IH]; simpl; [done|]. intros [Ha Hs]%orb_false_elim.
  destruct s; [done|]. by apply IH.
Qed.

Lemma ends_with_char_app c a b : b ≠ "" → ends_with_char c (a +:+ b) = ends_with_char c b.
Proof.
  intros Hb. induction a as [|x a IH]; simpl; [done|]. rewrite <- IH.
  destruct a, b; simpl; done.
Qed.

Lemma starts_with_char_no c s : contains_char c s = false → starts_with_char c s = false.
Proof. destruct s; simpl; [done|]. by intros [? ?]%orb_false_elim. Qed.

Lemma contains_double_app_no c w r :
  contains_char c w = false → contains_double c (w +:+ r) = contains_double c r.
Proof.
  induction w as [|a w IH]; simpl; [done|]. intros [Ha Hw]%orb_false_elim.
  rewrite Ha. simpl. by apply IH.
Qed.

Lemma contains_double_render ws n :
  Forall (λ w, contains_char slash w = false) (ws ++ [n]) →
  contains_double slash (render_rel (ws ++ [n])) = existsb (λ w, bool_decide (w = "")) ws.
Proof.
  induction ws as [|w ws IH]; simpl; intros [Hw Hws]%Forall_cons.
  - rewrite append_nil_r. rewrite starts_with_char_no by done. simpl.
    rewrite <- (append_nil_r n). by rewrite contains_double_app_no.
  - rewrite contains_double_app_no by done. rewrite IH by done. f_equal.
    destruct w as [|a w]; simpl; [by destruct ws|].
    simpl in Hw. apply orb_false_elim in Hw as [Ha _]. by rewrite Ha.
Qed.

Lemma rsplit_once_None c s : rsplit_once c s = None ↔ contains_char c s = false.
Proof.
  induction s as [|a s IH]; simpl; [done|].
  destruct (rsplit_once c s) as [[p n]|].
  - rewrite orb_false_iff. naive_solver.
  - case_decide as Ha; [subst; by rewrite bool_decide_true|].
    rewrite bool_decide_false by done. naive_solver.
Qed.

Lemma rsplit_once_app p n :
  contains_char slash n = false → rsplit_once slash (p +:+ "/" +:+ n) = Some (p, n).
Proof.
  intros Hn. apply rsplit_once_None in Hn. induction p as [|a p IH]; simpl.
  - by rewrite Hn.
  - simpl in IH. by rewrite IH.
Qed.

Lemma rsplit_once_sound s p n :
  rsplit_once slash s = Some (p, n) → s = p +:+ "/" +:+ n ∧ contains_char slash n = false.
Proof.
  revert p n. induction s as [|a s IH]; intros p n; simpl; [done|].
  destruct (rsplit_once slash s) as [[p' n']|] eqn:Hs.
  - intros [= <- <-]. by destruct (IH p' n' eq_refl) as [-> ?].
  - case_decide as Ha; [|done]. intros [= <- <-]. subst a. split; [done|].
    by apply (rsplit_once_None slash).
Qed.

Lemma rsplit_once_Some s p n :
  rsplit_once slash s = Some (p, n) ↔ s = p +:+ "/" +:+ n ∧ contains_char slash n = false.
Proof. split; [apply rsplit_once_sound|]. intros [-> ?]. by apply rsplit_once_app. Qed.

Lemma Forall_valid_no_slash cs :
  Forall (λ c, valid_component c = true) cs → Forall (λ w, contains_char slash w = false) cs.
Proof. intros H. eapply Forall_impl; [exact H|]. apply valid_component_no_slash. Qed.

Lemma valid_component_alt c :
  valid_component c = true ↔
  c ≠ "" ∧ is_dot c = false ∧ contains_char slash c = false.
Proof.
  unfold valid_component. rewrite !andb_true_iff, !negb_true_iff, bool_decide_eq_false. naive_solver.
Qed.

Lemma existsb_false {A} (p : A → bool) l : existsb p l = false ↔ Forall (λ x, p x = false) l.
Proof.
  induction l as [|x l IH]; simpl; [by split|].
  rewrite orb_false_iff, IH, Forall_cons. done.
Qed.

(** The specification of the component parser: it accepts exactly the printed
    lists of valid components. *)
Lemma split_components_render p cs :
  split_fs0_path_components p = Ok cs ↔
  p = render cs ∧ Forall (λ c, valid_component c = true) cs.
Proof.
  unfold split_fs0_path_components. split.
  - destruct p as [|a p]; [done|]. simpl. case_bool_decide as Ha; [|done]. subst a. simpl.
    case_bool_decide as Hroot; [intros [= <-]; by rewrite Hroot|].
    destruct (existsb _ _) eqn:Hex; [done|]. intros [= <-].
    split.
    + rewrite render_rel_render by apply split_char_nonempty. by rewrite split_char_render.
    + apply existsb_false in Hex. pose proof (split_char_pieces p) as Hp.
      rewrite Forall_forall in Hex, Hp |- *. intros w Hw. apply valid_component_alt.
      specialize (Hex w Hw). apply orb_false_elim in Hex as [?%bool_decide_eq_false ?]. auto.
  - intros [-> Hv]. destruct cs as [|c cs]; [done|].
    pose proof (Forall_valid_no_slash _ Hv) as Hns. simpl.
    rewrite bool_decide_false.
    2:{ intros [= Heq]. apply Forall_cons in Hv as [[Hc _]%valid_component_alt _]. by destruct c. }
    rewrite split_render by done.
    replace (existsb _ (c :: cs)) with false; [done|]. symmetry. apply existsb_false.
    eapply Forall_impl; [exact Hv|]. intros w (? & ? & _)%valid_component_alt. simpl.
    by rewrite bool_decide_false.
Qed.

Lemma split_dir_and_name_inv p d n :
  split_fs0_path_dir_and_name p = Ok (d, n) →
  ∃ cs, p = render (cs ++ [n]) ∧ d = render cs ∧ Forall (λ c, valid_component c = true) (cs ++ [n]).
Proof.
  unfold split_fs0_path_dir_and_name.
  destruct (negb _ || _ || _) eqn:Hshape; [done|].
  apply orb_false_elim in Hshape as [[Hst He]%orb_false_elim Hdbl].
  apply negb_false_iff in Hst. intros ([parent name] & Hrs%ok_or_Ok & H)%Result_bind_Ok.
  apply rsplit_once_Some in Hrs as [-> Hns].
  destruct (_ || _ || _) eqn:Hname; [done|].
  apply orb_false_elim in Hname as [[Hne%bool_decide_eq_false Hdot]%orb_false_elim _].
  destruct (existsb _ _) eqn:Hpd; [done|]. apply existsb_false in Hpd.
  assert (valid_component name = true) as Hvn by (by apply valid_component_alt).
  case_bool_decide as Hpar; simplify_eq H.
  - intros <- <-. exists []. rewrite Hpar. simpl. rewrite append_nil_r.
    split_and!; [done|done|by constructor].
  - intros <- <-. destruct parent as [|a rest]; [done|]. simpl in Hst.
    apply bool_decide_eq_true in Hst. subst a. exists (split_char slash rest).
    pose proof (split_char_nonempty slash rest) as Hne'.
    rewrite !render_rel_render by (by destruct (split_char slash rest)).
    rewrite render_rel_snoc, split_char_render. split_and!; [done|done|].
    simpl in Hpd. apply Forall_cons in Hpd as [_ Hpd].
    pose proof (split_char_pieces rest) as Hpieces.
    rewrite <- split_char_render, <- render_rel_snoc in Hdbl.
    rewrite contains_double_render in Hdbl by (apply Forall_app; split; [done|by constructor]).
    apply existsb_false in Hdbl. apply Forall_app. split; [|by constructor].
    rewrite Forall_forall in Hpd, Hpieces, Hdbl |- *. intros w Hw.
    apply valid_component_alt. split_and!; [|auto..].
    by eapply bool_decide_eq_false, Hdbl.
Qed.

Lemma split_dir_and_name_of_render cs n :
  Forall (λ c, valid_component c = true) (cs ++ [n]) →
  split_fs0_path_dir_and_name (render (cs ++ [n])) = Ok (render cs, n).
Proof.
  unfold split_fs0_path_dir_and_name.
  intros Hv. pose proof (Forall_valid_no_slash _ Hv) as Hns.
  pose proof Hv as [Hcs [Hn _]%Forall_cons]%Forall_app.
  apply valid_component_alt in Hn as (Hn & Hdot & Hnsn).
  rewrite render_rel_render by (by destruct cs).
  replace (contains_double _ _) with false.
  2:{ symmetry. rewrite contains_double_render by done. apply existsb_false.
      eapply Forall_impl; [exact Hcs|]. intros w (? & _)%valid_component_alt.
      by apply bool_decide_eq_false. }
  rewrite render_rel_snoc.
  replace (ends_with_char _ _) with false.
  2:{ symmetry. rewrite ends_with_char_app by done.
      rewrite (ends_with_char_app _ "/" n) by done. by apply ends_with_char_no. }
  replace (starts_with_char _ _) with true by (by destruct cs).
  simpl. rewrite (proj2 (rsplit_once_Some _ (render_rel cs) n)) by done. simpl.
  unfold mbind, Result_bind. simpl.
  rewrite bool_decide_false, Hdot, Hnsn by done. simpl.
  assert (existsb is_dot (split_char slash (render_rel cs)) = false) as ->.
  { destruct cs as [|c cs]; [done|]. simpl. apply Forall_app in Hns as [Hns _].
    rewrite split_render by done. apply existsb_false.
    eapply Forall_impl; [exact Hcs|]. by intros w (? & ? & _)%valid_component_alt. }
  by destruct cs.
Qed.

(** The specification of the dir-and-name parser. *)
Lemma split_dir_and_name_render p d n :
  split_fs0_path_dir_and_name p = Ok (d, n) ↔
  ∃ cs, p = render (cs ++ [n]) ∧ d = render cs ∧
        Forall (λ c, valid_component c = true) (cs ++ [n]).
Proof. split; [apply split_dir_and_name_inv|]. intros (cs & -> & -> & Hv). by apply split_dir_and_name_of_render. Qed.

Lemma join_render cs n : join_fs0_path (render cs) n = Ok (render (cs ++ [n])) ∨ In "" cs.
Proof.
  destruct cs as [|c cs]; [left; simpl; by rewrite append_nil_r|].
  destruct c as [|a c]; [right; by left|]. left. unfold join_fs0_path.
  rewrite bool_decide_false by done.
  by rewrite (render_rel_render ((String a c :: cs) ++ [n])), render_rel_snoc by done.
Qed.

Lemma join_render_valid cs n :
  Forall (λ c, valid_component c = true) cs →
  join_fs0_path (render cs) n = Ok (render (cs ++ [n])).
Proof.
  intros Hv. destruct (join_render cs n) as [|Hin]; [done|]. exfalso.
  rewrite <- list_elem_of_In in Hin. rewrite Forall_forall in Hv. by specialize (Hv _ Hin).
Qed.

(** [format!(prefix names.join(slash))] *)
Lemma render_concat cs : "/" +:+ String.concat "/" cs = render cs.
Proof.
  destruct cs as [|c cs]; [done|]. unfold render. revert c. induction cs as [|d cs IH]; intros c.
  - simpl. by rewrite append_nil_r.
  - specialize (IH d). cbn [String.concat render_rel] in IH |- *. by rewrite <- IH.
Qed.

Lemma render_inj cs ds :
  Forall (λ c, valid_component c = true) cs → Forall (λ c, valid_component c = true) ds →
  render cs = render ds → cs = ds.
Proof.
  intros Hc Hd Heq.
  assert (split_fs0_path_components (render cs) = Ok cs) by (by apply split_components_render).
  assert (split_fs0_path_components (render ds) = Ok ds) by (by apply split_components_render).
  congruence.
Qed.

(** ** Properties *)

(** The two path parsers accept exactly the printed lists of valid
    components, return those components (or the printed parent and the last
    component), and reject every other string as [InvalidPath] of that string. *)
Theorem path_parsers_spec p :
  (∀ cs, split_fs0_path_components p = Ok cs ↔
     p = render cs ∧ Forall (λ c, valid_component c = true) cs) ∧
  (∀ d n, split_fs0_path_dir_and_name p = Ok (d, n) ↔
     ∃ cs, p = render (cs ++ [n]) ∧ d = render cs ∧
           Forall (λ c, valid_component c = true) (cs ++ [n])) ∧
  (∀ e, split_fs0_path_components p = Err e → e = InvalidPath p) ∧
  (∀ e, split_fs0_path_dir_and_name p = Err e → e = InvalidPath p).
Proof.
  split; [intros; apply split_components_render|].
  split; [intros; apply split_dir_and_name_render|]. split; intros e.
  - unfold split_fs0_path_components. repeat case_match; naive_solver.
  - unfold split_fs0_path_dir_and_name. case_match; [naive_solver|].
    destruct (rsplit_once slash p) as [[parent name]|]; unfold mbind, Result_bind; simpl;
      repeat case_match; naive_solver.
Qed.

(** Splitting a path into directory and name and joining them again gives the
    path back; the components of the path are those of the directory followed by
    the name. *)
Theorem path_split_join_roundtrip p d n :
  split_fs0_path_dir_and_name p = Ok (d, n) →
  join_fs0_path d n = Ok p ∧
  ∃ cs, split_fs0_path_components d = Ok cs ∧ split_fs0_path_components p = Ok (cs ++ [n]).
Proof.
  intros (cs & -> & -> & Hv)%split_dir_and_name_render.
  pose proof Hv as [Hcs _]%Forall_app. split; [by apply join_render_valid|].
  exists cs. by rewrite !split_components_render.
Qed.

Lemma path_split_join_roundtrip_witness :
  split_fs0_path_dir_and_name "/docs/a.txt" = Ok ("/docs", "a.txt") ∧
  join_fs0_path "/docs" "a.txt" = Ok "/docs/a.txt".
Proof.
  assert (split_fs0_path_dir_and_name "/docs/a.txt" = Ok ("/docs", "a.txt")) as H
    by (vm_compute; reflexivity).
  split; [exact H|]. exact (proj1 (path_split_join_roundtrip _ _ _ H)).
Defined.

Lemma path_parsers_spec_witness :
  split_fs0_path_components "/docs/a.txt" = Ok ["docs"; "a.txt"].
Proof.
  apply (path_parsers_spec "/docs/a.txt"). split; [reflexivity|]. repeat constructor.
Defined.
