(* ===== verification/Link.v ===== *)
(** * The transport as its users see it

    A connection is a handle, an [rpc] on it a question to the environment that ends with a
    response or an error.  [fs0-transport] makes the handles; the servers and the client
    only compare, keep and use them. *)

From S2P Require Import Prelude Types.

(** the [fs0_transport::Connection] of a peer *)
Record Connection := mkConnection { conn_id : Z }.
#[export] Instance Connection_eq_dec : EqDecision Connection.
Proof. solve_decision. Defined.

(** [{response:?}] *)
Class DebugResponse := debug_response : ProtocolResponse → string.
