(* ===== verification/Transport.v ===== *)
(** * The transport: connecting and frames

    Models the retries of [Transport::connect] ([fs0-transport/src/transport.rs]) and the framing of
    [fs0-transport/src/connection.rs]: [write_frame] and [read_frame], the serving of a request on a
    bidirectional stream and of the events of a unidirectional one by [accept_loop], and both ends
    of an [rpc].  A stream is the bytes that arrive on it before its end; iroh's connections, the
    timeouts and the tasks are the environment. *)

From S2P Require Import Prelude Types Link.

(** ** Connecting *)

(** a [Duration], in nanoseconds *)
Definition duration_max : Z := u64_max * 1000000000 + 999999999.
Definition duration_checked_mul (d factor : Z) : option Z := if bool_decide (d * factor ≤ duration_max) then Some (d * factor) else None.

Record ConnectRetry := mkConnectRetry { ctr_max_attempts : nat; ctr_initial_delay : Z; ctr_max_delay : Z }.
Definition ConnectRetry_disabled : ConnectRetry := mkConnectRetry 1 0 0.
Definition ConnectRetry_new (max_attempts : nat) (initial_delay max_delay : Z) : ConnectRetry :=
  mkConnectRetry (Nat.max max_attempts 1) initial_delay (Z.max max_delay initial_delay).

Definition delay_after_attempt (retry : ConnectRetry) (attempt : nat) : Z :=
  let exponent := Z.min (Z.of_nat (attempt - 1)) 31 in
  let factor := Z.shiftl 1 exponent in  (* [checked_shl] of a [u32] by less than 32 *)
  Z.min (default (ctr_max_delay retry) (duration_checked_mul (ctr_initial_delay retry) factor)) (ctr_max_delay retry).

(** the loop from [attempt] on, [tries] attempts left; [outcome] is what each attempt comes to (a
    timeout is an [Internal] error); the result and how long it slept *)
Fixpoint connect_from (outcome : nat → Fs0Result Connection) (retry : ConnectRetry) (tries attempt : nat)
  : Fs0Result Connection * list Z :=
  match tries with
  | O => (Err (Internal "transport connect had no attempts"), [])
  | S tries =>
      match outcome attempt with
      | Ok connection => (Ok connection, [])
      | Err err =>
          if bool_decide (attempt = ctr_max_attempts retry) then (Err err, [])
          else
            let '(result, delays) := connect_from outcome retry tries (S attempt) in
            (result, delay_after_attempt retry attempt :: delays)
      end
  end.
Definition connect (outcome : nat → Fs0Result Connection) (retry : ConnectRetry) : Fs0Result Connection * list Z :=
  connect_from outcome retry (ctr_max_attempts retry) 1.

(** ** Frames *)

(** postcard's [to_allocvec] and [from_bytes]; an error carries its text *)
Class PostcardCodec (T : Type) := {
  to_allocvec : T → Result string (list Byte.byte);
  from_bytes : list Byte.byte → Result string T }.
(** what it serialised it reads back *)
Class PostcardLaws (T : Type) `{PostcardCodec T} :=
  from_to_bytes : ∀ (value : T) body, to_allocvec value = Ok body → from_bytes body = Ok value.

(** [to_le_bytes] and [from_le_bytes] of a [u32] *)
Definition byte_of (x : Z) : Byte.byte := default Byte.x00 (Byte.of_N (Z.to_N (x mod 256))).
Definition le_bytes (x : Z) : list Byte.byte :=
  [byte_of x; byte_of (Z.shiftr x 8); byte_of (Z.shiftr x 16); byte_of (Z.shiftr x 24)].
Fixpoint from_le_bytes (bytes : list Byte.byte) : Z :=
  match bytes with [] => 0 | b :: bytes => Z.of_N (Byte.to_N b) + 256 * from_le_bytes bytes end.

(** the text of an [UnexpectedEof] *)
Definition early_eof : string := "early eof".

(** [read_exact]: the bytes and what is left of the stream *)
Definition read_exact (len : Z) (stream : list Byte.byte) : Fs0Result (list Byte.byte * list Byte.byte) :=
  if bool_decide (len ≤ Z.of_nat (length stream))
  then Ok (take (Z.to_nat len) stream, drop (Z.to_nat len) stream) else Err (Io early_eof).

Section Frames.
Context {T : Type} `{PostcardCodec T}.

Definition read_frame (stream : list Byte.byte) : Fs0Result (T * list Byte.byte) :=
  '(len, stream) ← read_exact (Z.of_nat TRANSPORT_FRAME_LEN_BYTES) stream;
  let body_len := from_le_bytes len in
  if bool_decide (TRANSPORT_MAX_FRAME_BODY_LEN < body_len)
  then Err (FrameTooLarge body_len TRANSPORT_MAX_FRAME_BODY_LEN)
  else
    '(body, stream) ← read_exact body_len stream;
    value ← map_err Postcard (from_bytes body);
    Ok (value, stream).

(** the bytes it writes *)
Definition write_frame (value : T) : Fs0Result (list Byte.byte) :=
  body ← map_err Postcard (to_allocvec value);
  if bool_decide (TRANSPORT_MAX_FRAME_BODY_LEN < Z.of_nat (length body))
  then Err (FrameTooLarge (Z.of_nat (length body)) TRANSPORT_MAX_FRAME_BODY_LEN)
  else Ok (le_bytes (Z.of_nat (length body) mod 2 ^ 32) ++ body).
End Frames.

Section Streams.
Context `{!PostcardCodec ProtocolRequest, !PostcardCodec ProtocolResponse, !PostcardCodec ProtocolEvent}.

(** the task of an accepted bidirectional stream: what it sends back, [[]] when the response could not be written *)
Definition serve_stream (handler : ProtocolRequest → Fs0Result (option ProtocolResponse)) (stream : list Byte.byte) : list Byte.byte :=
  let response :=
    match read_frame (T := ProtocolRequest) stream with
    | Ok (request, _) =>
        match handler request with
        | Ok (Some response) => response
        | Ok None => RespError InvalidRequest
        | Err err => RespError err
        end
    | Err err => RespError err
    end in
  match write_frame response with Ok bytes => bytes | Err _ => [] end.

(** the task of an accepted unidirectional stream: the events it hands to the handler; [fuel] frames *)
Fixpoint serve_events (fuel : nat) (stream : list Byte.byte) : list ProtocolEvent :=
  match fuel with
  | O => []
  | S fuel =>
      match read_frame (T := ProtocolEvent) stream with
      | Ok (event, stream) => event :: serve_events fuel stream
      | Err _ => []
      end
  end.

(** [rpc], within its timeout, to a peer that answers with [answer] *)
Definition rpc (answer : list Byte.byte → list Byte.byte) (request : ProtocolRequest) : Fs0Result ProtocolResponse :=
  bytes ← write_frame request;
  '(response, _) ← read_frame (T := ProtocolResponse) (answer bytes);
  Ok response.

(** [send_event]: the bytes of a stream of one event *)
Definition send_event (event : ProtocolEvent) : Fs0Result (list Byte.byte) := write_frame event.
End Streams.

(** ** The retries *)

Lemma delay_bounds retry attempt : 0 ≤ ctr_initial_delay retry ≤ ctr_max_delay retry →
  ctr_initial_delay retry ≤ delay_after_attempt retry attempt ≤ ctr_max_delay retry.
Proof.
  intros Hinit. unfold delay_after_attempt, duration_checked_mul. rewrite Z.shiftl_1_l.
  set (factor := 2 ^ Z.min (Z.of_nat (attempt - 1)) 31). assert (0 < factor) by (apply Z.pow_pos_nonneg; lia).
  assert (ctr_initial_delay retry ≤ ctr_initial_delay retry * factor) by nia. case_bool_decide; simpl; lia.
Qed.

Lemma delay_mono retry attempt : 0 ≤ ctr_initial_delay retry → ctr_max_delay retry ≤ duration_max →
  delay_after_attempt retry attempt ≤ delay_after_attempt retry (S attempt).
Proof.
  intros Hinit Hmax. unfold delay_after_attempt, duration_checked_mul. rewrite !Z.shiftl_1_l.
  set (factor := 2 ^ Z.min (Z.of_nat (attempt - 1)) 31). set (factor' := 2 ^ Z.min (Z.of_nat (S attempt - 1)) 31).
  assert (factor ≤ factor') by (apply Z.pow_le_mono_r; lia).
  assert (0 < factor) by (apply Z.pow_pos_nonneg; lia).
  assert (ctr_initial_delay retry * factor ≤ ctr_initial_delay retry * factor') by nia. repeat case_bool_decide; simpl; lia.
Qed.

Lemma connect_from_spec outcome retry : ∀ tries attempt, (1 ≤ tries)%nat → (attempt + tries = S (ctr_max_attempts retry))%nat →
  ∃ k, (k < tries)%nat ∧ connect_from outcome retry tries attempt = (outcome (attempt + k)%nat, map (delay_after_attempt retry) (seq attempt k)) ∧
    (∀ i, (i < k)%nat → is_ok (outcome (attempt + i)%nat) = false) ∧
    (is_ok (outcome (attempt + k)%nat) = true ∨ (attempt + k)%nat = ctr_max_attempts retry).
Proof.
  induction tries as [|tries IH]; intros attempt Htries Hsum; [lia|]. cbn [connect_from].
  destruct (outcome attempt) as [c|err] eqn:Ho.
  - exists 0%nat. rewrite Nat.add_0_r, Ho. split; [lia|]. split; [done|]. split; [lia|by left].
  - case_bool_decide as Hlast.
    + exists 0%nat. rewrite Nat.add_0_r, Ho. split; [lia|]. split; [done|]. split; [lia|by right].
    + destruct (IH (S attempt)) as (k & Hk & -> & Hfail & Hend); [lia..|]. exists (S k).
      rewrite Nat.add_succ_r. split; [lia|]. split; [done|]. split; [|done].
      intros [|i] Hi; [by rewrite Nat.add_0_r, Ho|]. rewrite Nat.add_succ_r. apply (Hfail i). lia.
Qed.

(** Connecting makes a bounded number of attempts with growing, bounded pauses.  It stops at the first attempt that
    succeeds, or with the error of the last of [max_attempts] attempts (at least one); it sleeps after each attempt but the last,
    never less than the time before, at least the initial delay and at most the maximal one. *)
Theorem connect_bounded (outcome : nat → Fs0Result Connection) max_attempts initial_delay max_delay :
  0 ≤ initial_delay ≤ duration_max → 0 ≤ max_delay ≤ duration_max →
  let retry := ConnectRetry_new max_attempts initial_delay max_delay in
  ∃ k, (k < Nat.max max_attempts 1)%nat ∧ (connect outcome retry).1 = outcome (S k) ∧
    (∀ i, (1 ≤ i ≤ k)%nat → is_ok (outcome i) = false) ∧
    (is_ok (outcome (S k)) = true ∨ S k = Nat.max max_attempts 1) ∧
    length (connect outcome retry).2 = k ∧
    Forall (λ d, initial_delay ≤ d ≤ Z.max max_delay initial_delay) (connect outcome retry).2 ∧
    ∀ i d d', (connect outcome retry).2 !! i = Some d → (connect outcome retry).2 !! S i = Some d' → d ≤ d'.
Proof.
  intros Hinit Hmax retry. destruct (connect_from_spec outcome retry (ctr_max_attempts retry) 1) as (k & Hk & Heq & Hfail & Hend); [simpl; lia|done|].
  unfold connect. rewrite Heq. cbn [fst snd]. exists k. split; [exact Hk|]. split; [done|]. split; [|split; [exact Hend|split; [|split]]].
  - intros i Hi. replace i with (1 + (i - 1))%nat by lia. apply Hfail. lia.
  - by rewrite length_map, length_seq.
  - apply Forall_map, Forall_forall. intros i _. apply (delay_bounds retry i). simpl. lia.
  - intros i d d' Hi Hi'. rewrite list_lookup_fmap in Hi, Hi'. apply fmap_Some in Hi as (a & Ha & ->). apply fmap_Some in Hi' as (a' & Ha' & ->).
    apply lookup_seq in Ha as [-> _]. apply lookup_seq in Ha' as [-> _]. rewrite Nat.add_succ_r. apply delay_mono; simpl; lia.
Qed.

Lemma connect_bounded_witness :
  connect (λ attempt, if bool_decide (attempt = 4)%nat then Ok (mkConnection 1) else Err NotFound) (ConnectRetry_new 5 100 300) =
    (Ok (mkConnection 1), [100; 200; 300]) ∧
  Forall (λ d, 100 ≤ d ≤ 300)
    (connect (λ attempt, if bool_decide (attempt = 4)%nat then Ok (mkConnection 1) else Err NotFound) (ConnectRetry_new 5 100 300)).2.
Proof.
  split; [vm_compute; reflexivity|].
  destruct (connect_bounded (λ attempt, if bool_decide (attempt = 4)%nat then Ok (mkConnection 1) else Err NotFound) 5 100 300)
    as (k & _ & _ & _ & _ & _ & Hall & _); [vm_compute; split; discriminate..|exact Hall].
Defined.

(** ** The length of a frame *)

Lemma byte_of_to_N x : Z.of_N (Byte.to_N (byte_of x)) = x mod 256.
Proof.
  unfold byte_of. assert (0 ≤ x mod 256 < 256) as Hb by (apply Z.mod_pos_bound; lia).
  destruct (Byte.of_N (Z.to_N (x mod 256))) as [b|] eqn:Hof; simpl.
  - apply Byte.to_of_N in Hof. rewrite Hof. lia.
  - apply Byte.of_N_None_iff in Hof. lia.
Qed.

Lemma from_to_le_bytes x : 0 ≤ x < 2 ^ 32 → from_le_bytes (le_bytes x) = x.
Proof.
  intros Hx. unfold le_bytes. cbn [from_le_bytes]. rewrite !byte_of_to_N, !Z.shiftr_div_pow2 by lia.
  change (2 ^ 8) with 256. change (2 ^ 16) with 65536. change (2 ^ 24) with 16777216. change (2 ^ 32) with 4294967296 in Hx.
  Z.to_euclidean_division_equations; lia.
Qed.

Lemma read_exact_app bytes rest : read_exact (Z.of_nat (length bytes)) (bytes ++ rest) = Ok (bytes, rest).
Proof.
  unfold read_exact. rewrite bool_decide_true by (rewrite length_app; lia). rewrite Nat2Z.id.
  by rewrite take_app_length, drop_app_length.
Qed.

Lemma read_exact_short len stream : Z.of_nat (length stream) < len → read_exact len stream = Err (Io early_eof).
Proof. intros Hlen. unfold read_exact. by rewrite bool_decide_false by lia. Qed.

Section FrameFacts.
Context {T : Type} `{PostcardLaws T}.

Lemma write_frame_Ok (value : T) bytes : write_frame value = Ok bytes →
  ∃ body, to_allocvec value = Ok body ∧ Z.of_nat (length body) ≤ TRANSPORT_MAX_FRAME_BODY_LEN ∧
    bytes = le_bytes (Z.of_nat (length body)) ++ body ∧ from_le_bytes (le_bytes (Z.of_nat (length body))) = Z.of_nat (length body).
Proof.
  unfold write_frame. destruct (to_allocvec value) as [body|]; cbn [map_err mbind Result_bind]; [|discriminate].
  case_bool_decide as Hlen; [discriminate|]. intros [= <-]. exists body. unfold TRANSPORT_MAX_FRAME_BODY_LEN in *. rewrite Z.mod_small by lia.
  split; [done|]. split; [lia|]. split; [done|]. apply from_to_le_bytes. lia.
Qed.

Lemma read_write_frame (value : T) bytes rest : write_frame value = Ok bytes → read_frame (bytes ++ rest) = Ok (value, rest).
Proof.
  intros (body & Hbody & Hlen & -> & Hle)%write_frame_Ok. unfold read_frame. rewrite <-app_assoc.
  change (Z.of_nat TRANSPORT_FRAME_LEN_BYTES) with (Z.of_nat (length (le_bytes (Z.of_nat (length body))))).
  rewrite read_exact_app. cbn [mbind Result_bind]. rewrite Hle, bool_decide_false by lia. rewrite read_exact_app. cbn [mbind Result_bind].
  by rewrite (from_to_bytes value).
Qed.

(** a frame cut short is an error *)
Lemma read_truncated (value : T) bytes n : write_frame value = Ok bytes → (n < length bytes)%nat →
  read_frame (T := T) (take n bytes) = Err (Io early_eof).
Proof.
  intros (body & Hbody & Hlen & -> & Hle)%write_frame_Ok Hn. rewrite length_app in Hn. unfold read_frame.
  set (header := le_bytes (Z.of_nat (length body))) in *. assert (length header = 4%nat) as Hh by done.
  destruct (decide (n < 4)%nat) as [Hshort|Hlong].
  - rewrite read_exact_short; [done|]. rewrite length_take, length_app, Hh. unfold TRANSPORT_FRAME_LEN_BYTES. lia.
  - rewrite take_app_ge by lia. change (Z.of_nat TRANSPORT_FRAME_LEN_BYTES) with (Z.of_nat (length header)).
    rewrite read_exact_app. cbn [mbind Result_bind]. rewrite Hle, bool_decide_false by lia.
    rewrite read_exact_short; [done|]. rewrite length_take. lia.
Qed.
End FrameFacts.

Section RpcFacts.
Context `{PostcardLaws ProtocolRequest, PostcardLaws ProtocolResponse, PostcardLaws ProtocolEvent}.

Definition handled (r : Fs0Result (option ProtocolResponse)) : ProtocolResponse :=
  match r with Ok (Some response) => response | Ok None => RespError InvalidRequest | Err err => RespError err end.

Lemma serve_rpc handler request bytes : write_frame request = Ok bytes →
  serve_stream handler bytes = match write_frame (handled (handler request)) with Ok bytes => bytes | Err _ => [] end.
Proof.
  intros Hreq. unfold serve_stream. rewrite <-(app_nil_r bytes), (read_write_frame request) by done.
  by destruct (handler request) as [[|]|].
Qed.

(** the events of a stream, in their order, and nothing of a frame cut short *)
Lemma serve_events_all events : ∀ frames fuel, Forall2 (λ event bytes, write_frame event = Ok bytes) events frames →
  (length events < fuel)%nat → ∀ event bytes n, write_frame event = Ok bytes → (n < length bytes)%nat →
  serve_events fuel (concat frames ++ take n bytes) = events.
Proof.
  induction events as [|event events IH]; intros frames [|fuel] Hframes Hfuel event' bytes' n Hb Hn; try (simpl in Hfuel; lia).
  - inversion Hframes; subst. cbn [concat app serve_events]. by rewrite (read_truncated event').
  - inversion Hframes as [|? bytes ? frames' Hev Hrest]; subst. cbn [concat serve_events]. rewrite <-app_assoc.
    rewrite (read_write_frame event) by done. f_equal. apply (IH frames' fuel Hrest) with event'; [simpl in Hfuel; lia|done|done].
Qed.

(** C39. A request and its response go through.  An [rpc] whose request and response fit a frame returns what the
    peer's handler answered; a request that does not fit is refused before anything is sent, and a response
    that does not fit leaves the caller with the end of the stream; a frame of which any byte is missing is never taken for a message. *)
Theorem rpc_roundtrip handler request :
  (∀ bytes response_bytes, write_frame request = Ok bytes → write_frame (handled (handler request)) = Ok response_bytes →
     rpc (serve_stream handler) request = Ok (handled (handler request)) ∧
     (∀ n, (n < length response_bytes)%nat → rpc (λ bytes, take n (serve_stream handler bytes)) request = Err (Io early_eof))) ∧
  (∀ err, write_frame request = Err err → rpc (serve_stream handler) request = Err err) ∧
  (∀ bytes err, write_frame request = Ok bytes → write_frame (handled (handler request)) = Err err →
     rpc (serve_stream handler) request = Err (Io early_eof)).
Proof.
  split; [|split].
  - intros bytes response_bytes Hreq Hresp. unfold rpc. rewrite Hreq. cbn [mbind Result_bind]. rewrite (serve_rpc handler request) by done.
    rewrite Hresp. split.
    + rewrite <-(app_nil_r response_bytes), (read_write_frame (handled (handler request))) by done. reflexivity.
    + intros n Hn. by rewrite (read_truncated (handled (handler request))).
  - intros err Hreq. unfold rpc. by rewrite Hreq.
  - intros bytes err Hreq Hresp. unfold rpc. rewrite Hreq. cbn [mbind Result_bind]. rewrite (serve_rpc handler request) by done.
    by rewrite Hresp.
Qed.

End RpcFacts.

(** ** A codec of a few messages *)

Section SomeMessages.
Definition request_codec : PostcardCodec ProtocolRequest := {|
  to_allocvec request := match request with ReqCentralAdmin CentralAdminStatusRq => Ok [Byte.x03; Byte.x00] | _ => Err "unsupported" end;
  from_bytes bytes := match bytes with [Byte.x03; Byte.x00] => Ok (ReqCentralAdmin CentralAdminStatusRq) | _ => Err "unsupported" end |}.
Definition response_codec : PostcardCodec ProtocolResponse := {|
  to_allocvec response := match response with RespControl AbortUpdateRs => Ok [Byte.x01; Byte.x12] | _ => Err "unsupported" end;
  from_bytes bytes := match bytes with [Byte.x01; Byte.x12] => Ok (RespControl AbortUpdateRs) | _ => Err "unsupported" end |}.
Definition event_codec : PostcardCodec ProtocolEvent := {|
  to_allocvec event := match event with StorageRemoved id => if bool_decide (0 ≤ id < 256) then Ok [Byte.x01; byte_of id] else Err "unsupported"
                                      | _ => Err "unsupported" end;
  from_bytes bytes := match bytes with [Byte.x01; b] => Ok (StorageRemoved (Z.of_N (Byte.to_N b))) | _ => Err "unsupported" end |}.
#[local] Existing Instances request_codec response_codec event_codec.

Lemma request_laws : PostcardLaws ProtocolRequest.
Proof. intros [|request|event|[]|] body Hb; cbn in Hb; try discriminate Hb. by injection Hb as <-. Qed.
Lemma response_laws : PostcardLaws ProtocolResponse.
Proof. intros [|[]| | |] body Hb; cbn in Hb; try discriminate Hb. by injection Hb as <-. Qed.
Lemma event_laws : PostcardLaws ProtocolEvent.
Proof.
  intros [|id] body Hb; cbn in Hb; [discriminate Hb|]. case_bool_decide as Hid; [|discriminate Hb]. injection Hb as <-.
  cbn. rewrite byte_of_to_N. by rewrite Z.mod_small.
Qed.

Lemma rpc_roundtrip_witness :
  rpc (serve_stream (λ _, Ok (Some (RespControl AbortUpdateRs)))) (ReqCentralAdmin CentralAdminStatusRq) = Ok (RespControl AbortUpdateRs).
Proof.
  destruct (@rpc_roundtrip request_codec request_laws response_codec response_laws (λ _, Ok (Some (RespControl AbortUpdateRs)))
    (ReqCentralAdmin CentralAdminStatusRq)) as [Hok _].
  destruct (Hok [Byte.x02; Byte.x00; Byte.x00; Byte.x00; Byte.x03; Byte.x00] [Byte.x02; Byte.x00; Byte.x00; Byte.x00; Byte.x01; Byte.x12]) as [Hrpc _];
    [vm_compute; reflexivity..|exact Hrpc].
Defined.
End SomeMessages.
