(* ===== verification/DirCache.v ===== *)
(** * The directory cache of the central server

    Models [DirCacheState] of [fs0-central/src/db/dir.rs]: a bounded map between
    directory paths and directory ids with an access clock, trimmed to the most
    recently used entries when it grows over its limit.  A Rust [HashMap] is a
    [gmap]; its iteration order only decides between equal access times, which
    [clock_ok] excludes. *)

From S2P Require Import Prelude Types.

Definition ROOT_DIR_ID : Z := 0.
Definition DIR_CACHE_MAX_ENTRIES : Z := 8192.
Definition DIR_CACHE_TRIM_TO_ENTRIES : Z := 6144.

Record DirCacheEntry := mkDirCacheEntry { ce_dir_id : Z; ce_last_access : Z }.

Record DirCacheState := mkDirCacheState {
  path_to_entry : gmap string DirCacheEntry;
  id_to_path : gmap Z string;
  dc_next_access : Z }.

Definition DirCacheState_new : DirCacheState := mkDirCacheState ∅ ∅ 1.

(** [&mut self] methods are functions to the result and the new cache *)
Definition next_access (c : DirCacheState) : Z * DirCacheState :=
  let access := dc_next_access c in
  (access, mkDirCacheState (path_to_entry c) (id_to_path c) (u64_saturating_add access 1)).

Definition get_id (path : string) (c : DirCacheState) : option Z * DirCacheState :=
  if bool_decide (path = "/") then (Some ROOT_DIR_ID, c)
  else
    let '(last_access, c) := next_access c in
    match path_to_entry c !! path with
    | None => (None, c)
    | Some entry =>
        (Some (ce_dir_id entry),
         mkDirCacheState (<[path := mkDirCacheEntry (ce_dir_id entry) last_access]> (path_to_entry c))
           (id_to_path c) (dc_next_access c))
    end.

Definition get_path (dir_id : Z) (c : DirCacheState) : option string * DirCacheState :=
  if bool_decide (dir_id = ROOT_DIR_ID) then (Some "/", c)
  else
    match id_to_path c !! dir_id with
    | None => (None, c)
    | Some path =>
        let '(last_access, c) := next_access c in
        (Some path,
         match path_to_entry c !! path with
         | None => c
         | Some entry =>
             mkDirCacheState
               (<[path := mkDirCacheEntry (ce_dir_id entry) last_access]> (path_to_entry c))
               (id_to_path c) (dc_next_access c)
         end)
    end.

(** the entries a trim removes: the [remove_count] least recently used ones *)
Definition candidate_le (a b : string * DirCacheEntry) : Prop :=
  ce_last_access a.2 ≤ ce_last_access b.2.
#[export] Instance candidate_le_dec : RelDecision candidate_le.
Proof. intros a b. unfold candidate_le. apply _. Defined.

Definition trim_candidates (p2e : gmap string DirCacheEntry) : list (string * DirCacheEntry) :=
  let remove_count := Z.of_nat (size p2e) - DIR_CACHE_TRIM_TO_ENTRIES in
  take (Z.to_nat remove_count) (merge_sort candidate_le (map_to_list p2e)).

Definition remove_candidates (victims : list (string * DirCacheEntry)) (c : DirCacheState)
  : DirCacheState :=
  foldl (λ c victim,
    mkDirCacheState (delete victim.1 (path_to_entry c))
      (delete (ce_dir_id victim.2) (id_to_path c)) (dc_next_access c)) c victims.

Definition remember (dir_id : Z) (path : string) (c : DirCacheState) : DirCacheState :=
  if bool_decide (dir_id = ROOT_DIR_ID) || bool_decide (path = "/") then c
  else
    let '(last_access, c) := next_access c in
    let c := mkDirCacheState
      (<[path := mkDirCacheEntry dir_id last_access]> (path_to_entry c))
      (<[dir_id := path]> (id_to_path c)) (dc_next_access c) in
    if bool_decide (Z.of_nat (size (path_to_entry c)) ≤ DIR_CACHE_MAX_ENTRIES) then c
    else remove_candidates (trim_candidates (path_to_entry c)) c.

Definition forget (dir_id : Z) (path : string) (c : DirCacheState) : DirCacheState :=
  if bool_decide (dir_id = ROOT_DIR_ID) || bool_decide (path = "/") then c
  else mkDirCacheState (delete path (path_to_entry c)) (delete dir_id (id_to_path c))
         (dc_next_access c).

(** ** Invariants *)

(** the two maps are inverse to each other *)
Definition cache_bij (c : DirCacheState) : Prop :=
  ∀ p id, (∃ t, path_to_entry c !! p = Some (mkDirCacheEntry id t)) ↔ id_to_path c !! id = Some p.

(** access times are distinct and in the past of the clock *)
Definition clock_ok (c : DirCacheState) : Prop :=
  0 < dc_next_access c ∧
  (∀ p e, path_to_entry c !! p = Some e → ce_last_access e < dc_next_access c) ∧
  (∀ p q e f, path_to_entry c !! p = Some e → path_to_entry c !! q = Some f →
     ce_last_access e = ce_last_access f → p = q).

Definition cache_bounded (c : DirCacheState) : Prop :=
  Z.of_nat (size (path_to_entry c)) ≤ DIR_CACHE_MAX_ENTRIES.

(** every pair the cache can answer with satisfies [R] *)
Definition cache_sound (R : Z → string → Prop) (c : DirCacheState) : Prop :=
  (∀ p e, path_to_entry c !! p = Some e → R (ce_dir_id e) p) ∧
  (∀ id p, id_to_path c !! id = Some p → R id p).

(** ** Lemmas *)

Lemma remove_candidates_cons v vs c :
  remove_candidates (v :: vs) c =
  remove_candidates vs (mkDirCacheState (delete v.1 (path_to_entry c))
    (delete (ce_dir_id v.2) (id_to_path c)) (dc_next_access c)).
Proof. done. Qed.

Lemma remove_candidates_paths vs c :
  path_to_entry (remove_candidates vs c) = foldr delete (path_to_entry c) (reverse vs.*1).
Proof.
  revert c. induction vs as [|[q e] vs IH]; intros c; [done|].
  rewrite remove_candidates_cons, IH. rewrite fmap_cons, reverse_cons, foldr_app. done.
Qed.

Lemma lookup_foldr_delete {K} `{Countable K} {A} (m : gmap K A) ks k :
  foldr delete m ks !! k = if bool_decide (k ∈ ks) then None else m !! k.
Proof.
  induction ks as [|k' ks IH]; [done|]. cbn [foldr].
  destruct (decide (k = k')) as [->|Hne].
  - by rewrite lookup_delete_eq, bool_decide_true by set_solver.
  - rewrite lookup_delete_ne by done. rewrite IH.
    by rewrite (bool_decide_ext (k ∈ ks) (k ∈ k' :: ks)) by set_solver.
Qed.

Lemma remove_candidates_lookup_path vs c p :
  path_to_entry (remove_candidates vs c) !! p =
  if bool_decide (p ∈ vs.*1) then None else path_to_entry c !! p.
Proof.
  rewrite remove_candidates_paths, lookup_foldr_delete.
  by rewrite (bool_decide_ext (p ∈ reverse vs.*1) (p ∈ vs.*1)) by apply elem_of_reverse.
Qed.

Lemma remove_candidates_lookup_id vs c id :
  id_to_path (remove_candidates vs c) !! id =
  if bool_decide (id ∈ map (λ v, ce_dir_id v.2) vs) then None else id_to_path c !! id.
Proof.
  revert c. induction vs as [|[q e] vs IH]; intros c; [done|].
  rewrite remove_candidates_cons, IH. simpl.
  destruct (decide (id = ce_dir_id e)) as [->|Hne].
  - rewrite lookup_delete_eq. rewrite (bool_decide_true (_ ∈ _ :: _)) by set_solver.
    by case_bool_decide.
  - rewrite lookup_delete_ne by done.
    by rewrite (bool_decide_ext (id ∈ ce_dir_id e :: _) (id ∈ map (λ v, ce_dir_id v.2) vs)) by set_solver.
Qed.

Lemma remove_candidates_clock vs c : dc_next_access (remove_candidates vs c) = dc_next_access c.
Proof. revert c. induction vs as [|v vs IH]; intros c; [done|]. by rewrite remove_candidates_cons, IH. Qed.

(** the sorted candidates split into the victims and the survivors *)
Definition trim_survivors (p2e : gmap string DirCacheEntry) : list (string * DirCacheEntry) :=
  drop (Z.to_nat (Z.of_nat (size p2e) - DIR_CACHE_TRIM_TO_ENTRIES))
    (merge_sort candidate_le (map_to_list p2e)).

Lemma trim_split p2e :
  trim_candidates p2e ++ trim_survivors p2e ≡ₚ map_to_list p2e.
Proof.
  unfold trim_candidates, trim_survivors. rewrite take_drop. apply merge_sort_Permutation.
Qed.

Lemma trim_split_NoDup p2e : NoDup (trim_candidates p2e ++ trim_survivors p2e).*1.
Proof.
  apply (NoDup_Permutation_proper _ (map_to_list p2e).*1).
  { by rewrite trim_split. }
  apply NoDup_fst_map_to_list.
Qed.

Lemma trim_order p2e v s :
  v ∈ trim_candidates p2e → s ∈ trim_survivors p2e → ce_last_access v.2 ≤ ce_last_access s.2.
Proof.
  assert (Total candidate_le) by (intros x y; unfold candidate_le; lia).
  assert (Transitive candidate_le) by (intros x y z; unfold candidate_le; lia).
  pose proof (StronglySorted_merge_sort candidate_le (map_to_list p2e)) as Hs.
  rewrite <- (take_drop (Z.to_nat (Z.of_nat (size p2e) - DIR_CACHE_TRIM_TO_ENTRIES))) in Hs.
  apply StronglySorted_app in Hs as (Hvs & _ & _). exact (Hvs v s).
Qed.

Lemma trim_lookup p2e p e :
  (p2e !! p = Some e ∧ p ∉ (trim_candidates p2e).*1) ↔ (p, e) ∈ trim_survivors p2e.
Proof.
  rewrite <- elem_of_map_to_list, <- trim_split, elem_of_app.
  pose proof (trim_split_NoDup p2e) as Hnd. rewrite fmap_app in Hnd.
  apply NoDup_app in Hnd as (_ & Hdisj & _). split.
  - intros [[Hc|Hs] Hn]; [|done]. destruct Hn. by apply (list_elem_of_fmap_2 fst _ (p, e)).
  - intros Hs. split; [by right|]. intros Hc. apply (Hdisj p Hc).
    by apply (list_elem_of_fmap_2 fst _ (p, e)).
Qed.

Lemma trim_size c :
  DIR_CACHE_TRIM_TO_ENTRIES ≤ Z.of_nat (size (path_to_entry c)) →
  Z.of_nat (size (path_to_entry (remove_candidates (trim_candidates (path_to_entry c)) c)))
    = DIR_CACHE_TRIM_TO_ENTRIES.
Proof.
  intros Hle. set (p2e := path_to_entry c) in *.
  assert (path_to_entry (remove_candidates (trim_candidates p2e) c)
          = list_to_map (trim_survivors p2e)) as ->.
  { apply map_eq. intros p. rewrite remove_candidates_lookup_path. fold p2e.
    pose proof (trim_split_NoDup p2e) as Hnd. rewrite fmap_app in Hnd.
    apply NoDup_app in Hnd as (_ & Hdisj & Hnd).
    apply option_eq. intros e. rewrite <- elem_of_list_to_map by done.
    rewrite <- trim_lookup. case_bool_decide; naive_solver. }
  rewrite map_size_list_to_map.
  2:{ pose proof (trim_split_NoDup p2e) as Hnd. rewrite fmap_app in Hnd.
      by apply NoDup_app in Hnd as (_ & _ & Hnd). }
  unfold trim_survivors. rewrite length_drop.
  rewrite (Permutation_length (merge_sort_Permutation _ _)), length_map_to_list.
  unfold DIR_CACHE_TRIM_TO_ENTRIES in *. lia.
Qed.

Lemma next_access_saturates c :
  0 < dc_next_access c → dc_next_access c < u64_max →
  u64_saturating_add (dc_next_access c) 1 = dc_next_access c + 1.
Proof. unfold u64_saturating_add. lia. Qed.

(** *** Answers *)

Lemma get_id_answer path c :
  (get_id path c).1 =
  if bool_decide (path = "/") then Some ROOT_DIR_ID else ce_dir_id <$> path_to_entry c !! path.
Proof.
  unfold get_id, next_access. case_bool_decide; [done|]. simpl. by destruct (_ !! path).
Qed.

Lemma get_path_answer id c :
  (get_path id c).1 =
  if bool_decide (id = ROOT_DIR_ID) then Some "/" else id_to_path c !! id.
Proof.
  unfold get_path, next_access. case_bool_decide; [done|]. by destruct (id_to_path c !! id).
Qed.

(** Every operation but [remember] only removes pairs or changes access times. *)
Definition cache_le (c' c : DirCacheState) : Prop :=
  (∀ p e, path_to_entry c' !! p = Some e →
     ∃ t, path_to_entry c !! p = Some (mkDirCacheEntry (ce_dir_id e) t)) ∧
  (∀ id p, id_to_path c' !! id = Some p → id_to_path c !! id = Some p).

#[export] Instance cache_le_refl : Reflexive cache_le.
Proof. intros c. split; [|done]. intros p [id t]. eauto. Qed.

Lemma cache_sound_le R c' c : cache_le c' c → cache_sound R c → cache_sound R c'.
Proof.
  intros [Hp Hi] [HRp HRi]. split.
  - intros p e He. apply Hp in He as [t He]. by apply HRp in He.
  - intros id p Hid. by apply HRi, Hi.
Qed.

Lemma touch_le c p e t n :
  path_to_entry c !! p = Some e →
  cache_le (mkDirCacheState (<[p := mkDirCacheEntry (ce_dir_id e) t]> (path_to_entry c))
    (id_to_path c) n) c.
Proof.
  intros He. split; [|done]. intros q f. simpl. rewrite lookup_insert_Some.
  intros [[<- <-]|[_ Hf]]; simpl; [|destruct f; eauto]. destruct e; eauto.
Qed.

Lemma get_id_le path c : cache_le (get_id path c).2 c.
Proof.
  unfold get_id, next_access. case_bool_decide; [done|]. simpl.
  destruct (path_to_entry c !! path) as [e|] eqn:He; simpl.
  - by apply touch_le.
  - split; [|done]. intros q [? ?]; simpl; eauto.
Qed.

Lemma get_path_le id c : cache_le (get_path id c).2 c.
Proof.
  unfold get_path, next_access. case_bool_decide; [done|].
  destruct (id_to_path c !! id) as [p|]; [|done]. simpl.
  destruct (path_to_entry c !! p) as [e|] eqn:He; simpl.
  - by apply touch_le.
  - split; [|done]. intros q [? ?]; simpl; eauto.
Qed.

Lemma remove_candidates_le vs c : cache_le (remove_candidates vs c) c.
Proof.
  split.
  - intros p [id t]. rewrite remove_candidates_lookup_path. case_bool_decide; naive_solver.
  - intros id p. rewrite remove_candidates_lookup_id. case_bool_decide; naive_solver.
Qed.

Lemma forget_le id p c : cache_le (forget id p c) c.
Proof.
  unfold forget. destruct (_ || _); [done|]. split; simpl.
  - intros q [i t]. rewrite lookup_delete_Some. naive_solver.
  - intros i q. rewrite lookup_delete_Some. naive_solver.
Qed.

Lemma remember_sound (R : Z → string → Prop) id p c :
  R id p → cache_sound R c → cache_sound R (remember id p c).
Proof.
  intros HR [Hp Hi]. unfold remember, next_access. destruct (_ || _); [done|].
  match goal with |- cache_sound _ (if _ then ?c' else _) => set (c1 := c') end.
  assert (cache_sound R c1) as Hc1.
  { split; simpl.
    - intros q e. rewrite lookup_insert_Some. intros [[<- <-]|[_ ?]]; [done|]. by apply Hp.
    - intros i q. rewrite lookup_insert_Some. intros [[<- <-]|[_ ?]]; [done|]. by apply Hi. }
  case_bool_decide; [done|]. eapply cache_sound_le; [apply remove_candidates_le|done].
Qed.

Lemma get_id_sound R path c : cache_sound R c → cache_sound R (get_id path c).2.
Proof. apply cache_sound_le, get_id_le. Qed.
Lemma get_path_sound R id c : cache_sound R c → cache_sound R (get_path id c).2.
Proof. apply cache_sound_le, get_path_le. Qed.
Lemma forget_sound R id p c : cache_sound R c → cache_sound R (forget id p c).
Proof. apply cache_sound_le, forget_le. Qed.
Lemma new_sound R : cache_sound R DirCacheState_new.
Proof. split; simpl; intros ??; by rewrite lookup_empty. Qed.
#[export] Hint Resolve remember_sound get_id_sound get_path_sound forget_sound new_sound : fs0.

(** *** The bound *)

Lemma remember_bounded_size id p c :
  cache_bounded c → cache_bounded (remember id p c).
Proof.
  unfold remember, next_access, cache_bounded. intros Hb. destruct (_ || _); [done|].
  case_bool_decide as Hle; simpl in *; [done|].
  match goal with |- context [remove_candidates (trim_candidates ?m) ?c'] =>
    change m with (path_to_entry c') end.
  rewrite trim_size; simpl; unfold DIR_CACHE_MAX_ENTRIES, DIR_CACHE_TRIM_TO_ENTRIES in *; lia.
Qed.

Lemma touch_size (c : DirCacheState) (p : string) (e e' : DirCacheEntry) :
  path_to_entry c !! p = Some e → size (<[p := e']> (path_to_entry c)) = size (path_to_entry c).
Proof. intros He. rewrite map_size_insert, He. done. Qed.

Lemma get_id_bounded path c : cache_bounded c → cache_bounded (get_id path c).2.
Proof.
  unfold cache_bounded, get_id, next_access. case_bool_decide; [done|]. simpl.
  destruct (path_to_entry c !! path) eqn:He; simpl; [|done].
  by erewrite touch_size by exact He.
Qed.

Lemma get_path_bounded id c : cache_bounded c → cache_bounded (get_path id c).2.
Proof.
  unfold cache_bounded, get_path, next_access. case_bool_decide; [done|].
  destruct (id_to_path c !! id) as [p|]; [|done]. simpl.
  destruct (path_to_entry c !! p) eqn:He; simpl; [|done].
  by erewrite touch_size by exact He.
Qed.

Lemma forget_bounded id p c : cache_bounded c → cache_bounded (forget id p c).
Proof.
  unfold cache_bounded, forget. destruct (_ || _); [done|]. simpl. intros Hb.
  rewrite map_size_delete. destruct (path_to_entry c !! p); simpl; lia.
Qed.

Lemma new_bounded : cache_bounded DirCacheState_new.
Proof. unfold cache_bounded. simpl. rewrite map_size_empty. unfold DIR_CACHE_MAX_ENTRIES. lia. Qed.
#[export] Hint Resolve remember_bounded_size get_id_bounded get_path_bounded forget_bounded
  new_bounded : fs0.

(** *** The two maps stay inverse *)

Lemma touch_bij c p e t n :
  path_to_entry c !! p = Some e → cache_bij c →
  cache_bij (mkDirCacheState (<[p := mkDirCacheEntry (ce_dir_id e) t]> (path_to_entry c))
    (id_to_path c) n).
Proof.
  intros He Hb q id. rewrite <- (Hb q id). simpl. split; intros [t' Ht'].
  - apply lookup_insert_Some in Ht' as [[<- [= <- <-]]|[_ ?]]; [|eauto]. destruct e; eauto.
  - destruct (decide (p = q)) as [<-|Hne].
    + exists t. rewrite lookup_insert_eq. rewrite Ht' in He. by injection He as <-.
    + exists t'. by rewrite lookup_insert_ne.
Qed.

Lemma get_id_bij path c : cache_bij c → cache_bij (get_id path c).2.
Proof.
  unfold get_id, next_access. case_bool_decide; [done|]. simpl.
  destruct (path_to_entry c !! path) as [e|] eqn:He; simpl; intros Hb; [by apply touch_bij|done].
Qed.

Lemma get_path_bij id c : cache_bij c → cache_bij (get_path id c).2.
Proof.
  unfold get_path, next_access. case_bool_decide; [done|].
  destruct (id_to_path c !! id) as [p|]; [|done]. simpl.
  destruct (path_to_entry c !! p) as [e|] eqn:He; simpl; intros Hb; [by apply touch_bij|done].
Qed.

Lemma remove_candidates_bij vs c :
  (∀ q e, (q, e) ∈ vs → path_to_entry c !! q = Some e) →
  cache_bij c → cache_bij (remove_candidates vs c).
Proof.
  intros Hvs Hb p id.
  assert (∀ t, path_to_entry c !! p = Some (mkDirCacheEntry id t) →
    p ∈ vs.*1 ↔ id ∈ map (λ v, ce_dir_id v.2) vs) as Hiff.
  { intros t Ht. split.
    - intros ([q e] & -> & Hin)%list_elem_of_fmap. simpl in *.
      apply list_elem_of_fmap. exists (q, e). split; [|done]. apply Hvs in Hin. simpl. by simplify_eq.
    - intros ([q e] & -> & Hin)%list_elem_of_fmap. simpl in *. pose proof (Hvs _ _ Hin) as Hq.
      assert (id_to_path c !! ce_dir_id e = Some q) by (apply Hb; destruct e; eauto).
      assert (id_to_path c !! ce_dir_id e = Some p) by (apply Hb; eauto).
      simplify_eq. by apply (list_elem_of_fmap_2 fst _ (q, e)). }
  setoid_rewrite remove_candidates_lookup_path. rewrite remove_candidates_lookup_id. split.
  - intros [t Ht]. case_bool_decide as Hp; [done|]. rewrite bool_decide_false.
    + apply Hb. eauto.
    + by rewrite <- (Hiff _ Ht).
  - intros Hid. case_bool_decide as Hn; [done|]. apply Hb in Hid as [t Ht]. exists t.
    by rewrite bool_decide_false by (by rewrite (Hiff _ Ht)).
Qed.

Lemma trim_candidates_lookup p2e q e : (q, e) ∈ trim_candidates p2e → p2e !! q = Some e.
Proof.
  intros Hin. apply elem_of_map_to_list. rewrite <- trim_split. apply elem_of_app. by left.
Qed.

(** remembering a pair that does not contradict another one *)
Lemma remember_bij id p c :
  (∀ e, path_to_entry c !! p = Some e → ce_dir_id e = id) →
  (∀ q, id_to_path c !! id = Some q → q = p) →
  cache_bij c → cache_bij (remember id p c).
Proof.
  intros Hp Hi Hb. unfold remember, next_access. destruct (_ || _); [done|].
  match goal with |- cache_bij (if _ then ?c' else _) => set (c1 := c') end.
  assert (cache_bij c1) as Hb1.
  { intros q id'. simpl. destruct (decide (p = q)) as [<-|Hne].
    - rewrite lookup_insert_eq. split.
      + intros [t [= <- <-]]. by rewrite lookup_insert_eq.
      + rewrite lookup_insert_Some. intros [[<- _]|[Hne Hid]]; [eauto|].
        apply Hb in Hid as [t Ht]. by apply Hp in Ht.
    - rewrite lookup_insert_ne by done. rewrite lookup_insert_Some, (Hb q id').
      split; [|naive_solver]. intros Hid. right. split; [|done]. intros ->.
      by apply Hi in Hid. }
  case_bool_decide; [done|]. apply remove_candidates_bij; [|done].
  intros q e. apply trim_candidates_lookup.
Qed.

Lemma forget_bij id p c :
  cache_bij c → (∀ e, path_to_entry c !! p = Some e → ce_dir_id e = id) →
  (∀ q, id_to_path c !! id = Some q → q = p) → cache_bij (forget id p c).
Proof.
  intros Hb Hp Hi. unfold forget. destruct (_ || _); [done|]. intros q id'. simpl.
  rewrite lookup_delete_Some. setoid_rewrite lookup_delete_Some. rewrite <- (Hb q id').
  split.
  - intros [t [Hne Ht]]. split; [|eauto]. intros <-. apply Hne. symmetry. apply Hi. apply Hb. eauto.
  - intros [Hne [t Ht]]. exists t. split; [|done]. intros <-. apply Hne. symmetry. by apply Hp in Ht.
Qed.

(** *** The clock *)

Lemma cache_insert_clock c p id ids :
  clock_ok c →
  clock_ok (mkDirCacheState (<[p := mkDirCacheEntry id (dc_next_access c)]> (path_to_entry c))
    ids (dc_next_access c + 1)).
Proof.
  intros (Hpos & Hlt & Hinj). unfold clock_ok. simpl. split_and!; [lia| |].
  - intros q f. rewrite lookup_insert_Some. intros [[_ <-]|[_ Hf%Hlt]]; simpl; lia.
  - intros q r f g. rewrite !lookup_insert_Some.
    intros [[<- <-]|[_ Hf]] [[<- <-]|[_ Hg]]; simpl; [done| | |by eapply Hinj].
    + apply Hlt in Hg. lia.
    + apply Hlt in Hf. lia.
Qed.

(** The pair just remembered survives a trim, and what a trim removes was used
    before everything it keeps. *)
Lemma remember_lru id p c :
  clock_ok c → dc_next_access c < u64_max → id ≠ ROOT_DIR_ID → p ≠ "/" →
  let grown := <[p := mkDirCacheEntry id (dc_next_access c)]> (path_to_entry c) in
  let kept := path_to_entry (remember id p c) in
  kept !! p = Some (mkDirCacheEntry id (dc_next_access c)) ∧
  kept ⊆ grown ∧
  (∀ q e r f, grown !! q = Some e → kept !! q = None → kept !! r = Some f →
     ce_last_access e < ce_last_access f).
Proof.
  intros Hclk Hmax Hid Hp. unfold remember, next_access.
  rewrite !bool_decide_false by done. simpl.
  rewrite next_access_saturates by (destruct Hclk; lia).
  pose proof (cache_insert_clock c p id (<[id:=p]> (id_to_path c)) Hclk) as (Hpos & Hlt & Hinj).
  simpl in Hlt, Hinj. set (g := <[p := _]> (path_to_entry c)) in *.
  case_bool_decide as Hsz; simpl.
  { split; [apply lookup_insert_eq|]. split; [done|]. intros; simplify_eq. }
  assert (∀ r f, path_to_entry (remove_candidates (trim_candidates g)
      (mkDirCacheState g (<[id:=p]> (id_to_path c)) (dc_next_access c + 1))) !! r = Some f ↔
    (r, f) ∈ trim_survivors g) as Hkept.
  { intros r f. rewrite remove_candidates_lookup_path. simpl. rewrite <- trim_lookup.
    case_bool_decide; naive_solver. }
  assert (∀ q e r f, (q, e) ∈ trim_candidates g → (r, f) ∈ trim_survivors g →
    ce_last_access e < ce_last_access f) as Hord.
  { intros q e r f Hq Hr. pose proof (trim_order _ _ _ Hq Hr) as Hle. simpl in Hle.
    assert (ce_last_access e ≠ ce_last_access f); [|lia]. intros Heq.
    apply trim_candidates_lookup in Hq as Hq'. apply trim_lookup in Hr as [Hr' Hr].
    destruct Hr. rewrite (Hinj _ _ _ _ Hr' Hq') by done.
    by apply (list_elem_of_fmap_2 fst _ (q, e)). }
  assert (g !! p = Some (mkDirCacheEntry id (dc_next_access c))) as Hgp by apply lookup_insert_eq.
  split_and!.
  - apply Hkept, trim_lookup. split; [done|].
    intros ([q e] & Heq & Hin)%list_elem_of_fmap. simpl in Heq. subst q.
    pose proof (trim_candidates_lookup _ _ _ Hin) as He. rewrite Hgp in He. injection He as <-.
    assert (∃ s, s ∈ trim_survivors g) as [[r f] Hs].
    { pose proof (trim_split g) as Hl. apply Permutation_length in Hl.
      rewrite length_app, length_map_to_list in Hl.
      destruct (trim_survivors g) as [|s ?]; [|by exists s; left].
      unfold trim_candidates in Hl. rewrite length_take in Hl.
      unfold DIR_CACHE_MAX_ENTRIES, DIR_CACHE_TRIM_TO_ENTRIES in *. simpl in Hl. lia. }
    pose proof (Hord _ _ _ _ Hin Hs) as Hlt'. simpl in Hlt'.
    apply trim_lookup in Hs as [Hs _]. apply Hlt in Hs. lia.
  - apply map_subseteq_spec. intros r f Hr. apply Hkept, trim_lookup in Hr. naive_solver.
  - intros q e r f Hq Hnone Hr. apply Hkept in Hr. apply (Hord q e r f); [|done].
    apply elem_of_map_to_list in Hq. rewrite <- trim_split in Hq.
    apply elem_of_app in Hq as [|Hq]; [done|]. apply Hkept in Hq. naive_solver.
Qed.


Lemma bij_sizes c : cache_bij c → size (id_to_path c) = size (path_to_entry c).
Proof.
  intros Hb.
  assert ((λ x, (x.2, x.1)) <$> map_to_list (id_to_path c) ≡ₚ
          (λ x, (x.1, ce_dir_id x.2)) <$> map_to_list (path_to_entry c)) as Hperm.
  { apply NoDup_Permutation.
    - apply NoDup_fmap_2; [by intros [] [] [=]; subst|]. apply NoDup_map_to_list.
    - apply (NoDup_fmap_1 fst). rewrite <- list_fmap_compose. apply NoDup_fst_map_to_list.
    - intros [p id]. rewrite !list_elem_of_fmap. split.
      + intros ([i q] & Heq & [t Ht]%elem_of_map_to_list%Hb). simplify_eq/=.
        exists (q, mkDirCacheEntry i t). split; [done|]. by apply elem_of_map_to_list.
      + intros ([q [i t]] & Heq & Hin%elem_of_map_to_list). simplify_eq/=. exists (i, q). split; [done|].
        apply elem_of_map_to_list, Hb. eauto. }
  apply Permutation_length in Hperm. by rewrite !length_fmap, !length_map_to_list in Hperm.
Qed.

(** ** Runs of operations *)

Inductive CacheOp :=
| OpGetId (path : string)
| OpGetPath (dir_id : Z)
| OpRemember (dir_id : Z) (path : string)
| OpForget (dir_id : Z) (path : string).

Definition cache_step (c : DirCacheState) (op : CacheOp) : DirCacheState :=
  match op with
  | OpGetId path => (get_id path c).2
  | OpGetPath dir_id => (get_path dir_id c).2
  | OpRemember dir_id path => remember dir_id path c
  | OpForget dir_id path => forget dir_id path c
  end.

(** the pairs an operation names come from the naming [R] *)
Definition op_names (R : Z → string → Prop) (op : CacheOp) : Prop :=
  match op with
  | OpRemember dir_id path | OpForget dir_id path => R dir_id path
  | _ => True
  end.

Lemma cache_step_inv (R : Z → string → Prop) c op :
  (∀ id p q, R id p → R id q → p = q) → (∀ id i p, R id p → R i p → id = i) →
  op_names R op → cache_bounded c → cache_bij c → cache_sound R c →
  cache_bounded (cache_step c op) ∧ cache_bij (cache_step c op) ∧ cache_sound R (cache_step c op).
Proof.
  intros Hfun Hinj Hop Hbd Hbij Hs. destruct op as [p|id|id p|id p]; simpl in *.
  - split_and!; [auto with fs0| by apply get_id_bij | auto with fs0].
  - split_and!; [auto with fs0| by apply get_path_bij | auto with fs0].
  - split_and!; [auto with fs0| | auto with fs0]. apply remember_bij; [| |done].
    + intros e He. apply Hs in He. by eapply Hinj.
    + intros q Hq. apply Hs in Hq. by eapply Hfun.
  - split_and!; [auto with fs0| | auto with fs0]. apply forget_bij; [done| |].
    + intros e He. apply Hs in He. by eapply Hinj.
    + intros q Hq. apply Hs in Hq. by eapply Hfun.
Qed.

(** ** Properties *)

(** However the cache is used, as long as every directory id is remembered
    and forgotten under the one path [R] gives it, it holds at most 8192 paths
    and as many ids, the two maps stay inverse to each other, and each answer is
    a pair of [R]. *)
Theorem cache_run_invariant (R : Z → string → Prop) ops :
  (∀ id p q, R id p → R id q → p = q) → (∀ id i p, R id p → R i p → id = i) →
  Forall (op_names R) ops →
  let c := fold_left cache_step ops DirCacheState_new in
  Z.of_nat (size (path_to_entry c)) ≤ DIR_CACHE_MAX_ENTRIES ∧
  size (id_to_path c) = size (path_to_entry c) ∧
  (∀ p id, p ≠ "/" → (get_id p c).1 = Some id → (get_path id c).1 = Some p ∨ id = ROOT_DIR_ID) ∧
  (∀ p id, p ≠ "/" → (get_id p c).1 = Some id → R id p) ∧
  (∀ p id, id ≠ ROOT_DIR_ID → (get_path id c).1 = Some p → R id p).
Proof.
  intros Hfun Hinj Hops c.
  assert (cache_bounded c ∧ cache_bij c ∧ cache_sound R c) as (Hbd & Hbij & Hs).
  { subst c. assert (cache_bij DirCacheState_new) as Hnew.
    { intros p id. simpl. rewrite lookup_empty. setoid_rewrite lookup_empty. naive_solver. }
    pose proof new_bounded as Hb. pose proof (new_sound R) as Hs. revert Hnew Hb Hs.
    generalize DirCacheState_new. induction Hops as [|op ops Hop Hops IH]; intros c ???; [done|].
    simpl. destruct (cache_step_inv R c op) as (?&?&?); auto. }
  split_and!; [done|by apply bij_sizes| | |].
  - intros p id Hp. rewrite get_id_answer, bool_decide_false, get_path_answer by done.
    intros ([i t] & He & ->)%fmap_Some. simpl.
    case_bool_decide; [by right|]. left. apply Hbij. eauto.
  - intros p id Hp. rewrite get_id_answer, bool_decide_false by done.
    intros (e & He & ->)%fmap_Some. by apply (proj1 Hs).
  - intros p id Hid. rewrite get_path_answer, bool_decide_false by done. apply (proj2 Hs).
Qed.

(** Remembering a directory in a cache whose clock has not saturated makes it
    the newest entry; the cache then holds exactly 6144 paths when it had to be
    trimmed, and every path the trim dropped was used before every path it kept. *)
Theorem remember_trims_least_recent id p c :
  clock_ok c → dc_next_access c < u64_max → id ≠ ROOT_DIR_ID → p ≠ "/" →
  let grown := <[p := mkDirCacheEntry id (dc_next_access c)]> (path_to_entry c) in
  let kept := path_to_entry (remember id p c) in
  kept !! p = Some (mkDirCacheEntry id (dc_next_access c)) ∧
  Z.of_nat (size kept) = (if bool_decide (Z.of_nat (size grown) ≤ DIR_CACHE_MAX_ENTRIES)
    then Z.of_nat (size grown) else DIR_CACHE_TRIM_TO_ENTRIES) ∧
  (∀ q e r f, grown !! q = Some e → kept !! q = None → kept !! r = Some f →
     ce_last_access e < ce_last_access f).
Proof.
  intros Hclk Hmax Hid Hp grown kept.
  destruct (remember_lru id p c Hclk Hmax Hid Hp) as (Hself & _ & Hord).
  split_and!; [done| |exact Hord]. subst kept grown. unfold remember, next_access.
  rewrite !bool_decide_false by done. simpl. case_bool_decide as Hsz; simpl; [done|].
  match goal with |- context [remove_candidates (trim_candidates ?m) ?c'] =>
    change m with (path_to_entry c') end.
  apply trim_size. simpl. unfold DIR_CACHE_MAX_ENTRIES, DIR_CACHE_TRIM_TO_ENTRIES in *. lia.
Qed.

(** a naming for the witnesses *)
Definition sample_naming (id : Z) (p : string) : Prop :=
  (id = 1 ∧ p = "/a") ∨ (id = 2 ∧ p = "/b").

Lemma cache_run_invariant_witness :
  let c := fold_left cache_step
    [OpRemember 1 "/a"; OpGetId "/a"; OpRemember 2 "/b"; OpForget 1 "/a"] DirCacheState_new in
  (get_id "/b" c).1 = Some 2 ∧ size (id_to_path c) = size (path_to_entry c).
Proof.
  split; [vm_compute; reflexivity|].
  refine (proj1 (proj2 (cache_run_invariant sample_naming
    [OpRemember 1 "/a"; OpGetId "/a"; OpRemember 2 "/b"; OpForget 1 "/a"] _ _ _))).
  - unfold sample_naming. naive_solver.
  - unfold sample_naming. naive_solver.
  - unfold sample_naming. repeat apply Forall_cons_2; simpl; auto.
Defined.

Lemma remember_trims_least_recent_witness :
  path_to_entry (remember 7 "/a" DirCacheState_new) !! "/a" = Some (mkDirCacheEntry 7 1).
Proof.
  apply (remember_trims_least_recent 7 "/a" DirCacheState_new).
  - unfold clock_ok. simpl. split_and!; [lia| |]; intros *; rewrite lookup_empty; done.
  - simpl. unfold u64_max. lia.
  - done.
  - done.
Defined.
