(* ===== verification/CentralDb.v ===== *)
(** * The central database: tables, statements and transactions

    Models [fs0-central/src/schema.sql] and [fs0-central/src/db.rs].  A table is
    the list of its rows in insertion order, an INTEGER column a [Z] in the i64
    range; a statement is a function from the database to its effect, with the
    schema's CHECK, UNIQUE and FOREIGN KEY constraints as the errors it can end
    with.  Which row id an INSERT takes is the engine's choice (class [RowIds]),
    of which [RowIdLaws] states the documented part.  A transaction body runs in
    the error-state monad over the database and the directory cache; the
    cache is not part of what a rollback undoes. *)

From S2P Require Import Prelude Types Paths DirCache.

(** ** Rows (schema.sql) *)

Record VolumeRow := mkVolumeRow {
  v_volume_id : Z; v_name : string; v_max_bytes : Z; v_max_volume_offset : Z }.

Record DirRow := mkDirRow {
  dr_dir_id : Z; dr_parent_dir_id : option Z; dr_name : string }.

Record FileRow := mkFileRow {
  f_file_id : Z; f_dir_id : Z; f_name : string; f_size_bytes : Z;
  f_compressed_size_bytes : Z; f_created_at_ms : Z; f_updated_at_ms : Z }.

Record FileBundleTuple := mkFileBundleTuple {
  fb_file_id : Z; fb_bundle_index : Z; fb_bundle_id : HashId }.

Record BundleReplicaRow := mkBundleReplicaRow {
  br_bundle_id : HashId; br_volume_id : Z; br_raw_len : Z; br_compressed_len : Z }.

Record LeaseTuple := mkLeaseTuple {
  l_lease_id : Z; l_file_id : Z; l_volume_id : Z; l_base_size_bytes : Z; l_offset_bytes : Z;
  l_prefer_volume_name : option string; l_expires_at_ms : Z; l_created_at_ms : Z }.

Record FileEventTuple := mkFileEventTuple {
  e_event_id : Z; e_event_type : string; e_new_dir : option string; e_new_name : option string;
  e_file_id : option Z; e_created_at_ms : Z }.

(** the tables, and [sqlite_sequence] for the AUTOINCREMENT ones *)
Record CentralDb := mkCentralDb {
  db_volumes : list VolumeRow;
  db_dirs : list DirRow;
  db_files : list FileRow;
  db_file_bundles : list FileBundleTuple;
  db_bundle_replicas : list BundleReplicaRow;
  db_update_leases : list LeaseTuple;
  db_file_events : list FileEventTuple;
  seq_volumes : Z; seq_files : Z; seq_update_leases : Z; seq_file_events : Z }.

Definition root_dir_row : DirRow := mkDirRow 0 None "".

(** the database [execute_batch(schema.sql)] makes of an empty file *)
Definition schema_db : CentralDb := mkCentralDb [] [root_dir_row] [] [] [] [] [] 0 0 0 0.

Definition set_volumes (db : CentralDb) rows seq : CentralDb :=
  mkCentralDb rows (db_dirs db) (db_files db) (db_file_bundles db) (db_bundle_replicas db)
    (db_update_leases db) (db_file_events db) seq (seq_files db) (seq_update_leases db)
    (seq_file_events db).
Definition set_dirs (db : CentralDb) rows : CentralDb :=
  mkCentralDb (db_volumes db) rows (db_files db) (db_file_bundles db) (db_bundle_replicas db)
    (db_update_leases db) (db_file_events db) (seq_volumes db) (seq_files db)
    (seq_update_leases db) (seq_file_events db).
Definition set_files (db : CentralDb) rows seq : CentralDb :=
  mkCentralDb (db_volumes db) (db_dirs db) rows (db_file_bundles db) (db_bundle_replicas db)
    (db_update_leases db) (db_file_events db) (seq_volumes db) seq (seq_update_leases db)
    (seq_file_events db).
Definition set_file_bundles (db : CentralDb) rows : CentralDb :=
  mkCentralDb (db_volumes db) (db_dirs db) (db_files db) rows (db_bundle_replicas db)
    (db_update_leases db) (db_file_events db) (seq_volumes db) (seq_files db)
    (seq_update_leases db) (seq_file_events db).
Definition set_bundle_replicas (db : CentralDb) rows : CentralDb :=
  mkCentralDb (db_volumes db) (db_dirs db) (db_files db) (db_file_bundles db) rows
    (db_update_leases db) (db_file_events db) (seq_volumes db) (seq_files db)
    (seq_update_leases db) (seq_file_events db).
Definition set_update_leases (db : CentralDb) rows seq : CentralDb :=
  mkCentralDb (db_volumes db) (db_dirs db) (db_files db) (db_file_bundles db)
    (db_bundle_replicas db) rows (db_file_events db) (seq_volumes db) (seq_files db) seq
    (seq_file_events db).
Definition set_file_events (db : CentralDb) rows seq : CentralDb :=
  mkCentralDb (db_volumes db) (db_dirs db) (db_files db) (db_file_bundles db)
    (db_bundle_replicas db) (db_update_leases db) rows (seq_volumes db) (seq_files db)
    (seq_update_leases db) seq.

(** ** Row ids *)

(** the row id of the next INSERT, from the ids in the table (and the largest id
    the table ever had, for AUTOINCREMENT); [None] is SQLITE_FULL *)
Class RowIds := {
  table_rowid : list Z → option Z;
  autoincrement_rowid : Z → list Z → option Z }.

Class RowIdLaws `{RowIds} : Prop := {
  table_rowid_fresh ids r : Forall (λ i, 0 ≤ i) ids →
    table_rowid ids = Some r → 0 < r ≤ i64_max ∧ r ∉ ids;
  autoincrement_rowid_fresh seq ids r : 0 ≤ seq → Forall (λ i, i ≤ seq) ids →
    autoincrement_rowid seq ids = Some r → seq < r ≤ i64_max }.

(** one more than the largest id, the common case *)
Definition next_rowid (ids : list Z) : option Z :=
  let r := foldr Z.max 0 ids + 1 in if bool_decide (r ≤ i64_max) then Some r else None.
Definition sequential_rowids : RowIds :=
  {| table_rowid := next_rowid; autoincrement_rowid seq ids := next_rowid (seq :: ids) |}.

#[local] Existing Instance sequential_rowids.

Lemma foldr_max_ge ids i : i ∈ ids → i ≤ foldr Z.max 0 ids.
Proof.
  induction ids as [|j ids IH]; [by intros []%elem_of_nil|].
  intros [->|Hi]%elem_of_cons; cbn [foldr]; [lia|]. specialize (IH Hi). lia.
Qed.

Lemma foldr_max_nonneg ids : 0 ≤ foldr Z.max 0 ids.
Proof. induction ids as [|j ids IH]; cbn [foldr]; lia. Qed.

Lemma sequential_rowid_laws : RowIdLaws.
Proof.
  split.
  - intros ids r _. simpl. unfold next_rowid. case_bool_decide; [|done]. intros [= <-].
    pose proof (foldr_max_nonneg ids). split; [lia|]. intros Hin%foldr_max_ge. lia.
  - intros seq ids r _ _. simpl. unfold next_rowid. case_bool_decide; [|done]. intros [= <-].
    pose proof (foldr_max_ge (seq :: ids) seq). set_solver by lia.
Qed.

(** ** Transactions *)

(** [CentralTx]: the database as the transaction sees it, and the cache *)
Record CentralTx := mkCentralTx { tx_db : CentralDb; tx_dir_cache : DirCacheState }.

Abbreviation Tx := (ST CentralTx Fs0Error).

(** a statement that changes the database, with the value the API reads off it
    (the last row id, the number of changes) *)
Definition Stmt (A : Type) : Type := CentralDb → Result SqlError (A * CentralDb).

Section Tx.
Context `{SqliteText}.

(** [self.inner.execute(..)?] *)
Definition sql {A} (stmt : Stmt A) : Tx A := λ s,
  match stmt (tx_db s) with
  | Ok (a, db) => (Ok a, mkCentralTx db (tx_dir_cache s))
  | Err e => (Err (from_sqlite e), s)
  end.

(** [self.inner.query_row(..)] and [stmt.query_map(..)]: a read *)
Definition query {A} (q : CentralDb → A) : Tx A := λ s, (Ok (q (tx_db s)), s).

(** [self.dir_cache.lock().method(..)] *)
Definition with_cache {A} (f : DirCacheState → A * DirCacheState) : Tx A := λ s,
  let '(a, c) := f (tx_dir_cache s) in (Ok a, mkCentralTx (tx_db s) c).

(** what the engine answers to BEGIN and COMMIT *)
Record TxEnv := mkTxEnv { tx_begin_error : option SqlError; tx_commit_error : option SqlError }.
Definition tx_env_ok : TxEnv := mkTxEnv None None.

(** [let tx = db.tx()?; body; tx.commit()?]: an early return drops the
    transaction, which rolls it back *)
Definition run_tx {A} (env : TxEnv) (body : Tx A) (s : CentralTx) : Fs0Result A * CentralTx :=
  match tx_begin_error env with
  | Some e => (Err (from_sqlite e), s)
  | None =>
      match body s with
      | (Ok a, s') =>
          match tx_commit_error env with
          | None => (Ok a, s')
          | Some e => (Err (from_sqlite e), mkCentralTx (tx_db s) (tx_dir_cache s'))
          end
      | (Err e, s') => (Err e, mkCentralTx (tx_db s) (tx_dir_cache s'))
      end
  end.

(** [let tx = db.tx()?; body] with no commit: always rolled back *)
Definition run_tx_read {A} (env : TxEnv) (body : Tx A) (s : CentralTx)
  : Fs0Result A * CentralTx :=
  match tx_begin_error env with
  | Some e => (Err (from_sqlite e), s)
  | None => let '(r, s') := body s in (r, mkCentralTx (tx_db s) (tx_dir_cache s'))
  end.
End Tx.

(** error texts for the witnesses *)
Definition plain_sqlite_text : SqliteText := λ e,
  match e with
  | FromSqlConversionFailure _ _ message => message
  | ConstraintUnique => "UNIQUE constraint failed"
  | ConstraintForeignKey => "FOREIGN KEY constraint failed"
  | ConstraintCheck => "CHECK constraint failed"
  | IntegerOverflow => "integer overflow"
  | QueryReturnedNoRows => "Query returned no rows"
  | DatabaseFull => "database or disk is full"
  end.

(** [CentralDb::open] on an empty file *)
Definition CentralDb_open : CentralTx := mkCentralTx schema_db DirCacheState_new.
