(* ===== verification/DirTree.v ===== *)
(** * The directory tree in the [dirs] table

    The well-formedness of the [dirs] table, the path a directory id stands for
    ([dir_at]) and the facts the directory operations rely on: a path names at
    most one directory, a directory has exactly one path, and that path is no
    longer than the table. *)

From S2P Require Import Prelude Types Paths DirCache CentralDb.

Definition dir_ids (ds : list DirRow) : list Z := map dr_dir_id ds.

(** the child of a directory under a name *)
Definition dir_child (ds : list DirRow) (parent : Z) (name : string) : option Z :=
  dr_dir_id <$> lfind (λ d, bool_decide (dr_parent_dir_id d = Some parent)
                            && bool_decide (dr_name d = name)) ds.

(** Rows are appended below a row already in the table; removing a row that has
    no child keeps this. *)
Inductive dirs_ok : list DirRow → Prop :=
| dirs_ok_root : dirs_ok [root_dir_row]
| dirs_ok_snoc ds id parent name :
    dirs_ok ds → parent ∈ dir_ids ds → id ∉ dir_ids ds → 0 < id ≤ i64_max →
    valid_component name = true → dir_child ds parent name = None →
    dirs_ok (ds ++ [mkDirRow id (Some parent) name]).

(** the directory [id] is the one at the path with components [cs] *)
Inductive dir_at (ds : list DirRow) : Z → list string → Prop :=
| dir_at_root : dir_at ds ROOT_DIR_ID []
| dir_at_child id parent name cs :
    dir_at ds parent cs → mkDirRow id (Some parent) name ∈ ds →
    dir_at ds id (cs ++ [name]).

(** the walk from the root along a path *)
Definition resolve (ds : list DirRow) (cs : list string) : option Z :=
  foldl (λ o c, parent ← o; dir_child ds parent c) (Some ROOT_DIR_ID) cs.

(** ** Rows *)

Lemma dir_child_Some ds parent name id :
  dir_child ds parent name = Some id → mkDirRow id (Some parent) name ∈ ds.
Proof.
  unfold dir_child. intros ([i p n] & Hf & ->)%fmap_Some.
  apply lfind_Some in Hf as [Hin [Hp%bool_decide_eq_true Hn%bool_decide_eq_true]%andb_true_iff].
  by simplify_eq/=.
Qed.

Lemma dir_child_None ds parent name :
  dir_child ds parent name = None ↔ ∀ id, mkDirRow id (Some parent) name ∉ ds.
Proof.
  unfold dir_child. rewrite fmap_None, lfind_None. split.
  - intros Hf id Hin. specialize (Hf _ Hin). simpl in Hf. by rewrite !bool_decide_true in Hf.
  - intros Hn [i p n] Hin. simpl. destruct (decide (p = Some parent ∧ n = name)) as [[-> ->]|Hne].
    + by apply Hn in Hin.
    + rewrite <- bool_decide_and. by apply bool_decide_eq_false.
Qed.

Lemma dir_ids_elem ds d : d ∈ ds → dr_dir_id d ∈ dir_ids ds.
Proof. intros. by apply (list_elem_of_fmap_2 dr_dir_id). Qed.

Lemma dir_ids_snoc ds d : dir_ids (ds ++ [d]) = dir_ids ds ++ [dr_dir_id d].
Proof. unfold dir_ids. by rewrite map_app. Qed.

Lemma dirs_ok_row ds d : dirs_ok ds → d ∈ ds →
  d = root_dir_row ∨
  ∃ parent, dr_parent_dir_id d = Some parent ∧ parent ∈ dir_ids ds ∧
            0 < dr_dir_id d ≤ i64_max ∧ valid_component (dr_name d) = true.
Proof.
  induction 1 as [|ds id parent name Hok IH Hp Hid Hr Hv Hc]; intros Hin.
  - apply list_elem_of_singleton in Hin. by left.
  - rewrite dir_ids_snoc. setoid_rewrite elem_of_app. apply elem_of_app in Hin as [Hin|Hin].
    + destruct (IH Hin) as [?|(p & ? & ? & ? & ?)]; [by left|]. right. exists p. auto.
    + apply list_elem_of_singleton in Hin as ->. right. exists parent. auto.
Qed.

Lemma dirs_ok_root_id ds : dirs_ok ds → ROOT_DIR_ID ∈ dir_ids ds.
Proof.
  induction 1; [by left|]. rewrite dir_ids_snoc. set_solver.
Qed.

Lemma dirs_ok_ids_range ds id : dirs_ok ds → id ∈ dir_ids ds → 0 ≤ id ≤ i64_max.
Proof.
  intros Hok (d & -> & Hd)%list_elem_of_fmap.
  destruct (dirs_ok_row ds d Hok Hd) as [->|(? & ? & ? & ? & ?)]; simpl; unfold i64_max in *; lia.
Qed.

Lemma dirs_ok_NoDup ds : dirs_ok ds → NoDup (dir_ids ds).
Proof.
  induction 1; [apply NoDup_singleton|]. rewrite dir_ids_snoc.
  apply NoDup_app. split_and!; [done|set_solver|apply NoDup_singleton].
Qed.

Lemma dirs_ok_unique_id ds d d' :
  dirs_ok ds → d ∈ ds → d' ∈ ds → dr_dir_id d = dr_dir_id d' → d = d'.
Proof.
  induction 1 as [|ds id parent name Hok IH Hp Hid Hr Hv Hc].
  - rewrite !list_elem_of_singleton. by intros -> ->.
  - rewrite !elem_of_app, !list_elem_of_singleton. intros [Hd| ->] [Hd'| ->]; auto; simpl; intros Heq.
    + destruct Hid. rewrite <- Heq. by apply dir_ids_elem.
    + destruct Hid. rewrite Heq. by apply dir_ids_elem.
Qed.

Lemma dirs_ok_unique_name ds id id' parent name :
  dirs_ok ds → mkDirRow id (Some parent) name ∈ ds → mkDirRow id' (Some parent) name ∈ ds → id = id'.
Proof.
  induction 1 as [|ds i p n Hok IH Hp Hid Hr Hv Hc].
  - rewrite !list_elem_of_singleton. by intros [=].
  - rewrite dir_child_None in Hc. rewrite !elem_of_app, !list_elem_of_singleton.
    intros [Hd|[= -> -> ->]] [Hd'|Heq]; [auto| | |by injection Heq].
    + injection Heq as -> -> ->. by apply Hc in Hd.
    + by apply Hc in Hd'.
Qed.

Lemma dir_child_spec ds parent name id :
  dirs_ok ds → dir_child ds parent name = Some id ↔ mkDirRow id (Some parent) name ∈ ds.
Proof.
  intros Hok. split; [apply dir_child_Some|]. intros Hin.
  destruct (dir_child ds parent name) as [id'|] eqn:Hc.
  - apply dir_child_Some in Hc. f_equal. by eapply dirs_ok_unique_name.
  - rewrite dir_child_None in Hc. by apply Hc in Hin.
Qed.

(** ** Paths *)

Lemma dir_at_mono ds ds' id cs : ds ⊆ ds' → dir_at ds id cs → dir_at ds' id cs.
Proof. intros Hsub. induction 1; [constructor|]. econstructor; eauto. Qed.

Lemma dir_at_id ds id cs : dirs_ok ds → dir_at ds id cs → id ∈ dir_ids ds.
Proof.
  intros Hok. destruct 1 as [|id parent name cs _ Hin]; [by apply dirs_ok_root_id|].
  by apply dir_ids_elem in Hin.
Qed.

Lemma dir_at_valid ds id cs :
  dirs_ok ds → dir_at ds id cs → Forall (λ c, valid_component c = true) cs.
Proof.
  intros Hok. induction 1 as [|id parent name cs _ IH Hin]; [constructor|].
  apply Forall_app. split; [done|]. constructor; [|constructor].
  destruct (dirs_ok_row _ _ Hok Hin) as [[=]|(? & ? & ? & ? & ?)]. done.
Qed.

Lemma dir_at_nil_inv ds id : dir_at ds id [] → id = ROOT_DIR_ID.
Proof.
  intros Hat. remember [] as cs eqn:Hcs. destruct Hat as [|id parent name cs]; [done|].
  by destruct cs.
Qed.

Lemma dir_at_snoc_inv ds id cs c :
  dir_at ds id (cs ++ [c]) → ∃ parent, dir_at ds parent cs ∧ mkDirRow id (Some parent) c ∈ ds.
Proof.
  intros Hat. remember (cs ++ [c]) as l eqn:Hl. destruct Hat as [|id parent name cs' Hat Hin].
  - by destruct cs.
  - apply app_inj_tail in Hl as [-> ->]. eauto.
Qed.

Lemma dir_at_root_nil ds cs : dirs_ok ds → dir_at ds ROOT_DIR_ID cs → cs = [].
Proof.
  intros Hok. destruct cs as [|c cs _] using rev_ind; [done|].
  intros (parent & _ & Hin)%dir_at_snoc_inv.
  destruct (dirs_ok_row _ _ Hok Hin) as [[=]|(? & ? & ? & Hr & ?)].
  simpl in Hr. unfold ROOT_DIR_ID in Hr. lia.
Qed.

(** a directory has one path *)
Lemma dir_at_path_unique ds id cs cs' :
  dirs_ok ds → dir_at ds id cs → dir_at ds id cs' → cs = cs'.
Proof.
  intros Hok Hat. revert cs'. induction Hat as [|id parent name cs Hat IH Hin]; intros cs' Hat'.
  - symmetry. by eapply dir_at_root_nil.
  - destruct cs' as [|c cs' _] using rev_ind.
    + apply dir_at_nil_inv in Hat'. subst. apply (dir_at_root_nil ds); [done|]. by econstructor.
    + apply dir_at_snoc_inv in Hat' as (p & Hat' & Hin').
      pose proof (dirs_ok_unique_id _ _ _ Hok Hin Hin' eq_refl) as [= <- <-].
      by rewrite (IH _ Hat').
Qed.

(** a path names one directory *)
Lemma dir_at_id_unique ds id id' cs :
  dirs_ok ds → dir_at ds id cs → dir_at ds id' cs → id = id'.
Proof.
  intros Hok Hat. revert id'. induction Hat as [|id parent name cs Hat IH Hin]; intros id' Hat'.
  - by apply dir_at_nil_inv in Hat'.
  - apply dir_at_snoc_inv in Hat' as (p & Hat' & Hin'). rewrite <- (IH _ Hat') in Hin'.
    by eapply dirs_ok_unique_name.
Qed.

(** every directory has a path, shorter than the table *)
Lemma dir_at_exists ds id :
  dirs_ok ds → id ∈ dir_ids ds → ∃ cs, dir_at ds id cs ∧ (length cs < length ds)%nat.
Proof.
  intros Hok. revert id. induction Hok as [|ds id' parent name Hok IH Hp Hid Hr Hv Hc]; intros id.
  - intros ->%list_elem_of_singleton. exists []. split; [constructor|simpl; lia].
  - rewrite dir_ids_snoc, length_app, elem_of_app, list_elem_of_singleton. simpl.
    intros [Hin| ->].
    + destruct (IH _ Hin) as (cs & Hat & Hlen). exists cs. split; [|lia].
      eapply dir_at_mono; [|done]. set_solver.
    + destruct (IH _ Hp) as (cs & Hat & Hlen). exists (cs ++ [name]).
      rewrite length_app. simpl. split; [|lia]. apply (dir_at_child _ _ parent).
      * eapply dir_at_mono; [|done]. set_solver.
      * set_solver.
Qed.

Lemma resolve_snoc ds cs c :
  resolve ds (cs ++ [c]) = (parent ← resolve ds cs; dir_child ds parent c).
Proof. unfold resolve. by rewrite foldl_app. Qed.

Lemma resolve_app_None ds cs names : resolve ds cs = None → resolve ds (cs ++ names) = None.
Proof.
  unfold resolve. rewrite foldl_app. intros ->. by induction names.
Qed.

Lemma resolve_dir_at ds cs id : dirs_ok ds → resolve ds cs = Some id ↔ dir_at ds id cs.
Proof.
  intros Hok. revert id. induction cs as [|c cs IH] using rev_ind; intros id.
  - split; [intros [= <-]; constructor|]. by intros ->%dir_at_nil_inv.
  - rewrite resolve_snoc, bind_Some. split.
    + intros (parent & Hp%IH & Hc%dir_child_Some). by econstructor.
    + intros (parent & Hat & Hin)%dir_at_snoc_inv. exists parent. split; [by apply IH|].
      by apply dir_child_spec.
Qed.

Lemma resolve_missing ds id cs name names :
  dirs_ok ds → dir_at ds id cs → dir_child ds id name = None →
  resolve ds ((cs ++ [name]) ++ names) = None.
Proof.
  intros Hok Hat%resolve_dir_at Hch; [|done]. apply resolve_app_None.
  by rewrite resolve_snoc, Hat.
Qed.

(** ** Growing along a path *)

(** every directory that is new lies on the way to [cs] *)
Definition dirs_along (ds ds' : list DirRow) (cs : list string) : Prop :=
  ∀ id p, dir_at ds' id p → dir_at ds id p ∨ p `prefix_of` cs.

Lemma dirs_along_refl ds cs : dirs_along ds ds cs.
Proof. intros id p Hat. by left. Qed.

Lemma dirs_along_trans ds ds1 ds2 cs1 cs :
  dirs_along ds ds1 cs1 → cs1 `prefix_of` cs → dirs_along ds1 ds2 cs → dirs_along ds ds2 cs.
Proof.
  intros H1 Hpre H2 id p [Hat|?]%H2; [|by right]. destruct (H1 id p Hat) as [?|?]; [by left|right; by etrans].
Qed.

Lemma dirs_along_snoc ds id' id cs name :
  dirs_ok ds → dir_at ds id cs → id' ∉ dir_ids ds →
  dirs_along ds (ds ++ [mkDirRow id' (Some id) name]) (cs ++ [name]).
Proof.
  intros Hok Hcs Hfresh i p Hat.
  assert (dir_at ds i p ∨ i = id' ∧ p = cs ++ [name]) as [?|[_ ->]]; [|by left|by right].
  induction Hat as [|i parent n p _ IH [Hin|Hin%list_elem_of_singleton]%elem_of_app]; [left; constructor|..].
  - destruct IH as [Hat|[-> _]]; [left; by econstructor|].
    by destruct (dirs_ok_row _ _ Hok Hin) as [[=]|(? & [= <-] & ? & _)].
  - injection Hin as -> -> ->. right. split; [done|]. destruct IH as [Hat|[-> _]].
    + by rewrite (dir_at_path_unique _ _ _ _ Hok Hat Hcs).
    + by apply dir_at_id in Hcs.
Qed.

Lemma prefix_snoc_inv {A} (p l : list A) x : p `prefix_of` l ++ [x] → p `prefix_of` l ∨ p = l ++ [x].
Proof.
  intros [k Hk]. destruct k as [|y k _] using rev_ind; [right; by rewrite app_nil_r in Hk|].
  rewrite app_assoc in Hk. apply app_inj_tail in Hk as [-> _]. left. by eexists.
Qed.

(** what lies on the way to a directory is one *)
Lemma dir_at_prefix ds id cs p : dir_at ds id cs → p `prefix_of` cs → ∃ id', dir_at ds id' p.
Proof.
  induction 1 as [|id parent name cs Hat IH Hin]; intros Hp.
  - apply prefix_nil_inv in Hp as ->. exists ROOT_DIR_ID. constructor.
  - apply prefix_snoc_inv in Hp as [Hp|Hp]; [by apply IH|]. exists id. rewrite Hp. by econstructor.
Qed.

(** ** Removing a leaf *)

Definition dirs_without (ds : list DirRow) (id : Z) : list DirRow :=
  base.filter (λ d, dr_dir_id d ≠ id) ds.

Lemma dirs_without_ids ds id i : i ∈ dir_ids (dirs_without ds id) ↔ i ∈ dir_ids ds ∧ i ≠ id.
Proof.
  unfold dir_ids, dirs_without. rewrite !list_elem_of_fmap. setoid_rewrite list_elem_of_filter.
  naive_solver.
Qed.

Lemma dirs_without_ok ds id :
  dirs_ok ds → id ≠ ROOT_DIR_ID → (∀ d, d ∈ ds → dr_parent_dir_id d ≠ Some id) →
  dirs_ok (dirs_without ds id).
Proof.
  intros Hok Hroot. induction Hok as [|ds i parent name Hok IH Hp Hid Hr Hv Hc]; intros Hleaf.
  - unfold dirs_without. rewrite filter_cons_True by (simpl; done). constructor.
  - unfold dirs_without. rewrite filter_app. fold (dirs_without ds id).
    assert (dirs_ok (dirs_without ds id)) as Hok' by (apply IH; set_solver).
    destruct (decide (i = id)) as [->|Hne].
    + by rewrite filter_cons_False, app_nil_r by (simpl; naive_solver).
    + rewrite filter_cons_True by done. rewrite filter_nil. constructor; [done|..].
      * apply dirs_without_ids. split; [done|].
        intros ->. apply (Hleaf (mkDirRow i (Some id) name)); [set_solver|done].
      * rewrite dirs_without_ids. naive_solver.
      * done.
      * done.
      * rewrite dir_child_None in Hc |- *. unfold dirs_without. intros j.
        rewrite list_elem_of_filter. naive_solver.
Qed.

Lemma dir_at_without ds id i cs :
  (∀ d, d ∈ ds → dr_parent_dir_id d ≠ Some id) → dir_at ds i cs → i ≠ id →
  dir_at (dirs_without ds id) i cs.
Proof.
  intros Hleaf. induction 1 as [|i parent name cs Hat IH Hin]; intros Hne; [constructor|].
  apply (dir_at_child _ _ parent).
  - apply IH. intros ->. by apply Hleaf in Hin.
  - by apply list_elem_of_filter.
Qed.

#[export] Hint Resolve dirs_ok_root_id dirs_ok_NoDup : fs0.
