(* ===== verification/CentralInv.v ===== *)
(** * The invariant of the central database

    [db_ok] states what the schema and the statements of [fs0-central/src/db/]
    keep true of every table: the ids and keys are unique, the references are to
    rows that exist, the numbers are non-negative [i64]s, a file and a directory
    never share a name in a directory, and the events are in id order.  The
    [db_ok_set_*] lemmas say what is left to show when one table changes. *)

From S2P Require Import Prelude Types Paths DirCache CentralDb DirTree.

Definition file_ids (db : CentralDb) : list Z := map f_file_id (db_files db).
Definition volume_ids (db : CentralDb) : list Z := map v_volume_id (db_volumes db).

Definition volume_row_ok (seq : Z) (v : VolumeRow) : Prop :=
  0 < v_volume_id v ≤ seq ∧ is_i64_nonneg (v_max_bytes v) ∧ is_i64_nonneg (v_max_volume_offset v).

Definition file_row_ok (ds : list DirRow) (seq : Z) (f : FileRow) : Prop :=
  0 < f_file_id f ≤ seq ∧ f_dir_id f ∈ dir_ids ds ∧ valid_component (f_name f) = true ∧
  dir_child ds (f_dir_id f) (f_name f) = None ∧
  is_i64_nonneg (f_size_bytes f) ∧ is_i64_nonneg (f_compressed_size_bytes f) ∧
  is_i64_nonneg (f_created_at_ms f) ∧ is_i64_nonneg (f_updated_at_ms f).

Definition bundle_row_ok (files : list Z) (b : FileBundleTuple) : Prop :=
  is_i64_nonneg (fb_bundle_index b) ∧ fb_file_id b ∈ files.

Definition replica_row_ok (volumes : list Z) (r : BundleReplicaRow) : Prop :=
  br_volume_id r ∈ volumes ∧ 0 < br_raw_len r ≤ i64_max ∧ 0 < br_compressed_len r ≤ i64_max.

Definition lease_row_ok (files volumes : list Z) (seq : Z) (l : LeaseTuple) : Prop :=
  0 < l_lease_id l ≤ seq ∧ l_file_id l ∈ files ∧ l_volume_id l ∈ volumes ∧
  is_i64_nonneg (l_base_size_bytes l) ∧ is_i64_nonneg (l_offset_bytes l) ∧
  is_i64_nonneg (l_expires_at_ms l).

Definition event_row_ok (seq : Z) (e : FileEventTuple) : Prop :=
  0 < e_event_id e ≤ seq ∧ e_event_type e ∈ ["created"; "updated"; "moved"; "deleted"] ∧
  is_i64_nonneg (default 0 (e_file_id e)) ∧ is_i64_nonneg (e_created_at_ms e).

Definition file_key (f : FileRow) : Z * string := (f_dir_id f, f_name f).
Definition bundle_key (b : FileBundleTuple) : Z * Z := (fb_file_id b, fb_bundle_index b).
Definition replica_key (r : BundleReplicaRow) : HashId * Z := (br_bundle_id r, br_volume_id r).
Definition event_lt (e e' : FileEventTuple) : Prop := e_event_id e < e_event_id e'.

Record db_ok (db : CentralDb) : Prop := {
  ok_dirs : dirs_ok (db_dirs db);
  ok_volumes : Forall (volume_row_ok (seq_volumes db)) (db_volumes db);
  ok_volume_ids : NoDup (volume_ids db);
  ok_files : Forall (file_row_ok (db_dirs db) (seq_files db)) (db_files db);
  ok_file_ids : NoDup (file_ids db);
  ok_file_keys : NoDup (map file_key (db_files db));
  ok_bundles : Forall (bundle_row_ok (file_ids db)) (db_file_bundles db);
  ok_bundle_keys : NoDup (map bundle_key (db_file_bundles db));
  ok_replicas : Forall (replica_row_ok (volume_ids db)) (db_bundle_replicas db);
  ok_replica_keys : NoDup (map replica_key (db_bundle_replicas db));
  ok_leases : Forall (lease_row_ok (file_ids db) (volume_ids db) (seq_update_leases db))
                (db_update_leases db);
  ok_lease_ids : NoDup (map l_lease_id (db_update_leases db));
  ok_lease_files : NoDup (map l_file_id (db_update_leases db));
  ok_events : Forall (event_row_ok (seq_file_events db)) (db_file_events db);
  ok_event_order : StronglySorted event_lt (db_file_events db);
  ok_seqs : is_i64_nonneg (seq_volumes db) ∧ is_i64_nonneg (seq_files db) ∧
            is_i64_nonneg (seq_update_leases db) ∧ is_i64_nonneg (seq_file_events db) }.

(** the empty database of the schema *)
Lemma schema_db_ok : db_ok schema_db.
Proof.
  split; simpl; try apply Forall_nil_2; try constructor; unfold is_i64_nonneg, i64_max; lia.
Qed.

(** ** What is left to show when one table changes *)

Lemma set_dirs_id db : set_dirs db (db_dirs db) = db.
Proof. by destruct db. Qed.

Lemma db_ok_set_dirs db rows :
  db_ok db → dirs_ok rows →
  (∀ f, f ∈ db_files db → f_dir_id f ∈ dir_ids rows ∧ dir_child rows (f_dir_id f) (f_name f) = None) →
  db_ok (set_dirs db rows).
Proof.
  intros Hok Hrows Hf. destruct Hok. split; simpl; try done.
  rewrite Forall_forall in * |- *. intros f Hin. specialize (Hf f Hin).
  specialize (ok_files0 f Hin). unfold file_row_ok in *. tauto.
Qed.

Lemma db_ok_set_volumes db rows seq :
  db_ok db → Forall (volume_row_ok seq) rows → NoDup (map v_volume_id rows) →
  is_i64_nonneg seq → volume_ids db ⊆ map v_volume_id rows →
  db_ok (set_volumes db rows seq).
Proof.
  intros Hok Hrows Hnd Hseq Hsub. destruct Hok. split; simpl; try done.
  - eapply Forall_impl; [done|]. unfold replica_row_ok. intros r (? & ?). split; [|done]. set_solver.
  - eapply Forall_impl; [done|]. unfold lease_row_ok. intros r. naive_solver.
  - tauto.
Qed.

Lemma db_ok_set_files db rows seq :
  db_ok db → Forall (file_row_ok (db_dirs db) seq) rows → NoDup (map f_file_id rows) →
  NoDup (map file_key rows) → is_i64_nonneg seq →
  (∀ b, b ∈ db_file_bundles db → fb_file_id b ∈ map f_file_id rows) →
  (∀ l, l ∈ db_update_leases db → l_file_id l ∈ map f_file_id rows) →
  db_ok (set_files db rows seq).
Proof.
  intros Hok Hrows Hids Hkeys Hseq Hb Hl. destruct Hok. split; simpl; try done; [| |tauto].
  - rewrite Forall_forall in * |- *. intros b Hin. split; [|by apply Hb].
    by apply ok_bundles0.
  - rewrite Forall_forall in ok_leases0 |- *. intros l Hin.
    destruct (ok_leases0 l Hin) as (? & _ & ?). split; [done|]. split; [|done]. by apply Hl.
Qed.

Lemma db_ok_set_file_bundles db rows :
  db_ok db → Forall (bundle_row_ok (file_ids db)) rows → NoDup (map bundle_key rows) →
  db_ok (set_file_bundles db rows).
Proof. intros [] ??. by split. Qed.

Lemma db_ok_set_bundle_replicas db rows :
  db_ok db → Forall (replica_row_ok (volume_ids db)) rows → NoDup (map replica_key rows) →
  db_ok (set_bundle_replicas db rows).
Proof. intros [] ??. by split. Qed.

Lemma db_ok_set_update_leases db rows seq :
  db_ok db → Forall (lease_row_ok (file_ids db) (volume_ids db) seq) rows →
  NoDup (map l_lease_id rows) → NoDup (map l_file_id rows) → is_i64_nonneg seq →
  db_ok (set_update_leases db rows seq).
Proof. intros [] ????. split; try done. simpl. tauto. Qed.

Lemma db_ok_set_file_events db rows seq :
  db_ok db → Forall (event_row_ok seq) rows → StronglySorted event_lt rows →
  is_i64_nonneg seq → db_ok (set_file_events db rows seq).
Proof. intros [] ???. split; try done. simpl. tauto. Qed.
