(* ===== verification/Sample.v ===== *)
(** * A small central database for concrete instances

    Two volumes, the directory [/docs] with two files, one of which is stored
    in a bundle with two replicas and the other of which is being written, and
    the request that commits that update.  The theorems about the handlers are
    applied to it where they have hypotheses. *)

From S2P Require Import Prelude Types Paths DirCache CentralDb DirTree CentralInv.

Definition sample_hash : HashId := hash_repeat Byte.x01.
Definition sample_hash2 : HashId := hash_repeat Byte.x02.

Definition sample_dirs : list DirRow := [root_dir_row; mkDirRow 1 (Some 0) "docs"; mkDirRow 2 (Some 1) "old"].
Definition sample_file : FileRow := mkFileRow 1 1 "a.txt" 10 5 100 100.
Definition sample_new_file : FileRow := mkFileRow 2 1 "b.txt" 0 0 200 200.
Definition sample_lease : LeaseTuple := mkLeaseTuple 1 2 1 0 0 (Some "disk") 60200 200.
Definition sample_event : FileEventTuple :=
  mkFileEventTuple 1 "created" (Some "/docs") (Some "a.txt") (Some 1) 150.

Definition sample_db : CentralDb := mkCentralDb
  [mkVolumeRow 1 "disk" 1000 20; mkVolumeRow 2 "backup" 1000 10]
  sample_dirs
  [sample_file; sample_new_file]
  [mkFileBundleTuple 1 0 sample_hash]
  [mkBundleReplicaRow sample_hash 1 10 5; mkBundleReplicaRow sample_hash 2 10 5;
   mkBundleReplicaRow sample_hash2 1 7 4]
  [sample_lease]
  [sample_event]
  2 2 1 1.

Definition sample_tx : CentralTx := mkCentralTx sample_db DirCacheState_new.

(** the commit of seven bytes to [/docs/b.txt] *)
Definition sample_commit : CommitUpdateRequest :=
  mkCommitUpdateRequest 1 2 0 7 [mkCommittedBundle sample_hash2 7 4].

Lemma sample_hash_ne : sample_hash ≠ sample_hash2.
Proof. by apply (bool_decide_unpack (sample_hash ≠ sample_hash2)); vm_compute. Qed.

Lemma sample_dirs_ok : dirs_ok sample_dirs.
Proof.
  change sample_dirs with (([root_dir_row] ++ [mkDirRow 1 (Some 0) "docs"]) ++ [mkDirRow 2 (Some 1) "old"]).
  repeat constructor; simpl; try set_solver; try done.
Qed.

Lemma sample_db_ok : db_ok sample_db.
Proof.
  split; try apply sample_dirs_ok; cbn [sample_db db_volumes db_dirs db_files db_file_bundles
    db_bundle_replicas db_update_leases db_file_events seq_volumes seq_files seq_update_leases
    seq_file_events].
  all: repeat (apply Forall_cons_2 || apply Forall_nil_2 || constructor).
  all: try by (apply (bool_decide_unpack _); vm_compute).
  all: try (unfold is_i64_nonneg, i64_max; simpl; lia).
  all: unfold is_i64_nonneg, i64_max; simpl; split_and?; try lia; try set_solver; try done.
  all: cbn; set_solver.
Qed.
