(* ===== verification/CentralDir.v ===== *)
(** * Directories of the central database

    Models the [CentralTx] methods of [fs0-central/src/db/dir.rs]: creating,
    removing and listing directories and the two lookups through the cache.
    Under the invariant of this file (a well-formed tree, a cache that only
    names directories of the tree) the lookups are the uncached walks, a new
    directory is at its path, and the walk to the root ends. *)

From S2P Require Import Prelude Types Paths DirCache CentralDb DirTree CentralInv Sample.

(** ** Statements *)

Section Stmts.
Context `{SqliteText, RowIds}.

(** [SELECT dir_id FROM dirs WHERE parent_dir_id = ?1 AND name = ?2], optional *)
Definition select_dir_id (parent : Z) (name : string) : Tx (option Z) :=
  row ← query (λ db, dir_child (db_dirs db) parent name);
  st_lift (row_optional_u64 0 "dir_id" row).

(** [SELECT file_id FROM files WHERE dir_id = ?1 AND name = ?2 LIMIT 1], optional *)
Definition child_file_id (db : CentralDb) (dir_id : Z) (name : string) : option Z :=
  f_file_id <$> lfind (λ f, bool_decide (f_dir_id f = dir_id) && bool_decide (f_name f = name))
                  (db_files db).
Definition select_child_file_id (dir_id : Z) (name : string) : Tx (option Z) :=
  row ← query (λ db, child_file_id db dir_id name);
  st_lift (row_optional_u64 0 "file_id" row).

(** [INSERT INTO dirs (parent_dir_id, name) VALUES (?1, ?2)]; the foreign key is
    checked with the new row in the table *)
Definition insert_dir (parent : Z) (name : string) : Stmt Z := λ db,
  match table_rowid (dir_ids (db_dirs db)) with
  | None => Err DatabaseFull
  | Some id =>
      let rows := db_dirs db ++ [mkDirRow id (Some parent) name] in
      if bool_decide (id = 0) || bool_decide (name = "") then Err ConstraintCheck
      else if bool_decide (is_Some (dir_child (db_dirs db) parent name)) then Err ConstraintUnique
      else if bool_decide (parent ∈ dir_ids rows) then Ok (id, set_dirs db rows)
      else Err ConstraintForeignKey
  end.

(** [SELECT COUNT( * ) FROM dirs WHERE parent_dir_id = ?1] *)
Definition count_child_dirs (db : CentralDb) (dir_id : Z) : Z :=
  Z.of_nat (length (base.filter (λ d, dr_parent_dir_id d = Some dir_id) (db_dirs db))).
(** [SELECT COUNT( * ) FROM files WHERE dir_id = ?1] *)
Definition count_child_files (db : CentralDb) (dir_id : Z) : Z :=
  Z.of_nat (length (base.filter (λ f, f_dir_id f = dir_id) (db_files db))).

(** [DELETE FROM dirs WHERE dir_id = ?1]; NO ACTION foreign keys *)
Definition delete_dir (dir_id : Z) : Stmt unit := λ db,
  if bool_decide (dir_id ∈ dir_ids (db_dirs db))
     && (existsb (λ d, bool_decide (dr_parent_dir_id d = Some dir_id)
                       && bool_decide (dr_dir_id d ≠ dir_id)) (db_dirs db)
         || existsb (λ f, bool_decide (f_dir_id f = dir_id)) (db_files db))
  then Err ConstraintForeignKey
  else Ok (tt, set_dirs db (dirs_without (db_dirs db) dir_id)).

(** [SELECT dir_id, parent_dir_id, name FROM dirs WHERE dir_id = ?1], optional *)
Definition select_dir (db : CentralDb) (dir_id : Z) : option DirRow :=
  lfind (λ d, bool_decide (dr_dir_id d = dir_id)) (db_dirs db).
Definition row_to_dir (row : DirRow) : Fs0Result DirRow :=
  dir_id ← row_u64 0 "dir_id" (dr_dir_id row);
  parent ← row_optional_u64 1 "parent_dir_id" (dr_parent_dir_id row);
  Ok (mkDirRow dir_id parent (dr_name row)).

(** [SELECT .. FROM files WHERE dir_id = ?1 ORDER BY name LIMIT ?2 OFFSET ?3] *)
Definition file_name_le (f g : FileRow) : Prop := String.le (f_name f) (f_name g).
#[export] Instance file_name_le_dec : RelDecision file_name_le.
Proof. intros f g. unfold file_name_le. apply _. Defined.

Definition files_of_dir (db : CentralDb) (dir_id : Z) : list FileRow :=
  merge_sort file_name_le (base.filter (λ f, f_dir_id f = dir_id) (db_files db)).
Definition select_dir_files (db : CentralDb) (dir_id limit offset : Z) : list FileRow :=
  take (Z.to_nat limit) (drop (Z.to_nat offset) (files_of_dir db dir_id)).
End Stmts.

(** ** The methods *)

Section Methods.
Context `{SqliteText, RowIds}.

Definition ensure_child_name_available (parent_dir_id : Z) (name : string)
    (existing_file_id : option Z) (path : string) : Tx unit :=
  parent ← st_lift (u64_to_i64 parent_dir_id "parent_dir_id");
  child_dir ← query (λ db, dir_child (db_dirs db) parent name);
  if bool_decide (is_Some child_dir) then st_fail (AlreadyExists path)
  else
    parent ← st_lift (u64_to_i64 parent_dir_id "parent_dir_id");
    child_file ← select_child_file_id parent name;
    match child_file with
    | Some file_id =>
        if bool_decide (Some file_id ≠ existing_file_id) then st_fail (AlreadyExists path)
        else mret tt
    | None => mret tt
    end.

(** the body of the loop of [create_dir] for one component that is not cached *)
Definition create_dir_step (dir_id : Z) (name current_path : string) : Tx Z :=
  parent ← st_lift (u64_to_i64 dir_id "parent_dir_id");
  existing ← select_dir_id parent name;
  match existing with
  | Some existing_dir_id =>
      with_cache (λ c, (tt, remember existing_dir_id current_path c));;
      mret existing_dir_id
  | None =>
      ensure_child_name_available dir_id name None current_path;;
      parent ← st_lift (u64_to_i64 dir_id "parent_dir_id");
      rowid ← sql (insert_dir parent name);
      st_lift (i64_to_u64 rowid "dir_id")
  end.

(** [for name in split_fs0_path_components(path)?] of [create_dir] *)
Fixpoint create_dir_loop (names : list string) (dir_id : Z) (current_path : string) : Tx Z :=
  match names with
  | [] => mret dir_id
  | name :: names =>
      current_path ← st_lift (join_fs0_path current_path name);
      cached ← with_cache (get_id current_path);
      match cached with
      | Some cached_dir_id => create_dir_loop names cached_dir_id current_path
      | None =>
          dir_id ← create_dir_step dir_id name current_path;
          create_dir_loop names dir_id current_path
      end
  end.

Definition create_dir (path : string) : Tx Z :=
  cached ← with_cache (get_id path);
  match cached with
  | Some dir_id => mret dir_id
  | None =>
      names ← st_lift (split_fs0_path_components path);
      create_dir_loop names ROOT_DIR_ID "/"
  end.

Definition get_dir_id_step (dir_id : Z) (name current_path : string) : Tx Z :=
  parent ← st_lift (u64_to_i64 dir_id "parent_dir_id");
  row ← select_dir_id parent name;
  dir_id ← st_lift (ok_or NotFound row);
  with_cache (λ c, (tt, remember dir_id current_path c));;
  mret dir_id.

Fixpoint get_dir_id_loop (names : list string) (dir_id : Z) (current_path : string) : Tx Z :=
  match names with
  | [] => mret dir_id
  | name :: names =>
      current_path ← st_lift (join_fs0_path current_path name);
      cached ← with_cache (get_id current_path);
      match cached with
      | Some cached_dir_id => get_dir_id_loop names cached_dir_id current_path
      | None =>
          dir_id ← get_dir_id_step dir_id name current_path;
          get_dir_id_loop names dir_id current_path
      end
  end.

Definition get_dir_id_by_path (path : string) : Tx Z :=
  cached ← with_cache (get_id path);
  match cached with
  | Some dir_id => mret dir_id
  | None =>
      names ← st_lift (split_fs0_path_components path);
      get_dir_id_loop names ROOT_DIR_ID "/"
  end.

(** the [loop] of [get_dir_path_by_id]; [None] is a loop still running when
    the fuel is used up *)
Fixpoint dir_path_loop (fuel : nat) (db : CentralDb) (current_dir_id : Z) (names : list string)
  : option (Fs0Result (list string)) :=
  match fuel with
  | O => None
  | S fuel =>
      match
        key ← u64_to_i64 current_dir_id "dir_id";
        row ← match select_dir db key with
              | None => Ok None
              | Some row => row ← row_to_dir row; Ok (Some row)
              end;
        ok_or NotFound row
      with
      | Err e => Some (Err e)
      | Ok dir =>
          if bool_decide (dr_dir_id dir = ROOT_DIR_ID) then Some (Ok names)
          else
            let names := names ++ [dr_name dir] in
            match dr_parent_dir_id dir with
            | None => Some (Err (InvalidData ("dir " +:+ pretty current_dir_id +:+ " has no parent")))
            | Some parent => dir_path_loop fuel db parent names
            end
      end
  end.

(** never the result when the table is well formed, see [get_dir_path_by_id_run] *)
Definition out_of_fuel : Fs0Error := Internal "directory walk out of fuel".

Definition get_dir_path_by_id (dir_id : Z) : Tx string :=
  cached ← with_cache (get_path dir_id);
  match cached with
  | Some path => mret path
  | None =>
      result ← query (λ db, dir_path_loop (S (length (db_dirs db))) db dir_id []);
      names ← st_lift (default (Err out_of_fuel) result);
      let path := "/" +:+ String.concat "/" (reverse names) in
      with_cache (λ c, (tt, remember dir_id path c));;
      mret path
  end.

Definition remove_dir (path : string) : Tx unit :=
  if bool_decide (path = "/") then st_fail InvalidRequest
  else
    dir_id ← get_dir_id_by_path path;
    if bool_decide (dir_id = ROOT_DIR_ID) then st_fail InvalidRequest
    else
      key ← st_lift (u64_to_i64 dir_id "dir_id");
      child_dirs ← query (λ db, count_child_dirs db key);
      child_dirs ← st_lift (row_u64 0 "child_dirs" child_dirs);
      child_files ← query (λ db, count_child_files db key);
      child_files ← st_lift (row_u64 0 "child_files" child_files);
      if bool_decide (child_dirs ≠ 0) || bool_decide (child_files ≠ 0)
      then st_fail InvalidRequest
      else
        sql (delete_dir key);;
        with_cache (λ c, (tt, forget dir_id path c)).

Definition row_to_directory_entry (dir : string) (row : FileRow) : Fs0Result DirectoryEntry :=
  file_id ← row_u64 0 "file_id" (f_file_id row);
  path ← join_fs0_path dir (f_name row);
  size_bytes ← row_u64 3 "size_bytes" (f_size_bytes row);
  compressed_size_bytes ← row_u64 4 "compressed_size_bytes" (f_compressed_size_bytes row);
  created_at_ms ← row_u64 5 "created_at_ms" (f_created_at_ms row);
  updated_at_ms ← row_u64 6 "updated_at_ms" (f_updated_at_ms row);
  Ok (mkDirectoryEntry (f_name row) path file_id size_bytes compressed_size_bytes
        created_at_ms updated_at_ms).

Definition list_directory (dir : string) (limit : Z) (cursor : option Z) : Tx DirectoryEntries :=
  let limit := zclamp 1 1024 limit in
  let offset := default 0 cursor in
  dir_id ← get_dir_id_by_path dir;
  key ← st_lift (u64_to_i64 dir_id "dir_id");
  sql_limit ← st_lift (u64_to_i64 (limit + 1) "limit");
  sql_offset ← st_lift (u64_to_i64 offset "cursor");
  rows ← query (λ db, select_dir_files db key sql_limit sql_offset);
  entries ← st_lift (collect (row_to_directory_entry dir) rows);
  mret (if bool_decide (limit < Z.of_nat (length entries))
        then mkDirectoryEntries (take (Z.to_nat limit) entries) (Some (offset + limit))
        else mkDirectoryEntries entries None).

Definition file_record (file : FileRow) : Tx FileRecord :=
  dir ← get_dir_path_by_id (f_dir_id file);
  path ← st_lift (join_fs0_path dir (f_name file));
  mret (mkFileRecord (f_file_id file) path (f_size_bytes file) (f_compressed_size_bytes file)
          (f_created_at_ms file) (f_updated_at_ms file)).
End Methods.

(** ** Facts *)

(** the directory [id] of the tree is the one [p] names *)
Definition tree_names (ds : list DirRow) (id : Z) (p : string) : Prop :=
  ∃ cs, cs ≠ [] ∧ p = render cs ∧ dir_at ds id cs.

(** the cache only names directories of [ds] *)
Definition cache_ok (ds : list DirRow) (c : DirCacheState) : Prop := cache_sound (tree_names ds) c.

Lemma tree_names_mono ds ds' id p : ds ⊆ ds' → tree_names ds id p → tree_names ds' id p.
Proof. intros Hsub (cs & ? & ? & ?). exists cs. eauto using dir_at_mono. Qed.

Lemma cache_ok_mono ds ds' c : ds ⊆ ds' → cache_ok ds c → cache_ok ds' c.
Proof.
  intros Hsub [Hp Hi]. split; intros; eapply tree_names_mono; eauto.
Qed.

Lemma empty_cache_ok ds : cache_ok ds DirCacheState_new.
Proof. split; intros *; simpl; rewrite lookup_empty; done. Qed.

Lemma render_root cs : Forall (λ c, valid_component c = true) cs → render cs = "/" → cs = [].
Proof. intros Hv Heq. by apply (render_inj cs []). Qed.

Section Facts.
Context `{SqliteText, RowIds, !RowIdLaws}.

(** *** Cache answers *)

Lemma get_id_hit ds c cs id :
  dirs_ok ds → cache_ok ds c → Forall (λ c, valid_component c = true) cs →
  (get_id (render cs) c).1 = Some id → dir_at ds id cs.
Proof.
  intros Hok [Hp _] Hv. rewrite get_id_answer. case_bool_decide as Hroot.
  - intros [= <-]. rewrite (render_root cs) by done. constructor.
  - intros ([i t] & He & ->)%fmap_Some. apply Hp in He as (cs' & _ & Heq & Hat). simpl in *.
    apply render_inj in Heq as ->; [done..|]. by eapply dir_at_valid.
Qed.

Lemma get_id_hit_path ds c p id :
  dirs_ok ds → cache_ok ds c → (get_id p c).1 = Some id →
  ∃ cs, split_fs0_path_components p = Ok cs ∧ dir_at ds id cs.
Proof.
  intros Hok Hc Hhit. destruct (decide (p = "/")) as [->|Hroot].
  - exists []. split; [done|]. rewrite get_id_answer, bool_decide_true in Hhit by done.
    injection Hhit as <-. constructor.
  - rewrite get_id_answer, bool_decide_false in Hhit by done.
    apply fmap_Some in Hhit as ([i t] & He & ->). apply Hc in He as (cs & Hne & -> & Hat).
    exists cs. split; [|done]. apply split_components_render. split; [done|].
    by eapply dir_at_valid.
Qed.

Lemma with_get_id_run p s :
  with_cache (get_id p) s =
  (Ok (get_id p (tx_dir_cache s)).1, mkCentralTx (tx_db s) (get_id p (tx_dir_cache s)).2).
Proof. unfold with_cache. by destruct (get_id p (tx_dir_cache s)). Qed.

Lemma get_id_cache_ok ds p c : cache_ok ds c → cache_ok ds (get_id p c).2.
Proof. apply get_id_sound. Qed.

Lemma remember_cache_ok ds c id cs :
  cs ≠ [] → dir_at ds id cs → cache_ok ds c → cache_ok ds (remember id (render cs) c).
Proof. intros. apply remember_sound; [|done]. by exists cs. Qed.

(** *** Statements *)

Lemma dir_child_nonneg ds parent name id :
  dirs_ok ds → dir_child ds parent name = Some id → 0 ≤ id ≤ i64_max.
Proof.
  intros Hok Hc%dir_child_Some. apply dir_ids_elem in Hc. by eapply dirs_ok_ids_range.
Qed.

Lemma select_dir_id_run s parent name :
  dirs_ok (db_dirs (tx_db s)) →
  select_dir_id parent name s = (Ok (dir_child (db_dirs (tx_db s)) parent name), s).
Proof.
  intros Hok. unfold select_dir_id, mbind, ST_bind, query, st_lift. f_equal.
  apply row_optional_u64_Ok. split; [done|]. intros id Hid.
  by apply dir_child_nonneg in Hid as [? _].
Qed.

Lemma join_valid cs name :
  Forall (λ c, valid_component c = true) cs →
  join_fs0_path (render cs) name = Ok (render (cs ++ [name])).
Proof. apply join_render_valid. Qed.

Lemma dir_at_i64 ds id cs name : dirs_ok ds → dir_at ds id cs → u64_to_i64 id name = Ok id.
Proof.
  intros Hok Hat. apply u64_to_i64_fits.
  apply (dir_at_id ds) in Hat; [|done]. apply dirs_ok_ids_range in Hat; [lia|done].
Qed.

(** *** Lookup by path *)

Lemma get_dir_id_step_run s ds id cs name :
  ds = db_dirs (tx_db s) → dirs_ok ds → cache_ok ds (tx_dir_cache s) → dir_at ds id cs →
  ∃ c', get_dir_id_step id name (render (cs ++ [name])) s =
        (ok_or NotFound (dir_child ds id name), mkCentralTx (tx_db s) c') ∧ cache_ok ds c'.
Proof.
  intros -> Hok Hc Hat. unfold get_dir_id_step.
  rewrite (ST_bind_run _ _ s id s) by (unfold st_lift; by erewrite dir_at_i64).
  rewrite (ST_bind_run _ _ _ _ _ (select_dir_id_run s id name Hok)).
  destruct (dir_child _ id name) as [id'|] eqn:Hch; simpl.
  - eexists. split; [done|]. apply remember_cache_ok; [by destruct cs| |done].
    econstructor; [done|]. by apply dir_child_Some.
  - exists (tx_dir_cache s). split; [by destruct s|done].
Qed.

Lemma get_dir_id_loop_run names cs id s ds :
  ds = db_dirs (tx_db s) → dirs_ok ds → cache_ok ds (tx_dir_cache s) → dir_at ds id cs →
  Forall (λ c, valid_component c = true) names →
  ∃ c', get_dir_id_loop names id (render cs) s =
        (ok_or NotFound (resolve ds (cs ++ names)), mkCentralTx (tx_db s) c') ∧ cache_ok ds c'.
Proof.
  intros Hds Hok. revert cs id s Hds. induction names as [|name names IH];
    intros cs id s Hds Hc Hat Hv; simpl.
  - exists (tx_dir_cache s). rewrite app_nil_r.
    apply resolve_dir_at in Hat as ->; [|done]. by destruct s.
  - apply Forall_cons in Hv as [Hname Hv]. pose proof (dir_at_valid _ _ _ Hok Hat) as Hcs.
    rewrite (ST_bind_run _ _ s (render (cs ++ [name])) s) by (unfold st_lift; by rewrite join_valid).
    rewrite (ST_bind_run _ _ _ _ _ (with_get_id_run _ _)).
    pose proof (get_id_cache_ok _ (render (cs ++ [name])) _ Hc) as Hc'.
    destruct (get_id (render (cs ++ [name])) (tx_dir_cache s)) as [hit c1] eqn:Hget. simpl in *.
    replace (cs ++ name :: names) with ((cs ++ [name]) ++ names) by by rewrite <- app_assoc.
    destruct hit as [id'|].
    + apply (IH _ _ (mkCentralTx (tx_db s) c1)); [done|done| |done].
      apply (get_id_hit _ (tx_dir_cache s)); [done|done| |by rewrite Hget].
      apply Forall_app. auto.
    + destruct (get_dir_id_step_run (mkCentralTx (tx_db s) c1) ds id cs name) as (c2 & Hrun & Hc2);
        [done..|].
      assert (resolve ds (cs ++ [name]) = dir_child ds id name) as Hres.
      { rewrite resolve_snoc. by apply resolve_dir_at in Hat as ->. }
      destruct (dir_child ds id name) as [id'|] eqn:Hch; simpl in Hrun.
      * rewrite (ST_bind_run _ _ _ _ _ Hrun).
        apply (IH _ _ (mkCentralTx (tx_db s) c2)); [done|done| |done].
        by apply resolve_dir_at.
      * rewrite (ST_bind_run_Err _ _ _ _ _ Hrun). exists c2. split; [|done].
        by rewrite resolve_app_None.
Qed.

(** the uncached lookup *)
Definition dir_id_of_path (ds : list DirRow) (path : string) : Fs0Result Z :=
  cs ← split_fs0_path_components path; ok_or NotFound (resolve ds cs).

Lemma dir_id_of_path_Ok ds path id :
  dirs_ok ds → dir_id_of_path ds path = Ok id ↔
  ∃ cs, path = render cs ∧ Forall (λ c, valid_component c = true) cs ∧ dir_at ds id cs.
Proof.
  intros Hok. unfold dir_id_of_path. split.
  - intros (cs & [-> Hv]%split_components_render & Hr%ok_or_Ok)%Result_bind_Ok.
    exists cs. by rewrite <- resolve_dir_at.
  - intros (cs & -> & Hv & Hat%resolve_dir_at); [|done].
    unfold mbind, Result_bind. rewrite (proj2 (split_components_render _ cs)) by done.
    by rewrite Hat.
Qed.

Lemma get_dir_id_by_path_run path s ds :
  ds = db_dirs (tx_db s) → dirs_ok ds → cache_ok ds (tx_dir_cache s) →
  ∃ c', get_dir_id_by_path path s = (dir_id_of_path ds path, mkCentralTx (tx_db s) c') ∧
        cache_ok ds c'.
Proof.
  intros Hds Hok Hc. unfold get_dir_id_by_path, dir_id_of_path.
  rewrite (ST_bind_run _ _ _ _ _ (with_get_id_run _ _)).
  pose proof (get_id_cache_ok _ path _ Hc) as Hc'.
  destruct (get_id path (tx_dir_cache s)) as [hit c1] eqn:Hget. simpl in *.
  destruct hit as [id|].
  - exists c1. split; [|done]. destruct (get_id_hit_path ds (tx_dir_cache s) path id) as (cs & -> & Hat);
      [done|done|by rewrite Hget|]. unfold mbind, Result_bind.
    by apply resolve_dir_at in Hat as ->.
  - destruct (split_fs0_path_components path) as [cs|e] eqn:Hsplit; [|by exists c1].
    apply split_components_render in Hsplit as [-> Hv].
    destruct (get_dir_id_loop_run cs [] ROOT_DIR_ID (mkCentralTx (tx_db s) c1) ds)
      as (c2 & Hrun & Hc2); [done|done|done|constructor|done|]. eauto.
Qed.

(** *** Names in a directory *)

Lemma child_file_id_Some db dir_id name fid :
  child_file_id db dir_id name = Some fid →
  ∃ f, f ∈ db_files db ∧ f_file_id f = fid ∧ file_key f = (dir_id, name).
Proof.
  unfold child_file_id. intros (f & [Hin Hp]%lfind_Some & ->)%fmap_Some.
  apply andb_true_iff in Hp as [<-%bool_decide_eq_true <-%bool_decide_eq_true]. eauto.
Qed.

Lemma child_file_id_None db dir_id name :
  child_file_id db dir_id name = None ↔ ∀ f, f ∈ db_files db → file_key f ≠ (dir_id, name).
Proof.
  unfold child_file_id. rewrite fmap_None, lfind_None. split.
  - intros Hf f Hin [= <- <-]. specialize (Hf f Hin). by rewrite !bool_decide_true in Hf.
  - intros Hf f Hin. specialize (Hf f Hin). rewrite <- bool_decide_and.
    apply bool_decide_eq_false. intros [<- <-]. done.
Qed.

Lemma file_id_nonneg db f : db_ok db → f ∈ db_files db → 0 < f_file_id f ≤ i64_max.
Proof.
  intros Hok Hin. pose proof (ok_files _ Hok) as Hf. rewrite Forall_forall in Hf.
  destruct (Hf f Hin) as [? _]. destruct (ok_seqs _ Hok) as (_ & ? & _). zlia.
Qed.

(** what the check decides, without the conversions *)
Definition name_available (db : CentralDb) (dir_id : Z) (name : string)
    (existing_file_id : option Z) : Prop :=
  dir_child (db_dirs db) dir_id name = None ∧
  ∀ f, f ∈ db_files db → file_key f = (dir_id, name) → Some (f_file_id f) = existing_file_id.

Lemma select_child_file_id_run dir_id name s :
  db_ok (tx_db s) →
  select_child_file_id dir_id name s = (Ok (child_file_id (tx_db s) dir_id name), s).
Proof.
  intros Hok. unfold select_child_file_id, mbind, ST_bind, query, st_lift. f_equal.
  apply row_optional_u64_Ok. split; [done|]. intros fid (f & Hin & <- & _)%child_file_id_Some.
  pose proof (file_id_nonneg _ f Hok Hin). lia.
Qed.

Lemma ensure_child_run dir_id name existing path s :
  db_ok (tx_db s) → dir_id ≤ i64_max →
  ensure_child_name_available dir_id name existing path s = (Ok tt, s) ∧
    name_available (tx_db s) dir_id name existing ∨
  ensure_child_name_available dir_id name existing path s = (Err (AlreadyExists path), s) ∧
    ¬ name_available (tx_db s) dir_id name existing.
Proof.
  intros Hok Hid. unfold ensure_child_name_available.
  assert (st_lift (u64_to_i64 dir_id "parent_dir_id") s = (Ok dir_id, s)) as Hlift
    by (unfold st_lift; by rewrite u64_to_i64_fits).
  rewrite (ST_bind_run _ _ _ _ _ Hlift).
  erewrite (ST_bind_run (query _)) by done. case_bool_decide as Hch.
  { right. split; [done|]. intros [Hn _]. rewrite Hn in Hch. by destruct Hch. }
  rewrite (ST_bind_run _ _ _ _ _ Hlift).
  rewrite (ST_bind_run _ _ _ _ _ (select_child_file_id_run _ _ _ Hok)).
  apply eq_None_not_Some in Hch.
  destruct (child_file_id (tx_db s) dir_id name) as [fid|] eqn:Hf.
  - apply child_file_id_Some in Hf as (f & Hin & <- & Hkey). case_bool_decide as Hex.
    + right. split; [done|]. intros [_ Ha]. apply Hex. by apply Ha.
    + left. split; [done|]. split; [done|]. intros g Hg Hgk.
      assert (f = g) as -> by (eapply (NoDup_map_inj file_key); eauto using ok_file_keys; congruence).
      destruct (decide (Some (f_file_id g) = existing)); tauto.
  - left. split; [done|]. split; [done|]. intros f Hin Hkey.
    rewrite child_file_id_None in Hf. by destruct (Hf f Hin).
Qed.

Lemma name_taken db dir_id name existing :
  ¬ name_available db dir_id name existing →
  is_Some (dir_child (db_dirs db) dir_id name) ∨
  ∃ f, f ∈ db_files db ∧ file_key f = (dir_id, name) ∧ existing ≠ Some (f_file_id f).
Proof.
  intros Hn. destruct (dir_child (db_dirs db) dir_id name) eqn:Hch; [by left|right].
  destruct (decide (Exists (λ f, file_key f = (dir_id, name) ∧ existing ≠ Some (f_file_id f)) (db_files db))) as [He|He].
  - apply Exists_exists in He as (f & ? & ? & ?). by exists f.
  - destruct Hn. split; [done|]. intros f Hin Hkey. destruct (decide (existing = Some (f_file_id f))); [done|].
    destruct He. apply Exists_exists. by exists f.
Qed.

(** *** Files in the tree *)

Lemma file_dir_at db f : db_ok db → f ∈ db_files db → ∃ cs, dir_at (db_dirs db) (f_dir_id f) cs.
Proof.
  intros Hok Hin. pose proof (ok_files _ Hok) as Hf. rewrite Forall_forall in Hf.
  destruct (Hf f Hin) as (_ & Hdir & _).
  destruct (dir_at_exists _ _ (ok_dirs _ Hok) Hdir) as (cs & ? & _). eauto.
Qed.

(** the file [f] is at the path [p] *)
Definition file_at (db : CentralDb) (f : FileRow) (p : list string) : Prop :=
  f ∈ db_files db ∧ ∃ ds, dir_at (db_dirs db) (f_dir_id f) ds ∧ p = ds ++ [f_name f].

(** *** Creating directories *)

Lemma insert_dir_run db parent name :
  db_ok db → parent ∈ dir_ids (db_dirs db) → valid_component name = true →
  name_available db parent name None →
  insert_dir parent name db = Err DatabaseFull ∨
  ∃ id, let ds := db_dirs db ++ [mkDirRow id (Some parent) name] in
    insert_dir parent name db = Ok (id, set_dirs db ds) ∧ (id ∉ dir_ids (db_dirs db)) ∧
    0 < id ≤ i64_max ∧ db_ok (set_dirs db ds).
Proof.
  intros Hok Hp Hv [Hch Hfiles]. unfold insert_dir.
  destruct (table_rowid (dir_ids (db_dirs db))) as [id|] eqn:Hid; [right|by left].
  apply table_rowid_fresh in Hid as [Hr Hfresh].
  2:{ apply Forall_forall. intros i Hi. by apply (dirs_ok_ids_range _ _ (ok_dirs _ Hok)) in Hi as [? _]. }
  exists id. simpl. apply valid_component_alt in Hv as Hname. destruct Hname as [Hne _].
  rewrite !(bool_decide_false (_ = _)) by (done || lia). simpl.
  rewrite bool_decide_false by (rewrite Hch; by intros []).
  rewrite bool_decide_true by (rewrite dir_ids_snoc; set_solver).
  split_and!; [done|done|lia..|].
  apply db_ok_set_dirs; [done|constructor; auto using ok_dirs|].
  intros f Hf. pose proof (ok_files _ Hok) as Hfs. rewrite Forall_forall in Hfs.
  destruct (Hfs f Hf) as (_ & Hdir & _ & Hnone & _). rewrite dir_ids_snoc. split; [set_solver|].
  rewrite dir_child_None in Hnone |- *. intros i [Hi|[= -> <- <-]%list_elem_of_singleton]%elem_of_app.
  - by apply Hnone in Hi.
  - by pose proof (Hfiles f Hf eq_refl).
Qed.

(** what creating directories may do to the table: append rows *)
Definition extends_dirs (db db' : CentralDb) (new : list DirRow) : Prop :=
  db' = set_dirs db (db_dirs db ++ new) ∧ db_ok db'.

Lemma extends_dirs_refl db : db_ok db → extends_dirs db db [].
Proof. intros. split; [by rewrite app_nil_r, set_dirs_id|done]. Qed.

Lemma extends_dirs_trans db db1 db2 new1 new2 :
  extends_dirs db db1 new1 → extends_dirs db1 db2 new2 → extends_dirs db db2 (new1 ++ new2).
Proof.
  intros [-> _] [-> Hok]. split; [|done]. simpl. by rewrite <- app_assoc.
Qed.

Lemma file_at_back db db1 new f p : db_ok db → extends_dirs db db1 new → file_at db1 f p → file_at db f p.
Proof.
  intros Hok [Hdb Hok1] [Hin (ds & Hat & ->)]. rewrite Hdb in Hin. simpl in Hin. split; [done|].
  destruct (file_dir_at db f Hok Hin) as (ds' & Hat'). exists ds'. split; [done|]. do 2 f_equal.
  eapply (dir_at_path_unique (db_dirs db1)); [by apply ok_dirs|done|]. eapply dir_at_mono; [|exact Hat']. rewrite Hdb. simpl. set_solver.
Qed.

Lemma dir_child_fresh ds id name : dirs_ok ds → id ∉ dir_ids ds → dir_child ds id name = None.
Proof.
  intros Hok Hid. apply dir_child_None. intros i Hin.
  destruct (dirs_ok_row _ _ Hok Hin) as [[=]|(p & [= <-] & Hp & _)]. done.
Qed.

(** one component: the child exists already, or a new row is appended *)
Lemma create_dir_step_run id name cs s :
  db_ok (tx_db s) → dir_at (db_dirs (tx_db s)) id cs → valid_component name = true →
  let path := render (cs ++ [name]) in
  (∃ id', dir_child (db_dirs (tx_db s)) id name = Some id' ∧
     create_dir_step id name path s =
       (Ok id', mkCentralTx (tx_db s) (remember id' path (tx_dir_cache s)))) ∨
  dir_child (db_dirs (tx_db s)) id name = None ∧
  ((∃ e, create_dir_step id name path s = (Err e, s) ∧
         (e = from_sqlite DatabaseFull ∨ e = AlreadyExists path ∧ ∃ f, file_at (tx_db s) f (cs ++ [name]))) ∨
   (∃ id' db', create_dir_step id name path s = (Ok id', mkCentralTx db' (tx_dir_cache s)) ∧
      extends_dirs (tx_db s) db' [mkDirRow id' (Some id) name] ∧
      (id' ∉ dir_ids (db_dirs (tx_db s))))).
Proof.
  intros Hok Hat Hv path. pose proof (ok_dirs _ Hok) as Hd. unfold create_dir_step.
  assert (st_lift (u64_to_i64 id "parent_dir_id") s = (Ok id, s)) as Hlift
    by (unfold st_lift; by erewrite dir_at_i64).
  rewrite (ST_bind_run _ _ _ _ _ Hlift).
  rewrite (ST_bind_run _ _ _ _ _ (select_dir_id_run s id name Hd)).
  destruct (dir_child _ id name) as [id'|] eqn:Hch; [left; by eexists|]. right. split; [done|].
  pose proof (dir_at_id _ _ _ Hd Hat) as Hin.
  destruct (ensure_child_run id name None path s Hok) as [[Hrun Ha]|[Hrun Hn]];
    [by apply dirs_ok_ids_range in Hin as [_ ?]| |].
  - rewrite (ST_bind_run _ _ _ _ _ Hrun), (ST_bind_run _ _ _ _ _ Hlift).
    destruct (insert_dir_run (tx_db s) id name) as [Hi|(id' & Hi & Hfresh & Hr & Hok')]; [done..| |].
    + left. exists (from_sqlite DatabaseFull). split; [|by left].
      unfold mbind, ST_bind, sql. by rewrite Hi.
    + right. exists id', (set_dirs (tx_db s) (db_dirs (tx_db s) ++ [mkDirRow id' (Some id) name])).
      split; [|by split]. unfold mbind, ST_bind, sql, st_lift. rewrite Hi.
      unfold i64_to_u64. by rewrite bool_decide_true by lia.
  - rewrite (ST_bind_run_Err _ _ _ _ _ Hrun). left. exists (AlreadyExists path).
    split; [done|]. right. split; [done|]. apply name_taken in Hn as [Hc|(f & Hf & [= <- <-] & _)]; [rewrite Hch in Hc; by destruct Hc|].
    exists f. split; [done|]. by exists cs.
Qed.

(** [ds0] are the rows the cache may know; once a row is new, so is every
    directory below it: [id] is at the end of the new rows *)
Definition at_end (ds0 new : list DirRow) (id : Z) : Prop := new = [] ∨ ∀ n, dir_child (ds0 ++ new) id n = None.

(** no more rows, or a file on the way to [cs] *)
Definition file_in_way (db : CentralDb) (cs : list string) (e : Fs0Error) : Prop :=
  e = from_sqlite DatabaseFull ∨ ∃ f p, e = AlreadyExists (render p) ∧ p `prefix_of` cs ∧ file_at db f p.

(** the rest of a path is there or created below [cs] *)
Definition path_created (ds0 new : list DirRow) (cs names : list string) (s : CentralTx) (out : Fs0Result Z * CentralTx) : Prop :=
  ∃ r db' new' c', out = (r, mkCentralTx db' c') ∧
    extends_dirs (tx_db s) db' new' ∧ cache_ok ds0 c' ∧
    (∀ id', r = Ok id' → dir_at (db_dirs db') id' (cs ++ names)) ∧
    (∀ id', resolve (ds0 ++ new) (cs ++ names) = Some id' → r = Ok id' ∧ new' = []) ∧
    (∀ e, r = Err e → file_in_way (tx_db s) (cs ++ names) e) ∧
    dirs_along (ds0 ++ new) (db_dirs db') (cs ++ names).

Lemma known_child_no_new ds0 new id cs name id' :
  dirs_ok (ds0 ++ new) → dir_at (ds0 ++ new) id cs → at_end ds0 new id → dir_at ds0 id' (cs ++ [name]) → new = [].
Proof.
  intros Hd Hat [|Hnew] Hat'; [done|]. exfalso. apply dir_at_snoc_inv in Hat' as (p & Hp & Hrow).
  assert (dir_at (ds0 ++ new) p cs) as Hp' by (eapply dir_at_mono; [|done]; set_solver).
  rewrite (dir_at_id_unique _ _ _ _ Hd Hp' Hat) in Hrow.
  specialize (Hnew name). rewrite dir_child_None in Hnew. apply (Hnew id'). set_solver.
Qed.

Lemma new_dir_at_end ds id' id name n :
  dirs_ok ds → id ∈ dir_ids ds → id' ∉ dir_ids ds → dir_child (ds ++ [mkDirRow id' (Some id) name]) id' n = None.
Proof.
  intros Hd Hid Hfresh. apply dir_child_None. intros i Hi.
  apply elem_of_app in Hi as [Hi|[= -> -> ->]%list_elem_of_singleton]; [|done].
  pose proof (dir_child_fresh _ id' n Hd Hfresh) as Hn. rewrite dir_child_None in Hn. by apply (Hn i).
Qed.

Lemma path_created_nil ds0 new cs id s :
  db_ok (tx_db s) → db_dirs (tx_db s) = ds0 ++ new → cache_ok ds0 (tx_dir_cache s) → dir_at (ds0 ++ new) id cs →
  path_created ds0 new cs [] s (Ok id, s).
Proof.
  intros Hok Hds Hc Hat. exists (Ok id), (tx_db s), [], (tx_dir_cache s). rewrite app_nil_r.
  split_and!; [by destruct s|by apply extends_dirs_refl|done| | |done|rewrite Hds; apply dirs_along_refl].
  - intros id' [= <-]. by rewrite Hds.
  - rewrite <- Hds in *. intros id' Hr. apply resolve_dir_at in Hr; [|by apply ok_dirs].
    split; [|done]. f_equal. by eapply dir_at_id_unique, Hr; eauto using ok_dirs.
Qed.

Lemma create_dir_loop_run names ds0 cs id s new :
  db_ok (tx_db s) → db_dirs (tx_db s) = ds0 ++ new → dirs_ok ds0 → cache_ok ds0 (tx_dir_cache s) →
  dir_at (ds0 ++ new) id cs → Forall (λ c, valid_component c = true) names → at_end ds0 new id →
  path_created ds0 new cs names s (create_dir_loop names id (render cs) s).
Proof.
  revert cs id s new. induction names as [|name names IH];
    intros cs id s new Hok Hds Hok0 Hc Hat Hv Hnew; simpl; [by apply path_created_nil|].
  apply Forall_cons in Hv as [Hname Hv]. pose proof (ok_dirs _ Hok) as Hd. rewrite Hds in Hd.
  pose proof (dir_at_valid _ _ _ Hd Hat) as Hcs. unfold path_created.
  rewrite (ST_bind_run _ _ s (render (cs ++ [name])) s) by (unfold st_lift; by rewrite join_valid).
  rewrite (ST_bind_run _ _ _ _ _ (with_get_id_run _ _)).
  pose proof (get_id_cache_ok _ (render (cs ++ [name])) _ Hc) as Hc'.
  destruct (get_id (render (cs ++ [name])) (tx_dir_cache s)) as [hit c1] eqn:Hget. simpl in *.
  replace (cs ++ name :: names) with ((cs ++ [name]) ++ names) by by rewrite <- app_assoc.
  destruct hit as [id'|].
  - assert (dir_at ds0 id' (cs ++ [name])) as Hat'.
    { apply (get_id_hit _ (tx_dir_cache s)); [done|done| |by rewrite Hget]. apply Forall_app. auto. }
    assert (new = []) as -> by (by eapply known_child_no_new). rewrite app_nil_r in *.
    destruct (IH (cs ++ [name]) id' (mkCentralTx (tx_db s) c1) []) as
      (r & db' & new' & c' & Hrun & ?); rewrite ?app_nil_r; auto; [by left|].
    rewrite app_nil_r in *. exists r, db', new', c'. auto.
  - destruct (create_dir_step_run id name cs (mkCentralTx (tx_db s) c1)) as
      [(id' & Hch & Hrun)|[Hch [(e & Hrun & He)|(id' & db1 & Hrun & Hext & Hfresh)]]];
      [done|by simpl; rewrite Hds|done| | |]; simpl in *; rewrite Hds in Hch.
    + assert (new = []) as -> by (destruct Hnew as [|Hn]; [done|by rewrite Hn in Hch]).
      rewrite app_nil_r in *. rewrite (ST_bind_run _ _ _ _ _ Hrun).
      assert (dir_at ds0 id' (cs ++ [name])) as Hat' by (econstructor; eauto using dir_child_Some).
      destruct (IH (cs ++ [name]) id' (mkCentralTx (tx_db s) (remember id' (render (cs ++ [name])) c1)) [])
        as (r & db' & new' & c' & Hrun' & ?); rewrite ?app_nil_r; auto; [|by left|].
      { apply remember_cache_ok; [by destruct cs|done|done]. }
      rewrite app_nil_r in *. exists r, db', new', c'. auto.
    + rewrite (ST_bind_run_Err _ _ _ _ _ Hrun). exists (Err e), (tx_db s), [], c1.
      split_and!; [done|by apply extends_dirs_refl|done|done| | |rewrite Hds; apply dirs_along_refl].
      * intros id' Hr. by rewrite (resolve_missing _ id) in Hr.
      * intros e' [= <-]. destruct He as [->|[-> (f & Hf)]]; [by left|right]. exists f, (cs ++ [name]). split_and!; [done|by apply prefix_app_r|exact Hf].
    + rewrite (ST_bind_run _ _ _ _ _ Hrun). pose proof Hext as [Hdb1 Hok1]. rewrite Hds in Hfresh.
      assert (db_dirs db1 = ds0 ++ new ++ [mkDirRow id' (Some id) name]) as Hds1
        by (by rewrite Hdb1; simpl; rewrite Hds, <- app_assoc).
      destruct (IH (cs ++ [name]) id' (mkCentralTx db1 c1) (new ++ [mkDirRow id' (Some id) name]))
        as (r & db' & new' & c' & Hrun' & Hext' & Hc2 & Hr1 & Hr2 & Hr3 & Hal); simpl; auto.
      { rewrite app_assoc. apply (dir_at_child _ _ id); [|set_solver]. eapply dir_at_mono; [|exact Hat]. set_solver. }
      { right. intros n. rewrite app_assoc. apply new_dir_at_end; [done|by eapply dir_at_id|done]. }
      exists r, db', (mkDirRow id' (Some id) name :: new'), c'. split_and!; [done| |done|done| | |].
      * by apply (extends_dirs_trans _ db1 _ [_]).
      * intros i Hi. by rewrite (resolve_missing _ id) in Hi.
      * intros e He. destruct (Hr3 e He) as [->|(f & p & -> & Hp & Hf)]; [by left|right]. exists f, p. split_and!; [done..|]. by eapply (file_at_back (tx_db s) db1).
      * rewrite app_assoc in Hal. eapply dirs_along_trans; [by apply dirs_along_snoc|by apply prefix_app_r|exact Hal].
Qed.

Lemma create_dir_run path s :
  db_ok (tx_db s) → cache_ok (db_dirs (tx_db s)) (tx_dir_cache s) →
  ∃ r db' new c', create_dir path s = (r, mkCentralTx db' c') ∧
    extends_dirs (tx_db s) db' new ∧ cache_ok (db_dirs (tx_db s)) c' ∧
    match r with
    | Ok id => ∃ cs, split_fs0_path_components path = Ok cs ∧ dir_at (db_dirs db') id cs ∧
        dirs_along (db_dirs (tx_db s)) (db_dirs db') cs
    | Err e => split_fs0_path_components path = Err e ∨
               ∃ cs, split_fs0_path_components path = Ok cs ∧ file_in_way (tx_db s) cs e
    end ∧
    (∀ id, dir_id_of_path (db_dirs (tx_db s)) path = Ok id → r = Ok id ∧ new = []).
Proof.
  intros Hok Hc. pose proof (ok_dirs _ Hok) as Hd. unfold create_dir.
  rewrite (ST_bind_run _ _ _ _ _ (with_get_id_run _ _)).
  pose proof (get_id_cache_ok _ path _ Hc) as Hc'.
  destruct (get_id path (tx_dir_cache s)) as [hit c1] eqn:Hget. simpl in *.
  destruct hit as [id|].
  - destruct (get_id_hit_path _ _ path id Hd Hc) as (cs & Hsplit & Hat); [by rewrite Hget|].
    exists (Ok id), (tx_db s), [], c1.
    split_and!; [done|by apply extends_dirs_refl|done|by eauto using dirs_along_refl|].
    unfold dir_id_of_path. rewrite Hsplit. intros id'. unfold mbind, Result_bind.
    apply resolve_dir_at in Hat as ->; [|done]. by intros [= ->].
  - destruct (split_fs0_path_components path) as [cs|e] eqn:Hsplit.
    2:{ exists (Err e), (tx_db s), [], c1. unfold dir_id_of_path. rewrite Hsplit.
        split_and!; [done|by apply extends_dirs_refl|done|by left|done]. }
    apply split_components_render in Hsplit as Hcs. destruct Hcs as [_ Hv].
    destruct (create_dir_loop_run cs (db_dirs (tx_db s)) [] ROOT_DIR_ID (mkCentralTx (tx_db s) c1) [])
      as (r & db' & new & c2 & Hrun & Hext & Hc2 & Hr1 & Hr2 & Hr3 & Hal);
      rewrite ?app_nil_r; auto using dir_at_root; [by left|].
    exists r, db', new, c2. rewrite app_nil_r in Hr2, Hal. split_and!; [done|done|done| |].
    + destruct r as [id|e]; [by eauto|]. right. exists cs. split; [done|]. by apply Hr3.
    + intros id. unfold dir_id_of_path. rewrite Hsplit. intros Hid%ok_or_Ok. by apply Hr2.
Qed.

(** *** From an id to its path *)

Lemma select_dir_at db d : dirs_ok (db_dirs db) → d ∈ db_dirs db →
  select_dir db (dr_dir_id d) = Some d.
Proof. intros Hok Hin. apply lfind_key; [|done]. by apply dirs_ok_NoDup. Qed.

Lemma row_to_dir_ok ds d : dirs_ok ds → d ∈ ds → row_to_dir d = Ok d.
Proof.
  intros Hok Hin. unfold row_to_dir, mbind, Result_bind.
  assert (0 ≤ dr_dir_id d) as Hid.
  { apply dir_ids_elem in Hin. apply (dirs_ok_ids_range _ _ Hok) in Hin. lia. }
  rewrite row_u64_fits by done.
  assert (row_optional_u64 1 "parent_dir_id" (dr_parent_dir_id d) = Ok (dr_parent_dir_id d)) as ->.
  { apply row_optional_u64_Ok. split; [done|]. intros p Hp.
    destruct (dirs_ok_row _ _ Hok Hin) as [->|(p' & Hp' & Hin' & _)]; [done|].
    rewrite Hp in Hp'. injection Hp' as <-. apply (dirs_ok_ids_range _ _ Hok) in Hin'. lia. }
  by destruct d.
Qed.

Lemma dir_path_loop_run db id cs names fuel :
  dirs_ok (db_dirs db) → dir_at (db_dirs db) id cs → (length cs < fuel)%nat →
  dir_path_loop fuel db id names = Some (Ok (names ++ reverse cs)).
Proof.
  intros Hok Hat. revert names fuel.
  induction Hat as [|id parent name cs Hat IH Hin]; intros names [|fuel] Hlen; try lia; simpl.
  - assert (root_dir_row ∈ db_dirs db) as Hroot.
    { pose proof (dirs_ok_root_id _ Hok) as (d & Hd & Hin)%list_elem_of_fmap.
      destruct (dirs_ok_row _ _ Hok Hin) as [->|(?&?&?&Hr&?)]; [done|].
      unfold ROOT_DIR_ID in Hd. lia. }
    pose proof (select_dir_at _ _ Hok Hroot) as Hsel. simpl in Hsel.
    unfold mbind, Result_bind, ROOT_DIR_ID. rewrite Hsel, (row_to_dir_ok _ _ Hok Hroot). simpl.
    by rewrite app_nil_r.
  - rewrite length_app in Hlen. simpl in Hlen.
    assert (0 < id ≤ i64_max) as Hid.
    { destruct (dirs_ok_row _ _ Hok Hin) as [[=]|(?&?&?&Hr&?)]. done. }
    rewrite u64_to_i64_fits by lia.
    pose proof (select_dir_at _ _ Hok Hin) as Hsel. simpl in Hsel.
    unfold mbind, Result_bind. rewrite Hsel, (row_to_dir_ok _ _ Hok Hin). simpl.
    rewrite bool_decide_false by (unfold ROOT_DIR_ID; lia).
    rewrite IH by lia. by rewrite reverse_app, <- app_assoc.
Qed.

#[local] Arguments dir_path_loop : simpl never.

Lemma with_get_path_run id s :
  with_cache (get_path id) s =
  (Ok (get_path id (tx_dir_cache s)).1, mkCentralTx (tx_db s) (get_path id (tx_dir_cache s)).2).
Proof. unfold with_cache. by destruct (get_path id (tx_dir_cache s)). Qed.

Lemma get_dir_path_by_id_run id cs s ds :
  ds = db_dirs (tx_db s) → dirs_ok ds → cache_ok ds (tx_dir_cache s) → dir_at ds id cs →
  ∃ c', get_dir_path_by_id id s = (Ok (render cs), mkCentralTx (tx_db s) c') ∧ cache_ok ds c'.
Proof.
  intros -> Hok Hc Hat. unfold get_dir_path_by_id.
  rewrite (ST_bind_run _ _ _ _ _ (with_get_path_run _ _)).
  pose proof (get_path_sound _ id _ Hc) as Hc'. pose proof (get_path_answer id (tx_dir_cache s)) as Ha.
  destruct (get_path id (tx_dir_cache s)) as [hit c1] eqn:Hget. simpl in *.
  destruct hit as [p|].
  - exists c1. split; [|done]. unfold mret, ST_ret. do 2 f_equal.
    case_bool_decide as Hroot.
    + injection Ha as ->. subst id. by rewrite (dir_at_root_nil _ _ Hok Hat).
    + symmetry in Ha. apply (proj2 Hc) in Ha as (cs' & _ & -> & Hat').
      by rewrite (dir_at_path_unique _ _ _ _ Hok Hat Hat').
  - case_bool_decide as Hroot; [done|]. erewrite (ST_bind_run (query _)) by done. cbn [tx_db].
    destruct (dir_at_exists _ id Hok) as (cs' & Hat' & Hlen); [by eapply dir_at_id|].
    rewrite (dir_at_path_unique _ _ _ _ Hok Hat' Hat) in Hlen.
    rewrite (dir_path_loop_run _ _ _ [] (S (length (db_dirs (tx_db s)))) Hok Hat) by lia. simpl.
    assert ("/" +:+ String.concat "/" (reverse (reverse cs)) = render cs) as Hp
      by (rewrite reverse_involutive; apply render_concat).
    exists (remember id (render cs) c1). split.
    + unfold mbind, ST_bind, st_lift, with_cache, mret, ST_ret. simpl in *. by rewrite Hp.
    + apply remember_cache_ok; [|done|done]. intros ->. by apply dir_at_nil_inv in Hat.
Qed.

Lemma get_dir_path_by_id_missing id s :
  dirs_ok (db_dirs (tx_db s)) → cache_ok (db_dirs (tx_db s)) (tx_dir_cache s) →
  id ∉ dir_ids (db_dirs (tx_db s)) → ∃ e, get_dir_path_by_id id s = (Err e, s).
Proof.
  intros Hok Hc Hid. unfold get_dir_path_by_id.
  assert (id ≠ ROOT_DIR_ID) as Hroot by (intros ->; by apply Hid, dirs_ok_root_id).
  assert (get_path id (tx_dir_cache s) = (None, tx_dir_cache s)) as Hget.
  { unfold get_path. rewrite bool_decide_false by done.
    destruct (id_to_path (tx_dir_cache s) !! id) as [p|] eqn:Hp; [|done].
    apply (proj2 Hc) in Hp as (cs & _ & _ & Hat). by destruct Hid; eapply dir_at_id. }
  rewrite (ST_bind_run _ _ _ _ _ (with_get_path_run _ _)), Hget. simpl.
  erewrite (ST_bind_run (query _)) by done. cbn [tx_db].
  assert (select_dir (tx_db s) id = None) as Hsel.
  { apply lfind_None. intros d Hd%dir_ids_elem. apply bool_decide_eq_false. intros Heq.
    apply Hid. by rewrite <- Heq. }
  unfold dir_path_loop, u64_to_i64. case_bool_decide; unfold mbind, Result_bind, st_lift; simpl.
  - rewrite Hsel. simpl. exists NotFound. by destruct s.
  - eexists. by destruct s.
Qed.

(** the record the server sends for a file in the directory [cs] *)
Definition record_of (cs : list string) (f : FileRow) : FileRecord :=
  mkFileRecord (f_file_id f) (render (cs ++ [f_name f])) (f_size_bytes f)
    (f_compressed_size_bytes f) (f_created_at_ms f) (f_updated_at_ms f).

Lemma file_record_run f cs s ds :
  ds = db_dirs (tx_db s) → dirs_ok ds → cache_ok ds (tx_dir_cache s) → dir_at ds (f_dir_id f) cs →
  ∃ c', file_record f s = (Ok (record_of cs f), mkCentralTx (tx_db s) c') ∧ cache_ok ds c'.
Proof.
  intros Hds Hok Hc Hat. destruct (get_dir_path_by_id_run _ cs s ds Hds Hok Hc Hat) as (c' & Hrun & Hc').
  exists c'. split; [|done]. unfold file_record. rewrite (ST_bind_run _ _ _ _ _ Hrun).
  unfold mbind, ST_bind, st_lift. by rewrite join_valid by (by eapply dir_at_valid).
Qed.

(** *** Listing *)

Definition entry_of (cs : list string) (f : FileRow) : DirectoryEntry :=
  mkDirectoryEntry (f_name f) (render (cs ++ [f_name f])) (f_file_id f) (f_size_bytes f)
    (f_compressed_size_bytes f) (f_created_at_ms f) (f_updated_at_ms f).

Lemma row_to_directory_entry_ok db cs f :
  db_ok db → f ∈ db_files db → Forall (λ c, valid_component c = true) cs →
  row_to_directory_entry (render cs) f = Ok (entry_of cs f).
Proof.
  intros Hok Hin Hcs. pose proof (ok_files _ Hok) as Hf. rewrite Forall_forall in Hf.
  destruct (Hf f Hin) as ([? ?] & _ & _ & _ & [? ?] & [? ?] & [? ?] & [? ?]).
  unfold row_to_directory_entry, mbind, Result_bind. rewrite join_valid by done.
  by rewrite !row_u64_fits by lia.
Qed.

Lemma files_of_dir_in db id f : f ∈ files_of_dir db id ↔ f ∈ db_files db ∧ f_dir_id f = id.
Proof.
  unfold files_of_dir. rewrite merge_sort_Permutation, list_elem_of_filter. naive_solver.
Qed.

(** one page: the [limit] entries from position [offset] on *)
Definition page_of (cs : list string) (files : list FileRow) (limit offset : Z) : DirectoryEntries :=
  mkDirectoryEntries (map (entry_of cs) (take (Z.to_nat limit) (drop (Z.to_nat offset) files)))
    (if bool_decide (offset + limit < Z.of_nat (length files)) then Some (offset + limit) else None).

Definition directory_page (db : CentralDb) (dir : string) (limit offset : Z)
  : Fs0Result DirectoryEntries :=
  match split_fs0_path_components dir with
  | Err e => Err e
  | Ok cs =>
      match resolve (db_dirs db) cs with
      | None => Err NotFound
      | Some id => Ok (page_of cs (files_of_dir db id) limit offset)
      end
  end.

Lemma list_directory_run dir limit cursor s ds :
  db_ok (tx_db s) → ds = db_dirs (tx_db s) → cache_ok ds (tx_dir_cache s) →
  is_i64_nonneg (default 0 cursor) →
  ∃ c', cache_ok ds c' ∧ list_directory dir limit cursor s =
    (directory_page (tx_db s) dir (zclamp 1 1024 limit) (default 0 cursor),
     mkCentralTx (tx_db s) c').
Proof.
  intros Hok Hds Hc Hcur. pose proof (ok_dirs _ Hok) as Hd. rewrite <- Hds in Hd.
  unfold list_directory, directory_page. rewrite <- Hds.
  destruct (get_dir_id_by_path_run dir s ds Hds Hd Hc) as (c' & Hrun & Hc').
  exists c'. split; [done|]. unfold dir_id_of_path, mbind, Result_bind in Hrun.
  destruct (split_fs0_path_components dir) as [cs|e] eqn:Hsplit;
    [|by rewrite (ST_bind_run_Err _ _ _ _ _ Hrun)].
  apply split_components_render in Hsplit as [-> Hv].
  destruct (resolve ds cs) as [id|] eqn:Hres; simpl in Hrun;
    [|by rewrite (ST_bind_run_Err _ _ _ _ _ Hrun)].
  rewrite (ST_bind_run _ _ _ _ _ Hrun). apply resolve_dir_at in Hres; [|done].
  assert (id ≤ i64_max) as Hid.
  { apply (dir_at_id ds) in Hres; [|done]. apply dirs_ok_ids_range in Hres; [lia|done]. }
  set (lim := zclamp 1 1024 limit). set (off := default 0 cursor) in *.
  assert (1 ≤ lim ≤ 1024) as Hlim by (unfold lim, zclamp; lia).
  unfold mbind, ST_bind, st_lift, query, mret, ST_ret. cbn [tx_db].
  rewrite (u64_to_i64_fits _ "dir_id"), (u64_to_i64_fits _ "limit"), (u64_to_i64_fits _ "cursor")
    by (done || apply Hcur || (unfold i64_max; lia)).
  rewrite (collect_map _ (entry_of cs)).
  2:{ apply Forall_forall. intros f Hf. unfold select_dir_files in Hf.
      apply (row_to_directory_entry_ok (tx_db s)); [done| |done].
      apply (files_of_dir_in _ id). by apply subseteq_take, subseteq_drop in Hf. }
  unfold select_dir_files, page_of. rewrite length_map, length_take, length_drop. simpl.
  set (files := files_of_dir (tx_db s) id). destruct Hcur as [Hoff _].
  do 2 f_equal. repeat case_bool_decide; try lia.
  - f_equal. rewrite <- fmap_take, take_take. do 2 f_equal. lia.
  - f_equal. f_equal. rewrite !take_ge; [done|rewrite length_drop; lia..].
Qed.

(** *** Removing directories *)

Definition dir_empty (db : CentralDb) (id : Z) : Prop :=
  (∀ d, d ∈ db_dirs db → dr_parent_dir_id d ≠ Some id) ∧
  (∀ f, f ∈ db_files db → f_dir_id f ≠ id).

Lemma dir_empty_counts db id :
  dir_empty db id ↔ count_child_dirs db id = 0 ∧ count_child_files db id = 0.
Proof.
  unfold dir_empty, count_child_dirs, count_child_files.
  rewrite <- (filter_nil_iff (λ d, dr_parent_dir_id d = Some id)),
    <- (filter_nil_iff (λ f, f_dir_id f = id)), <- !length_zero_iff_nil. lia.
Qed.

Lemma delete_dir_run db id :
  dir_empty db id → delete_dir id db = Ok (tt, set_dirs db (dirs_without (db_dirs db) id)).
Proof.
  intros [Hd Hf]. unfold delete_dir.
  replace (existsb _ (db_dirs db)) with false.
  2:{ symmetry. apply existsb_false, Forall_forall. intros d Hin.
      by rewrite bool_decide_false by auto. }
  replace (existsb _ (db_files db)) with false.
  2:{ symmetry. apply existsb_false, Forall_forall. intros f Hin.
      by rewrite bool_decide_false by auto. }
  by rewrite andb_false_r.
Qed.

Lemma remove_dir_db_ok db id :
  db_ok db → id ≠ ROOT_DIR_ID → dir_empty db id →
  db_ok (set_dirs db (dirs_without (db_dirs db) id)).
Proof.
  intros Hok Hroot [Hd Hf]. apply db_ok_set_dirs; [done|by apply dirs_without_ok; auto using ok_dirs|].
  intros f Hin. pose proof (ok_files _ Hok) as Hfs. rewrite Forall_forall in Hfs.
  destruct (Hfs f Hin) as (_ & Hdir & _ & Hnone & _). split.
  - apply dirs_without_ids. split; [done|auto].
  - rewrite dir_child_None in Hnone |- *. intros i [_ Hi]%list_elem_of_filter. by apply Hnone in Hi.
Qed.

Lemma forget_cache_ok ds c id cs :
  dirs_ok ds → cache_ok ds c → dir_at ds id cs → cs ≠ [] →
  (∀ d, d ∈ ds → dr_parent_dir_id d ≠ Some id) →
  cache_ok (dirs_without ds id) (forget id (render cs) c).
Proof.
  intros Hok [Hp Hi] Hat Hne Hleaf. unfold forget.
  rewrite bool_decide_false by (intros ->; by apply dir_at_root_nil in Hat).
  rewrite bool_decide_false.
  2:{ intros Hr%render_root; [done|]. by eapply dir_at_valid. }
  split; simpl.
  - intros p e [Hpne He]%lookup_delete_Some. apply Hp in He as (cs' & Hne' & -> & Hat').
    exists cs'. split_and!; [done..|]. apply dir_at_without; [done..|].
    intros Heq. rewrite Heq in Hat'. by rewrite (dir_at_path_unique _ _ _ _ Hok Hat Hat') in Hpne.
  - intros i p [Hine He]%lookup_delete_Some. apply Hi in He as (cs' & Hne' & -> & Hat').
    exists cs'. split_and!; [done..|]. by apply dir_at_without.
Qed.

Lemma remove_dir_run path s ds :
  db_ok (tx_db s) → ds = db_dirs (tx_db s) → cache_ok ds (tx_dir_cache s) →
  ∃ r s', remove_dir path s = (r, s') ∧ db_ok (tx_db s') ∧
    cache_ok (db_dirs (tx_db s')) (tx_dir_cache s') ∧
    match dir_id_of_path ds path with
    | Err e => r = Err e ∧ tx_db s' = tx_db s
    | Ok id =>
        (id ≠ ROOT_DIR_ID ∧ dir_empty (tx_db s) id ∧ r = Ok tt ∧
           tx_db s' = set_dirs (tx_db s) (dirs_without ds id)) ∨
        ((id = ROOT_DIR_ID ∨ ¬ dir_empty (tx_db s) id) ∧ r = Err InvalidRequest ∧
           tx_db s' = tx_db s)
    end.
Proof.
  intros Hok Hds Hc. pose proof (ok_dirs _ Hok) as Hd. rewrite <- Hds in Hd. unfold remove_dir.
  case_bool_decide as Hroot.
  { subst path. exists (Err InvalidRequest), s. rewrite <- Hds. split_and!; [done..|].
    unfold dir_id_of_path. simpl. right. auto. }
  destruct (get_dir_id_by_path_run path s ds Hds Hd Hc) as (c' & Hrun & Hc').
  destruct (dir_id_of_path ds path) as [id|e] eqn:Hpath.
  2:{ exists (Err e), (mkCentralTx (tx_db s) c'). rewrite (ST_bind_run_Err _ _ _ _ _ Hrun).
      simpl. rewrite <- Hds. auto. }
  apply dir_id_of_path_Ok in Hpath as (cs & -> & Hv & Hres); [|done].
  rewrite (ST_bind_run _ _ _ _ _ Hrun).
  rewrite bool_decide_false.
  2:{ intros ->. apply dir_at_root_nil in Hres; [|done]. by subst cs. }
  assert (0 ≤ id ≤ i64_max) as Hid.
  { apply (dir_at_id ds) in Hres; [|done]. by eapply dirs_ok_ids_range. }
  rewrite (ST_bind_run _ _ _ id (mkCentralTx (tx_db s) c'))
    by (unfold st_lift; by rewrite u64_to_i64_fits by lia).
  unfold mbind at 1 2 3 4, ST_bind at 1 2 3 4, query, st_lift. cbn [tx_db].
  rewrite !row_u64_fits by (unfold count_child_dirs, count_child_files; lia).
  rewrite <- bool_decide_or. case_bool_decide as Hcounts.
  - exists (Err InvalidRequest), (mkCentralTx (tx_db s) c'). cbn [tx_db tx_dir_cache].
    rewrite <- Hds. split_and!; [done..|]. right. split_and!; [|done..].
    right. rewrite dir_empty_counts. tauto.
  - assert (dir_empty (tx_db s) id) as Hempty by (apply dir_empty_counts; lia).
    assert (id ≠ ROOT_DIR_ID) as Hid0.
    { intros ->. apply dir_at_root_nil in Hres; [|done]. by subst cs. }
    exists (Ok tt), (mkCentralTx (set_dirs (tx_db s) (dirs_without ds id)) (forget id (render cs) c')).
    cbn [tx_db tx_dir_cache]. split_and!.
    + unfold mbind, ST_bind, sql, with_cache. cbn [tx_db]. rewrite delete_dir_run by done. by rewrite Hds.
    + rewrite Hds. by apply remove_dir_db_ok.
    + apply forget_cache_ok; [done..| |].
      * intros ->. by apply dir_at_nil_inv in Hres.
      * rewrite Hds. apply Hempty.
    + by left.
Qed.
End Facts.

(** ** Following a listing to its end *)

Section Pages.
Context `{SqliteText, RowIds, !RowIdLaws}.

(** a client that asks for the next page until there is none *)
Fixpoint follow_pages (fuel : nat) (dir : string) (limit : Z) (cursor : option Z)
  : Tx (list DirectoryEntry) :=
  match fuel with
  | O => mret []
  | S fuel =>
      page ← list_directory dir limit cursor;
      match des_next_cursor page with
      | None => mret (des_entries page)
      | Some next =>
          rest ← follow_pages fuel dir limit (Some next);
          mret (des_entries page ++ rest)
      end
  end.

Lemma NoDup_bounded_length (l : list Z) n :
  0 ≤ n → NoDup l → Forall (λ i, 0 < i ≤ n) l → Z.of_nat (length l) ≤ n.
Proof.
  intros Hn Hnd Hl. assert (l ⊆+ seqZ 1 n) as Hsub.
  { apply NoDup_submseteq; [done|]. rewrite Forall_forall in Hl. intros i Hi%Hl.
    apply elem_of_seqZ. lia. }
  apply submseteq_length in Hsub. rewrite length_seqZ in Hsub. lia.
Qed.

Lemma files_count_bound db : db_ok db → Z.of_nat (length (db_files db)) ≤ i64_max.
Proof.
  intros Hok. rewrite <- (length_map f_file_id). apply NoDup_bounded_length.
  - unfold i64_max. lia.
  - by apply ok_file_ids.
  - apply Forall_fmap, Forall_forall. intros f Hf. by eapply file_id_nonneg.
Qed.

Lemma files_of_dir_length db id :
  (length (files_of_dir db id) ≤ length (db_files db))%nat.
Proof.
  unfold files_of_dir. rewrite (Permutation_length (merge_sort_Permutation _ _)).
  apply length_filter.
Qed.

Lemma follow_pages_run fuel cs id limit off s ds :
  db_ok (tx_db s) → ds = db_dirs (tx_db s) → cache_ok ds (tx_dir_cache s) → dir_at ds id cs →
  0 ≤ off ≤ Z.of_nat (length (files_of_dir (tx_db s) id)) →
  Z.of_nat (length (files_of_dir (tx_db s) id)) - off < Z.of_nat fuel →
  ∃ c', cache_ok ds c' ∧ follow_pages fuel (render cs) limit (Some off) s =
    (Ok (map (entry_of cs) (drop (Z.to_nat off) (files_of_dir (tx_db s) id))),
     mkCentralTx (tx_db s) c').
Proof.
  intros Hok Hds. revert off s Hok Hds. induction fuel as [|fuel IH];
    intros off s Hok Hds Hc Hat Hoff Hfuel; [lia|].
  pose proof (ok_dirs _ Hok) as Hd. rewrite <- Hds in Hd. simpl.
  pose proof (files_of_dir_length (tx_db s) id). pose proof (files_count_bound _ Hok).
  destruct (list_directory_run (render cs) limit (Some off) s ds) as (c1 & Hc1 & Hrun);
    [done..|simpl; unfold is_i64_nonneg; lia|].
  rewrite (ST_bind_run (list_directory _ _ _) _ _
    (page_of cs (files_of_dir (tx_db s) id) (zclamp 1 1024 limit) off) (mkCentralTx (tx_db s) c1)).
  2:{ rewrite Hrun. unfold directory_page.
      rewrite (proj2 (split_components_render _ cs)) by (split; [done|by eapply dir_at_valid]).
      rewrite <- Hds. by apply resolve_dir_at in Hat as ->. }
  set (files := files_of_dir (tx_db s) id) in *. set (lim := zclamp 1 1024 limit).
  assert (1 ≤ lim) as Hlim by (unfold lim, zclamp; lia). unfold page_of at 1. cbn [des_next_cursor].
  case_bool_decide as Hmore.
  - destruct (IH (off + lim) (mkCentralTx (tx_db s) c1)) as (c2 & Hc2 & Hrun2); try done.
    { simpl. fold files. lia. } { simpl. fold files. lia. }
    exists c2. split; [done|]. rewrite (ST_bind_run _ _ _ _ _ Hrun2). unfold mret, ST_ret.
    cbn [tx_db des_entries page_of]. fold files. do 2 f_equal. rewrite <- map_app. f_equal.
    replace (Z.to_nat (off + lim)) with (Z.to_nat off + Z.to_nat lim)%nat by lia.
    by rewrite <- drop_drop, take_drop.
  - exists c1. split; [done|]. unfold mret, ST_ret, page_of. cbn [des_entries]. do 3 f_equal.
    rewrite take_ge; [done|]. rewrite length_drop. lia.
Qed.

(** ** Properties *)

(** C23. However warm the cache is, looking a directory up by its path answers what
    the walk through the [dirs] table from the root answers (the id, NotFound,
    or InvalidPath), and leaves the database unchanged and the cache sound. *)
Theorem cached_lookup_is_walk path s :
  db_ok (tx_db s) → cache_ok (db_dirs (tx_db s)) (tx_dir_cache s) →
  ∃ c', get_dir_id_by_path path s =
          (cs ← split_fs0_path_components path; ok_or NotFound (resolve (db_dirs (tx_db s)) cs),
           mkCentralTx (tx_db s) c') ∧ cache_ok (db_dirs (tx_db s)) c'.
Proof. intros Hok Hc. by apply get_dir_id_by_path_run; [|apply ok_dirs|]. Qed.

(** After [create_dir(path)] returned an id, that id is the directory at
    [path]: both lookups and a second [create_dir] agree on it, the second
    creation adds no row, and the invariant of the database still holds. *)
Theorem create_dir_roundtrip path s id s' :
  db_ok (tx_db s) → cache_ok (db_dirs (tx_db s)) (tx_dir_cache s) →
  create_dir path s = (Ok id, s') →
  db_ok (tx_db s') ∧
  (get_dir_path_by_id id s').1 = Ok path ∧
  (get_dir_id_by_path path s').1 = Ok id ∧
  (create_dir path s').1 = Ok id ∧ tx_db (create_dir path s').2 = tx_db s'.
Proof.
  intros Hok Hc Hrun.
  destruct (create_dir_run path s Hok Hc) as (r & db' & new & c' & Hrun' & [Hdb Hok'] & Hc' & Hr & _).
  rewrite Hrun in Hrun'. injection Hrun' as <- ->. destruct Hr as (cs & Hsplit & Hat & _). simpl.
  assert (cache_ok (db_dirs db') c') as Hc2.
  { eapply cache_ok_mono; [|exact Hc']. rewrite Hdb. simpl. set_solver. }
  pose proof Hsplit as [-> Hv]%split_components_render.
  assert (dir_id_of_path (db_dirs db') (render cs) = Ok id) as Hid.
  { apply dir_id_of_path_Ok; [by apply ok_dirs|]. eauto. }
  split; [done|]. split_and!.
  - destruct (get_dir_path_by_id_run id cs (mkCentralTx db' c') (db_dirs db')) as (c2 & -> & _);
      auto using ok_dirs.
  - destruct (get_dir_id_by_path_run (render cs) (mkCentralTx db' c') (db_dirs db')) as (c2 & -> & _);
      auto using ok_dirs.
  - destruct (create_dir_run (render cs) (mkCentralTx db' c') Hok' Hc2)
      as (r2 & db2 & n2 & c2 & Hrun2 & _ & _ & _ & Hr2).
    rewrite Hrun2. simpl. apply (Hr2 _ Hid).
  - destruct (create_dir_run (render cs) (mkCentralTx db' c') Hok' Hc2)
      as (r2 & db2 & n2 & c2 & Hrun2 & [Hd2 _] & _ & _ & Hr2).
    rewrite Hrun2. destruct (Hr2 _ Hid) as [_ Hn]. subst n2. simpl in *.
    by rewrite app_nil_r, set_dirs_id in Hd2.
Qed.

(** The walk from a directory to the root ends: on a well-formed table, with any
    fuel above the number of rows, the loop of [get_dir_path_by_id] returns the
    names of the one path of the directory, last name first. *)
Theorem dir_path_loop_terminates db id fuel :
  db_ok db → id ∈ dir_ids (db_dirs db) → (length (db_dirs db) ≤ fuel)%nat →
  ∃ cs, dir_path_loop fuel db id [] = Some (Ok (reverse cs)) ∧
        resolve (db_dirs db) cs = Some id.
Proof.
  intros Hok Hid Hfuel. pose proof (ok_dirs _ Hok) as Hd.
  destruct (dir_at_exists _ _ Hd Hid) as (cs & Hat & Hlen). exists cs. split.
  - by rewrite (dir_path_loop_run _ _ cs) by (done || lia).
  - by apply resolve_dir_at.
Qed.

(** C25. A client that follows the cursors of [list_directory] receives every file of
    the directory exactly once, in the order of the names, whatever page size
    it asks for. *)
Theorem follow_pages_complete dir limit fuel id s :
  db_ok (tx_db s) → cache_ok (db_dirs (tx_db s)) (tx_dir_cache s) →
  dir_id_of_path (db_dirs (tx_db s)) dir = Ok id →
  (length (db_files (tx_db s)) < fuel)%nat →
  ∃ entries, (follow_pages fuel dir limit (Some 0) s).1 = Ok entries ∧
    map de_file_id entries ≡ₚ map f_file_id (base.filter (λ f, f_dir_id f = id) (db_files (tx_db s))) ∧
    StronglySorted String.le (map de_name entries) ∧ NoDup (map de_name entries) ∧
    Forall (λ e, join_fs0_path dir (de_name e) = Ok (de_path e)) entries.
Proof.
  intros Hok Hc Hid Hfuel. pose proof (ok_dirs _ Hok) as Hd.
  apply dir_id_of_path_Ok in Hid as (cs & -> & Hv & Hat); [|done].
  pose proof (files_of_dir_length (tx_db s) id).
  destruct (follow_pages_run fuel cs id limit 0 s _ Hok eq_refl Hc Hat) as (c' & _ & ->); [lia..|].
  eexists. split; [done|]. rewrite drop_0, !map_map. simpl. split_and!.
  - unfold files_of_dir. by rewrite merge_sort_Permutation.
  - assert (StronglySorted file_name_le (files_of_dir (tx_db s) id)) as Hs.
    { apply StronglySorted_merge_sort; intros f g *; unfold file_name_le;
        [apply (transitivity (R := String.le))|apply (total String.le)]. }
    clear -Hs. induction Hs as [|f l Hs IH Hf]; simpl; constructor; [done|]. by apply Forall_fmap.
  - assert (NoDup (map file_key (files_of_dir (tx_db s) id))) as Hnd.
    { unfold files_of_dir. rewrite (merge_sort_Permutation file_name_le).
      apply NoDup_map_filter, ok_file_keys, Hok. }
    apply NoDup_fmap_2_strong; [|by eapply NoDup_fmap_1].
    intros f g [Hf <-]%files_of_dir_in [Hg Hdir]%files_of_dir_in Heq.
    eapply (NoDup_map_inj file_key); [by apply ok_file_keys, Hok|done..|]. unfold file_key. congruence.
  - apply Forall_fmap, Forall_forall. intros f _. simpl. by apply join_valid.
Qed.

(** C24. [remove_dir] removes the directory exactly when it exists, is not the root and
    has neither a child directory nor a file, and then removes that row alone; of the
    root or a directory with children it is InvalidRequest, and a path that names no
    directory gives the error of its lookup, both without a change; in every case the
    database and the cache stay well formed. *)
Theorem remove_dir_spec path s r s' :
  db_ok (tx_db s) → cache_ok (db_dirs (tx_db s)) (tx_dir_cache s) →
  remove_dir path s = (r, s') →
  db_ok (tx_db s') ∧ cache_ok (db_dirs (tx_db s')) (tx_dir_cache s') ∧
  (∀ e, dir_id_of_path (db_dirs (tx_db s)) path = Err e → r = Err e ∧ tx_db s' = tx_db s) ∧
  (∀ id, dir_id_of_path (db_dirs (tx_db s)) path = Ok id → id = ROOT_DIR_ID ∨ ¬ dir_empty (tx_db s) id →
     r = Err InvalidRequest ∧ tx_db s' = tx_db s) ∧
  (∀ id, dir_id_of_path (db_dirs (tx_db s)) path = Ok id → id ≠ ROOT_DIR_ID → dir_empty (tx_db s) id →
     r = Ok tt ∧ tx_db s' = set_dirs (tx_db s) (dirs_without (db_dirs (tx_db s)) id)).
Proof.
  intros Hok Hc Hrun. destruct (remove_dir_run path s _ Hok eq_refl Hc) as (r1 & s1 & Hrun1 & ? & ? & Hcase).
  rewrite Hrun in Hrun1. injection Hrun1 as <- <-. split; [done|]. split; [done|].
  destruct (dir_id_of_path _ path) as [id|e]; [|naive_solver].
  split; [done|]. destruct Hcase as [(? & ? & ? & ?)|([?|?] & ? & ?)]; (split; [intros i [= <-] Hi|intros i [= <-] Hi Hi']); by destruct_or?.
Qed.
End Pages.

(** ** Instances *)

#[local] Existing Instances plain_sqlite_text sequential_rowids sequential_rowid_laws.

Lemma cached_lookup_is_walk_witness :
  ∃ c', get_dir_id_by_path "/docs/old" sample_tx =
          (Ok 2, mkCentralTx sample_db c') ∧ cache_ok sample_dirs c'.
Proof.
  exact (cached_lookup_is_walk "/docs/old" sample_tx sample_db_ok (empty_cache_ok _)).
Defined.

Lemma create_dir_roundtrip_witness :
  let s' := (create_dir "/docs/new" sample_tx).2 in
  db_ok (tx_db s') ∧ (get_dir_path_by_id 3 s').1 = Ok "/docs/new".
Proof.
  destruct (create_dir_roundtrip "/docs/new" sample_tx 3 (create_dir "/docs/new" sample_tx).2
    sample_db_ok (empty_cache_ok _)) as (H1 & H2 & _); [vm_compute; reflexivity|].
  split; [exact H1|exact H2].
Defined.

Lemma dir_path_loop_terminates_witness :
  ∃ cs, dir_path_loop 3 sample_db 2 [] = Some (Ok (reverse cs)) ∧ resolve sample_dirs cs = Some 2.
Proof.
  apply (dir_path_loop_terminates sample_db 2 3 sample_db_ok); [|reflexivity].
  cbn. set_solver.
Defined.

Lemma follow_pages_complete_witness :
  ∃ entries, (follow_pages 3 "/docs" 1 (Some 0) sample_tx).1 = Ok entries ∧
    map de_file_id entries ≡ₚ [1; 2].
Proof.
  destruct (follow_pages_complete "/docs" 1 3 1 sample_tx sample_db_ok (empty_cache_ok _))
    as (entries & H1 & H2 & _).
  - vm_compute. reflexivity.
  - simpl. lia.
  - exists entries. split; [exact H1|exact H2].
Defined.

Lemma remove_dir_spec_witness :
  remove_dir "/docs/old" sample_tx =
    (Ok tt, (remove_dir "/docs/old" sample_tx).2) ∧
  tx_db (remove_dir "/docs/old" sample_tx).2 = set_dirs sample_db (dirs_without sample_dirs 2) ∧
  (remove_dir "/docs" sample_tx).1 = Err InvalidRequest.
Proof.
  destruct (remove_dir_spec "/docs/old" sample_tx _ _ sample_db_ok (empty_cache_ok _) (surjective_pairing _)) as (_ & _ & _ & _ & H).
  destruct (remove_dir_spec "/docs" sample_tx _ _ sample_db_ok (empty_cache_ok _) (surjective_pairing _)) as (_ & _ & _ & H' & _).
  split; [apply run_value; vm_compute; reflexivity|]. split.
  - refine (proj2 (H 2 _ _ _)); [vm_compute; reflexivity|discriminate|].
    split; cbn [tx_db sample_tx sample_db db_dirs db_files]; intros x Hx; unfold sample_dirs in Hx; set_unfold in Hx; naive_solver.
  - refine (proj1 (H' 1 _ _)); [vm_compute; reflexivity|right]. intros [Hd _].
    apply (Hd (mkDirRow 2 (Some 1) "old")); [|reflexivity]. cbn. unfold sample_dirs. set_solver.
Defined.
