(* ===== verification/CentralTables.v ===== *)
(** * Files, bundles, replicas, leases, events and volumes of the central database

    Models the [CentralTx] methods of
    [fs0-central/src/db/{file,file_bundle,bundle_replica,lease,event,volume}.rs]:
    one definition per SQL statement and one per method.  [now_ms()] readings are
    arguments. *)

From S2P Require Import Prelude Types Paths DirCache CentralDb DirTree CentralInv CentralDir.

(** [HashMap::entry(k).or_insert(v)]: the first value of a key stays *)
Definition or_insert {K} `{Countable K} {V} (k : K) (v : V) (m : gmap K V) : gmap K V :=
  match m !! k with Some _ => m | None => <[k := v]> m end.

(** ** volume.rs *)

Section Volume.
Context `{SqliteText, RowIds}.

Definition insert_volume (name : string) (max_bytes : Z) : Stmt Z := λ db,
  match autoincrement_rowid (seq_volumes db) (volume_ids db) with
  | None => Err DatabaseFull
  | Some id => Ok (id, set_volumes db (db_volumes db ++ [mkVolumeRow id name max_bytes 0]) id)
  end.

Definition row_to_storage_volume_info (row : VolumeRow) : Fs0Result StorageVolumeInfo :=
  volume_id ← row_u64 0 "volume_id" (v_volume_id row);
  max_bytes ← row_u64 2 "max_bytes" (v_max_bytes row);
  max_volume_offset ← row_u64 3 "max_volume_offset" (v_max_volume_offset row);
  Ok (mkStorageVolumeInfo volume_id (v_name row) max_bytes max_volume_offset false).

Definition find_volume (db : CentralDb) (volume_id : Z) : option VolumeRow :=
  lfind (λ v, bool_decide (v_volume_id v = volume_id)) (db_volumes db).

Definition get_volume (volume_id : Z) : Tx StorageVolumeInfo :=
  key ← st_lift (u64_to_i64 volume_id "volume_id");
  row ← query (λ db, find_volume db key);
  row ← st_lift (ok_or NotFound row);
  st_lift (row_to_storage_volume_info row).

Definition create_volume (name : string) (max_bytes : Z) : Tx StorageVolumeInfo :=
  max ← st_lift (u64_to_i64 max_bytes "max_bytes");
  rowid ← sql (insert_volume name max);
  volume_id ← st_lift (i64_to_u64 rowid "volume_id");
  get_volume volume_id.

(** [UPDATE volumes SET max_volume_offset = ?2 WHERE volume_id = ?1]; the result
    is [changes()] *)
Definition set_volume_offset (volume_id offset : Z) : Stmt Z := λ db,
  Ok (Z.of_nat (length (base.filter (λ v, v_volume_id v = volume_id) (db_volumes db))),
      set_volumes db (map (λ v, if bool_decide (v_volume_id v = volume_id)
                                then mkVolumeRow volume_id (v_name v) (v_max_bytes v) offset
                                else v) (db_volumes db)) (seq_volumes db)).

Definition update_volume_offset (volume_id max_volume_offset : Z) : Tx StorageVolumeInfo :=
  key ← st_lift (u64_to_i64 volume_id "volume_id");
  offset ← st_lift (u64_to_i64 max_volume_offset "max_volume_offset");
  changes ← sql (set_volume_offset key offset);
  if bool_decide (changes = 0) then st_fail NotFound else get_volume volume_id.
End Volume.

(** ** file.rs *)

Section File.
Context `{SqliteText, RowIds}.

Definition row_to_file (row : FileRow) : Fs0Result FileRow :=
  file_id ← row_u64 0 "file_id" (f_file_id row);
  dir_id ← row_u64 1 "dir_id" (f_dir_id row);
  size_bytes ← row_u64 3 "size_bytes" (f_size_bytes row);
  compressed_size_bytes ← row_u64 4 "compressed_size_bytes" (f_compressed_size_bytes row);
  created_at_ms ← row_u64 5 "created_at_ms" (f_created_at_ms row);
  updated_at_ms ← row_u64 6 "updated_at_ms" (f_updated_at_ms row);
  Ok (mkFileRow file_id dir_id (f_name row) size_bytes compressed_size_bytes created_at_ms
        updated_at_ms).

Definition find_file (db : CentralDb) (file_id : Z) : option FileRow :=
  lfind (λ f, bool_decide (f_file_id f = file_id)) (db_files db).
Definition find_file_by_name (db : CentralDb) (dir_id : Z) (name : string) : option FileRow :=
  lfind (λ f, bool_decide (f_dir_id f = dir_id) && bool_decide (f_name f = name)) (db_files db).

Definition get_file_by_id (file_id : Z) : Tx FileRow :=
  key ← st_lift (u64_to_i64 file_id "file_id");
  row ← query (λ db, find_file db key);
  row ← st_lift (ok_or NotFound row);
  st_lift (row_to_file row).

Definition get_file_by_path (path : string) : Tx FileRow :=
  '(dir, name) ← st_lift (split_fs0_path_dir_and_name path);
  dir_id ← get_dir_id_by_path dir;
  key ← st_lift (u64_to_i64 dir_id "dir_id");
  row ← query (λ db, find_file_by_name db key name);
  row ← st_lift (ok_or NotFound row);
  st_lift (row_to_file row).

(** [INSERT INTO files ..]: UNIQUE (dir_id, name), dir_id REFERENCES dirs *)
Definition insert_file (dir_id : Z) (name : string) (size compressed created updated : Z)
  : Stmt Z := λ db,
  match autoincrement_rowid (seq_files db) (file_ids db) with
  | None => Err DatabaseFull
  | Some id =>
      if bool_decide (is_Some (find_file_by_name db dir_id name)) then Err ConstraintUnique
      else if bool_decide (dir_id ∈ dir_ids (db_dirs db))
      then Ok (id, set_files db
             (db_files db ++ [mkFileRow id dir_id name size compressed created updated]) id)
      else Err ConstraintForeignKey
  end.

Definition create_file (path : string) (now : Z) : Tx FileRow :=
  '(dir, name) ← st_lift (split_fs0_path_dir_and_name path);
  dir_id ← create_dir dir;
  ensure_child_name_available dir_id name None path;;
  key ← st_lift (u64_to_i64 dir_id "dir_id");
  created ← st_lift (u64_to_i64 now "created_at_ms");
  rowid ← sql (insert_file key name 0 0 created created);
  file_id ← st_lift (i64_to_u64 rowid "file_id");
  get_file_by_id file_id.

(** [DELETE FROM files WHERE file_id = ?1], with the cascades of the schema *)
Definition delete_file_row (file_id : Z) : Stmt Z := λ db,
  let changes := Z.of_nat (length (base.filter (λ f, f_file_id f = file_id) (db_files db))) in
  let db1 := set_files db (base.filter (λ f, f_file_id f ≠ file_id) (db_files db)) (seq_files db) in
  if bool_decide (changes = 0) then Ok (0, db1)
  else
    let db2 := set_file_bundles db1
                 (base.filter (λ b, fb_file_id b ≠ file_id) (db_file_bundles db1)) in
    let db3 := set_update_leases db2
                 (base.filter (λ l, l_file_id l ≠ file_id) (db_update_leases db2))
                 (seq_update_leases db2) in
    Ok (changes, db3).

Definition delete_file_by_id (file_id : Z) : Tx unit :=
  key ← st_lift (u64_to_i64 file_id "file_id");
  changes ← sql (delete_file_row key);
  if bool_decide (changes = 0) then st_fail NotFound else mret tt.

Definition copy_file_by_id (source_file_id : Z) (target_path : string) (now : Z) : Tx FileRow :=
  '(target_dir, target_name) ← st_lift (split_fs0_path_dir_and_name target_path);
  source ← get_file_by_id source_file_id;
  target_dir_id ← create_dir target_dir;
  ensure_child_name_available target_dir_id target_name None target_path;;
  key ← st_lift (u64_to_i64 target_dir_id "target_dir_id");
  size ← st_lift (u64_to_i64 (f_size_bytes source) "size_bytes");
  compressed ← st_lift (u64_to_i64 (f_compressed_size_bytes source) "compressed_size_bytes");
  created ← st_lift (u64_to_i64 now "created_at_ms");
  rowid ← sql (insert_file key target_name size compressed created created);
  target_file_id ← st_lift (i64_to_u64 rowid "target_file_id");
  get_file_by_id target_file_id.

(** [UPDATE files SET dir_id = ?2, name = ?3, updated_at_ms = ?4 WHERE file_id = ?1] *)
Definition move_file_row (file_id dir_id : Z) (name : string) (updated : Z) : Stmt Z := λ db,
  let changes := Z.of_nat (length (base.filter (λ f, f_file_id f = file_id) (db_files db))) in
  if bool_decide (changes = 0) then Ok (0, db)
  else if existsb (λ f, bool_decide (f_file_id f ≠ file_id) && bool_decide (f_dir_id f = dir_id)
                        && bool_decide (f_name f = name)) (db_files db)
  then Err ConstraintUnique
  else if bool_decide (dir_id ∈ dir_ids (db_dirs db))
  then Ok (changes, set_files db
         (map (λ f, if bool_decide (f_file_id f = file_id)
                    then mkFileRow file_id dir_id name (f_size_bytes f) (f_compressed_size_bytes f)
                           (f_created_at_ms f) updated
                    else f) (db_files db)) (seq_files db))
  else Err ConstraintForeignKey.

Definition rename_file_by_id (file_id : Z) (target_path : string) (now : Z) : Tx FileRow :=
  '(target_dir, target_name) ← st_lift (split_fs0_path_dir_and_name target_path);
  target_dir_id ← create_dir target_dir;
  ensure_child_name_available target_dir_id target_name (Some file_id) target_path;;
  key ← st_lift (u64_to_i64 file_id "file_id");
  dir_key ← st_lift (u64_to_i64 target_dir_id "target_dir_id");
  updated ← st_lift (u64_to_i64 now "updated_at_ms");
  changes ← sql (move_file_row key dir_key target_name updated);
  if bool_decide (changes = 0) then st_fail NotFound else get_file_by_id file_id.

(** [UPDATE files SET size_bytes = ?2, compressed_size_bytes = ?3, updated_at_ms = ?4 ..] *)
Definition resize_file_row (file_id size compressed updated : Z) : Stmt Z := λ db,
  Ok (Z.of_nat (length (base.filter (λ f, f_file_id f = file_id) (db_files db))),
      set_files db
        (map (λ f, if bool_decide (f_file_id f = file_id)
                   then mkFileRow file_id (f_dir_id f) (f_name f) size compressed
                          (f_created_at_ms f) updated
                   else f) (db_files db)) (seq_files db)).

Definition update_file_after_update (file_id new_size compressed_size_bytes updated_at_ms : Z)
  : Tx FileRow :=
  key ← st_lift (u64_to_i64 file_id "file_id");
  size ← st_lift (u64_to_i64 new_size "size_bytes");
  compressed ← st_lift (u64_to_i64 compressed_size_bytes "compressed_size_bytes");
  updated ← st_lift (u64_to_i64 updated_at_ms "updated_at_ms");
  changes ← sql (resize_file_row key size compressed updated);
  if bool_decide (changes = 0) then st_fail NotFound else get_file_by_id file_id.
End File.

(** ** bundle_replica.rs *)

Definition BUNDLE_ID_QUERY_BATCH_SIZE : nat := 500.

(** SQL's MIN and MAX, NULL on no row *)
Definition sql_min (l : list Z) : option Z :=
  match l with [] => None | x :: l => Some (foldr Z.min x l) end.
Definition sql_max (l : list Z) : option Z :=
  match l with [] => None | x :: l => Some (foldr Z.max x l) end.

Section Replica.
Context `{SqliteText}.

Definition upsert_replica_row (bundle_id : HashId) (volume_id raw_len compressed_len : Z)
  : Stmt unit := λ db,
  let row := mkBundleReplicaRow bundle_id volume_id raw_len compressed_len in
  if bool_decide ((bundle_id, volume_id) ∈ map replica_key (db_bundle_replicas db))
  then Ok (tt, set_bundle_replicas db
         (map (λ r, if bool_decide (replica_key r = (bundle_id, volume_id))
                       && (bool_decide (br_raw_len r ≠ raw_len)
                           || bool_decide (br_compressed_len r ≠ compressed_len))
                    then row else r) (db_bundle_replicas db)))
  else if bool_decide (volume_id ∈ volume_ids db)
  then Ok (tt, set_bundle_replicas db (db_bundle_replicas db ++ [row]))
  else Err ConstraintForeignKey.

Definition insert_bundle_replica (bundle_id : HashId) (volume_id raw_len compressed_len : Z)
  : Tx unit :=
  if bool_decide (raw_len = 0) || bool_decide (compressed_len = 0) then st_fail InvalidRequest
  else
    volume_key ← st_lift (u64_to_i64 volume_id "volume_id");
    peers ← query (λ db, base.filter (λ r, br_bundle_id r = bundle_id ∧ br_volume_id r ≠ volume_key)
                           (db_bundle_replicas db));
    (* the lengths are only compared to log a conflict *)
    st_lift (row_optional_u64 0 "min_raw_len" (sql_min (map br_raw_len peers)));;
    st_lift (row_optional_u64 1 "max_raw_len" (sql_max (map br_raw_len peers)));;
    st_lift (row_optional_u64 2 "min_compressed_len" (sql_min (map br_compressed_len peers)));;
    st_lift (row_optional_u64 3 "max_compressed_len" (sql_max (map br_compressed_len peers)));;
    volume_key ← st_lift (u64_to_i64 volume_id "volume_id");
    raw ← st_lift (u64_to_i64 raw_len "raw_len");
    compressed ← st_lift (u64_to_i64 compressed_len "compressed_len");
    sql (upsert_replica_row bundle_id volume_key raw compressed).

Definition delete_replica_row (bundle_id : HashId) (volume_id : Z) : Stmt unit := λ db,
  Ok (tt, set_bundle_replicas db
        (base.filter (λ r, replica_key r ≠ (bundle_id, volume_id)) (db_bundle_replicas db))).

Definition delete_bundle_replica (bundle_id : HashId) (volume_id : Z) : Tx unit :=
  key ← st_lift (u64_to_i64 volume_id "volume_id");
  sql (delete_replica_row bundle_id key).

Definition row_to_bundle (row : BundleReplicaRow) : Fs0Result BundleReplicaRow :=
  volume_id ← row_u64 1 "volume_id" (br_volume_id row);
  raw_len ← row_u64 2 "raw_len" (br_raw_len row);
  compressed_len ← row_u64 3 "compressed_len" (br_compressed_len row);
  Ok (mkBundleReplicaRow (br_bundle_id row) volume_id raw_len compressed_len).

(** [ORDER BY bundle_id, volume_id] *)
Definition replica_le (r r' : BundleReplicaRow) : Prop :=
  hash_key (br_bundle_id r) < hash_key (br_bundle_id r') ∨
  (hash_key (br_bundle_id r) = hash_key (br_bundle_id r') ∧ br_volume_id r ≤ br_volume_id r').
#[export] Instance replica_le_dec : RelDecision replica_le.
Proof. intros r r'. unfold replica_le. apply _. Defined.

Definition select_replicas (db : CentralDb) (batch : list HashId) : list BundleReplicaRow :=
  merge_sort replica_le (base.filter (λ r, br_bundle_id r ∈ batch) (db_bundle_replicas db)).

Fixpoint get_replica_batches (batches : list (list HashId)) : Tx (list BundleReplicaRow) :=
  match batches with
  | [] => mret []
  | batch :: batches =>
      rows ← query (λ db, select_replicas db batch);
      rows ← st_lift (collect row_to_bundle rows);
      rest ← get_replica_batches batches;
      mret (rows ++ rest)
  end.

Definition get_bundle_replicas_by_id (bundle_ids : list HashId) : Tx (list BundleReplicaRow) :=
  if bool_decide (bundle_ids = []) then mret []
  else get_replica_batches (chunks BUNDLE_ID_QUERY_BATCH_SIZE bundle_ids).
End Replica.

(** ** file_bundle.rs *)

(** [FileBundleRow] of the source *)
Record FileBundleRow := mkFileBundleRow { fbw_bundle_index : Z; fbw_bundle_id : HashId }.

Section FileBundle.
Context `{SqliteText}.

Definition delete_file_bundle_rows (file_id : Z) : Stmt unit := λ db,
  Ok (tt, set_file_bundles db (base.filter (λ b, fb_file_id b ≠ file_id) (db_file_bundles db))).

Definition delete_file_bundles_by_file_id (file_id : Z) : Tx unit :=
  key ← st_lift (u64_to_i64 file_id "file_id");
  sql (delete_file_bundle_rows key).

(** [INSERT INTO file_bundles]: PRIMARY KEY (file_id, bundle_index), file_id
    REFERENCES files *)
Definition insert_file_bundle_row (row : FileBundleTuple) : Stmt unit := λ db,
  if bool_decide (bundle_key row ∈ map bundle_key (db_file_bundles db)) then Err ConstraintUnique
  else if bool_decide (fb_file_id row ∈ file_ids db)
  then Ok (tt, set_file_bundles db (db_file_bundles db ++ [row]))
  else Err ConstraintForeignKey.

(** [for (bundle_index, bundle) in bundles.iter().enumerate()] *)
Fixpoint insert_file_bundles (file_id bundle_index : Z) (bundles : list CommittedBundle) : Tx unit :=
  match bundles with
  | [] => mret tt
  | bundle :: bundles =>
      key ← st_lift (u64_to_i64 file_id "file_id");
      index ← st_lift (u64_to_i64 bundle_index "bundle_index");
      sql (insert_file_bundle_row (mkFileBundleTuple key index (cb_bundle_id bundle)));;
      insert_file_bundles file_id (bundle_index + 1) bundles
  end.

Definition upsert_file_bundles_by_file_id (file_id : Z) (bundles : list CommittedBundle) : Tx unit :=
  delete_file_bundles_by_file_id file_id;;
  insert_file_bundles file_id 0 bundles.

(** [INSERT INTO file_bundles .. SELECT ?1, bundle_index, bundle_id .. WHERE file_id = ?2] *)
Fixpoint insert_file_bundle_rows (rows : list FileBundleTuple) : Stmt unit := λ db,
  match rows with
  | [] => Ok (tt, db)
  | row :: rows => '(_, db) ← insert_file_bundle_row row db; insert_file_bundle_rows rows db
  end.
Definition copy_file_bundle_rows (target_file_id source_file_id : Z) : Stmt unit := λ db,
  insert_file_bundle_rows
    (map (λ b, mkFileBundleTuple target_file_id (fb_bundle_index b) (fb_bundle_id b))
       (base.filter (λ b, fb_file_id b = source_file_id) (db_file_bundles db))) db.

Definition copy_file_bundles (source_file_id target_file_id : Z) : Tx unit :=
  target ← st_lift (u64_to_i64 target_file_id "target_file_id");
  source ← st_lift (u64_to_i64 source_file_id "source_file_id");
  sql (copy_file_bundle_rows target source).

Definition bundle_index_le (b b' : FileBundleTuple) : Prop := fb_bundle_index b ≤ fb_bundle_index b'.
#[export] Instance bundle_index_le_dec : RelDecision bundle_index_le.
Proof. intros b b'. unfold bundle_index_le. apply _. Defined.

Definition select_file_bundles (db : CentralDb) (file_id : Z) : list FileBundleTuple :=
  merge_sort bundle_index_le (base.filter (λ b, fb_file_id b = file_id) (db_file_bundles db)).
Definition row_to_file_bundle (row : FileBundleTuple) : Fs0Result FileBundleRow :=
  index ← row_u64 0 "bundle_index" (fb_bundle_index row);
  Ok (mkFileBundleRow index (fb_bundle_id row)).

Definition get_file_bundles_by_file_id (file_id : Z) : Tx (list FileBundleRow) :=
  key ← st_lift (u64_to_i64 file_id "file_id");
  rows ← query (λ db, select_file_bundles db key);
  st_lift (collect row_to_file_bundle rows).

(** the map of [ready_bundles]: the first replica of a bundle *)
Definition first_replicas (replicas : list BundleReplicaRow) : gmap HashId (Z * Z) :=
  foldl (λ m r, or_insert (br_bundle_id r) (br_raw_len r, br_compressed_len r) m) ∅ replicas.

Definition size_step (ready : gmap HashId (Z * Z)) (sizes : Z * Z) (bundle : FileBundleRow)
  : Fs0Result (Z * Z) :=
  '(raw_len, compressed_len) ← ok_or ChunkNotReady (ready !! fbw_bundle_id bundle);
  raw ← ok_or (IntegerConversion "file bundle raw size overflow") (u64_checked_add sizes.1 raw_len);
  compressed ← ok_or (IntegerConversion "file bundle compressed size overflow")
                 (u64_checked_add sizes.2 compressed_len);
  Ok (raw, compressed).

Definition calculate_size_by_file_id (file_id : Z) : Tx (Z * Z) :=
  file_bundles ← get_file_bundles_by_file_id file_id;
  replicas ← get_bundle_replicas_by_id (map fbw_bundle_id file_bundles);
  st_lift (try_fold (size_step (first_replicas replicas)) (0, 0) file_bundles).
End FileBundle.

(** ** lease.rs *)

Record LeaseRecord := mkLeaseRecord { lr_file_id : Z; lr_base_size_bytes : Z; lr_offset_bytes : Z }.

Record CreateUpdateLease := mkCreateUpdateLease {
  cul_file_id : Z; cul_volume_id : Z; cul_base_size_bytes : Z; cul_offset_bytes : Z;
  cul_prefer_volume_name : option string; cul_expires_at_ms : Z; cul_created_at_ms : Z }.

Section Lease.
Context `{SqliteText, RowIds}.

Definition delete_leases_where (expired : LeaseTuple → Prop) `{∀ l, Decision (expired l)}
  : Stmt unit := λ db,
  Ok (tt, set_update_leases db (base.filter (λ l, ¬ expired l) (db_update_leases db))
            (seq_update_leases db)).

Definition delete_expired_update_leases (now_ms : Z) : Tx unit :=
  now ← st_lift (u64_to_i64 now_ms "expires_at_ms");
  sql (delete_leases_where (λ l, l_expires_at_ms l ≤ now)).

Definition file_has_active_update_lease (file_id : Z) : Tx bool :=
  key ← st_lift (u64_to_i64 file_id "file_id");
  query (λ db, existsb (λ l, bool_decide (l_file_id l = key)) (db_update_leases db)).

(** UNIQUE (file_id), file_id and volume_id REFERENCES *)
Definition insert_lease_row (file volume base offset : Z) (prefer : option string)
    (expires created : Z) : Stmt Z := λ db,
  match autoincrement_rowid (seq_update_leases db) (map l_lease_id (db_update_leases db)) with
  | None => Err DatabaseFull
  | Some id =>
      if bool_decide (file ∈ map l_file_id (db_update_leases db)) then Err ConstraintUnique
      else if bool_decide (file ∈ file_ids db) && bool_decide (volume ∈ volume_ids db)
      then Ok (id, set_update_leases db
             (db_update_leases db ++ [mkLeaseTuple id file volume base offset prefer expires created]) id)
      else Err ConstraintForeignKey
  end.

Definition create_update_lease (lease : CreateUpdateLease) : Tx UpdateLease :=
  file ← st_lift (u64_to_i64 (cul_file_id lease) "file_id");
  volume ← st_lift (u64_to_i64 (cul_volume_id lease) "volume_id");
  base ← st_lift (u64_to_i64 (cul_base_size_bytes lease) "base_size_bytes");
  offset ← st_lift (u64_to_i64 (cul_offset_bytes lease) "offset_bytes");
  expires ← st_lift (u64_to_i64 (cul_expires_at_ms lease) "expires_at_ms");
  created ← st_lift (u64_to_i64 (cul_created_at_ms lease) "created_at_ms");
  rowid ← sql (insert_lease_row file volume base offset (cul_prefer_volume_name lease) expires created);
  lease_id ← st_lift (i64_to_u64 rowid "lease_id");
  mret (mkUpdateLease lease_id (cul_file_id lease) (cul_volume_id lease) (cul_base_size_bytes lease)
          (cul_offset_bytes lease) (cul_expires_at_ms lease) (cul_prefer_volume_name lease)).

(** [WHERE lease_id = ?1 AND file_id = ?2 AND expires_at_ms > ?3] *)
Definition find_active_lease (db : CentralDb) (lease_id file_id now : Z) : option LeaseTuple :=
  lfind (λ l, bool_decide (l_lease_id l = lease_id) && bool_decide (l_file_id l = file_id)
              && bool_decide (now < l_expires_at_ms l)) (db_update_leases db).

Definition row_to_lease_record (row : LeaseTuple) : Fs0Result LeaseRecord :=
  file_id ← row_u64 0 "file_id" (l_file_id row);
  base_size_bytes ← row_u64 1 "base_size_bytes" (l_base_size_bytes row);
  offset_bytes ← row_u64 2 "offset_bytes" (l_offset_bytes row);
  Ok (mkLeaseRecord file_id base_size_bytes offset_bytes).

Definition load_active_update_lease (lease_id file_id now_ms : Z) : Tx LeaseRecord :=
  lease ← st_lift (u64_to_i64 lease_id "lease_id");
  file ← st_lift (u64_to_i64 file_id "file_id");
  now ← st_lift (u64_to_i64 now_ms "now_ms");
  row ← query (λ db, find_active_lease db lease file now);
  row ← st_lift (ok_or NotFound row);
  st_lift (row_to_lease_record row).

Definition active_update_lease_volume (lease_id file_id now_ms : Z) : Tx Z :=
  lease ← st_lift (u64_to_i64 lease_id "lease_id");
  file ← st_lift (u64_to_i64 file_id "file_id");
  now ← st_lift (u64_to_i64 now_ms "now_ms");
  row ← query (λ db, find_active_lease db lease file now);
  row ← st_lift (ok_or NotFound row);
  st_lift (row_u64 0 "volume_id" (l_volume_id row)).

Definition delete_update_lease (lease_id : Z) : Tx unit :=
  lease ← st_lift (u64_to_i64 lease_id "lease_id");
  sql (delete_leases_where (λ l, l_lease_id l = lease)).
End Lease.

(** ** event.rs *)

Section Event.
Context `{SqliteText, RowIds}.

Definition file_change_log_kind (kind : FileChangeLogKind) : string :=
  match kind with
  | KCreated => "created"
  | KUpdated => "updated"
  | KMoved => "moved"
  | KDeleted => "deleted"
  end.

Definition insert_event_row (event_type : string) (new_dir new_name : option string)
    (file_id : option Z) (created : Z) : Stmt unit := λ db,
  match autoincrement_rowid (seq_file_events db) (map e_event_id (db_file_events db)) with
  | None => Err DatabaseFull
  | Some id => Ok (tt, set_file_events db
      (db_file_events db ++ [mkFileEventTuple id event_type new_dir new_name file_id created]) id)
  end.

Definition insert_file_change_log (kind : FileChangeLogKind) (new_target : option (string * string))
    (file_id : option Z) (created_at_ms : Z) : Tx unit :=
  file ← st_lift (match file_id with
                  | None => Ok None
                  | Some id => id ← u64_to_i64 id "file_id"; Ok (Some id)
                  end);
  created ← st_lift (u64_to_i64 created_at_ms "created_at_ms");
  sql (insert_event_row (file_change_log_kind kind) (fst <$> new_target) (snd <$> new_target)
         file created).

Definition row_to_file_change_log (row : FileEventTuple) : Fs0Result FileChangeLog :=
  event_id ← row_u64 0 "event_id" (e_event_id row);
  kind ← (if bool_decide (e_event_type row = "created") then Ok KCreated
          else if bool_decide (e_event_type row = "updated") then Ok KUpdated
          else if bool_decide (e_event_type row = "moved") then Ok KMoved
          else if bool_decide (e_event_type row = "deleted") then Ok KDeleted
          else Err (from_sqlite (FromSqlConversionFailure 1 SqlText
                      ("invalid file event type " +:+ e_event_type row))));
  file_id ← row_optional_u64 2 "file_id" (e_file_id row);
  new_path ← (match e_new_dir row, e_new_name row with
              | Some dir, Some name => path ← join_fs0_path dir name; Ok (Some path)
              | _, _ => Ok None
              end);
  created_at_ms ← row_u64 5 "created_at_ms" (e_created_at_ms row);
  Ok (mkFileChangeLog event_id kind file_id new_path created_at_ms).

Definition event_le (e e' : FileEventTuple) : Prop := e_event_id e ≤ e_event_id e'.
#[export] Instance event_le_dec : RelDecision event_le.
Proof. intros e e'. unfold event_le. apply _. Defined.

Definition select_events (db : CentralDb) (after limit : Z) : list FileEventTuple :=
  take (Z.to_nat limit)
    (merge_sort event_le (base.filter (λ e, after < e_event_id e) (db_file_events db))).

Definition get_file_change_logs (after_event_id limit : Z) : Tx FileChangeLogs :=
  let limit := zclamp 1 1024 limit in
  after ← st_lift (u64_to_i64 after_event_id "after_event_id");
  sql_limit ← st_lift (u64_to_i64 (limit + 1) "limit");
  rows ← query (λ db, select_events db after sql_limit);
  events ← st_lift (collect row_to_file_change_log rows);
  mret (if bool_decide (limit < Z.of_nat (length events))
        then
          let events := take (Z.to_nat limit) events in
          mkFileChangeLogs events (fcl_event_id <$> last events)
        else mkFileChangeLogs events None).
End Event.
