(* ===== verification/CentralFacts.v ===== *)
(** * The statements keep the invariant of the central database

    One lemma per statement of [CentralTables.v]: on a database that satisfies
    [db_ok], a statement that succeeds leaves one that satisfies it, with the
    rows it is meant to add, change or remove. *)

From S2P Require Import Prelude Types Paths DirCache CentralDb DirTree CentralInv CentralDir.
From S2P Require Import CentralTables.

Section Statements.
Context `{SqliteText, RowIds, !RowIdLaws}.

(** *** Row ids *)

Lemma autoincrement_fresh seq ids r :
  is_i64_nonneg seq → Forall (λ i, 0 < i ≤ seq) ids → autoincrement_rowid seq ids = Some r →
  seq < r ≤ i64_max ∧ (r ∉ ids).
Proof.
  intros [Hs _] Hids Hr. apply autoincrement_rowid_fresh in Hr; [|done|].
  - split; [done|]. rewrite Forall_forall in Hids. intros Hin%Hids. lia.
  - eapply Forall_impl; [exact Hids|]. simpl. lia.
Qed.

Lemma Forall_volume_ids db : db_ok db → Forall (λ i, 0 < i ≤ seq_volumes db) (volume_ids db).
Proof. intros Hok. apply Forall_fmap. eapply Forall_impl; [apply ok_volumes, Hok|]. by intros v []. Qed.
Lemma Forall_file_ids db : db_ok db → Forall (λ i, 0 < i ≤ seq_files db) (file_ids db).
Proof. intros Hok. apply Forall_fmap. eapply Forall_impl; [apply ok_files, Hok|]. by intros v []. Qed.
Lemma Forall_lease_ids db :
  db_ok db → Forall (λ i, 0 < i ≤ seq_update_leases db) (map l_lease_id (db_update_leases db)).
Proof. intros Hok. apply Forall_fmap. eapply Forall_impl; [apply ok_leases, Hok|]. by intros v []. Qed.
Lemma Forall_event_ids db :
  db_ok db → Forall (λ i, 0 < i ≤ seq_file_events db) (map e_event_id (db_file_events db)).
Proof. intros Hok. apply Forall_fmap. eapply Forall_impl; [apply ok_events, Hok|]. by intros v []. Qed.

(** rows stay well formed when the sequence grows *)
Lemma volume_row_ok_mono seq seq' v : seq ≤ seq' → volume_row_ok seq v → volume_row_ok seq' v.
Proof. unfold volume_row_ok. intros ? (? & ?). split; [lia|done]. Qed.
Lemma file_row_ok_mono ds seq seq' f : seq ≤ seq' → file_row_ok ds seq f → file_row_ok ds seq' f.
Proof. unfold file_row_ok. intros ? (? & ?). split; [lia|done]. Qed.
Lemma lease_row_ok_mono fs vs seq seq' l : seq ≤ seq' → lease_row_ok fs vs seq l → lease_row_ok fs vs seq' l.
Proof. unfold lease_row_ok. intros ? (? & ?). split; [lia|done]. Qed.
Lemma event_row_ok_mono seq seq' e : seq ≤ seq' → event_row_ok seq e → event_row_ok seq' e.
Proof. unfold event_row_ok. intros ? (? & ?). split; [lia|done]. Qed.

(** *** volumes *)

Lemma insert_volume_ok name max db id db' :
  db_ok db → is_i64_nonneg max → insert_volume name max db = Ok (id, db') →
  db_ok db' ∧ 0 < id ≤ i64_max ∧ (id ∉ volume_ids db) ∧
  db' = set_volumes db (db_volumes db ++ [mkVolumeRow id name max 0]) id.
Proof.
  intros Hok Hmax. unfold insert_volume.
  destruct (autoincrement_rowid _ _) as [r|] eqn:Hr; [|done]. intros [= <- <-].
  destruct (ok_seqs _ Hok) as (Hseq & _).
  apply autoincrement_fresh in Hr as [Hr Hfresh]; [|done|by apply Forall_volume_ids].
  split; [|destruct Hseq; split_and!; [lia|lia|done|done]]. apply db_ok_set_volumes; [done|..].
  - apply Forall_app. split.
    + eapply Forall_impl; [apply ok_volumes, Hok|]. intros v. apply volume_row_ok_mono. lia.
    + constructor; [|constructor]. unfold volume_row_ok. simpl. destruct Hseq. zlia.
  - apply NoDup_map_snoc; [apply ok_volume_ids, Hok|done].
  - destruct Hseq. zlia.
  - unfold volume_ids. rewrite map_app. set_solver.
Qed.

Lemma set_volume_offset_ok id offset db n db' :
  db_ok db → is_i64_nonneg offset → set_volume_offset id offset db = Ok (n, db') → db_ok db'.
Proof.
  intros Hok Hoff [= _ <-].
  assert (∀ l, map v_volume_id (map (λ v, if bool_decide (v_volume_id v = id)
    then mkVolumeRow id (v_name v) (v_max_bytes v) offset else v) l) = map v_volume_id l) as Hids.
  { intros l. rewrite map_map. apply map_ext. intros v. by case_bool_decide. }
  apply db_ok_set_volumes; [done|..].
  - apply Forall_fmap. eapply Forall_impl; [apply ok_volumes, Hok|]. intros v (? & ? & ?). simpl.
    case_bool_decide; [|done]. subst. by unfold volume_row_ok.
  - rewrite Hids. apply ok_volume_ids, Hok.
  - apply ok_seqs, Hok.
  - by rewrite Hids.
Qed.

(** *** files *)

Lemma find_file_by_name_None db dir name :
  find_file_by_name db dir name = None ↔ ∀ f, f ∈ db_files db → file_key f ≠ (dir, name).
Proof.
  rewrite <- child_file_id_None. unfold child_file_id, find_file_by_name. by rewrite fmap_None.
Qed.

Lemma find_file_by_name_Some db dir name f :
  db_ok db → find_file_by_name db dir name = Some f ↔ f ∈ db_files db ∧ file_key f = (dir, name).
Proof.
  intros Hok. split.
  - intros [Hin [<-%bool_decide_eq_true <-%bool_decide_eq_true]%andb_true_iff]%lfind_Some. done.
  - intros [Hin Hk]. destruct (find_file_by_name db dir name) as [g|] eqn:Hg.
    + apply lfind_Some in Hg as [Hg [Hd%bool_decide_eq_true Hn%bool_decide_eq_true]%andb_true_iff].
      f_equal. eapply (NoDup_map_inj file_key); [by apply ok_file_keys|done..|].
      unfold file_key in *. congruence.
    + rewrite find_file_by_name_None in Hg. by apply Hg in Hin.
Qed.

Lemma insert_file_ok dir name size comp created updated db id db' :
  db_ok db → valid_component name = true → dir_child (db_dirs db) dir name = None →
  is_i64_nonneg size → is_i64_nonneg comp → is_i64_nonneg created → is_i64_nonneg updated →
  insert_file dir name size comp created updated db = Ok (id, db') →
  let f := mkFileRow id dir name size comp created updated in
  db_ok db' ∧ 0 < id ≤ i64_max ∧ (id ∉ file_ids db) ∧ db' = set_files db (db_files db ++ [f]) id.
Proof.
  intros Hok Hv Hch ???? Hins. unfold insert_file in Hins.
  destruct (autoincrement_rowid _ _) as [r|] eqn:Hr; [|done].
  case_bool_decide as Hname; [done|]. case_bool_decide as Hdir; [|done].
  injection Hins as <- <-. apply eq_None_not_Some in Hname. rewrite find_file_by_name_None in Hname.
  destruct (ok_seqs _ Hok) as (_ & Hseq & _).
  apply autoincrement_fresh in Hr as [Hr Hfresh]; [|done|by apply Forall_file_ids].
  simpl. split; [|destruct Hseq; split_and!; [lia|lia|done|done]]. apply db_ok_set_files; [done|..].
  - apply Forall_app. split.
    + eapply Forall_impl; [apply ok_files, Hok|]. intros v. apply file_row_ok_mono. lia.
    + constructor; [|constructor]. unfold file_row_ok. simpl. destruct Hseq. split_and!; try done; lia.
  - apply NoDup_map_snoc; [apply ok_file_ids, Hok|done].
  - apply NoDup_map_snoc; [apply ok_file_keys, Hok|].
    intros (f & Hk & Hf)%list_elem_of_fmap. by apply (Hname f).
  - destruct Hseq. zlia.
  - intros b Hb. pose proof (ok_bundles _ Hok) as Hbs. rewrite Forall_forall in Hbs.
    rewrite map_app. apply elem_of_app. left. by apply Hbs.
  - intros l Hl. pose proof (ok_leases _ Hok) as Hls. rewrite Forall_forall in Hls.
    rewrite map_app. apply elem_of_app. left. by apply Hls.
Qed.

Lemma in_filter_ids {A} (f : A → Z) (l : list A) i j :
  i ∈ map f l → i ≠ j → i ∈ map f (base.filter (λ x, f x ≠ j) l).
Proof.
  intros (x & -> & Hx)%list_elem_of_fmap Hne. apply (list_elem_of_fmap_2 f).
  by apply list_elem_of_filter.
Qed.

(** deleting a file deletes its bundles and its lease *)
Definition without_file (db : CentralDb) (id : Z) : CentralDb :=
  set_update_leases
    (set_file_bundles
       (set_files db (base.filter (λ f, f_file_id f ≠ id) (db_files db)) (seq_files db))
       (base.filter (λ b, fb_file_id b ≠ id) (db_file_bundles db)))
    (base.filter (λ l, l_file_id l ≠ id) (db_update_leases db)) (seq_update_leases db).

Lemma without_file_ok db id : db_ok db → db_ok (without_file db id).
Proof.
  intros Hok. pose proof (ok_bundles _ Hok) as Hb. pose proof (ok_leases _ Hok) as Hl.
  rewrite Forall_forall in Hb; rewrite Forall_forall in Hl. unfold without_file.
  assert (db_ok (set_file_bundles db (base.filter (λ b, fb_file_id b ≠ id) (db_file_bundles db)))) as H1'.
  { apply db_ok_set_file_bundles; [done|apply Forall_filter_2, ok_bundles, Hok|].
    apply NoDup_map_filter, ok_bundle_keys, Hok. }
  assert (db_ok (set_update_leases (set_file_bundles db
      (base.filter (λ b, fb_file_id b ≠ id) (db_file_bundles db)))
      (base.filter (λ l, l_file_id l ≠ id) (db_update_leases db)) (seq_update_leases db))) as H2'.
  { apply db_ok_set_update_leases; [done|..].
    - apply Forall_filter_2. apply (ok_leases _ Hok).
    - apply NoDup_map_filter, ok_lease_ids, Hok.
    - apply NoDup_map_filter, ok_lease_files, Hok.
    - apply ok_seqs, Hok. }
  refine (db_ok_set_files _ _ _ H2' _ _ _ _ _ _); simpl.
  - apply Forall_filter_2, ok_files, Hok.
  - apply NoDup_map_filter, ok_file_ids, Hok.
  - apply NoDup_map_filter, ok_file_keys, Hok.
  - apply ok_seqs, Hok.
  - intros b [Hne Hin]%list_elem_of_filter. apply in_filter_ids; [by apply Hb|done].
  - intros l [Hne Hin]%list_elem_of_filter. apply in_filter_ids; [by apply Hl|done].
Qed.

Lemma filter_id_length {A} (f : A → Z) (l : list A) id :
  length (base.filter (λ x, f x = id) l) = 0%nat ↔ id ∉ map f l.
Proof.
  rewrite length_zero_iff_nil, filter_nil_iff. split.
  - intros Hn (x & -> & Hx)%list_elem_of_fmap. by apply (Hn x).
  - intros Hn x Hx <-. apply Hn. by apply (list_elem_of_fmap_2 f).
Qed.

Lemma delete_file_row_run id db :
  db_ok db →
  delete_file_row id db = Ok (Z.of_nat (length (base.filter (λ f, f_file_id f = id) (db_files db))),
                              without_file db id).
Proof.
  intros Hok. unfold delete_file_row. case_bool_decide as Hn; [|done]. rewrite Hn. do 2 f_equal.
  assert (id ∉ file_ids db) as Hid by (apply filter_id_length; lia).
  pose proof (ok_bundles _ Hok) as Hb. pose proof (ok_leases _ Hok) as Hl.
  rewrite Forall_forall in Hb; rewrite Forall_forall in Hl. unfold without_file, set_update_leases, set_file_bundles, set_files.
  simpl. f_equal.
  - symmetry. apply filter_all. intros b Hin. apply Hb in Hin as [_ Hin]. by intros <-.
  - symmetry. apply filter_all. intros l Hin. apply Hl in Hin as (_ & Hin & _). by intros <-.
Qed.

(** the rows of [l] with the row of key [id] changed by [g] *)
Lemma map_update_keys {A B} (f : A → B) (l : list A) (u : A → A) :
  (∀ x, x ∈ l → f (u x) = f x) → map f (map u l) = map f l.
Proof.
  intros Hu. rewrite map_map. apply map_ext_in. intros x Hx. apply Hu. by apply list_elem_of_In.
Qed.

Definition update_file (id : Z) (g : FileRow → FileRow) (db : CentralDb) : CentralDb :=
  set_files db (map (λ f, if bool_decide (f_file_id f = id) then g f else f) (db_files db))
    (seq_files db).

Lemma update_file_ok id g db :
  db_ok db →
  (∀ f, f ∈ db_files db → f_file_id f = id →
     f_file_id (g f) = id ∧ file_row_ok (db_dirs db) (seq_files db) (g f)) →
  NoDup (map file_key (db_files (update_file id g db))) →
  db_ok (update_file id g db).
Proof.
  intros Hok Hg Hnd.
  assert (map f_file_id (db_files (update_file id g db)) = file_ids db) as Hids.
  { apply map_update_keys. intros f Hf. case_bool_decide as Heq; [|done].
    destruct (Hg f Hf Heq) as [Hid _]. congruence. }
  pose proof (ok_files _ Hok) as Hf. rewrite Forall_forall in Hf.
  apply db_ok_set_files; [done|..].
  - apply Forall_fmap, Forall_forall. intros f Hin. simpl. case_bool_decide; [by apply Hg|by apply Hf].
  - simpl in Hids. rewrite Hids. apply ok_file_ids, Hok.
  - done.
  - apply ok_seqs, Hok.
  - intros b Hb. simpl in Hids. rewrite Hids.
    pose proof (ok_bundles _ Hok) as Hbs. rewrite Forall_forall in Hbs. by apply Hbs.
  - intros l Hl. simpl in Hids. rewrite Hids.
    pose proof (ok_leases _ Hok) as Hls. rewrite Forall_forall in Hls. by apply Hls.
Qed.

Definition moved (dir : Z) (name : string) (updated : Z) (f : FileRow) : FileRow :=
  mkFileRow (f_file_id f) dir name (f_size_bytes f) (f_compressed_size_bytes f) (f_created_at_ms f)
    updated.
Definition resized (size comp updated : Z) (f : FileRow) : FileRow :=
  mkFileRow (f_file_id f) (f_dir_id f) (f_name f) size comp (f_created_at_ms f) updated.

Lemma map_if_ext {A} (c : A → bool) (g h : A → A) l :
  (∀ x, c x = true → g x = h x) →
  map (λ x, if c x then g x else x) l = map (λ x, if c x then h x else x) l.
Proof. intros Hgh. apply map_ext. intros x. destruct (c x) eqn:Hc; auto. Qed.

Lemma moved_keys_NoDup id dir name updated db :
  db_ok db →
  (∀ f, f ∈ db_files db → file_key f = (dir, name) → f_file_id f = id) →
  NoDup (map file_key (db_files (update_file id (moved dir name updated) db))).
Proof.
  intros Hok Hother. pose proof (ok_file_keys _ Hok) as Hk. pose proof (ok_file_ids _ Hok) as Hi.
  unfold file_ids in Hi. simpl.
  assert (∀ f, f ∈ db_files db → file_key f = (dir, name) → f_file_id f = id) as Ho by done.
  clear Hother. revert Hk Hi Ho. generalize (db_files db). clear Hok db.
  induction l as [|f l IH]; simpl; [constructor|].
  intros [Hfk Hk]%NoDup_cons [Hfi Hi]%NoDup_cons Ho.
  apply NoDup_cons. split; [|apply IH; [done..|intros g Hg; apply Ho; by right]].
  intros (g' & Hkey & (g & -> & Hg)%list_elem_of_fmap)%list_elem_of_fmap. simpl in Hkey.
  destruct (decide (f_file_id f = id)) as [Hf|Hf], (decide (f_file_id g = id)) as [Hgi|Hgi];
    rewrite ?(bool_decide_true (f_file_id f = id)), ?(bool_decide_false (f_file_id f = id)),
      ?(bool_decide_true (f_file_id g = id)), ?(bool_decide_false (f_file_id g = id)) in Hkey by done.
  - apply Hfi. rewrite Hf, <- Hgi. by apply (list_elem_of_fmap_2 f_file_id).
  - apply Hgi, Ho; [by right|]. by rewrite <- Hkey.
  - apply Hf, Ho; [by left|]. by rewrite Hkey.
  - apply Hfk. rewrite Hkey. by apply (list_elem_of_fmap_2 file_key).
Qed.

Lemma move_file_row_run id dir name updated db :
  db_ok db → dir ∈ dir_ids (db_dirs db) → name_available db dir name (Some id) →
  move_file_row id dir name updated db =
    Ok (Z.of_nat (length (base.filter (λ f, f_file_id f = id) (db_files db))),
        if bool_decide (id ∈ file_ids db) then update_file id (moved dir name updated) db else db).
Proof.
  intros Hok Hdir [_ Hfree]. unfold move_file_row. case_bool_decide as Hn.
  - assert (id ∉ file_ids db) as Hid by (apply filter_id_length; lia).
    rewrite bool_decide_false by done. by rewrite Hn.
  - assert (id ∈ file_ids db) as Hid.
    { destruct (decide (id ∈ file_ids db)) as [|Hno]; [done|]. apply filter_id_length in Hno. lia. }
    rewrite (bool_decide_true (id ∈ _)) by done.
    replace (existsb _ _) with false.
    2:{ symmetry. apply existsb_false, Forall_forall. intros f Hf.
        rewrite <- !bool_decide_and. apply bool_decide_eq_false. intros [[Hne <-] <-].
        specialize (Hfree f Hf eq_refl). congruence. }
    rewrite bool_decide_true by done. do 2 f_equal. unfold update_file. f_equal.
    apply map_if_ext. intros f <-%bool_decide_eq_true. done.
Qed.

Lemma moved_ok id dir name updated db :
  db_ok db → dir ∈ dir_ids (db_dirs db) → valid_component name = true →
  name_available db dir name (Some id) → is_i64_nonneg updated →
  db_ok (update_file id (moved dir name updated) db).
Proof.
  intros Hok Hdir Hv [Hch Hfree] Hu. apply update_file_ok; [done| |].
  - intros f Hin <-. split; [done|]. pose proof (ok_files _ Hok) as Hf. rewrite Forall_forall in Hf.
    destruct (Hf f Hin) as (? & _ & _ & _ & ? & ? & ? & _). by unfold file_row_ok.
  - apply moved_keys_NoDup; [done|]. intros f Hf Hk. specialize (Hfree f Hf Hk). congruence.
Qed.

Lemma resized_ok id size comp updated db :
  db_ok db → is_i64_nonneg size → is_i64_nonneg comp → is_i64_nonneg updated →
  db_ok (update_file id (resized size comp updated) db).
Proof.
  intros Hok ???. apply update_file_ok; [done| |].
  - intros f Hin <-. split; [done|]. pose proof (ok_files _ Hok) as Hf. rewrite Forall_forall in Hf.
    destruct (Hf f Hin) as (? & ? & ? & ? & _ & _ & ? & _). by unfold file_row_ok.
  - simpl. rewrite (map_update_keys file_key); [apply ok_file_keys, Hok|].
    intros f _. by case_bool_decide.
Qed.

Lemma resize_file_row_run id size comp updated db :
  resize_file_row id size comp updated db =
    Ok (Z.of_nat (length (base.filter (λ f, f_file_id f = id) (db_files db))),
        update_file id (resized size comp updated) db).
Proof.
  unfold resize_file_row, update_file. do 3 f_equal. apply map_if_ext.
  by intros f <-%bool_decide_eq_true.
Qed.

Lemma find_file_Some db id f : db_ok db → find_file db id = Some f ↔ f ∈ db_files db ∧ f_file_id f = id.
Proof.
  intros Hok. split.
  - intros [Hin Hid%bool_decide_eq_true]%lfind_Some. done.
  - intros [Hin <-]. by apply (lfind_key f_file_id); [apply ok_file_ids|].
Qed.

Lemma find_file_None db id : find_file db id = None ↔ id ∉ file_ids db.
Proof.
  unfold find_file. rewrite lfind_None. split.
  - intros Hf (f & -> & Hin)%list_elem_of_fmap. specialize (Hf f Hin). by rewrite bool_decide_true in Hf.
  - intros Hid f Hin. apply bool_decide_eq_false. intros <-. apply Hid. by apply (list_elem_of_fmap_2 f_file_id).
Qed.

Lemma find_file_update id g db f :
  db_ok db → f_file_id (g f) = id → find_file db id = Some f →
  find_file (update_file id g db) id = Some (g f).
Proof.
  intros Hok Hg Hf. unfold find_file, update_file in *. simpl.
  revert Hf. induction (db_files db) as [|h l IH]; simpl; [done|].
  destruct (bool_decide (f_file_id h = id)) eqn:Hh.
  - intros [= ->]. by rewrite bool_decide_true.
  - rewrite Hh. done.
Qed.

Lemma file_count db id f :
  db_ok db → find_file db id = Some f →
  Z.of_nat (length (base.filter (λ f, f_file_id f = id) (db_files db))) ≠ 0.
Proof.
  intros Hok [Hin <-]%find_file_Some; [|done]. intros Hn.
  apply (filter_id_length f_file_id (db_files db) (f_file_id f)); [lia|].
  by apply (list_elem_of_fmap_2 f_file_id).
Qed.

Lemma row_to_file_ok db f : db_ok db → f ∈ db_files db → row_to_file f = Ok f.
Proof.
  intros Hok Hin. pose proof (ok_files _ Hok) as Hf. rewrite Forall_forall in Hf.
  destruct (Hf f Hin) as ([? ?] & Hd & _ & _ & [? ?] & [? ?] & [? ?] & [? ?]).
  apply (dirs_ok_ids_range _ _ (ok_dirs _ Hok)) in Hd as [? _].
  unfold row_to_file, mbind, Result_bind. rewrite !row_u64_fits by lia. by destruct f.
Qed.

(** *** bundle_replicas *)

Definition find_replica (db : CentralDb) (bundle_id : HashId) (volume_id : Z) : option BundleReplicaRow :=
  lfind (λ r, bool_decide (replica_key r = (bundle_id, volume_id))) (db_bundle_replicas db).

Lemma find_replica_Some db b v r :
  db_ok db → find_replica db b v = Some r ↔ r ∈ db_bundle_replicas db ∧ replica_key r = (b, v).
Proof.
  intros Hok. split.
  - intros [Hin Hk%bool_decide_eq_true]%lfind_Some. done.
  - intros [Hin Hk]. unfold find_replica. rewrite <- Hk.
    by apply (lfind_key replica_key); [apply ok_replica_keys|].
Qed.

(** the table maps (bundle, volume) to the lengths last stored *)
Lemma upsert_replica_ok b v raw comp db db' :
  db_ok db → 0 < raw ≤ i64_max → 0 < comp ≤ i64_max →
  upsert_replica_row b v raw comp db = Ok (tt, db') →
  db_ok db' ∧ v ∈ volume_ids db ∧
  db' = set_bundle_replicas db (db_bundle_replicas db') ∧
  find_replica db' b v = Some (mkBundleReplicaRow b v raw comp) ∧
  (∀ b' v', (b', v') ≠ (b, v) → find_replica db' b' v' = find_replica db b' v').
Proof.
  intros Hok Hraw Hcomp. unfold upsert_replica_row.
  set (row := mkBundleReplicaRow b v raw comp). case_bool_decide as Hin.
  - intros [= <-]. set (u := λ r, if _ && _ then row else r).
    assert (∀ r, replica_key (u r) = replica_key r) as Hu.
    { intros r. unfold u. case_bool_decide as Hk; [|done]. destruct (_ || _); [by rewrite Hk|done]. }
    assert (∀ r, replica_key r = (b, v) → u r = row) as Hrow.
    { intros [b' v' raw' comp'] Hk. unfold u. rewrite bool_decide_true by done. simpl.
      injection Hk as -> ->. repeat case_bool_decide; simpl; try done.
      unfold row. f_equal; by destruct (decide (raw' = raw)), (decide (comp' = comp)). }
    assert (∀ r, replica_key r ≠ (b, v) → u r = r) as Hother.
    { intros r Hk. unfold u. by rewrite bool_decide_false. }
    assert (v ∈ volume_ids db) as Hv.
    { apply list_elem_of_fmap in Hin as (r & [= -> ->] & Hr).
      pose proof (ok_replicas _ Hok) as Hrs. rewrite Forall_forall in Hrs. by apply Hrs. }
    split_and!; [|done|done| |].
    + apply db_ok_set_bundle_replicas; [done| |].
      * apply Forall_fmap. eapply Forall_impl; [apply ok_replicas, Hok|]. intros r Hr. simpl.
        destruct (decide (replica_key r = (b, v))) as [Hk|Hk]; [|by rewrite Hother].
        rewrite Hrow by done. split; [done|]. simpl. lia.
      * rewrite map_map. erewrite map_ext by apply Hu. apply ok_replica_keys, Hok.
    + unfold find_replica. simpl. apply list_elem_of_fmap in Hin as (r & Hk & Hr).
      revert Hr. generalize (db_bundle_replicas db). induction l as [|r' l IH]; [by intros []%elem_of_nil|].
      intros Hr. simpl. rewrite Hu. case_bool_decide as Hk'; [by rewrite Hrow|].
      apply IH. apply elem_of_cons in Hr as [->|]; congruence.
    + intros b' v' Hne. unfold find_replica. simpl. clear Hin.
      induction (db_bundle_replicas db) as [|r l IH]; simpl; [done|]. rewrite Hu.
      case_bool_decide as Hk; [|done]. f_equal. apply Hother. congruence.
  - case_bool_decide as Hv; [|done]. intros [= <-]. split_and!; [|done|done| |].
    + apply db_ok_set_bundle_replicas; [done| |].
      * apply Forall_app. split; [apply ok_replicas, Hok|]. constructor; [|constructor].
        split; [done|]. simpl. lia.
      * by apply NoDup_map_snoc; [apply ok_replica_keys, Hok|].
    + unfold find_replica. simpl. rewrite lfind_app.
      replace (lfind _ (db_bundle_replicas db)) with (@None BundleReplicaRow).
      { simpl. by rewrite bool_decide_true. }
      symmetry. apply lfind_None. intros r Hr. apply bool_decide_eq_false. intros Hk.
      apply Hin. rewrite <- Hk. by apply (list_elem_of_fmap_2 replica_key).
    + intros b' v' Hne. unfold find_replica. simpl. rewrite lfind_app. destruct (lfind _ _); [done|].
      simpl. rewrite bool_decide_false; [done|]. intros [=]. by subst.
Qed.

Lemma delete_replica_ok b v db db' :
  db_ok db → delete_replica_row b v db = Ok (tt, db') →
  db_ok db' ∧ db' = set_bundle_replicas db (db_bundle_replicas db') ∧
  find_replica db' b v = None ∧
  (∀ b' v', (b', v') ≠ (b, v) → find_replica db' b' v' = find_replica db b' v').
Proof.
  intros Hok [= <-]. split_and!; [|done| |].
  - apply db_ok_set_bundle_replicas; [done|apply Forall_filter_2, ok_replicas, Hok|].
    apply NoDup_map_filter, ok_replica_keys, Hok.
  - apply lfind_None. intros r [Hne _]%list_elem_of_filter. by apply bool_decide_eq_false.
  - intros b' v' Hne. unfold find_replica. simpl.
    induction (db_bundle_replicas db) as [|r l IH]; [done|].
    destruct (decide (replica_key r = (b, v))) as [Hk|Hk].
    + rewrite filter_cons_False by naive_solver. rewrite IH. simpl.
      by rewrite (bool_decide_false (replica_key r = (b', v'))) by congruence.
    + rewrite filter_cons_True by done. simpl. by rewrite IH.
Qed.

(** *** file_bundles *)

Lemma delete_file_bundle_rows_ok id db db' :
  db_ok db → delete_file_bundle_rows id db = Ok (tt, db') → db_ok db'.
Proof.
  intros Hok [= <-].
  apply db_ok_set_file_bundles; [done|apply Forall_filter_2, ok_bundles, Hok|].
  apply NoDup_map_filter, ok_bundle_keys, Hok.
Qed.

Lemma insert_file_bundle_row_ok row db :
  db_ok db → is_i64_nonneg (fb_bundle_index row) → fb_file_id row ∈ file_ids db →
  bundle_key row ∉ map bundle_key (db_file_bundles db) →
  let db' := set_file_bundles db (db_file_bundles db ++ [row]) in
  insert_file_bundle_row row db = Ok (tt, db') ∧ db_ok db'.
Proof.
  intros Hok Hi Hf Hk. unfold insert_file_bundle_row. rewrite bool_decide_false by done.
  rewrite bool_decide_true by done. split; [done|]. apply db_ok_set_file_bundles; [done| |].
  - apply Forall_app. split; [apply ok_bundles, Hok|]. by repeat constructor; [apply Hi|apply Hi|].
  - by apply NoDup_map_snoc; [apply ok_bundle_keys, Hok|].
Qed.

Lemma insert_file_bundle_rows_ok rows db :
  db_ok db → Forall (λ b, is_i64_nonneg (fb_bundle_index b) ∧ fb_file_id b ∈ file_ids db) rows →
  NoDup (map bundle_key (db_file_bundles db ++ rows)) →
  let db' := set_file_bundles db (db_file_bundles db ++ rows) in
  insert_file_bundle_rows rows db = Ok (tt, db') ∧ db_ok db'.
Proof.
  revert db. induction rows as [|row rows IH]; intros db Hok Hrows Hnd; simpl.
  { rewrite app_nil_r. by destruct db. }
  apply Forall_cons in Hrows as [[Hi Hf] Hrows].
  assert (bundle_key row ∉ map bundle_key (db_file_bundles db)) as Hk.
  { rewrite map_app in Hnd. apply NoDup_app in Hnd as (_ & Hd & _).
    intros Hin. apply (Hd _ Hin). by left. }
  destruct (insert_file_bundle_row_ok row db) as [Hrun Hok1]; [done..|]. rewrite Hrun.
  unfold mbind, Result_bind. destruct (IH _ Hok1) as [Hrun2 Hok2]; simpl.
  - done.
  - by rewrite <- app_assoc.
  - rewrite Hrun2. simpl in *. by rewrite <- app_assoc in *.
Qed.

Lemma copy_file_bundle_rows_ok target source db :
  db_ok db → target ∈ file_ids db → (∀ b, b ∈ db_file_bundles db → fb_file_id b ≠ target) →
  let copied := map (λ b, mkFileBundleTuple target (fb_bundle_index b) (fb_bundle_id b))
                  (base.filter (λ b, fb_file_id b = source) (db_file_bundles db)) in
  let db' := set_file_bundles db (db_file_bundles db ++ copied) in
  copy_file_bundle_rows target source db = Ok (tt, db') ∧ db_ok db'.
Proof.
  intros Hok Ht Hno copied. apply insert_file_bundle_rows_ok; [done| |].
  - apply Forall_fmap, Forall_filter_2. eapply Forall_impl; [apply ok_bundles, Hok|].
    intros b [? ?]. done.
  - rewrite map_app. apply NoDup_app. split_and!; [apply ok_bundle_keys, Hok| |].
    + intros k (b & -> & Hb)%list_elem_of_fmap Hk.
      apply list_elem_of_fmap in Hk as (b' & Hkey & Hb'). apply list_elem_of_fmap in Hb' as (b'' & -> & _).
      injection Hkey as Hkey _. by apply Hno in Hb.
    + unfold copied. rewrite map_map. simpl.
      assert (NoDup (map bundle_key (base.filter (λ b, fb_file_id b = source) (db_file_bundles db)))) as Hnd
        by apply NoDup_map_filter, ok_bundle_keys, Hok.
      apply NoDup_fmap_2_strong; [|by eapply NoDup_fmap_1].
      intros b b' [Hs Hb]%list_elem_of_filter [Hs' Hb']%list_elem_of_filter [= Hi].
      eapply (NoDup_map_inj bundle_key); [by apply ok_bundle_keys|done..|].
      unfold bundle_key. congruence.
Qed.

(** *** update_leases *)

Lemma delete_leases_ok (P : LeaseTuple → Prop) `{∀ l, Decision (P l)} db db' :
  db_ok db → delete_leases_where P db = Ok (tt, db') → db_ok db'.
Proof.
  intros Hok [= <-]. apply db_ok_set_update_leases; [done|..].
  - apply Forall_filter_2, ok_leases, Hok.
  - apply NoDup_map_filter, ok_lease_ids, Hok.
  - apply NoDup_map_filter, ok_lease_files, Hok.
  - apply ok_seqs, Hok.
Qed.

Lemma insert_lease_row_ok file volume base offset prefer expires created db id db' :
  db_ok db → is_i64_nonneg base → is_i64_nonneg offset → is_i64_nonneg expires →
  insert_lease_row file volume base offset prefer expires created db = Ok (id, db') →
  let l := mkLeaseTuple id file volume base offset prefer expires created in
  db_ok db' ∧ 0 < id ≤ i64_max ∧ (id ∉ map l_lease_id (db_update_leases db)) ∧
  db' = set_update_leases db (db_update_leases db ++ [l]) id.
Proof.
  intros Hok ??? Hins. unfold insert_lease_row in Hins.
  destruct (autoincrement_rowid _ _) as [r|] eqn:Hr; [|done].
  case_bool_decide as Hfile; [done|]. rewrite <- bool_decide_and in Hins.
  case_bool_decide as Hfk; [|done]. destruct Hfk as [Hf Hv]. injection Hins as <- <-.
  destruct (ok_seqs _ Hok) as (_ & _ & Hseq & _).
  apply autoincrement_fresh in Hr as [Hr Hfresh]; [|done|by apply Forall_lease_ids].
  simpl. split; [|destruct Hseq; split_and!; [lia|lia|done|done]].
  apply db_ok_set_update_leases; [done|..].
  - apply Forall_app. split.
    + eapply Forall_impl; [apply ok_leases, Hok|]. intros v. apply lease_row_ok_mono. lia.
    + constructor; [|constructor]. unfold lease_row_ok. simpl. destruct Hseq. split_and!; try done; lia.
  - apply NoDup_map_snoc; [apply ok_lease_ids, Hok|done].
  - apply NoDup_map_snoc; [apply ok_lease_files, Hok|done].
  - destruct Hseq. zlia.
Qed.

(** *** file_events *)

Lemma insert_event_row_ok kind dir name file created db db' :
  db_ok db → is_i64_nonneg (default 0 file) → is_i64_nonneg created →
  insert_event_row (file_change_log_kind kind) dir name file created db = Ok (tt, db') →
  ∃ id, db_ok db' ∧ seq_file_events db < id ≤ i64_max ∧
    db' = set_file_events db
      (db_file_events db ++ [mkFileEventTuple id (file_change_log_kind kind) dir name file created]) id.
Proof.
  intros Hok Hf Hc. unfold insert_event_row.
  destruct (autoincrement_rowid _ _) as [r|] eqn:Hr; [|done]. intros [= <-]. exists r.
  destruct (ok_seqs _ Hok) as (_ & _ & _ & Hseq).
  apply autoincrement_fresh in Hr as [Hr _]; [|done|by apply Forall_event_ids].
  split; [|done]. pose proof (ok_events _ Hok) as Hev. apply db_ok_set_file_events; [done|..].
  - apply Forall_app. split.
    + eapply Forall_impl; [exact Hev|]. intros v. apply event_row_ok_mono. lia.
    + constructor; [|constructor]. unfold event_row_ok. simpl. destruct Hseq.
      split_and!; try done; try lia. destruct kind; set_solver.
  - pose proof (ok_event_order _ Hok) as Hord.
    assert (Forall (λ e, e_event_id e < r) (db_file_events db)) as Hlt.
    { eapply Forall_impl; [exact Hev|]. intros e [He _]. simpl. lia. }
    clear -Hord Hlt. induction Hord as [|e l Hord IH Hall]; simpl; [by repeat constructor|].
    apply Forall_cons in Hlt as [He Hlt]. constructor; [by apply IH|].
    apply Forall_app. split; [done|]. by constructor.
  - destruct Hseq. zlia.
Qed.
End Statements.
