(* ===== verification/CentralRuns.v ===== *)
(** * What the methods of the central database do

    For every [CentralTx] method of [CentralTables.v] a lemma that gives its
    result and its effect from a database with the invariant ([_run]) or the
    rule by which the handlers keep the invariant ([_triple]). *)

From S2P Require Import Prelude Types Paths DirCache CentralDb DirTree CentralInv CentralDir.
From S2P Require Import CentralTables CentralFacts.

Section Runs.
Context `{SqliteText, RowIds, !RowIdLaws}.

Lemma lift_fits v name (s : CentralTx) : v ≤ i64_max → st_lift (u64_to_i64 v name) s = (Ok v, s).
Proof. intros. unfold st_lift. by rewrite u64_to_i64_fits. Qed.

(** *** Reads *)

Lemma get_file_by_id_run id s :
  db_ok (tx_db s) → id ≤ i64_max →
  get_file_by_id id s = (ok_or NotFound (find_file (tx_db s) id), s).
Proof.
  intros Hok Hid. unfold get_file_by_id. rewrite (ST_bind_run _ _ _ _ _ (lift_fits _ _ _ Hid)).
  unfold mbind, ST_bind, query, st_lift. destruct (find_file (tx_db s) id) as [f|] eqn:Hf; simpl; [|done].
  apply find_file_Some in Hf as [Hin _]; [|done]. by rewrite (row_to_file_ok _ _ Hok Hin).
Qed.

(** the file at a path, without the cache *)
Definition file_of_path (db : CentralDb) (path : string) : Fs0Result FileRow :=
  '(dir, name) ← split_fs0_path_dir_and_name path;
  dir_id ← dir_id_of_path (db_dirs db) dir;
  ok_or NotFound (find_file_by_name db dir_id name).

Lemma get_file_by_path_run path s ds :
  db_ok (tx_db s) → ds = db_dirs (tx_db s) → cache_ok ds (tx_dir_cache s) →
  ∃ c', get_file_by_path path s = (file_of_path (tx_db s) path, mkCentralTx (tx_db s) c') ∧
        cache_ok ds c'.
Proof.
  intros Hok Hds Hc. pose proof (ok_dirs _ Hok) as Hd. rewrite <- Hds in Hd.
  unfold get_file_by_path, file_of_path. rewrite <- Hds.
  destruct (split_fs0_path_dir_and_name path) as [[dir name]|e].
  2:{ exists (tx_dir_cache s). split; [by destruct s|done]. }
  destruct (get_dir_id_by_path_run dir s ds Hds Hd Hc) as (c' & Hrun & Hc'). exists c'.
  split; [|done].
  rewrite (ST_bind_run _ _ s (dir, name) s) by done. rewrite Ok_bind.
  destruct (dir_id_of_path ds dir) as [id|e] eqn:Hid; [|rewrite Err_bind; by rewrite (ST_bind_run_Err _ _ _ _ _ Hrun)].
  rewrite (ST_bind_run _ _ _ _ _ Hrun).
  apply dir_id_of_path_Ok in Hid as (cs & _ & _ & Hat); [|done].
  rewrite (ST_bind_run _ _ _ id (mkCentralTx (tx_db s) c')).
  2:{ apply lift_fits. apply (dir_at_id ds) in Hat; [|done].
      apply (dirs_ok_ids_range ds) in Hat; [lia|done]. }
  unfold mbind, ST_bind, Result_bind, query, st_lift. cbn [tx_db].
  destruct (find_file_by_name (tx_db s) id name) as [f|] eqn:Hf; simpl; [|done].
  apply find_file_by_name_Some in Hf as [Hin _]; [|done]. by rewrite (row_to_file_ok _ _ Hok Hin).
Qed.

Lemma select_file_bundles_in db id b :
  b ∈ select_file_bundles db id ↔ b ∈ db_file_bundles db ∧ fb_file_id b = id.
Proof.
  unfold select_file_bundles. rewrite merge_sort_Permutation, list_elem_of_filter. naive_solver.
Qed.

Definition bundle_row_of (b : FileBundleTuple) : FileBundleRow :=
  mkFileBundleRow (fb_bundle_index b) (fb_bundle_id b).

Lemma get_file_bundles_run id s :
  db_ok (tx_db s) → id ≤ i64_max →
  get_file_bundles_by_file_id id s = (Ok (map bundle_row_of (select_file_bundles (tx_db s) id)), s).
Proof.
  intros Hok Hid. unfold get_file_bundles_by_file_id.
  rewrite (ST_bind_run _ _ _ _ _ (lift_fits _ _ _ Hid)). unfold mbind, ST_bind, query, st_lift.
  f_equal. apply collect_map, Forall_forall. intros b [Hin _]%select_file_bundles_in.
  pose proof (ok_bundles _ Hok) as Hb. rewrite Forall_forall in Hb. destruct (Hb b Hin) as [[? _] _].
  unfold row_to_file_bundle, mbind, Result_bind. by rewrite row_u64_fits.
Qed.

(** all the rows of the queried bundles, batch by batch *)
Definition replicas_of (db : CentralDb) (ids : list HashId) : list BundleReplicaRow :=
  concat (map (select_replicas db) (chunks BUNDLE_ID_QUERY_BATCH_SIZE ids)).

Lemma select_replicas_in db batch r :
  r ∈ select_replicas db batch ↔ r ∈ db_bundle_replicas db ∧ br_bundle_id r ∈ batch.
Proof. unfold select_replicas. rewrite merge_sort_Permutation, list_elem_of_filter. naive_solver. Qed.

Lemma row_to_bundle_ok db r : db_ok db → r ∈ db_bundle_replicas db → row_to_bundle r = Ok r.
Proof.
  intros Hok Hin. pose proof (ok_replicas _ Hok) as Hr. rewrite Forall_forall in Hr.
  destruct (Hr r Hin) as (Hv & ? & ?). pose proof (Forall_volume_ids _ Hok) as Hvs.
  rewrite Forall_forall in Hvs. apply Hvs in Hv.
  unfold row_to_bundle, mbind, Result_bind. rewrite !row_u64_fits by lia. by destruct r.
Qed.

Lemma get_bundle_replicas_run ids s :
  db_ok (tx_db s) → get_bundle_replicas_by_id ids s = (Ok (replicas_of (tx_db s) ids), s).
Proof.
  intros Hok. unfold get_bundle_replicas_by_id, replicas_of.
  case_bool_decide as Hids; [by subst|]. clear Hids.
  induction (chunks BUNDLE_ID_QUERY_BATCH_SIZE ids) as [|batch batches IH]; [done|]. simpl.
  unfold mbind at 1 2, ST_bind at 1 2, query, st_lift.
  rewrite (collect_map _ (λ r, r)).
  2:{ apply Forall_forall. intros r [Hin _]%select_replicas_in. by eapply row_to_bundle_ok. }
  rewrite map_id. by rewrite (ST_bind_run _ _ _ _ _ IH).
Qed.

(** *** Creating, copying and renaming files *)

Lemma sql_Ok {A} (stmt : Stmt A) s a db' :
  stmt (tx_db s) = Ok (a, db') → sql stmt s = (Ok a, mkCentralTx db' (tx_dir_cache s)).
Proof. unfold sql. by intros ->. Qed.
Lemma sql_Err {A} (stmt : Stmt A) s e :
  stmt (tx_db s) = Err e → sql stmt s = (Err (from_sqlite e), s).
Proof. unfold sql. by intros ->. Qed.

(** why a file cannot come to a path: the text is no path, there are no more rows, a file is on the way, or the path is
    taken by a directory or by a file other than [existing] *)
Definition target_taken (db : CentralDb) (existing : option Z) (cs p : list string) : Prop :=
  p `prefix_of` cs ∧
  ((p = cs ∧ ∃ id, dir_at (db_dirs db) id cs) ∨ ∃ f, file_at db f p ∧ (p = cs → existing ≠ Some (f_file_id f))).
Definition target_refused (db : CentralDb) (existing : option Z) (path : string) (e : Fs0Error) : Prop :=
  split_fs0_path_dir_and_name path = Err e ∨ e = from_sqlite DatabaseFull ∨
  ∃ cs p, path = render cs ∧ Forall (λ c, valid_component c = true) cs ∧ e = AlreadyExists (render p) ∧ target_taken db existing cs p.

(** a number does not fit, or the file that is to be there is not *)
Definition source_refused (db : CentralDb) (id now : Z) (e : Fs0Error) : Prop :=
  e = NotFound ∧ find_file db id = None ∨ (i64_max < id ∨ i64_max < now) ∧ ∃ m, e = IntegerConversion m.

(** the directory of a target path is there or created, and the check of the name
    is made in it *)
Lemma open_target_run path dir name existing s :
  db_ok (tx_db s) → cache_ok (db_dirs (tx_db s)) (tx_dir_cache s) →
  split_fs0_path_dir_and_name path = Ok (dir, name) →
  ∃ r db1 new c1, create_dir dir s = (r, mkCentralTx db1 c1) ∧
    extends_dirs (tx_db s) db1 new ∧ cache_ok (db_dirs (tx_db s)) c1 ∧
    match r with
    | Err e => target_refused (tx_db s) existing path e
    | Ok id =>
      (∃ cs, path = render (cs ++ [name]) ∧ Forall (λ c, valid_component c = true) (cs ++ [name]) ∧
             dir_at (db_dirs db1) id cs ∧ dirs_along (db_dirs (tx_db s)) (db_dirs db1) cs) ∧ 0 ≤ id ≤ i64_max ∧ id ∈ dir_ids (db_dirs db1) ∧
      (ensure_child_name_available id name existing path (mkCentralTx db1 c1) =
         (Ok tt, mkCentralTx db1 c1) ∧ name_available db1 id name existing ∨
       ensure_child_name_available id name existing path (mkCentralTx db1 c1) =
         (Err (AlreadyExists path), mkCentralTx db1 c1) ∧ target_refused (tx_db s) existing path (AlreadyExists path))
    end.
Proof.
  intros Hok Hc Hsplit.
  destruct (create_dir_run dir s Hok Hc) as (r & db1 & new & c1 & Hrun & Hext & Hc1 & Hr & _).
  apply split_dir_and_name_render in Hsplit as (cs' & -> & -> & Hv).
  assert (split_fs0_path_components (render cs') = Ok cs') as Hcs'
    by (apply split_components_render; split; [done|by apply Forall_app in Hv as [? _]]).
  exists r, db1, new, c1. split_and!; [done..|]. destruct r as [id|e].
  2:{ destruct Hr as [Hr|(cs & Hr & Hway)]; rewrite Hcs' in Hr; [done|]. injection Hr as <-. right.
      destruct Hway as [->|(f & p & -> & Hp & Hf)]; [by left|right]. exists (cs' ++ [name]), p. do 3 (split; [done|]). split; [by apply prefix_app_r|].
      right. exists f. split; [done|]. intros ->. apply prefix_length in Hp. rewrite length_app in Hp. simpl in Hp. lia. }
  destruct Hr as (cs & Hdir & Hat & Hal). rewrite Hcs' in Hdir. injection Hdir as <-.
  pose proof Hext as [Hdb1 Hok1]. pose proof (dir_at_id _ _ _ (ok_dirs _ Hok1) Hat) as Hin.
  pose proof (dirs_ok_ids_range _ _ (ok_dirs _ Hok1) Hin) as Hid.
  split_and!; [by eauto|lia|lia|done|].
  destruct (ensure_child_run id name existing (render (cs' ++ [name])) (mkCentralTx db1 c1))
    as [[? ?]|[? Hn]]; [done|lia|by left|right]. split; [done|]. right. right. exists (cs' ++ [name]), (cs' ++ [name]).
  do 4 (split; [done|]). apply name_taken in Hn as [[i Hi%dir_child_Some]|(f & Hf & [= Hfd Hfn] & Hne)]; cbn [tx_db] in *.
  - left. split; [done|]. exists i. assert (dir_at (db_dirs db1) i (cs' ++ [name])) as [?|Hp]%Hal by (by econstructor); [done|].
    apply prefix_length in Hp. rewrite length_app in Hp. simpl in Hp. lia.
  - right. exists f. split; [|done]. eapply (file_at_back (tx_db s) db1); [done|done|]. split; [done|]. exists cs'. by rewrite Hfd, Hfn.
Qed.

(** the directories [new] lie on the way to [cs], and no file is in their way *)
Definition dirs_grown (db : CentralDb) (new : list DirRow) (cs : list string) : Prop :=
  db_ok (set_dirs db (db_dirs db ++ new)) ∧ dirs_along (db_dirs db) (db_dirs db ++ new) cs.

(** the effect of adding the file [f] at [path] *)
Definition file_added (db : CentralDb) (path : string) (f : FileRow) (db' : CentralDb) : Prop :=
  ∃ new cs,
    db' = set_files (set_dirs db (db_dirs db ++ new)) (db_files db ++ [f]) (f_file_id f) ∧
    path = render (cs ++ [f_name f]) ∧
    Forall (λ c, valid_component c = true) (cs ++ [f_name f]) ∧
    dir_at (db_dirs db') (f_dir_id f) cs ∧ (f_file_id f ∉ file_ids db) ∧ db_ok db' ∧ dirs_grown db new cs.

Lemma insert_target_run dir_id name size comp now db1 c1 :
  db_ok db1 → dir_id ∈ dir_ids (db_dirs db1) → valid_component name = true →
  name_available db1 dir_id name None →
  is_i64_nonneg size → is_i64_nonneg comp → is_i64_nonneg now →
  sql (insert_file dir_id name size comp now now) (mkCentralTx db1 c1) =
    (Err (from_sqlite DatabaseFull), mkCentralTx db1 c1) ∨
  ∃ id, let f := mkFileRow id dir_id name size comp now now in
    let db2 := set_files db1 (db_files db1 ++ [f]) id in
    sql (insert_file dir_id name size comp now now) (mkCentralTx db1 c1) = (Ok id, mkCentralTx db2 c1) ∧
    db_ok db2 ∧ 0 < id ≤ i64_max ∧ (id ∉ file_ids db1) ∧
    get_file_by_id id (mkCentralTx db2 c1) = (Ok f, mkCentralTx db2 c1).
Proof.
  intros Hok Hdir Hv [Hch Hfree] Hs Hcmp Hn.
  assert (find_file_by_name db1 dir_id name = None) as Hnone.
  { apply find_file_by_name_None. intros f Hf Hk. by specialize (Hfree f Hf Hk). }
  destruct (insert_file dir_id name size comp now now db1) as [[id db2]|e] eqn:Hins.
  - right. exists id. pose proof Hins as Hok2. apply insert_file_ok in Hok2; [|done..].
    destruct Hok2 as (Hok2 & Hid & Hfresh & ->). cbv zeta.
    split_and!; [by apply sql_Ok|done|lia|lia|done|].
    rewrite get_file_by_id_run by (done || (simpl; lia)). f_equal. apply ok_or_Ok.
    apply find_file_Some; [done|]. split; [|done]. simpl. apply elem_of_app. right. by left.
  - left. assert (e = DatabaseFull) as ->; [|by apply sql_Err].
    unfold insert_file in Hins. destruct (autoincrement_rowid _ _); [|by injection Hins].
    rewrite Hnone in Hins. rewrite bool_decide_false in Hins by (by intros []).
    by rewrite bool_decide_true in Hins.
Qed.

Lemma create_file_run path now s :
  db_ok (tx_db s) → cache_ok (db_dirs (tx_db s)) (tx_dir_cache s) → 0 ≤ now →
  ∃ r db' c', create_file path now s = (r, mkCentralTx db' c') ∧
    cache_ok (db_dirs (tx_db s)) c' ∧
    match r with
    | Ok f => file_added (tx_db s) path f db' ∧ f_size_bytes f = 0 ∧ f_compressed_size_bytes f = 0 ∧
              f_created_at_ms f = now ∧ f_updated_at_ms f = now ∧ now ≤ i64_max
    | Err _ => True
    end.
Proof.
  intros Hok Hc Hnow. unfold create_file.
  destruct (split_fs0_path_dir_and_name path) as [[dir name]|e] eqn:Hsplit.
  2:{ exists (Err e), (tx_db s), (tx_dir_cache s). by destruct s. }
  rewrite (ST_bind_run _ _ s (dir, name) s) by done.
  destruct (open_target_run path dir name None s Hok Hc Hsplit)
    as (r & db1 & new & c1 & Hrun & [Hdb1 Hok1] & Hc1 & Hr).
  destruct r as [id|e]; [|rewrite (ST_bind_run_Err _ _ _ _ _ Hrun); by exists (Err e), db1, c1].
  rewrite (ST_bind_run _ _ _ _ _ Hrun).
  destruct Hr as ((cs & -> & Hv & Hat & Hal) & Hid & Hin & [[Hens Hav]|[Hens Href]]).
  2:{ rewrite (ST_bind_run_Err _ _ _ _ _ Hens). by eexists (Err _), db1, c1. }
  rewrite (ST_bind_run _ _ _ _ _ Hens), (ST_bind_run _ _ _ _ _ (lift_fits _ _ _ (proj2 Hid))).
  destruct (decide (now ≤ i64_max)) as [Hmax|Hmax].
  2:{ exists (Err (IntegerConversion ("created_at_ms" +:+ " value " +:+ pretty now +:+ " does not fit in i64"))), db1, c1.
      unfold mbind, ST_bind, st_lift, u64_to_i64. by rewrite (bool_decide_false (now ≤ i64_max)). }
  rewrite (ST_bind_run _ _ _ _ _ (lift_fits _ _ _ Hmax)).
  assert (valid_component name = true) as Hvn by (apply Forall_app in Hv as [_ Hv]; by inversion Hv).
  destruct (insert_target_run id name 0 0 now db1 c1) as [Hins|(fid & Hins & Hok2 & Hfid & Hfresh & Hget)];
    [done..|by unfold is_i64_nonneg, i64_max; lia|by unfold is_i64_nonneg, i64_max; lia|done| |].
  - rewrite (ST_bind_run_Err _ _ _ _ _ Hins). by eexists (Err _), db1, c1.
  - rewrite (ST_bind_run _ _ _ _ _ Hins). unfold mbind, ST_bind, st_lift, i64_to_u64.
    rewrite bool_decide_true by lia. rewrite Hget. eexists _, _, c1. split; [done|]. split; [done|].
    subst db1. split_and!; [|done..]. exists new, cs. by split_and!.
Qed.

Lemma copy_file_run source_id path now s :
  db_ok (tx_db s) → cache_ok (db_dirs (tx_db s)) (tx_dir_cache s) → 0 ≤ now →
  ∃ r db' c', copy_file_by_id source_id path now s = (r, mkCentralTx db' c') ∧
    cache_ok (db_dirs (tx_db s)) c' ∧
    match r with
    | Ok f => file_added (tx_db s) path f db' ∧ source_id ≤ i64_max ∧
              ∃ g, find_file (tx_db s) source_id = Some g ∧ f_size_bytes f = f_size_bytes g ∧
                   f_compressed_size_bytes f = f_compressed_size_bytes g ∧
                   f_created_at_ms f = now ∧ f_updated_at_ms f = now ∧ now ≤ i64_max
    | Err e => source_refused (tx_db s) source_id now e ∨ target_refused (tx_db s) None path e
    end.
Proof.
  intros Hok Hc Hnow. unfold copy_file_by_id.
  destruct (split_fs0_path_dir_and_name path) as [[dir name]|e] eqn:Hsplit.
  2:{ exists (Err e), (tx_db s), (tx_dir_cache s). split; [by destruct s|]. split; [done|]. right. by left. }
  rewrite (ST_bind_run _ _ s (dir, name) s) by done.
  destruct (decide (source_id ≤ i64_max)) as [Hsid|Hsid].
  2:{ eexists (Err _), (tx_db s), (tx_dir_cache s). unfold get_file_by_id.
      unfold mbind, ST_bind, st_lift, u64_to_i64. rewrite (bool_decide_false (source_id ≤ i64_max)) by done.
      split; [by destruct s|]. split; [done|]. left. right. split; [lia|by eexists]. }
  pose proof (get_file_by_id_run source_id s Hok Hsid) as Hsrc.
  destruct (find_file (tx_db s) source_id) as [g|] eqn:Hg; simpl in Hsrc.
  2:{ rewrite (ST_bind_run_Err _ _ _ _ _ Hsrc). exists (Err NotFound), (tx_db s), (tx_dir_cache s).
      split; [by destruct s|]. split; [done|]. left. by left. }
  rewrite (ST_bind_run _ _ _ _ _ Hsrc).
  destruct (open_target_run path dir name None s Hok Hc Hsplit)
    as (r & db1 & new & c1 & Hrun & [Hdb1 Hok1] & Hc1 & Hr).
  destruct r as [id|e]; [|rewrite (ST_bind_run_Err _ _ _ _ _ Hrun); exists (Err e), db1, c1; by auto].
  rewrite (ST_bind_run _ _ _ _ _ Hrun).
  destruct Hr as ((cs & -> & Hv & Hat & Hal) & Hid & Hin & [[Hens Hav]|[Hens Href]]).
  2:{ rewrite (ST_bind_run_Err _ _ _ _ _ Hens). eexists (Err _), db1, c1. by auto. }
  pose proof Hg as [Hgin _]%find_file_Some; [|done].
  pose proof (ok_files _ Hok) as Hfs. rewrite Forall_forall in Hfs.
  destruct (Hfs g Hgin) as (_ & _ & _ & _ & Hsize & Hcomp & _).
  rewrite (ST_bind_run _ _ _ _ _ Hens), (ST_bind_run _ _ _ _ _ (lift_fits _ _ _ (proj2 Hid))),
    (ST_bind_run _ _ _ _ _ (lift_fits _ _ _ (proj2 Hsize))),
    (ST_bind_run _ _ _ _ _ (lift_fits _ _ _ (proj2 Hcomp))).
  destruct (decide (now ≤ i64_max)) as [Hmax|Hmax].
  2:{ eexists (Err _), db1, c1. unfold mbind, ST_bind, st_lift, u64_to_i64.
      rewrite (bool_decide_false (now ≤ i64_max)) by done. split; [done|]. split; [done|]. left. right. split; [lia|by eexists]. }
  rewrite (ST_bind_run _ _ _ _ _ (lift_fits _ _ _ Hmax)).
  assert (valid_component name = true) as Hvn by (apply Forall_app in Hv as [_ Hv]; by inversion Hv).
  destruct (insert_target_run id name (f_size_bytes g) (f_compressed_size_bytes g) now db1 c1)
    as [Hins|(fid & Hins & Hok2 & Hfid & Hfresh & Hget)]; [done..| |].
  - rewrite (ST_bind_run_Err _ _ _ _ _ Hins). eexists (Err _), db1, c1. split; [done|]. split; [done|]. right. right. by left.
  - rewrite (ST_bind_run _ _ _ _ _ Hins). unfold mbind, ST_bind, st_lift, i64_to_u64.
    rewrite bool_decide_true by lia. rewrite Hget. eexists _, _, c1. split; [done|]. split; [done|].
    subst db1. split_and!; [|done|by exists g]. exists new, cs. by split_and!.
Qed.

(** the effect of moving the file [id] to [path] *)
Definition file_moved (db : CentralDb) (id : Z) (path : string) (now : Z) (f : FileRow)
    (db' : CentralDb) : Prop :=
  ∃ new cs g,
    find_file db id = Some g ∧ f = moved (f_dir_id f) (f_name f) now g ∧
    db' = update_file id (moved (f_dir_id f) (f_name f) now) (set_dirs db (db_dirs db ++ new)) ∧
    path = render (cs ++ [f_name f]) ∧
    Forall (λ c, valid_component c = true) (cs ++ [f_name f]) ∧
    dir_at (db_dirs db') (f_dir_id f) cs ∧ db_ok db' ∧ dirs_grown db new cs.

Lemma rename_file_run id path now s :
  db_ok (tx_db s) → cache_ok (db_dirs (tx_db s)) (tx_dir_cache s) → 0 ≤ now →
  ∃ r db' c', rename_file_by_id id path now s = (r, mkCentralTx db' c') ∧
    cache_ok (db_dirs (tx_db s)) c' ∧
    match r with
    | Ok f => file_moved (tx_db s) id path now f db' ∧ id ≤ i64_max
    | Err e => source_refused (tx_db s) id now e ∨ target_refused (tx_db s) (Some id) path e
    end.
Proof.
  intros Hok Hc Hnow. unfold rename_file_by_id.
  destruct (split_fs0_path_dir_and_name path) as [[dir name]|e] eqn:Hsplit.
  2:{ exists (Err e), (tx_db s), (tx_dir_cache s). split; [by destruct s|]. split; [done|]. right. by left. }
  rewrite (ST_bind_run _ _ s (dir, name) s) by done.
  destruct (open_target_run path dir name (Some id) s Hok Hc Hsplit)
    as (r & db1 & new & c1 & Hrun & [Hdb1 Hok1] & Hc1 & Hr).
  destruct r as [did|e]; [|rewrite (ST_bind_run_Err _ _ _ _ _ Hrun); exists (Err e), db1, c1; by auto].
  rewrite (ST_bind_run _ _ _ _ _ Hrun).
  destruct Hr as ((cs & -> & Hv & Hat & Hal) & Hdid & Hin & [[Hens Hav]|[Hens Href]]).
  2:{ rewrite (ST_bind_run_Err _ _ _ _ _ Hens). eexists (Err _), db1, c1. by auto. }
  rewrite (ST_bind_run _ _ _ _ _ Hens).
  destruct (decide (id ≤ i64_max)) as [Hid|Hid].
  2:{ eexists (Err _), db1, c1. unfold mbind, ST_bind, st_lift, u64_to_i64.
      rewrite (bool_decide_false (id ≤ i64_max)) by done. split; [done|]. split; [done|]. left. right. split; [lia|by eexists]. }
  rewrite (ST_bind_run _ _ _ _ _ (lift_fits _ _ _ Hid)),
    (ST_bind_run _ _ _ _ _ (lift_fits _ _ _ (proj2 Hdid))).
  destruct (decide (now ≤ i64_max)) as [Hmax|Hmax].
  2:{ eexists (Err _), db1, c1. unfold mbind, ST_bind, st_lift, u64_to_i64.
      rewrite (bool_decide_false (now ≤ i64_max)) by done. split; [done|]. split; [done|]. left. right. split; [lia|by eexists]. }
  rewrite (ST_bind_run _ _ _ _ _ (lift_fits _ _ _ Hmax)).
  assert (valid_component name = true) as Hvn by (apply Forall_app in Hv as [_ Hv]; by inversion Hv).
  rewrite (ST_bind_run _ _ _ _ _ (sql_Ok _ (mkCentralTx db1 c1) _ _
    (move_file_row_run id did name now db1 Hok1 Hin Hav))). cbn [tx_db tx_dir_cache].
  destruct (find_file db1 id) as [g|] eqn:Hg.
  - rewrite bool_decide_false by (by eapply file_count).
    rewrite bool_decide_true by (apply find_file_Some in Hg as [Hg <-]; [|done];
      by apply (list_elem_of_fmap_2 f_file_id)).
    assert (db_ok (update_file id (moved did name now) db1)) as Hok2 by (by apply moved_ok).
    rewrite get_file_by_id_run by done. cbn [tx_db].
    pose proof Hg as [_ Hgid]%find_file_Some; [|done].
    rewrite (find_file_update id (moved did name now) db1 g Hok1 Hgid Hg). simpl.
    eexists _, _, c1. split; [done|]. split; [done|]. split; [|done].
    subst db1. exists new, cs, g. by split_and!.
  - pose proof Hg as Hn%find_file_None. rewrite (bool_decide_false (id ∈ _)) by done.
    apply (filter_id_length f_file_id) in Hn. rewrite bool_decide_true by lia.
    eexists (Err _), db1, c1. split; [done|]. split; [done|]. left. left. by subst db1.
Qed.

Lemma delete_file_run id s :
  db_ok (tx_db s) → id ≤ i64_max →
  delete_file_by_id id s =
    (if bool_decide (id ∈ file_ids (tx_db s)) then Ok tt else Err NotFound,
     mkCentralTx (without_file (tx_db s) id) (tx_dir_cache s)).
Proof.
  intros Hok Hid. unfold delete_file_by_id. rewrite (ST_bind_run _ _ _ _ _ (lift_fits _ _ _ Hid)).
  rewrite (ST_bind_run _ _ _ _ _ (sql_Ok _ s _ _ (delete_file_row_run id (tx_db s) Hok))).
  case_bool_decide as Hn.
  - rewrite bool_decide_false; [done|]. apply filter_id_length. lia.
  - rewrite bool_decide_true; [done|]. destruct (decide (id ∈ file_ids (tx_db s))) as [|Hno]; [done|].
    apply filter_id_length in Hno. lia.
Qed.

Lemma update_file_run id size comp now s f :
  db_ok (tx_db s) → find_file (tx_db s) id = Some f → id ≤ i64_max →
  is_i64_nonneg size → is_i64_nonneg comp → is_i64_nonneg now →
  let db' := update_file id (resized size comp now) (tx_db s) in
  update_file_after_update id size comp now s = (Ok (resized size comp now f), mkCentralTx db' (tx_dir_cache s))
  ∧ db_ok db'.
Proof.
  intros Hok Hf Hid Hs Hc Hn db'. assert (db_ok db') as Hok' by (by apply resized_ok).
  split; [|done]. unfold update_file_after_update.
  rewrite (ST_bind_run _ _ _ _ _ (lift_fits _ _ _ Hid)),
    (ST_bind_run _ _ _ _ _ (lift_fits _ _ _ (proj2 Hs))),
    (ST_bind_run _ _ _ _ _ (lift_fits _ _ _ (proj2 Hc))),
    (ST_bind_run _ _ _ _ _ (lift_fits _ _ _ (proj2 Hn))).
  rewrite (ST_bind_run _ _ _ _ _ (sql_Ok _ s _ _ (resize_file_row_run id size comp now (tx_db s)))).
  rewrite bool_decide_false by (by eapply file_count).
  rewrite get_file_by_id_run by done. cbn [tx_db].
  pose proof Hf as [_ Hfid]%find_file_Some; [|done].
  by rewrite (find_file_update id (resized size comp now) _ f) by done.
Qed.

(** *** The bundles of a file *)

(** the rows of the bundles of a file, from index [i] on *)
Fixpoint numbered (file_id i : Z) (ids : list HashId) : list FileBundleTuple :=
  match ids with
  | [] => []
  | b :: ids => mkFileBundleTuple file_id i b :: numbered file_id (i + 1) ids
  end.

Lemma numbered_in file_id i ids b :
  b ∈ numbered file_id i ids → fb_file_id b = file_id ∧ i ≤ fb_bundle_index b < i + Z.of_nat (length ids).
Proof.
  revert i. induction ids as [|h ids IH]; intros i; simpl; [by intros []%elem_of_nil|].
  intros [->|Hb]%elem_of_cons; [simpl; lia|]. apply IH in Hb. lia.
Qed.

Lemma numbered_sorted file_id i ids : StronglySorted bundle_index_le (numbered file_id i ids).
Proof.
  revert i. induction ids as [|h ids IH]; intros i; simpl; [constructor|]. constructor; [apply IH|].
  apply Forall_forall. intros b Hb%numbered_in. unfold bundle_index_le. simpl. lia.
Qed.

Lemma numbered_NoDup file_id i ids : NoDup (map bundle_key (numbered file_id i ids)).
Proof.
  revert i. induction ids as [|h ids IH]; intros i; simpl; [constructor|].
  apply NoDup_cons. split; [|apply IH].
  intros (b & Hk & Hb%numbered_in)%list_elem_of_fmap. injection Hk as _ Hi. lia.
Qed.

Definition bundles_replaced (db : CentralDb) (file_id : Z) (ids : list HashId) : CentralDb :=
  set_file_bundles db
    (base.filter (λ b, fb_file_id b ≠ file_id) (db_file_bundles db) ++ numbered file_id 0 ids).

Lemma insert_file_bundles_run file_id i bundles s :
  db_ok (tx_db s) → file_id ∈ file_ids (tx_db s) → file_id ≤ i64_max →
  0 ≤ i → i + Z.of_nat (length bundles) ≤ i64_max →
  (∀ b, b ∈ db_file_bundles (tx_db s) → fb_file_id b = file_id → fb_bundle_index b < i) →
  let db' := set_file_bundles (tx_db s)
    (db_file_bundles (tx_db s) ++ numbered file_id i (map cb_bundle_id bundles)) in
  insert_file_bundles file_id i bundles s = (Ok tt, mkCentralTx db' (tx_dir_cache s)) ∧ db_ok db'.
Proof.
  revert i s. induction bundles as [|b bundles IH]; intros i s Hok Hf Hfid Hi Hmax Hfree; simpl in *.
  { rewrite app_nil_r. by destruct s as [[] ?]. }
  rewrite (ST_bind_run _ _ _ _ _ (lift_fits _ _ _ Hfid)).
  rewrite (ST_bind_run _ _ s i s) by (apply lift_fits; lia).
  destruct (insert_file_bundle_row_ok (mkFileBundleTuple file_id i (cb_bundle_id b)) (tx_db s))
    as [Hins Hok1]; [done|simpl; unfold is_i64_nonneg; lia|done| |].
  { intros (b' & Hk & Hb')%list_elem_of_fmap. injection Hk as Hk1 Hk2.
    specialize (Hfree b' Hb' (eq_sym Hk1)). lia. }
  rewrite (ST_bind_run _ _ _ _ _ (sql_Ok _ s _ _ Hins)).
  destruct (IH (i + 1) (mkCentralTx _ (tx_dir_cache s)) Hok1) as [Hrun Hok2]; simpl; [done|lia|lia|lia| |].
  - intros b' [Hb'|Hb']%elem_of_app Hk; [specialize (Hfree b' Hb' Hk); lia|].
    apply list_elem_of_singleton in Hb' as ->. simpl. lia.
  - rewrite Hrun. simpl in *. by rewrite <- app_assoc in *.
Qed.

Lemma upsert_file_bundles_run file_id bundles s :
  db_ok (tx_db s) → file_id ∈ file_ids (tx_db s) → file_id ≤ i64_max →
  Z.of_nat (length bundles) ≤ i64_max →
  let db' := bundles_replaced (tx_db s) file_id (map cb_bundle_id bundles) in
  upsert_file_bundles_by_file_id file_id bundles s = (Ok tt, mkCentralTx db' (tx_dir_cache s)) ∧ db_ok db'.
Proof.
  intros Hok Hf Hfid Hmax db'. unfold upsert_file_bundles_by_file_id, delete_file_bundles_by_file_id.
  set (db1 := set_file_bundles (tx_db s)
    (base.filter (λ b, fb_file_id b ≠ file_id) (db_file_bundles (tx_db s)))).
  rewrite (ST_bind_run _ _ s tt (mkCentralTx db1 (tx_dir_cache s))).
  2:{ by rewrite (ST_bind_run _ _ _ _ _ (lift_fits _ _ _ Hfid)). }
  destruct (insert_file_bundles_run file_id 0 bundles (mkCentralTx db1 (tx_dir_cache s)))
    as [Hrun Hok']; simpl; try done.
  - by eapply delete_file_bundle_rows_ok.
  - intros b [Hne _]%list_elem_of_filter Heq. done.
Qed.

(** what is read back after the replacement: the submitted list *)
Lemma select_file_bundles_replaced db file_id ids :
  select_file_bundles (bundles_replaced db file_id ids) file_id = numbered file_id 0 ids.
Proof.
  unfold select_file_bundles, bundles_replaced. simpl. rewrite filter_app.
  rewrite (proj2 (filter_nil_iff _ _)).
  2:{ intros b [Hne _]%list_elem_of_filter. done. }
  rewrite filter_all by (intros b Hb%numbered_in; tauto). simpl. symmetry.
  apply (sorted_perm_unique bundle_index_le).
  - apply numbered_sorted.
  - apply StronglySorted_merge_sort; intros b *; unfold bundle_index_le; lia.
  - symmetry. apply merge_sort_Permutation.
  - intros b b' Hb Hb' Hle Hle'. eapply (NoDup_map_inj bundle_key); [apply numbered_NoDup|done..|].
    apply numbered_in in Hb as [? _]. apply numbered_in in Hb' as [? _].
    unfold bundle_key, bundle_index_le in *. f_equal; [congruence|lia].
Qed.

Lemma select_file_bundles_other db file_id ids id :
  id ≠ file_id → select_file_bundles (bundles_replaced db file_id ids) id = select_file_bundles db id.
Proof.
  intros Hne. unfold select_file_bundles, bundles_replaced. simpl. f_equal. rewrite filter_app.
  rewrite (proj2 (filter_nil_iff _ (numbered _ _ _))) by (intros b Hb%numbered_in; naive_solver).
  rewrite app_nil_r. induction (db_file_bundles db) as [|b l IH]; [done|].
  destruct (decide (fb_file_id b = file_id)) as [Hf|Hf].
  - rewrite (filter_cons_False _ b l) by naive_solver. rewrite IH, filter_cons_False; [done|naive_solver].
  - rewrite (filter_cons_True (λ b, fb_file_id b ≠ file_id)) by done.
    destruct (decide (fb_file_id b = id)); [rewrite !filter_cons_True|rewrite !filter_cons_False]; auto.
    by rewrite IH.
Qed.

(** *** The lengths of a stored bundle *)

Lemma or_insert_lookup {V} (k b : HashId) (v : V) (m : gmap HashId V) :
  or_insert k v m !! b = match m !! b with Some w => Some w | None => if decide (k = b) then Some v else None end.
Proof.
  unfold or_insert. destruct (m !! k) as [w|] eqn:Hk.
  - destruct (m !! b) eqn:Hb; [done|]. case_decide; [by subst; simplify_eq|done].
  - destruct (decide (k = b)) as [->|Hne].
    + rewrite lookup_insert_eq. by rewrite Hk.
    + rewrite lookup_insert_ne by done. by destruct (m !! b).
Qed.

(** folding [or_insert] keeps the first value of every key *)
Lemma or_insert_fold {V} (g : BundleReplicaRow → V) rows (m : gmap HashId V) b :
  foldl (λ m r, or_insert (br_bundle_id r) (g r) m) m rows !! b =
  match m !! b with
  | Some v => Some v
  | None => g <$> lfind (λ r, bool_decide (br_bundle_id r = b)) rows
  end.
Proof.
  revert m. induction rows as [|r rows IH]; intros m; simpl; [by destruct (m !! b)|].
  rewrite IH, or_insert_lookup. destruct (m !! b); [done|]. case_decide.
  - by rewrite bool_decide_true.
  - by rewrite bool_decide_false.
Qed.

(** the replica whose lengths count: the one on the volume with the least id *)
Definition first_replica (db : CentralDb) (b : HashId) : option BundleReplicaRow :=
  lfind (λ r, bool_decide (br_bundle_id r = b)) (select_replicas db [b]).
Definition ready_lengths (db : CentralDb) (b : HashId) : option (Z * Z) :=
  (λ r, (br_raw_len r, br_compressed_len r)) <$> first_replica db b.

Definition is_first_replica (db : CentralDb) (b : HashId) (r : BundleReplicaRow) : Prop :=
  r ∈ db_bundle_replicas db ∧ br_bundle_id r = b ∧
  ∀ r', r' ∈ db_bundle_replicas db → br_bundle_id r' = b → br_volume_id r ≤ br_volume_id r'.

Lemma is_first_replica_unique db b r r' :
  db_ok db → is_first_replica db b r → is_first_replica db b r' → r = r'.
Proof.
  intros Hok (Hin & Hb & Hmin) (Hin' & Hb' & Hmin').
  eapply (NoDup_map_inj replica_key); [by apply ok_replica_keys|done..|].
  unfold replica_key. f_equal; [congruence|]. specialize (Hmin _ Hin' Hb'). specialize (Hmin' _ Hin Hb). lia.
Qed.

Lemma lfind_sorted_first db batch b r :
  lfind (λ r, bool_decide (br_bundle_id r = b)) (select_replicas db batch) = Some r → b ∈ batch →
  is_first_replica db b r.
Proof.
  intros Hf Hb. pose proof Hf as [Hin Hr%bool_decide_eq_true]%lfind_Some.
  apply select_replicas_in in Hin as [Hin _]. split; [done|]. split; [done|].
  intros r' Hin' Hr'. assert (r' ∈ select_replicas db batch) as Hs
    by (apply select_replicas_in; by rewrite Hr').
  assert (StronglySorted replica_le (select_replicas db batch)) as Hsorted.
  { apply StronglySorted_merge_sort; intros x *; unfold replica_le; lia. }
  revert Hf Hs. induction Hsorted as [|x l Hl IH Hx]; simpl; [done|].
  case_bool_decide as Hxb.
  - intros [= ->] [->|Hr'l]%elem_of_cons; [done|]. rewrite Forall_forall in Hx.
    specialize (Hx r' Hr'l). unfold replica_le in Hx. rewrite Hr', Hr in Hx. lia.
  - intros Hf [->|?]%elem_of_cons; [done|auto].
Qed.

Lemma first_replica_spec db b r :
  db_ok db → first_replica db b = Some r ↔ is_first_replica db b r.
Proof.
  intros Hok. split.
  - intros Hf. eapply lfind_sorted_first; [done|by left].
  - intros Hr. destruct (first_replica db b) as [r'|] eqn:Hf.
    + f_equal. eapply is_first_replica_unique; [done| |done].
      eapply lfind_sorted_first; [exact Hf|by left].
    + unfold first_replica in Hf. rewrite lfind_None in Hf. destruct Hr as (Hin & <- & _).
      assert (r ∈ select_replicas db [br_bundle_id r]) as Hs by (apply select_replicas_in; split; [done|by left]).
      specialize (Hf r Hs). by rewrite bool_decide_true in Hf.
Qed.

Lemma chunks_fuel_in {A} (n : nat) (x : A) fuel l :
  (0 < n)%nat → (length l ≤ fuel)%nat → x ∈ concat (chunks_fuel fuel n l) ↔ x ∈ l.
Proof.
  intros Hn. revert l. induction fuel as [|fuel IH]; intros [|y l] Hl; simpl in *; try done; try lia.
  rewrite elem_of_app, IH by (rewrite length_drop; simpl; lia).
  rewrite <- elem_of_app, take_drop. done.
Qed.

Lemma chunks_in {A} (n : nat) (x : A) l : (0 < n)%nat → x ∈ concat (chunks n l) ↔ x ∈ l.
Proof. intros. by apply chunks_fuel_in. Qed.

Lemma lfind_replicas_of db ids b :
  db_ok db →
  lfind (λ r, bool_decide (br_bundle_id r = b)) (replicas_of db ids) =
  if bool_decide (b ∈ ids) then first_replica db b else None.
Proof.
  intros Hok. unfold replicas_of.
  rewrite <- (bool_decide_ext (b ∈ concat (chunks BUNDLE_ID_QUERY_BATCH_SIZE ids)) (b ∈ ids))
    by (apply chunks_in; unfold BUNDLE_ID_QUERY_BATCH_SIZE; lia).
  induction (chunks BUNDLE_ID_QUERY_BATCH_SIZE ids) as [|batch batches IH]; [done|]. simpl.
  rewrite lfind_app, IH.
  destruct (lfind _ (select_replicas db batch)) as [r|] eqn:Hf.
  - assert (b ∈ batch) as Hb.
    { apply lfind_Some in Hf as [[_ Hin]%select_replicas_in <-%bool_decide_eq_true]. done. }
    rewrite bool_decide_true by (apply elem_of_app; by left). symmetry. apply first_replica_spec; [done|].
    by eapply lfind_sorted_first.
  - destruct (decide (b ∈ concat batches)) as [Hc|Hc].
    + rewrite !bool_decide_true; [done|apply elem_of_app; by right|done].
    + rewrite (bool_decide_false (b ∈ concat batches)) by done. clear IH.
      destruct (decide (b ∈ batch ++ concat batches)) as [Hb|Hb];
        [rewrite bool_decide_true by done|by rewrite bool_decide_false by done].
      apply elem_of_app in Hb as [Hb|Hb]; [|done]. symmetry. destruct (first_replica db b) as [r|] eqn:Hr; [|done].
      apply first_replica_spec in Hr as (Hin & Hrb & _); [|done]. rewrite lfind_None in Hf.
      assert (r ∈ select_replicas db batch) as Hs by (apply select_replicas_in; by rewrite Hrb).
      specialize (Hf r Hs). by rewrite bool_decide_true in Hf.
Qed.

Lemma first_replicas_lookup db ids b :
  db_ok db → first_replicas (replicas_of db ids) !! b = if bool_decide (b ∈ ids) then ready_lengths db b else None.
Proof.
  intros Hok. unfold first_replicas.
  rewrite (or_insert_fold (λ r, (br_raw_len r, br_compressed_len r))), lookup_empty.
  rewrite lfind_replicas_of by done. by case_bool_decide.
Qed.

Lemma ready_lengths_pos db b raw comp :
  db_ok db → ready_lengths db b = Some (raw, comp) → 0 < raw ≤ i64_max ∧ 0 < comp ≤ i64_max.
Proof.
  intros Hok (r & Hr & [= -> ->])%fmap_Some. apply first_replica_spec in Hr as (Hin & _); [|done].
  pose proof (ok_replicas _ Hok) as Hrs. rewrite Forall_forall in Hrs. by destruct (Hrs r Hin).
Qed.

(** *** Sizes *)

Lemma size_step_eq ready a b w :
  size_step ready (a, b) w =
  match ready !! fbw_bundle_id w with
  | None => Err ChunkNotReady
  | Some (r, c) =>
      if bool_decide (a + r ≤ u64_max) then
        if bool_decide (b + c ≤ u64_max) then Ok (a + r, b + c)
        else Err (IntegerConversion "file bundle compressed size overflow")
      else Err (IntegerConversion "file bundle raw size overflow")
  end.
Proof.
  unfold size_step, u64_checked_add, mbind, Result_bind.
  destruct (ready !! fbw_bundle_id w) as [[r c]|]; simpl; [|done]. by repeat case_bool_decide.
Qed.

(** the fold of [calculate_size_by_file_id]: the sums, if every bundle is ready
    and neither sum leaves the u64 range *)
Lemma try_fold_sizes (ready : gmap HashId (Z * Z)) bundles a b x y :
  (∀ h r c, ready !! h = Some (r, c) → 0 ≤ r ∧ 0 ≤ c) → a ≤ u64_max → b ≤ u64_max →
  try_fold (size_step ready) (a, b) bundles = Ok (x, y) ↔
  ∃ ls, Forall2 (λ w l, ready !! fbw_bundle_id w = Some l) bundles ls ∧
        x = a + zsum (map fst ls) ∧ y = b + zsum (map snd ls) ∧ x ≤ u64_max ∧ y ≤ u64_max.
Proof.
  intros Hpos. revert a b. induction bundles as [|w bundles IH]; intros a b Ha Hb; simpl.
  - split.
    + intros [= <- <-]. exists []. simpl. split_and!; [constructor|lia|lia|lia|lia].
    + intros (ls & Hls%Forall2_nil_inv_l & -> & -> & _). subst ls. simpl. by rewrite !Z.add_0_r.
  - rewrite size_step_eq. destruct (ready !! fbw_bundle_id w) as [[r c]|] eqn:Hw.
    + pose proof (Hpos _ _ _ Hw) as [Hr Hc]. split.
      * repeat case_bool_decide; rewrite ?Ok_bind, ?Err_bind; try done.
        intros (ls & Hls & -> & -> & ? & ?)%IH; [|done..]. exists ((r, c) :: ls). simpl.
        split_and!; [by constructor|lia..].
      * intros (ls & Hls & -> & -> & Hx & Hy). apply Forall2_cons_inv_l in Hls as ([r' c'] & ls' & Hl & Hls & ->).
        rewrite Hw in Hl. injection Hl as <- <-. simpl in *.
        assert (0 ≤ zsum (map fst ls') ∧ 0 ≤ zsum (map snd ls')) as [? ?].
        { clear -Hpos Hls. induction Hls as [|? [r c] ? ? Hl _ [IH1 IH2]]; simpl; [done|].
          apply Hpos in Hl. lia. }
        rewrite !bool_decide_true by lia. rewrite Ok_bind. apply IH; [lia|lia|].
        exists ls'. split_and!; [done|lia..].
    + split; [done|]. intros (ls & Hls & _). apply Forall2_cons_inv_l in Hls as (? & ? & Hl & _). congruence.
Qed.

Lemma calculate_size_run file_id s :
  db_ok (tx_db s) → file_id ≤ i64_max →
  calculate_size_by_file_id file_id s =
    (try_fold (size_step (first_replicas (replicas_of (tx_db s)
                (map fb_bundle_id (select_file_bundles (tx_db s) file_id))))) (0, 0)
       (map bundle_row_of (select_file_bundles (tx_db s) file_id)), s).
Proof.
  intros Hok Hid. unfold calculate_size_by_file_id.
  rewrite (ST_bind_run _ _ _ _ _ (get_file_bundles_run _ _ Hok Hid)).
  rewrite map_map. simpl. by rewrite (ST_bind_run _ _ _ _ _ (get_bundle_replicas_run _ _ Hok)).
Qed.

(** *** Leases *)

Definition without_leases (P : LeaseTuple → Prop) `{∀ l, Decision (P l)} (db : CentralDb) : CentralDb :=
  set_update_leases db (base.filter (λ l, ¬ P l) (db_update_leases db)) (seq_update_leases db).

Lemma delete_expired_run now s :
  db_ok (tx_db s) → now ≤ i64_max →
  let db' := without_leases (λ l, l_expires_at_ms l ≤ now) (tx_db s) in
  delete_expired_update_leases now s = (Ok tt, mkCentralTx db' (tx_dir_cache s)) ∧ db_ok db'.
Proof.
  intros Hok Hnow db'. unfold delete_expired_update_leases.
  rewrite (ST_bind_run _ _ _ _ _ (lift_fits _ _ _ Hnow)). split; [done|].
  by eapply (delete_leases_ok (λ l, l_expires_at_ms l ≤ now)).
Qed.

Lemma delete_lease_run lease_id s :
  db_ok (tx_db s) → lease_id ≤ i64_max →
  let db' := without_leases (λ l, l_lease_id l = lease_id) (tx_db s) in
  delete_update_lease lease_id s = (Ok tt, mkCentralTx db' (tx_dir_cache s)) ∧ db_ok db'.
Proof.
  intros Hok Hid db'. unfold delete_update_lease.
  rewrite (ST_bind_run _ _ _ _ _ (lift_fits _ _ _ Hid)). split; [done|].
  by eapply (delete_leases_ok (λ l, l_lease_id l = lease_id)).
Qed.

Definition file_leased (db : CentralDb) (file_id : Z) : Prop :=
  file_id ∈ map l_file_id (db_update_leases db).

#[export] Instance file_leased_dec db file_id : Decision (file_leased db file_id).
Proof. unfold file_leased. apply _. Defined.

Lemma file_has_lease_run file_id s :
  file_id ≤ i64_max →
  file_has_active_update_lease file_id s = (Ok (bool_decide (file_leased (tx_db s) file_id)), s).
Proof.
  intros Hid. unfold file_has_active_update_lease.
  rewrite (ST_bind_run _ _ _ _ _ (lift_fits _ _ _ Hid)). unfold query. do 2 f_equal.
  apply eq_bool_prop_intro. rewrite bool_decide_spec, Is_true_true, existsb_exists. unfold file_leased.
  rewrite list_elem_of_fmap. setoid_rewrite bool_decide_eq_true. setoid_rewrite <- list_elem_of_In.
  naive_solver.
Qed.

Lemma create_lease_run lease s :
  db_ok (tx_db s) → cul_file_id lease ∈ file_ids (tx_db s) → ¬ file_leased (tx_db s) (cul_file_id lease) →
  0 ≤ cul_base_size_bytes lease → 0 ≤ cul_offset_bytes lease → 0 ≤ cul_expires_at_ms lease →
  (∃ e, create_update_lease lease s = (Err e, s)) ∨
  ∃ id, let row := mkLeaseTuple id (cul_file_id lease) (cul_volume_id lease) (cul_base_size_bytes lease)
                     (cul_offset_bytes lease) (cul_prefer_volume_name lease) (cul_expires_at_ms lease)
                     (cul_created_at_ms lease) in
    let db' := set_update_leases (tx_db s) (db_update_leases (tx_db s) ++ [row]) id in
    create_update_lease lease s =
      (Ok (mkUpdateLease id (cul_file_id lease) (cul_volume_id lease) (cul_base_size_bytes lease)
             (cul_offset_bytes lease) (cul_expires_at_ms lease) (cul_prefer_volume_name lease)),
       mkCentralTx db' (tx_dir_cache s)) ∧
    db_ok db' ∧ 0 < id ≤ i64_max ∧ (id ∉ map l_lease_id (db_update_leases (tx_db s))) ∧
    cul_volume_id lease ∈ volume_ids (tx_db s).
Proof.
  intros Hok Hf Hfree Hb Ho He. unfold create_update_lease.
  assert (∀ v name, v ≤ i64_max ∨ ∃ e, @st_lift CentralTx _ _ (u64_to_i64 v name) s = (Err e, s)) as Hcase.
  { intros v name. destruct (decide (v ≤ i64_max)) as [|Hv]; [by left|right].
    unfold st_lift, u64_to_i64. rewrite bool_decide_false by done. eauto. }
  destruct (Hcase (cul_file_id lease) "file_id") as [Hfid|[e Hrun]];
    [rewrite (ST_bind_run _ _ _ _ _ (lift_fits _ _ _ Hfid))|
     left; exists e; by rewrite (ST_bind_run_Err _ _ _ _ _ Hrun)].
  destruct (Hcase (cul_volume_id lease) "volume_id") as [Hvid|[e Hrun]];
    [rewrite (ST_bind_run _ _ _ _ _ (lift_fits _ _ _ Hvid))|
     left; exists e; by rewrite (ST_bind_run_Err _ _ _ _ _ Hrun)].
  destruct (Hcase (cul_base_size_bytes lease) "base_size_bytes") as [Hbm|[e Hrun]];
    [rewrite (ST_bind_run _ _ _ _ _ (lift_fits _ _ _ Hbm))|
     left; exists e; by rewrite (ST_bind_run_Err _ _ _ _ _ Hrun)].
  destruct (Hcase (cul_offset_bytes lease) "offset_bytes") as [Hom|[e Hrun]];
    [rewrite (ST_bind_run _ _ _ _ _ (lift_fits _ _ _ Hom))|
     left; exists e; by rewrite (ST_bind_run_Err _ _ _ _ _ Hrun)].
  destruct (Hcase (cul_expires_at_ms lease) "expires_at_ms") as [Hem|[e Hrun]];
    [rewrite (ST_bind_run _ _ _ _ _ (lift_fits _ _ _ Hem))|
     left; exists e; by rewrite (ST_bind_run_Err _ _ _ _ _ Hrun)].
  destruct (Hcase (cul_created_at_ms lease) "created_at_ms") as [Hcm|[e Hrun]];
    [rewrite (ST_bind_run _ _ _ _ _ (lift_fits _ _ _ Hcm))|
     left; exists e; by rewrite (ST_bind_run_Err _ _ _ _ _ Hrun)].
  destruct (insert_lease_row (cul_file_id lease) (cul_volume_id lease) (cul_base_size_bytes lease)
    (cul_offset_bytes lease) (cul_prefer_volume_name lease) (cul_expires_at_ms lease)
    (cul_created_at_ms lease) (tx_db s)) as [[id db']|e] eqn:Hins.
  - right. exists id. rewrite (ST_bind_run _ _ _ _ _ (sql_Ok _ s _ _ Hins)).
    pose proof Hins as Hvol. unfold insert_lease_row in Hvol.
    destruct (autoincrement_rowid _ _); [|done]. case_bool_decide; [done|].
    rewrite <- bool_decide_and in Hvol. case_bool_decide as Hfk; [|done]. clear Hvol.
    apply insert_lease_row_ok in Hins; [|done..]. destruct Hins as (Hok' & Hid & Hfresh & ->).
    cbv zeta. split_and!; [|done|lia|lia|done|by apply Hfk].
    unfold mbind, ST_bind, st_lift, i64_to_u64. by rewrite bool_decide_true by lia.
  - left. eexists. by rewrite (ST_bind_run_Err _ _ _ _ _ (sql_Err _ s _ Hins)).
Qed.

Lemma find_active_lease_Some db lease_id file_id now l :
  db_ok db → find_active_lease db lease_id file_id now = Some l ↔
  l ∈ db_update_leases db ∧ l_lease_id l = lease_id ∧ l_file_id l = file_id ∧ now < l_expires_at_ms l.
Proof.
  intros Hok. unfold find_active_lease. split.
  - intros [Hin Hp]%lfind_Some. rewrite <- !bool_decide_and in Hp. apply bool_decide_eq_true in Hp. tauto.
  - intros (Hin & Hl & Hf & He).
    destruct (lfind _ _) as [l'|] eqn:Hlf.
    + apply lfind_Some in Hlf as [Hin' Hp]. rewrite <- !bool_decide_and in Hp. apply bool_decide_eq_true in Hp.
      f_equal. eapply (NoDup_map_inj l_lease_id); [by apply ok_lease_ids|done..|]. destruct Hp as [[? ?] ?]. congruence.
    + rewrite lfind_None in Hlf. specialize (Hlf l Hin). by rewrite !bool_decide_true in Hlf.
Qed.

Lemma load_lease_run lease_id file_id now s :
  db_ok (tx_db s) → lease_id ≤ i64_max → file_id ≤ i64_max → now ≤ i64_max →
  load_active_update_lease lease_id file_id now s =
    ((λ l, mkLeaseRecord (l_file_id l) (l_base_size_bytes l) (l_offset_bytes l)) <$>
       ok_or NotFound (find_active_lease (tx_db s) lease_id file_id now), s) ∧
  active_update_lease_volume lease_id file_id now s =
    (l_volume_id <$> ok_or NotFound (find_active_lease (tx_db s) lease_id file_id now), s).
Proof.
  intros Hok Hl Hf Hn. unfold load_active_update_lease, active_update_lease_volume.
  rewrite !(ST_bind_run _ _ _ _ _ (lift_fits _ _ _ Hl)), !(ST_bind_run _ _ _ _ _ (lift_fits _ _ _ Hf)),
    !(ST_bind_run _ _ _ _ _ (lift_fits _ _ _ Hn)).
  unfold mbind, ST_bind, query, st_lift.
  destruct (find_active_lease (tx_db s) lease_id file_id now) as [l|] eqn:Hfind; simpl; [|done].
  apply find_active_lease_Some in Hfind as (Hin & _); [|done].
  pose proof (ok_leases _ Hok) as Hls. rewrite Forall_forall in Hls.
  destruct (Hls l Hin) as (_ & Hfid & Hvid & [? _] & [? _] & _).
  pose proof (Forall_file_ids _ Hok) as Hfs. rewrite Forall_forall in Hfs. apply Hfs in Hfid.
  pose proof (Forall_volume_ids _ Hok) as Hvs. rewrite Forall_forall in Hvs. apply Hvs in Hvid.
  unfold row_to_lease_record, mbind, Result_bind. by rewrite !row_u64_fits by lia.
Qed.

(** *** Events *)

Definition event_added (db : CentralDb) (kind : FileChangeLogKind) (target : option (string * string))
    (file_id : option Z) (now : Z) (db' : CentralDb) : Prop :=
  ∃ id, seq_file_events db < id ≤ i64_max ∧
    db' = set_file_events db (db_file_events db ++
            [mkFileEventTuple id (file_change_log_kind kind) (fst <$> target) (snd <$> target) file_id now]) id
    ∧ db_ok db'.

(** no more event ids, or a time that does not fit *)
Definition log_refused (now : Z) (e : Fs0Error) : Prop :=
  e = from_sqlite DatabaseFull ∨ i64_max < now ∧ ∃ m, e = IntegerConversion m.

Lemma insert_log_run kind target file_id now s :
  db_ok (tx_db s) → is_i64_nonneg (default 0 file_id) → 0 ≤ now →
  (∃ e, insert_file_change_log kind target file_id now s = (Err e, s) ∧ log_refused now e) ∨
  ∃ db', insert_file_change_log kind target file_id now s = (Ok tt, mkCentralTx db' (tx_dir_cache s)) ∧
         event_added (tx_db s) kind target file_id now db'.
Proof.
  intros Hok Hfid Hnow. unfold insert_file_change_log.
  rewrite (ST_bind_run _ _ s file_id s).
  2:{ unfold st_lift. destruct file_id as [id|]; [|done]. simpl in Hfid.
      unfold mbind, Result_bind. rewrite u64_to_i64_fits; [done|apply Hfid]. }
  destruct (decide (now ≤ i64_max)) as [Hmax|Hmax].
  2:{ left. eexists. unfold mbind, ST_bind, st_lift, u64_to_i64. rewrite bool_decide_false by done. split; [done|]. right. split; [lia|by eexists]. }
  rewrite (ST_bind_run _ _ _ _ _ (lift_fits _ _ _ Hmax)).
  destruct (insert_event_row (file_change_log_kind kind) (fst <$> target) (snd <$> target) file_id now
    (tx_db s)) as [[[] db']|e] eqn:Hins.
  - right. exists db'. split; [by apply sql_Ok|].
    apply insert_event_row_ok in Hins as (id & Hok' & Hid & ->); [|done..]. by exists id.
  - left. eexists. split; [by apply sql_Err|]. left. unfold insert_event_row in Hins. destruct (autoincrement_rowid _ _); [done|]. by injection Hins as <-.
Qed.

Definition kind_of_type (event_type : string) : FileChangeLogKind :=
  if bool_decide (event_type = "created") then KCreated
  else if bool_decide (event_type = "updated") then KUpdated
  else if bool_decide (event_type = "moved") then KMoved
  else KDeleted.
Definition path_of_target (dir name : string) : string :=
  if bool_decide (dir = "/") then "/" +:+ name else dir +:+ "/" +:+ name.
Definition log_of (e : FileEventTuple) : FileChangeLog :=
  mkFileChangeLog (e_event_id e) (kind_of_type (e_event_type e)) (e_file_id e)
    (match e_new_dir e, e_new_name e with
     | Some dir, Some name => Some (path_of_target dir name)
     | _, _ => None
     end) (e_created_at_ms e).

Lemma row_to_file_change_log_ok db e :
  db_ok db → e ∈ db_file_events db → row_to_file_change_log e = Ok (log_of e).
Proof.
  intros Hok Hin. pose proof (ok_events _ Hok) as Hes. rewrite Forall_forall in Hes.
  destruct (Hes e Hin) as (Hid & Hty & Hf & Hc).
  unfold row_to_file_change_log, log_of, kind_of_type.
  rewrite (row_u64_fits _ _ (e_event_id e)) by lia. rewrite Ok_bind.
  assert (∀ dir name, join_fs0_path dir name = Ok (path_of_target dir name)) as Hjoin.
  { intros. unfold join_fs0_path, path_of_target. by case_bool_decide. }
  assert (row_optional_u64 2 "file_id" (e_file_id e) = Ok (e_file_id e)) as Hfid.
  { apply row_optional_u64_Ok. split; [done|]. intros f Hfe. rewrite Hfe in Hf. apply Hf. }
  assert (∀ k, (file_id ← row_optional_u64 2 "file_id" (e_file_id e);
    new_path ← (match e_new_dir e, e_new_name e with
              | Some dir, Some name => path ← join_fs0_path dir name; Ok (Some path)
              | _, _ => Ok None
              end);
    created_at_ms ← row_u64 5 "created_at_ms" (e_created_at_ms e);
    Ok (mkFileChangeLog (e_event_id e) k file_id new_path created_at_ms)) =
    Ok (mkFileChangeLog (e_event_id e) k (e_file_id e)
         (match e_new_dir e, e_new_name e with
          | Some dir, Some name => Some (path_of_target dir name)
          | _, _ => None end) (e_created_at_ms e))) as Hrest.
  { intros k. rewrite Hfid, Ok_bind. rewrite (row_u64_fits _ _ (e_created_at_ms e)) by apply Hc.
    destruct (e_new_dir e), (e_new_name e); rewrite ?Hjoin; done. }
  repeat case_bool_decide; rewrite ?Ok_bind; try apply Hrest. exfalso. set_solver.
Qed.

(** the table is in id order already *)
Lemma select_events_run db after limit :
  db_ok db → select_events db after limit =
  take (Z.to_nat limit) (base.filter (λ e, after < e_event_id e) (db_file_events db)).
Proof.
  intros Hok. unfold select_events. f_equal.
  pose proof (StronglySorted_filter _ (λ e, after < e_event_id e) _ (ok_event_order _ Hok)) as Hs.
  apply sorted_perm_unique with (R := event_le).
  - apply StronglySorted_merge_sort; intros e *; unfold event_le; lia.
  - apply (StronglySorted_impl event_lt); [|exact Hs]. intros x y. unfold event_le, event_lt. lia.
  - apply merge_sort_Permutation.
  - intros e e'. rewrite merge_sort_Permutation. intros Hin Hin'. unfold event_le. intros Hle Hle'.
    assert (¬ event_lt e e' ∧ ¬ event_lt e' e) as [Hn Hn'] by (unfold event_lt; lia).
    clear -Hs Hin Hin' Hn Hn'. induction Hs as [|x l Hs IH Hx]; [by apply elem_of_nil in Hin|].
    rewrite Forall_forall in Hx.
    apply elem_of_cons in Hin as [->|Hin], Hin' as [->|Hin']; auto; [by destruct (Hn (Hx _ Hin'))|by destruct (Hn' (Hx _ Hin))].
Qed.

(** one page of the log: the events after [after], oldest first *)
Definition log_page (db : CentralDb) (after limit : Z) : FileChangeLogs :=
  let logs := map log_of (base.filter (λ e, after < e_event_id e) (db_file_events db)) in
  let page := take (Z.to_nat limit) logs in
  mkFileChangeLogs page
    (if bool_decide (limit < Z.of_nat (length logs)) then fcl_event_id <$> last page else None).

Lemma get_logs_run after limit s :
  db_ok (tx_db s) → after ≤ i64_max →
  get_file_change_logs after limit s = (Ok (log_page (tx_db s) after (zclamp 1 1024 limit)), s).
Proof.
  intros Hok Hafter. unfold get_file_change_logs. rewrite (ST_bind_run _ _ _ _ _ (lift_fits _ _ _ Hafter)).
  set (lim := zclamp 1 1024 limit). assert (1 ≤ lim ≤ 1024) as Hlim by (unfold lim, zclamp; lia).
  rewrite (ST_bind_run _ _ s (lim + 1) s) by (apply lift_fits; unfold i64_max; lia).
  unfold mbind, ST_bind, query, st_lift, mret, ST_ret.
  rewrite select_events_run by done. rewrite (collect_map _ log_of).
  2:{ apply Forall_forall. intros e He. apply subseteq_take, list_elem_of_filter in He as [_ He].
      by eapply row_to_file_change_log_ok. }
  f_equal. unfold log_page.
  set (logs := map log_of (base.filter (λ e, after < e_event_id e) (db_file_events (tx_db s)))).
  replace (map log_of (take (Z.to_nat (lim + 1)) _)) with (take (Z.to_nat (lim + 1)) logs)
    by (symmetry; apply fmap_take).
  replace (take (Z.to_nat lim) (take (Z.to_nat (lim + 1)) logs)) with (take (Z.to_nat lim) logs)
    by (rewrite take_take; f_equal; lia).
  rewrite length_take. repeat case_bool_decide; try lia; [done|]. by rewrite !take_ge by lia.
Qed.

(** *** Replicas *)

Lemma sql_min_nonneg l x : Forall (λ y, 0 ≤ y) l → sql_min l = Some x → 0 ≤ x.
Proof.
  intros Hl. destruct l as [|y l]; [done|]. intros [= <-]. apply Forall_cons in Hl as [Hy Hl].
  induction Hl; cbn [foldr]; lia.
Qed.
Lemma sql_max_nonneg l x : Forall (λ y, 0 ≤ y) l → sql_max l = Some x → 0 ≤ x.
Proof.
  intros Hl. destruct l as [|y l]; [done|]. intros [= <-]. apply Forall_cons in Hl as [Hy Hl].
  induction Hl; cbn [foldr]; lia.
Qed.

Lemma insert_bundle_replica_run b v raw comp s :
  db_ok (tx_db s) → 0 ≤ raw → 0 ≤ comp →
  (∃ e, insert_bundle_replica b v raw comp s = (Err e, s)) ∨
  ∃ db', insert_bundle_replica b v raw comp s = (Ok tt, mkCentralTx db' (tx_dir_cache s)) ∧
    db_ok db' ∧ v ∈ volume_ids (tx_db s) ∧ 0 < raw ∧ 0 < comp ∧
    db' = set_bundle_replicas (tx_db s) (db_bundle_replicas db') ∧
    find_replica db' b v = Some (mkBundleReplicaRow b v raw comp) ∧
    (∀ b' v', (b', v') ≠ (b, v) → find_replica db' b' v' = find_replica (tx_db s) b' v').
Proof.
  intros Hok Hr Hc. unfold insert_bundle_replica. rewrite <- bool_decide_or.
  case_bool_decide as Hz; [left; by eexists|].
  destruct (decide (v ≤ i64_max)) as [Hv|Hv].
  2:{ left. eexists. unfold mbind, ST_bind, st_lift, u64_to_i64. by rewrite (bool_decide_false (v ≤ _)). }
  rewrite (ST_bind_run _ _ _ _ _ (lift_fits _ _ _ Hv)). erewrite (ST_bind_run (query _)) by done.
  set (peers := base.filter _ (db_bundle_replicas (tx_db s))).
  assert (Forall (λ y, 0 ≤ y) (map br_raw_len peers) ∧ Forall (λ y, 0 ≤ y) (map br_compressed_len peers))
    as [Hpr Hpc].
  { pose proof (ok_replicas _ Hok) as Hrs. apply (Forall_filter_2 _ (λ r, br_bundle_id r = b ∧ br_volume_id r ≠ v)) in Hrs.
    fold peers in Hrs. split; apply Forall_fmap; (eapply Forall_impl; [exact Hrs|]); intros r (_ & ? & ?); simpl; lia. }
  assert (∀ i n o, (∀ x, o = Some x → 0 ≤ x) →
    @st_lift CentralTx _ _ (row_optional_u64 i n o) s = (Ok o, s)) as Hopt.
  { intros i n o Ho. unfold st_lift. f_equal. by apply row_optional_u64_Ok. }
  rewrite (ST_bind_run _ _ _ _ _ (Hopt _ _ _ (λ x, sql_min_nonneg _ x Hpr))),
    (ST_bind_run _ _ _ _ _ (Hopt _ _ _ (λ x, sql_max_nonneg _ x Hpr))),
    (ST_bind_run _ _ _ _ _ (Hopt _ _ _ (λ x, sql_min_nonneg _ x Hpc))),
    (ST_bind_run _ _ _ _ _ (Hopt _ _ _ (λ x, sql_max_nonneg _ x Hpc))),
    (ST_bind_run _ _ _ _ _ (lift_fits _ _ _ Hv)).
  destruct (decide (raw ≤ i64_max)) as [Hrm|Hrm].
  2:{ left. eexists. unfold mbind, ST_bind, st_lift, u64_to_i64. by rewrite (bool_decide_false (raw ≤ _)). }
  rewrite (ST_bind_run _ _ _ _ _ (lift_fits _ _ _ Hrm)).
  destruct (decide (comp ≤ i64_max)) as [Hcm|Hcm].
  2:{ left. eexists. unfold mbind, ST_bind, st_lift, u64_to_i64. by rewrite (bool_decide_false (comp ≤ _)). }
  rewrite (ST_bind_run _ _ _ _ _ (lift_fits _ _ _ Hcm)).
  destruct (upsert_replica_row b v raw comp (tx_db s)) as [[[] db']|e] eqn:Hup.
  - right. exists db'. split; [by apply sql_Ok|].
    apply upsert_replica_ok in Hup as (? & ? & ? & ? & ?); [|done|lia|lia]. split_and!; try done; lia.
  - left. eexists. by apply sql_Err.
Qed.

Lemma delete_bundle_replica_run b v s :
  db_ok (tx_db s) →
  (∃ e, delete_bundle_replica b v s = (Err e, s)) ∨
  ∃ db', delete_bundle_replica b v s = (Ok tt, mkCentralTx db' (tx_dir_cache s)) ∧
    db_ok db' ∧ db' = set_bundle_replicas (tx_db s) (db_bundle_replicas db') ∧
    find_replica db' b v = None ∧
    (∀ b' v', (b', v') ≠ (b, v) → find_replica db' b' v' = find_replica (tx_db s) b' v').
Proof.
  intros Hok. unfold delete_bundle_replica. destruct (decide (v ≤ i64_max)) as [Hv|Hv].
  2:{ left. eexists. unfold mbind, ST_bind, st_lift, u64_to_i64. by rewrite bool_decide_false. }
  right. rewrite (ST_bind_run _ _ _ _ _ (lift_fits _ _ _ Hv)). eexists. split; [by apply sql_Ok|].
  by eapply delete_replica_ok.
Qed.

(** *** Volumes *)

Definition volume_info (v : VolumeRow) : StorageVolumeInfo :=
  mkStorageVolumeInfo (v_volume_id v) (v_name v) (v_max_bytes v) (v_max_volume_offset v) false.

Lemma find_volume_Some db id v :
  db_ok db → find_volume db id = Some v ↔ v ∈ db_volumes db ∧ v_volume_id v = id.
Proof.
  intros Hok. split.
  - intros [Hin Hid%bool_decide_eq_true]%lfind_Some. done.
  - intros [Hin <-]. by apply (lfind_key v_volume_id); [apply ok_volume_ids|].
Qed.

Lemma get_volume_run id s :
  db_ok (tx_db s) → id ≤ i64_max →
  get_volume id s = (volume_info <$> ok_or NotFound (find_volume (tx_db s) id), s).
Proof.
  intros Hok Hid. unfold get_volume. rewrite (ST_bind_run _ _ _ _ _ (lift_fits _ _ _ Hid)).
  unfold mbind, ST_bind, query, st_lift.
  destruct (find_volume (tx_db s) id) as [v|] eqn:Hv; simpl; [|done].
  apply find_volume_Some in Hv as [Hin _]; [|done]. pose proof (ok_volumes _ Hok) as Hvs.
  rewrite Forall_forall in Hvs. destruct (Hvs v Hin) as ([? _] & [? _] & [? _]).
  unfold row_to_storage_volume_info, mbind, Result_bind. by rewrite !row_u64_fits by lia.
Qed.

Lemma create_volume_run name max s :
  db_ok (tx_db s) → 0 ≤ max →
  (∃ e, create_volume name max s = (Err e, s)) ∨
  ∃ id, let db' := set_volumes (tx_db s) (db_volumes (tx_db s) ++ [mkVolumeRow id name max 0]) id in
    create_volume name max s =
      (Ok (mkStorageVolumeInfo id name max 0 false), mkCentralTx db' (tx_dir_cache s)) ∧
    db_ok db' ∧ 0 < id ≤ i64_max ∧ (id ∉ volume_ids (tx_db s)) ∧ max ≤ i64_max.
Proof.
  intros Hok Hmax. unfold create_volume. destruct (decide (max ≤ i64_max)) as [Hm|Hm].
  2:{ left. eexists. unfold mbind, ST_bind, st_lift, u64_to_i64. by rewrite bool_decide_false. }
  rewrite (ST_bind_run _ _ _ _ _ (lift_fits _ _ _ Hm)).
  destruct (insert_volume name max (tx_db s)) as [[id db']|e] eqn:Hins.
  - right. exists id. rewrite (ST_bind_run _ _ _ _ _ (sql_Ok _ s _ _ Hins)).
    apply insert_volume_ok in Hins as (Hok' & Hid & Hfresh & ->); [|done..]. cbv zeta.
    split_and!; [|done|lia|lia|done|done].
    erewrite (ST_bind_run (st_lift _)).
    2:{ unfold st_lift, i64_to_u64. by rewrite bool_decide_true by lia. }
    rewrite get_volume_run by (done || lia). f_equal. cbn [tx_db].
    rewrite (proj2 (find_volume_Some _ id (mkVolumeRow id name max 0) Hok')); [done|].
    split; [|done]. simpl. apply elem_of_app. right. by left.
  - left. eexists. by rewrite (ST_bind_run_Err _ _ _ _ _ (sql_Err _ s _ Hins)).
Qed.

Definition with_offset (db : CentralDb) (id offset : Z) : CentralDb :=
  set_volumes db (map (λ v, if bool_decide (v_volume_id v = id)
                            then mkVolumeRow id (v_name v) (v_max_bytes v) offset
                            else v) (db_volumes db)) (seq_volumes db).

Lemma with_offset_find db id offset v :
  find_volume db id = Some v →
  find_volume (with_offset db id offset) id = Some (mkVolumeRow id (v_name v) (v_max_bytes v) offset).
Proof.
  unfold find_volume, with_offset. simpl. induction (db_volumes db) as [|w l IH]; simpl; [done|].
  destruct (bool_decide (v_volume_id w = id)) eqn:Hw.
  - intros [= ->]. simpl. by rewrite bool_decide_true.
  - rewrite Hw. done.
Qed.

Lemma update_volume_offset_run id offset s :
  db_ok (tx_db s) → id ≤ i64_max → is_i64_nonneg offset →
  let db' := with_offset (tx_db s) id offset in
  db_ok db' ∧
  update_volume_offset id offset s =
    match find_volume (tx_db s) id with
    | None => (Err NotFound, mkCentralTx db' (tx_dir_cache s))
    | Some v => (Ok (mkStorageVolumeInfo id (v_name v) (v_max_bytes v) offset false),
                 mkCentralTx db' (tx_dir_cache s))
    end.
Proof.
  intros Hok Hid Hoff db'.
  assert (db_ok db') as Hok' by (by eapply (set_volume_offset_ok id offset)). split; [done|].
  unfold update_volume_offset.
  rewrite (ST_bind_run _ _ _ _ _ (lift_fits _ _ _ Hid)), (ST_bind_run _ _ _ _ _ (lift_fits _ _ _ (proj2 Hoff))).
  rewrite (ST_bind_run _ _ s _ (mkCentralTx db' (tx_dir_cache s)) (sql_Ok _ _ _ _ eq_refl)).
  destruct (find_volume (tx_db s) id) as [v|] eqn:Hv.
  - pose proof Hv as [Hin Hvid]%find_volume_Some; [|done]. rewrite bool_decide_false.
    2:{ intros Hn. apply (filter_id_length v_volume_id (db_volumes (tx_db s)) id); [lia|].
        rewrite <- Hvid. by apply (list_elem_of_fmap_2 v_volume_id). }
    rewrite get_volume_run by done. cbn [tx_db].
    by rewrite (with_offset_find _ _ offset v Hv : find_volume db' id = _).
  - rewrite bool_decide_true; [done|].
    assert (id ∉ volume_ids (tx_db s)) as Hno.
    { intros (v & -> & Hin)%list_elem_of_fmap. unfold find_volume in Hv. rewrite lfind_None in Hv.
      specialize (Hv v Hin). by rewrite bool_decide_true in Hv. }
    apply filter_id_length in Hno. lia.
Qed.
End Runs.
