(* ===== verification/Conc.v ===== *)
(** * Asynchronous handlers and their interleavings

    An [async fn] is a program that alternates atomic blocks on the shared state
    (a locked region, up to the point where the lock is released) with questions
    to its environment (a clock reading, the outcome of a COMMIT, the answer of a
    peer).  [run] executes one program alone; [pool_step] interleaves any number
    of them block by block.  [keeps_reachable] reduces an invariant of all
    interleavings to the blocks. *)

From S2P Require Import Prelude.

Section Prog.
Context {S : Type} {Q : Type → Type}.

Inductive Prog (A : Type) : Type :=
| Ret (a : A)
| Atomic {B : Type} (block : S → B * S) (k : B → Prog A)
| Ask {B : Type} (q : Q B) (k : B → Prog A).
Arguments Ret {A} a.
Arguments Atomic {A B} block k.
Arguments Ask {A B} q k.

Fixpoint prog_bind {A B} (f : A → Prog B) (p : Prog A) : Prog B :=
  match p with
  | Ret a => f a
  | Atomic block k => Atomic block (λ x, prog_bind f (k x))
  | Ask q k => Ask q (λ x, prog_bind f (k x))
  end.

#[export] Instance Prog_ret : MRet Prog := λ A a, Ret a.
#[export] Instance Prog_bind : MBind Prog := λ A B, prog_bind.

Definition atomic {A} (block : S → A * S) : Prog A := Atomic block Ret.
Definition ask {A} (q : Q A) : Prog A := Ask q Ret.

(** ** One program alone *)

(** the [n]-th question gets the answer [o n] *)
Definition Oracle : Type := nat → ∀ B, Q B → B.

Record Outcome (A : Type) := mkOutcome {
  out_value : A; out_state : S; out_asked : list (sigT Q) }.
Arguments mkOutcome {A} _ _ _.

Fixpoint run {A} (o : Oracle) (n : nat) (p : Prog A) (s : S) : Outcome A :=
  match p with
  | Ret a => mkOutcome a s []
  | Atomic block k => let '(x, s') := block s in run o n (k x) s'
  | @Ask _ B q k =>
      let out := run o (Datatypes.S n) (k (o n B q)) s in
      mkOutcome (out_value _ out) (out_state _ out) (existT B q :: out_asked _ out)
  end.

Lemma run_bind {A B} (f : A → Prog B) (p : Prog A) o n s :
  run o n (p ≫= f) s =
  let out := run o n p s in
  let out' := run o (n + length (out_asked _ out)) (f (out_value _ out)) (out_state _ out) in
  mkOutcome (out_value _ out') (out_state _ out') (out_asked _ out ++ out_asked _ out').
Proof.
  unfold mbind, Prog_bind. revert n s. induction p as [a|C block k IH|C q k IH]; intros n s; simpl.
  - rewrite Nat.add_0_r. by destruct (run o n (f a) s).
  - destruct (block s) as [x s']. by rewrite IH.
  - rewrite IH. simpl. by rewrite Nat.add_succ_r.
Qed.

(** ** All interleavings *)

(** the answers the environment may give *)
Context (answer_ok : ∀ B, Q B → B → Prop).

Inductive pool_step {A} (allowed : Prog A → Prop) : S * list (Prog A) → S * list (Prog A) → Prop :=
| step_start s pool p : allowed p → pool_step allowed (s, pool) (s, pool ++ [p])
| step_atomic s s' pool i B (block : S → B * S) k x :
    pool !! i = Some (Atomic block k) → block s = (x, s') →
    pool_step allowed (s, pool) (s', <[i := k x]> pool)
| step_ask s pool i B (q : Q B) k x :
    pool !! i = Some (Ask q k) → answer_ok B q x →
    pool_step allowed (s, pool) (s, <[i := k x]> pool).

(** every block of the program keeps [P], whatever the answers *)
Fixpoint keeps {A} (P : S → Prop) (p : Prog A) : Prop :=
  match p with
  | Ret _ => True
  | Atomic block k => ∀ s, P s → P (block s).2 ∧ keeps P (k (block s).1)
  | @Ask _ B q k => ∀ x, answer_ok B q x → keeps P (k x)
  end.

Lemma keeps_bind {A B} (P : S → Prop) (p : Prog A) (f : A → Prog B) :
  keeps P p → (∀ a, keeps P (f a)) → keeps P (p ≫= f).
Proof.
  intros Hp Hf. unfold mbind, Prog_bind. induction p as [a|C block k IH|C q k IH]; simpl in *; [done| |].
  - intros s Hs. destruct (Hp s Hs). auto.
  - auto.
Qed.

Lemma keeps_ret {A} (P : S → Prop) (a : A) : keeps P (mret a).
Proof. done. Qed.

Lemma keeps_atomic {A} (P : S → Prop) (block : S → A * S) :
  (∀ s, P s → P (block s).2) → keeps P (atomic block).
Proof. intros Hb s Hs. simpl. auto. Qed.

Lemma keeps_ask {A} (P : S → Prop) (q : Q A) : keeps P (ask q).
Proof. done. Qed.

Lemma keeps_run {A} (P : S → Prop) (o : Oracle) n (p : Prog A) s :
  (∀ n B q, answer_ok B q (o n B q)) → keeps P p → P s → P (out_state _ (run o n p s)).
Proof.
  intros Ho. revert n s. induction p as [a|C block k IH|C q k IH]; intros n s Hp Hs; simpl in *; [done| |].
  - destruct (Hp s Hs) as [Hs1 Hk]. destruct (block s) as [x s1]. by apply IH.
  - apply IH; [|done]. apply Hp, Ho.
Qed.

(** a task that is aborted: at most [n] blocks and answers, and [None] when that was not all *)
Fixpoint cut {A} (n : nat) (p : Prog A) : Prog (option A) :=
  match p, n with
  | Ret a, _ => Ret (Some a)
  | _, O => Ret None
  | Atomic block k, Datatypes.S n => Atomic block (λ x, cut n (k x))
  | Ask q k, Datatypes.S n => Ask q (λ x, cut n (k x))
  end.

Lemma keeps_cut {A} (P : S → Prop) n (p : Prog A) : keeps P p → keeps P (cut n p).
Proof.
  revert n. induction p as [a|C block k IH|C q k IH]; intros [|n] Hp; simpl in *; try done.
  - intros s Hs. destruct (Hp s Hs). auto.
  - auto.
Qed.

(** an invariant of the blocks holds in every state an interleaving reaches *)
Lemma keeps_reachable {A} (P : S → Prop) (allowed : Prog A → Prop) s pool s' pool' :
  (∀ p, allowed p → keeps P p) → P s → Forall (keeps P) pool →
  rtc (pool_step allowed) (s, pool) (s', pool') → P s' ∧ Forall (keeps P) pool'.
Proof.
  intros Hall HP Hpool Hsteps. remember (s, pool) as st eqn:Hst. remember (s', pool') as st' eqn:Hst'.
  revert s pool HP Hpool Hst. induction Hsteps as [st|st st1 st2 Hstep Hsteps IH]; intros s pool HP Hpool ->.
  { injection Hst' as -> ->. done. }
  destruct st1 as [s1 pool1]. assert (P s1 ∧ Forall (keeps P) pool1) as [HP1 Hpool1]; [|by eapply IH].
  inversion Hstep; subst.
  - split; [done|]. apply Forall_app. split; [done|]. constructor; [auto|done].
  - match goal with Hl : pool !! i = Some _ |- _ => pose proof (Forall_lookup_1 _ _ _ _ Hpool Hl) as Hk end.
    simpl in Hk. destruct (Hk s HP) as [HP1 Hk1].
    match goal with Hb : block s = _ |- _ => rewrite Hb in HP1, Hk1 end.
    split; [done|]. by apply Forall_insert.
  - match goal with Hl : pool !! i = Some _ |- _ => pose proof (Forall_lookup_1 _ _ _ _ Hpool Hl) as Hk end.
    simpl in Hk. split; [done|]. apply Forall_insert; auto.
Qed.
(** one program alone is an interleaving *)
Lemma run_steps {A} (allowed : Prog A → Prop) (o : Oracle) n (p : Prog A) s pre post :
  (∀ n B q, answer_ok B q (o n B q)) →
  rtc (pool_step allowed) (s, pre ++ p :: post)
    (out_state _ (run o n p s), pre ++ Ret (out_value _ (run o n p s)) :: post).
Proof.
  intros Ho. revert n s. induction p as [a|C block k IH|C q k IH]; intros n s; simpl.
  - apply rtc_refl.
  - destruct (block s) as [x s1] eqn:Hb. eapply rtc_l; [|apply (IH x)].
    replace (pre ++ k x :: post) with (<[length pre := k x]> (pre ++ Atomic block k :: post))
      by (by rewrite insert_app_r_alt, Nat.sub_diag by lia).
    eapply step_atomic; [|exact Hb]. by rewrite lookup_app_r, Nat.sub_diag by lia.
  - eapply rtc_l; [|apply (IH (o n C q))].
    replace (pre ++ k (o n C q) :: post) with (<[length pre := k (o n C q)]> (pre ++ Ask q k :: post))
      by (by rewrite insert_app_r_alt, Nat.sub_diag by lia).
    eapply step_ask; [|apply Ho]. by rewrite lookup_app_r, Nat.sub_diag by lia.
Qed.

(** so are programs run one after another *)
Lemma run_all_steps {A C} (allowed : Prog A → Prop) (o : Oracle) (prog : C → Prog A) (calls : list C) s :
  (∀ n B q, answer_ok B q (o n B q)) → Forall (λ c, allowed (prog c)) calls →
  ∃ pool, rtc (pool_step allowed) (s, []) (foldl (λ s c, out_state _ (run o 0 (prog c) s)) s calls, pool).
Proof.
  intros Ho. induction calls as [|c calls IH] using rev_ind; intros Hok; [exists []; apply rtc_refl|].
  apply Forall_app in Hok as [Hcalls [Hok _]%Forall_cons]. destruct (IH Hcalls) as (pool & Hsteps). rewrite foldl_app.
  eexists (pool ++ [Ret _]). etrans; [exact Hsteps|]. eapply rtc_l; [by apply step_start|].
  by apply (run_steps allowed o 0 (prog c) _ pool []).
Qed.

(** ** The values a program may return, whatever runs beside it *)

Fixpoint may_return {A} (p : Prog A) (a : A) : Prop :=
  match p with
  | Ret a' => a' = a
  | Atomic block k => ∃ s, may_return (k (block s).1) a
  | @Ask _ B q k => ∃ x, answer_ok B q x ∧ may_return (k x) a
  end.

Lemma may_return_bind {A B} (p : Prog A) (f : A → Prog B) b :
  may_return (p ≫= f) b ↔ ∃ a, may_return p a ∧ may_return (f a) b.
Proof.
  unfold mbind, Prog_bind. induction p as [a|C block k IH|C q k IH]; simpl.
  - naive_solver.
  - setoid_rewrite IH. naive_solver.
  - setoid_rewrite IH. naive_solver.
Qed.

(** ... are what it ends with when it runs alone *)
Lemma run_may_return {A} (o : Oracle) n (p : Prog A) s :
  (∀ n B q, answer_ok B q (o n B q)) → may_return p (out_value _ (run o n p s)).
Proof.
  intros Ho. revert n s. induction p as [a|C block k IH|C q k IH]; intros n s; simpl; [done| |].
  - exists s. destruct (block s) as [x s1]. apply IH.
  - exists (o n C q). split; [apply Ho|apply IH].
Qed.

(** ... and in an interleaving *)
Lemma pool_may_return {A} (allowed : Prog A → Prop) s pool s' pool' i p a :
  rtc (pool_step allowed) (s, pool) (s', pool') → pool !! i = Some p → pool' !! i = Some (Ret a) → may_return p a.
Proof.
  intros Hsteps. remember (s, pool) as st eqn:Hst. remember (s', pool') as st' eqn:Hst'.
  revert s pool p Hst. induction Hsteps as [st|st st1 st2 Hstep Hsteps IH]; intros s pool p -> Hp Ha.
  { injection Hst' as -> ->. rewrite Ha in Hp. by injection Hp as <-. }
  destruct st1 as [s1 pool1]. specialize (IH Hst' s1 pool1).
  inversion Hstep as [? ? p0 Hok|? ? ? j ? block k x Hj Hb|? ? j ? q k x Hj Hok]; subst.
  - apply (IH p eq_refl); [by apply lookup_app_l_Some|done].
  - destruct (decide (j = i)) as [->|Hne].
    + rewrite Hj in Hp. injection Hp as <-. exists s. rewrite Hb. simpl. apply (IH _ eq_refl); [|done].
      apply list_lookup_insert_eq. by eapply lookup_lt_Some.
    + apply (IH p eq_refl); [|done]. by rewrite list_lookup_insert_ne.
  - destruct (decide (j = i)) as [->|Hne].
    + rewrite Hj in Hp. injection Hp as <-. exists x. split; [done|]. apply (IH _ eq_refl); [|done].
      apply list_lookup_insert_eq. by eapply lookup_lt_Some.
    + apply (IH p eq_refl); [|done]. by rewrite list_lookup_insert_ne.
Qed.

(** ** Resources a program owns

    An invariant [Inv s cs] of the state and of all claims on it; a program starts
    with claims [cs] and its blocks exchange them for others, whatever the claims of
    the programs it runs with ([frame]).  [Post] relates the value it ends with and
    the claims it still has. *)
Section Owns.
Context {C : Type} (Inv : S → list C → Prop).

Fixpoint owns {A} (cs : list C) (Post : A → list C → Prop) (p : Prog A) : Prop :=
  match p with
  | Ret a => Post a cs
  | Atomic block k => ∀ s frame, Inv s (cs ++ frame) →
      ∃ cs', Inv (block s).2 (cs' ++ frame) ∧ owns cs' Post (k (block s).1)
  | @Ask _ B q k => ∀ x, answer_ok B q x → owns cs Post (k x)
  end.

Lemma owns_bind {A B} cs M Post (p : Prog A) (f : A → Prog B) :
  owns cs M p → (∀ a cs', M a cs' → owns cs' Post (f a)) → owns cs Post (p ≫= f).
Proof.
  intros Hp Hf. unfold mbind, Prog_bind. revert cs Hp.
  induction p as [a|D block k IH|D q k IH]; intros cs Hp; simpl in *; [auto| |auto].
  intros s frame Hs. destruct (Hp s frame Hs) as (cs' & Hs' & Hk). eauto.
Qed.

Lemma owns_ret {A} cs (Post : A → list C → Prop) a : Post a cs → owns cs Post (mret a).
Proof. done. Qed.

Lemma owns_ask {A} cs (Post : A → list C → Prop) (q : Q A) :
  (∀ a, answer_ok A q a → Post a cs) → owns cs Post (ask q).
Proof. done. Qed.

Lemma owns_atomic {A} cs (Post : A → list C → Prop) (block : S → A * S) :
  (∀ s frame, Inv s (cs ++ frame) →
     ∃ cs', Inv (block s).2 (cs' ++ frame) ∧ Post (block s).1 cs') →
  owns cs Post (atomic block).
Proof. done. Qed.

Lemma owns_conseq {A} cs (Post Post' : A → list C → Prop) (p : Prog A) :
  owns cs Post p → (∀ a cs', Post a cs' → Post' a cs') → owns cs Post' p.
Proof.
  intros Hp HPost. revert cs Hp.
  induction p as [a|D block k IH|D q k IH]; intros cs Hp; simpl in *; [auto| |auto].
  intros s frame Hs. destruct (Hp s frame Hs) as (cs' & Hs' & Hk). eauto.
Qed.

Lemma owns_run {A} cs frame Post (o : Oracle) n (p : Prog A) s :
  (∀ n B q, answer_ok B q (o n B q)) → owns cs Post p → Inv s (cs ++ frame) →
  ∃ cs', Inv (out_state _ (run o n p s)) (cs' ++ frame) ∧ Post (out_value _ (run o n p s)) cs'.
Proof.
  intros Ho. revert cs n s. induction p as [a|D block k IH|D q k IH]; intros cs n s Hp Hs; simpl in *.
  - by exists cs.
  - destruct (Hp s frame Hs) as (cs' & Hs' & Hk). destruct (block s) as [x s1]. by eapply IH.
  - eapply IH; [|done]. apply Hp, Ho.
Qed.

(** the claims of all programs together satisfy the invariant in every state an
    interleaving reaches, a program that was stopped keeping its own *)
Lemma owns_reachable {A} (allowed : Prog A → Prop) s pool s' pool' css :
  (∀ s cs cs', cs ≡ₚ cs' → Inv s cs → Inv s cs') →
  (∀ p, allowed p → owns [] (λ _ _, True) p) →
  Inv s (concat css) → Forall2 (λ cs p, owns cs (λ _ _, True) p) css pool →
  rtc (pool_step allowed) (s, pool) (s', pool') →
  ∃ css', Inv s' (concat css') ∧ Forall2 (λ cs p, owns cs (λ _ _, True) p) css' pool'.
Proof.
  intros Hperm Hall HP Hpool Hsteps.
  remember (s, pool) as st eqn:Hst. remember (s', pool') as st' eqn:Hst'.
  revert s pool css HP Hpool Hst.
  induction Hsteps as [st|st st1 st2 Hstep Hsteps IH]; intros s pool css HP Hpool ->.
  { injection Hst' as -> ->. eauto. }
  destruct st1 as [s1 pool1].
  assert (∃ css1, Inv s1 (concat css1) ∧ Forall2 (λ cs p, owns cs (λ _ _, True) p) css1 pool1)
    as (css1 & HP1 & Hpool1); [|by eapply IH].
  inversion Hstep; subst.
  - exists (css ++ [[]]). rewrite concat_app. simpl. rewrite app_nil_r.
    split; [done|]. apply Forall2_app; [done|]. auto.
  - match goal with Hl : pool !! i = Some _ |- _ =>
      destruct (Forall2_lookup_r _ _ _ _ _ Hpool Hl) as (cs & Hcs & Hk) end. simpl in Hk.
    pose proof (delete_Permutation _ _ _ Hcs) as Hdel.
    assert (Inv s (cs ++ concat (delete i css))) as HP0.
    { eapply Hperm; [|exact HP]. by rewrite Hdel at 1. }
    destruct (Hk _ _ HP0) as (cs' & HP1 & Hk1).
    match goal with Hb : block s = _ |- _ => rewrite Hb in HP1, Hk1 end. simpl in *.
    exists (<[i := cs']> css). split; [|by apply Forall2_insert].
    eapply Hperm; [|exact HP1].
    assert (<[i := cs']> css !! i = Some cs') as Hins.
    { apply list_lookup_insert_eq. by eapply lookup_lt_Some. }
    rewrite (delete_Permutation _ _ _ Hins). simpl. f_equiv.
    by rewrite !delete_take_drop, take_insert_ge, drop_insert_lt by lia.
  - match goal with Hl : pool !! i = Some _ |- _ =>
      destruct (Forall2_lookup_r _ _ _ _ _ Hpool Hl) as (cs & Hcs & Hk) end. simpl in Hk.
    exists css. split; [done|].
    rewrite <-(list_insert_id css i cs) by done. apply Forall2_insert; auto.
Qed.
End Owns.
End Prog.

Arguments Prog S Q A : clear implicits.
Arguments Ret {S Q A} a.
Arguments Atomic {S Q A B} block k.
Arguments Ask {S Q A B} q k.
Arguments Oracle : clear implicits.
Arguments Outcome S Q A : clear implicits.
Arguments mkOutcome {S Q A} _ _ _.
Arguments out_value {S Q A} _.
Arguments out_state {S Q A} _.
Arguments out_asked {S Q A} _.

(** ** A program on a part of a larger state

    [get] and [put] find the part, [emb] its questions among those of the larger
    program. *)

Section Lift.
Context {S S' : Type} {Q Q' : Type → Type} (get : S' → S) (put : S → S' → S') (emb : ∀ B, Q B → Q' B).

Definition lift_block {A} (block : S → A * S) (s : S') : A * S' :=
  let '(x, part) := block (get s) in (x, put part s).

Fixpoint lift_prog {A} (p : Prog S Q A) : Prog S' Q' A :=
  match p with
  | Ret a => Ret a
  | Atomic block k => Atomic (lift_block block) (λ x, lift_prog (k x))
  | @Ask _ _ _ B q k => Ask (emb B q) (λ x, lift_prog (k x))
  end.

(** an invariant of the part is kept in the larger state *)
Lemma lift_keeps {A} ok ok' (P : S → Prop) (p : Prog S Q A) :
  (∀ x s, get (put x s) = x) → (∀ B q x, ok' B (emb B q) x → ok B q x) →
  keeps ok P p → keeps ok' (λ s, P (get s)) (lift_prog p).
Proof.
  intros Hgp Hok. induction p as [a|B block k IH|B q k IH]; intros Hp; simpl in *; [done| |].
  - intros s Hs. destruct (Hp (get s) Hs) as [Hs' Hk]. unfold lift_block. destruct (block (get s)) as [x part]. simpl in *.
    rewrite Hgp. split; [done|]. by apply IH.
  - intros x Hx. apply IH, Hp, Hok, Hx.
Qed.

(** what the part owns, the larger state owns under [claim], when its invariant is
    the part's for the claims of the part, whatever the other claims are *)
Lemma lift_owns {C C' A} ok ok' (Inv : S → list C → Prop) (Inv' : S' → list C' → Prop)
    (claim : C → C') cs (Post : A → list C → Prop) (p : Prog S Q A) :
  (∀ B q x, ok' B (emb B q) x → ok B q x) →
  (∀ s cs frame, Inv' s (map claim cs ++ frame) →
     ∃ frame0, Inv (get s) (cs ++ frame0) ∧
       ∀ part cs', Inv part (cs' ++ frame0) → Inv' (put part s) (map claim cs' ++ frame)) →
  owns ok Inv cs Post p →
  owns ok' Inv' (map claim cs) (λ a cs', ∃ cs0, cs' = map claim cs0 ∧ Post a cs0) (lift_prog p).
Proof.
  intros Hok Hlens. revert cs. induction p as [a|B block k IH|B q k IH]; intros cs Hp; simpl in *.
  - by exists cs.
  - intros s frame Hs. destruct (Hlens s cs frame Hs) as (frame0 & Hpart & Hput).
    destruct (Hp (get s) frame0 Hpart) as (cs' & Hs' & Hk). unfold lift_block.
    destruct (block (get s)) as [x part]. simpl in *. exists (map claim cs'). split; [by apply Hput|by apply IH].
  - intros x Hx. apply IH, Hp, Hok, Hx.
Qed.
End Lift.

(** ** Programs that may fail: [?] after an [await] *)

Definition prog_try {S Q E A B} (f : A → Prog S Q (Result E B)) (p : Prog S Q (Result E A))
  : Prog S Q (Result E B) :=
  r ← p; match r with Ok a => f a | Err e => mret (Err e) end.

Notation "x ←? p ; k" := (prog_try (λ x, k) p)
  (at level 20, p at level 100, k at level 200, only parsing) : stdpp_scope.
Notation "' x ←? p ; k" := (prog_try (λ x, k) p)
  (at level 20, x pattern, p at level 100, k at level 200, only parsing) : stdpp_scope.
Notation "p ;;? k" := (prog_try (λ _, k) p)
  (at level 100, k at level 200, right associativity, only parsing) : stdpp_scope.

Lemma keeps_try {S Q E A B} ok (P : S → Prop) (p : Prog S Q (Result E A))
    (f : A → Prog S Q (Result E B)) :
  keeps ok P p → (∀ a, keeps ok P (f a)) → keeps ok P (prog_try f p).
Proof. intros Hp Hf. apply keeps_bind; [done|]. intros [a|e]; [apply Hf|done]. Qed.

#[export] Hint Resolve keeps_bind keeps_try keeps_ret keeps_atomic keeps_ask : fs0.

(** a program that may return a success had every step succeed *)
Lemma may_return_try {S Q E A B} ok (p : Prog S Q (Result E A)) (f : A → Prog S Q (Result E B)) b :
  may_return ok (prog_try f p) (Ok b) ↔ ∃ a, may_return ok p (Ok a) ∧ may_return ok (f a) (Ok b).
Proof.
  unfold prog_try. rewrite may_return_bind. split.
  - intros ([a|e] & Hp & Hb); [by exists a|done].
  - intros (a & Hp & Hb). by exists (Ok a).
Qed.

Lemma may_return_ret {S Q A} ok (a b : A) : may_return (S := S) (Q := Q) ok (mret a) b ↔ a = b.
Proof. done. Qed.

Lemma may_return_ask {S Q A} ok (q : Q A) (a : A) : may_return (S := S) ok (ask q) a ↔ ok A q a.
Proof. split; [by intros (x & Hx & <-)|by intros Hok; exists a]. Qed.

Lemma owns_try {S Q E A B C} ok (Inv : S → list C → Prop) cs (M : A → list C → Prop)
    (Post : Result E B → list C → Prop) (p : Prog S Q (Result E A)) (f : A → Prog S Q (Result E B)) :
  owns ok Inv cs (λ r cs', match r with Ok a => M a cs' | Err e => Post (Err e) cs' end) p →
  (∀ a cs', M a cs' → owns ok Inv cs' Post (f a)) →
  owns ok Inv cs Post (prog_try f p).
Proof. intros Hp Hf. eapply owns_bind; [exact Hp|]. intros [a|e] cs' HM; [by apply Hf|done]. Qed.

(** ** One program alone: what it answers *)

Section Runs.
Context {S : Type} {Q : Type → Type}.

Lemma run_ask {A} (q : Q A) o n (s : S) :
  run o n (ask q) s = mkOutcome (o n A q) s [existT A q].
Proof. done. Qed.

Lemma run_atomic {A} (block : S → A * S) o n s :
  run (Q := Q) o n (atomic block) s = mkOutcome (block s).1 (block s).2 [].
Proof. unfold atomic. simpl. by destruct (block s). Qed.

Lemma run_ret {A} (a : A) o n (s : S) : run (Q := Q) o n (mret a) s = mkOutcome a s [].
Proof. done. Qed.

(** the value and the state of [p ≫= f], the number of questions forgotten *)
Lemma run_bind_value {A B} (f : A → Prog S Q B) (p : Prog S Q A) o n s :
  ∃ n', out_value (run o n (p ≫= f) s) =
          out_value (run o n' (f (out_value (run o n p s))) (out_state (run o n p s))) ∧
        out_state (run o n (p ≫= f) s) =
          out_state (run o n' (f (out_value (run o n p s))) (out_state (run o n p s))).
Proof. rewrite run_bind. by eexists. Qed.

(** [p] alone, from [s], answers [v] and ends in a state of [P], whenever its
    questions are asked *)
Definition runs {A} (o : Oracle Q) (p : Prog S Q A) (s : S) (v : A)
    (P : S → Prop) : Prop :=
  ∀ n, out_value (run o n p s) = v ∧ P (out_state (run o n p s)).

Lemma runs_bind {A B} o (p : Prog S Q A) (f : A → Prog S Q B) s a b (M P : S → Prop) :
  runs o p s a M → (∀ s', M s' → runs o (f a) s' b P) → runs o (p ≫= f) s b P.
Proof.
  intros Hp Hf n. destruct (run_bind_value f p o n s) as (n' & -> & ->).
  destruct (Hp n) as [-> HM]. by apply Hf.
Qed.

Lemma runs_try {E A B} o (p : Prog S Q (Result E A)) (f : A → Prog S Q (Result E B)) s a b M P :
  runs o p s (Ok a) M → (∀ s', M s' → runs o (f a) s' b P) → runs o (prog_try f p) s b P.
Proof. intros Hp Hf. by eapply runs_bind. Qed.

Lemma runs_try_Err {E A B} o (p : Prog S Q (Result E A)) (f : A → Prog S Q (Result E B)) s e P :
  runs o p s (Err e) P → runs o (prog_try f p) s (Err e) P.
Proof. intros Hp. eapply runs_bind; [exact Hp|]. intros s' HP n. by split. Qed.

(** a question: the rest runs whatever the answer is, of those the oracle gives *)
Lemma runs_ask {A B} o (q : Q A) (f : A → Prog S Q B) s v P :
  (∀ n, runs o (f (o n A q)) s v P) → runs o (ask q ≫= f) s v P.
Proof.
  intros Hf n. destruct (run_bind_value f (ask q) o n s) as (n' & -> & ->). apply Hf.
Qed.

Lemma runs_ret {A} o (a : A) s P : P s → runs o (mret a) s a P.
Proof. intros HP n. by split. Qed.

Lemma runs_atomic {A} o (block : S → A * S) s v (P : S → Prop) :
  (block s).1 = v → P (block s).2 → runs o (atomic block) s v P.
Proof. intros Hv HP n. by rewrite run_atomic. Qed.

Lemma runs_conseq {A} o (p : Prog S Q A) s v (P P' : S → Prop) :
  runs o p s v P → (∀ s', P s' → P' s') → runs o p s v P'.
Proof. intros Hp HP n. destruct (Hp n). auto. Qed.

(** what is known of the state without looking at the run *)
Lemma runs_and {A} o (p : Prog S Q A) s v (P P' : S → Prop) :
  runs o p s v P → (∀ n, P' (out_state (run o n p s))) → runs o p s v (λ s', P s' ∧ P' s').
Proof. intros Hp HP n. destruct (Hp n). auto. Qed.

(** the same with the questions it asked *)
Definition asks {A} (o : Oracle Q) (p : Prog S Q A) (s : S) (v : A)
    (P : S → list (sigT Q) → Prop) : Prop :=
  ∀ n, out_value (run o n p s) = v ∧ P (out_state (run o n p s)) (out_asked (run o n p s)).

Lemma asks_bind {A B} o (p : Prog S Q A) (f : A → Prog S Q B) s a b (M P : S → list (sigT Q) → Prop) :
  asks o p s a M → (∀ s' l, M s' l → asks o (f a) s' b (λ s'' l', P s'' (l ++ l'))) →
  asks o (p ≫= f) s b P.
Proof.
  intros Hp Hf n. rewrite run_bind. cbv zeta. cbn [out_value out_state out_asked].
  destruct (Hp n) as [-> HM]. apply (Hf _ _ HM).
Qed.

Lemma asks_try {E A B} o (p : Prog S Q (Result E A)) (f : A → Prog S Q (Result E B)) s a b M P :
  asks o p s (Ok a) M → (∀ s' l, M s' l → asks o (f a) s' b (λ s'' l', P s'' (l ++ l'))) →
  asks o (prog_try f p) s b P.
Proof. intros Hp Hf. by eapply asks_bind. Qed.

Lemma asks_ask {A} o (q : Q A) s v : (∀ n, o n A q = v) →
  asks o (ask q) s v (λ s' l, s' = s ∧ l = [existT A q]).
Proof. intros Hq n. rewrite run_ask. simpl. by rewrite Hq. Qed.

Lemma asks_ret {A} o (a : A) s (P : S → list (sigT Q) → Prop) : P s [] → asks o (mret a) s a P.
Proof. intros HP n. by split. Qed.

Lemma asks_atomic {A} o (block : S → A * S) s :
  asks o (atomic block) s (block s).1 (λ s' l, s' = (block s).2 ∧ l = []).
Proof. intros n. by rewrite run_atomic. Qed.

Lemma asks_conseq {A} o (p : Prog S Q A) s v (P P' : S → list (sigT Q) → Prop) :
  asks o p s v P → (∀ s' l, P s' l → P' s' l) → asks o p s v P'.
Proof. intros Hp HP n. destruct (Hp n). auto. Qed.
End Runs.

(** a lifted program alone runs as the program does on its part *)
Section LiftRun.
Context {S S' : Type} {Q Q' : Type → Type} (get : S' → S) (put : S → S' → S') (emb : ∀ B, Q B → Q' B).

(** the part can be read and written *)
Definition part_laws (s : S') : Prop :=
  put (get s) s = s ∧ (∀ x, get (put x s) = x) ∧ ∀ x y, put y (put x s) = put y s.

Definition lift_oracle (o : Oracle Q') : Oracle Q := λ n B q, o n B (emb B q).

Lemma part_laws_put s x : part_laws s → part_laws (put x s).
Proof.
  intros (_ & Hgp & Hpp). split; [by rewrite Hgp, Hpp|]. split; [intros y; by rewrite Hpp, Hgp|].
  intros y z. by rewrite !Hpp.
Qed.

Lemma lift_run {A} (o : Oracle Q') n (p : Prog S Q A) s : part_laws s →
  let out := run (lift_oracle o) n p (get s) in
  run o n (lift_prog get put emb p) s =
  mkOutcome (out_value out) (put (out_state out) s)
    (map (λ q, existT (projT1 q) (emb (projT1 q) (projT2 q))) (out_asked out)).
Proof.
  revert n s. induction p as [a|B block k IH|B q k IH]; intros n s Hs; simpl.
  - destruct Hs as (-> & _ & _). done.
  - unfold lift_block. destruct (block (get s)) as [x part] eqn:Hb.
    rewrite (IH x n (put part s)) by (by apply part_laws_put). simpl.
    destruct Hs as (_ & Hgp & Hpp). by rewrite Hgp, Hpp.
  - rewrite IH by done. done.
Qed.
End LiftRun.
