(* ===== verification/Traces.v ===== *)
(** * What a program asks, and what it is told

    [may_return] ([Conc.v]) says what a program may end with under any interference; [may_do] also says what it asked on
    its way and what each question was answered, in order.  The traces of a sequence are those of its parts one after
    the other. *)

From S2P Require Import Prelude Conc.

Section Traces.
Context {S : Type} {Q : Type → Type} (answer_ok : ∀ B, Q B → B → Prop).

(** a question with its answer *)
Abbreviation Exchange := (sigT (λ B : Type, (Q B * B)%type)).
Definition said {B : Type} (q : Q B) (x : B) : Exchange := existT B (q, x).

(** alone or in any interleaving: the state a block finds is anyone's *)
Fixpoint may_do {A} (p : Prog S Q A) (tr : list Exchange) (a : A) : Prop :=
  match p with
  | Ret a' => tr = [] ∧ a' = a
  | Atomic block k => ∃ s, may_do (k (block s).1) tr a
  | @Ask _ _ _ B q k => ∃ x tr', answer_ok B q x ∧ tr = said q x :: tr' ∧ may_do (k x) tr' a
  end.

Lemma may_do_return {A} (p : Prog S Q A) a : may_return answer_ok p a ↔ ∃ tr, may_do p tr a.
Proof.
  induction p as [a'|B block k IH|B q k IH]; simpl.
  - naive_solver.
  - setoid_rewrite IH. naive_solver.
  - setoid_rewrite IH. naive_solver.
Qed.

Lemma may_do_bind {A B} (p : Prog S Q A) (f : A → Prog S Q B) tr b :
  may_do (p ≫= f) tr b ↔ ∃ tr1 tr2 a, tr = tr1 ++ tr2 ∧ may_do p tr1 a ∧ may_do (f a) tr2 b.
Proof.
  unfold mbind, Prog_bind. revert tr. induction p as [a|C block k IH|C q k IH]; intros tr; simpl.
  - split; [intros Hf; by exists [], tr, a|]. by intros (tr1 & tr2 & a' & -> & [-> <-] & Hf).
  - setoid_rewrite IH. naive_solver.
  - setoid_rewrite IH. split.
    + intros (x & tr' & Hx & -> & tr1 & tr2 & a & -> & Hk & Hf). exists (said q x :: tr1), tr2, a. naive_solver.
    + intros (tr1 & tr2 & a & -> & (x & tr' & Hx & -> & Hk) & Hf). exists x, (tr' ++ tr2). split_and!; [done..|]. by exists tr', tr2, a.
Qed.

(** [?] only goes on after a success *)
Lemma may_do_try {E A B} (p : Prog S Q (Result E A)) (f : A → Prog S Q (Result E B)) tr b :
  may_do (prog_try f p) tr (Ok b) ↔ ∃ tr1 tr2 a, tr = tr1 ++ tr2 ∧ may_do p tr1 (Ok a) ∧ may_do (f a) tr2 (Ok b).
Proof.
  unfold prog_try. rewrite may_do_bind. split.
  - intros (tr1 & tr2 & [a|e] & -> & Hp & Hf); [by exists tr1, tr2, a|]. by destruct Hf.
  - intros (tr1 & tr2 & a & -> & Hp & Hf). by exists tr1, tr2, (Ok a).
Qed.

Lemma may_do_ask {B : Type} (q : Q B) tr x : may_do (ask q) tr x ↔ answer_ok B q x ∧ tr = [said q x].
Proof.
  simpl. split.
  - intros (y & tr' & Hy & -> & -> & ->). done.
  - intros [Hx ->]. by exists x, [].
Qed.

(** what a run alone asked *)
Lemma run_may_do {A} (o : Oracle Q) n (p : Prog S Q A) s : (∀ n B q, answer_ok B q (o n B q)) →
  ∃ tr, may_do p tr (out_value (run o n p s)) ∧ map (λ x, existT (projT1 x) (projT2 x).1) tr = out_asked (run o n p s).
Proof.
  intros Ho. revert n s. induction p as [a|C block k IH|C q k IH]; intros n s; simpl.
  - by exists [].
  - destruct (block s) as [x s1] eqn:Hb. destruct (IH x n s1) as (tr & Htr & Hasked). exists tr. split; [|done]. exists s. by rewrite Hb.
  - destruct (IH (o n C q) (Datatypes.S n) s) as (tr & Htr & Hasked). exists (said q (o n C q) :: tr). split; [|by rewrite <- Hasked].
    exists (o n C q), tr. auto.
Qed.
End Traces.

