(* ===== verification/CentralServer.v ===== *)
(** * The central server's registry

    Models [fs0-central/src/server.rs]: the registered clients and storages, the
    map of mounted volumes, registration and its undoing, and the broadcast of
    events.  Every region under one lock is one atomic block; the database block
    runs a transaction.  A connection is a handle; what the transport does with it
    is a question to the environment. *)

From S2P Require Import Prelude Types Paths DirCache CentralDb DirTree CentralInv CentralDir.
From S2P Require Import CentralTables CentralFacts CentralRuns Link Conc.

Record ClientControlConnection := mkClientControlConnection {
  ccc_token : string; ccc_connection : Connection }.

Record StorageControlConnection := mkStorageControlConnection {
  scc_peer : StoragePeerInfo; scc_connection : Connection }.

Inductive ControlConnectionIdentity := Anonymous | IdClient (client_id : Z) | IdStorage (storage_id : Z).

(** [CentralServer]: the configured tokens, the id counter, the three registries
    and the database with its directory cache *)
Record CentralServer := mkCentralServer {
  cs_auth_tokens : list string;
  cs_next_id : Z;
  cs_clients : gmap Z ClientControlConnection;
  cs_storages : gmap Z StorageControlConnection;
  cs_online_volumes : gmap Z Z;
  cs_db : CentralTx }.

Definition set_next_id (s : CentralServer) x : CentralServer :=
  mkCentralServer (cs_auth_tokens s) x (cs_clients s) (cs_storages s) (cs_online_volumes s) (cs_db s).
Definition set_clients (s : CentralServer) x : CentralServer :=
  mkCentralServer (cs_auth_tokens s) (cs_next_id s) x (cs_storages s) (cs_online_volumes s) (cs_db s).
Definition set_storages (s : CentralServer) x : CentralServer :=
  mkCentralServer (cs_auth_tokens s) (cs_next_id s) (cs_clients s) x (cs_online_volumes s) (cs_db s).
Definition set_online_volumes (s : CentralServer) x : CentralServer :=
  mkCentralServer (cs_auth_tokens s) (cs_next_id s) (cs_clients s) (cs_storages s) x (cs_db s).
Definition set_db (s : CentralServer) x : CentralServer :=
  mkCentralServer (cs_auth_tokens s) (cs_next_id s) (cs_clients s) (cs_storages s)
    (cs_online_volumes s) x.

(** the questions a handler puts to its environment *)
Inductive CentralQuery : Type → Type :=
| QNow : CentralQuery Z
| QTx : CentralQuery TxEnv
| QRpc (connection : Connection) (request : ProtocolRequest)
  : CentralQuery (Fs0Result ProtocolResponse)
| QSendEvent (connection : Connection) (event : ProtocolEvent) : CentralQuery (Fs0Result unit)
| QClose (connection : Connection) : CentralQuery unit.

Abbreviation Central := (Prog CentralServer CentralQuery).
Abbreviation Block A := (CentralServer → A * CentralServer).

Definition await {A} (q : CentralQuery A) : Central A := ask q.

(** [run(config)]: what is left of it once the transport is bound *)
Definition CentralServer_new (auth_tokens : list string) : CentralServer :=
  mkCentralServer auth_tokens 1 ∅ ∅ ∅ CentralDb_open.
Definition check_replication_factor (replication_factor : Z) : Fs0Result unit :=
  if bool_decide (replication_factor = 0)
  then Err (InvalidConfig "replication_factor must be greater than zero")
  else Ok tt.

Section Server.
Context `{SqliteText, RowIds}.

(** [server.db.lock()], a transaction with and without [commit] at its end *)
Definition locked_tx {A} (env : TxEnv) (body : Tx A) : Block (Fs0Result A) := λ s,
  let '(r, db) := run_tx env body (cs_db s) in (r, set_db s db).
Definition locked_tx_read {A} (env : TxEnv) (body : Tx A) : Block (Fs0Result A) := λ s,
  let '(r, db) := run_tx_read env body (cs_db s) in (r, set_db s db).

(** [self.next_id.fetch_add(1)] *)
Definition next_id : Block Z := λ s,
  (cs_next_id s, set_next_id s (u64_wrapping_add (cs_next_id s) 1)).

Definition token_allowed (s : CentralServer) (token : string) : bool :=
  existsb (λ allowed, bool_decide (allowed = token)) (cs_auth_tokens s).

Definition peer_le (p q : StoragePeerInfo) : Prop := spi_storage_id p ≤ spi_storage_id q.
#[export] Instance peer_le_dec : RelDecision peer_le.
Proof. intros p q. unfold peer_le. apply _. Defined.

Definition storage_peers_snapshot (s : CentralServer) : list StoragePeerInfo :=
  merge_sort peer_le (map (λ kv, scc_peer kv.2) (map_to_list (cs_storages s))).

Definition storage_peer (storage_id : Z) (s : CentralServer) : option StoragePeerInfo :=
  scc_peer <$> cs_storages s !! storage_id.

(** [storages.read().get(&storage_id).map(|storage| storage.connection.clone())] *)
Definition storage_connection (storage_id : Z) (s : CentralServer) : option Connection :=
  scc_connection <$> cs_storages s !! storage_id.

(** a read under a lock *)
Definition reading {A} (f : CentralServer → A) : Central A := atomic (λ s, (f s, s)).

Fixpoint send_to_all (event : ProtocolEvent) (connections : list Connection) : Central unit :=
  match connections with
  | [] => mret tt
  | connection :: connections =>
      (* an error is logged *)
      _ ← await (QSendEvent connection event);
      send_to_all event connections
  end.

Definition broadcast_event (event : ProtocolEvent) : Central unit :=
  client_connections ←
    reading (λ s, map (λ kv, ccc_connection kv.2) (map_to_list (cs_clients s)));
  storage_connections ←
    reading (λ s, map (λ kv, scc_connection kv.2) (map_to_list (cs_storages s)));
  send_to_all event (client_connections ++ storage_connections).

Definition register_client (token : string) (connection : Connection)
  : Central (Fs0Result (Z * list StoragePeerInfo)) :=
  allowed ← reading (λ s, token_allowed s token);
  if negb allowed then mret (Err Unauthorized)
  else
    client_id ← atomic next_id;
    atomic (λ s, (tt, set_clients s
      (<[client_id := mkClientControlConnection token connection]> (cs_clients s))));;
    peers ← reading storage_peers_snapshot;
    mret (Ok (client_id, peers)).

Definition unregister_client (client_id : Z) : Central unit :=
  removed ← atomic (λ s, (cs_clients s !! client_id, set_clients s (delete client_id (cs_clients s))));
  match removed with
  | Some client => await (QClose (ccc_connection client))
  | None => mret tt
  end.

(** the loop over the reported volumes in [register_storage]: [volume.name] and
    [volume.max_volume_offset] are taken from or merged with the database *)
Fixpoint register_volumes (volumes : list StorageVolumeInfo) : Tx (list StorageVolumeInfo) :=
  match volumes with
  | [] => mret []
  | volume :: volumes =>
      registered ← get_volume (svi_volume_id volume);
      let offset := Z.max (svi_max_volume_offset registered) (svi_max_volume_offset volume) in
      (if bool_decide (offset ≠ svi_max_volume_offset registered)
       then _ ← update_volume_offset (svi_volume_id volume) offset; mret tt
       else mret tt);;
      if bool_decide (svi_max_bytes registered ≠ svi_max_bytes volume) then st_fail InvalidRequest
      else
        rest ← register_volumes volumes;
        mret (mkStorageVolumeInfo (svi_volume_id volume) (svi_name registered) (svi_max_bytes volume)
                offset (svi_read_only volume) :: rest)
  end.

Definition mount_volumes (storage_id : Z) (volumes : list StorageVolumeInfo)
  : Block (Fs0Result unit) := λ s,
  if existsb (λ v, bool_decide (is_Some (cs_online_volumes s !! svi_volume_id v))) volumes
  then (Err VolumeAlreadyMounted, s)
  else (Ok tt, set_online_volumes s
    (foldl (λ m v, <[svi_volume_id v := storage_id]> m) (cs_online_volumes s) volumes)).

Definition register_storage (name token : string) (volumes : list StorageVolumeInfo)
    (iroh_endpoint : list Byte.byte) (connection : Connection)
  : Central (Fs0Result (Z * list StoragePeerInfo)) :=
  allowed ← reading (λ s, token_allowed s token);
  if negb allowed then mret (Err Unauthorized)
  else
    env ← await QTx;
    volumes ←? atomic (locked_tx env (register_volumes volumes));
    storage_id ← atomic next_id;
    let peer := mkStoragePeerInfo storage_id name volumes iroh_endpoint in
    _ ←? atomic (mount_volumes storage_id volumes);
    atomic (λ s, (tt, set_storages s
      (<[storage_id := mkStorageControlConnection peer connection]> (cs_storages s))));;
    peers ← reading storage_peers_snapshot;
    mret (Ok (storage_id, peers)).

Definition unregister_storage (storage_id : Z) : Central (option ProtocolEvent) :=
  storage ← atomic (λ s, (cs_storages s !! storage_id,
                          set_storages s (delete storage_id (cs_storages s))));
  removed ← match storage with
            | Some storage => await (QClose (scc_connection storage));; mret true
            | None => mret false
            end;
  atomic (λ s, (tt, set_online_volumes s
    (base.filter (λ kv, kv.2 ≠ storage_id) (cs_online_volumes s))));;
  mret (if (removed : bool) then Some (StorageRemoved storage_id) else None).

Definition unregister_identity (identity : ControlConnectionIdentity)
  : Central (option ProtocolEvent) :=
  match identity with
  | Anonymous => mret None
  | IdClient client_id => unregister_client client_id;; mret None
  | IdStorage storage_id => unregister_storage storage_id
  end.
End Server.
