(* ===== verification/CentralHandlers.v ===== *)
(** * The control requests of the central server

    Models [fs0-central/src/request_handlers.rs] and its three files
    ([update.rs], [storage.rs], [client.rs]) and the connection loop of
    [server/spawn.rs].  The body of a transaction is a definition of its own (its
    name ends in [_tx]); the handler runs it under the database lock and asks the
    environment for the clock, the outcome of the commit and the answers of the
    storages. *)

From Stdlib Require Import SpecFloat.
From S2P Require Import Prelude Types Paths DirCache CentralDb DirTree CentralInv CentralDir.
From S2P Require Import CentralTables CentralFacts CentralRuns Link Conc CentralServer.

(** ** f64 (IEEE 754 binary64) *)

(** [x as f64]: round to nearest, ties to even *)
Definition u64_to_f64 (x : Z) : spec_float := binary_normalize 53 1024 x 0 false.
(** the literal [0.95] *)
Definition UPDATE_VOLUME_USAGE_THRESHOLD : spec_float :=
  S754_finite false 0x1e666666666666%positive (-53).
(** [a as f64 / b as f64 >= threshold] *)
Definition over_threshold (a b : Z) : bool :=
  SFleb UPDATE_VOLUME_USAGE_THRESHOLD (SFdiv 53 1024 (u64_to_f64 a) (u64_to_f64 b)).

(** ** request_handlers/update.rs *)

Module Update.
Section Update.
Context `{SqliteText, RowIds, DebugResponse}.

(** the tests of the loop body: whether the volume is passed over *)
Definition skip_volume (update_size_hint : option Z) (volume : StorageVolumeInfo) : bool :=
  svi_read_only volume || bool_decide (svi_max_bytes volume = 0)
  || over_threshold (svi_max_volume_offset volume) (svi_max_bytes volume)
  || match update_size_hint with
     | Some size =>
         bool_decide (u64_saturating_sub (svi_max_bytes volume) (svi_max_volume_offset volume) < size)
     | None => false
     end.

(** the two nested loops, over the volumes with the storage of each *)
Fixpoint select_volume (prefer_volume_name : option string) (update_size_hint : option Z)
    (volumes : list (Z * StorageVolumeInfo)) (candidate : option (Z * Z)) : option (Z * Z) :=
  match volumes with
  | [] => candidate
  | (storage_id, volume) :: volumes =>
      if skip_volume update_size_hint volume
      then select_volume prefer_volume_name update_size_hint volumes candidate
      else
        let candidate := match candidate with
                         | None => Some (storage_id, svi_volume_id volume)
                         | Some c => Some c
                         end in
        if bool_decide (prefer_volume_name = Some (svi_name volume))
        then Some (storage_id, svi_volume_id volume)
        else select_volume prefer_volume_name update_size_hint volumes candidate
  end.

Definition volumes_of (peers : list StoragePeerInfo) : list (Z * StorageVolumeInfo) :=
  concat (map (λ peer, map (λ v, (spi_storage_id peer, v)) (spi_volumes peer)) peers).

(** the file to update, created when the path is free and the offset is 0 *)
Definition open_update_file (request : BeginUpdateRequest) (now : Z) : Tx (FileRow * Z) :=
  found ← st_try (get_file_by_path (bur_path request));
  match found with
  | Ok file =>
      if bool_decide (f_size_bytes file < bur_offset request) then st_fail InvalidRequest
      else mret (file, f_size_bytes file)
  | Err NotFound =>
      if bool_decide (bur_offset request ≠ 0) then st_fail NotFound
      else
        file ← create_file (bur_path request) now;
        mret (file, 0)
  | Err err => st_fail err
  end.

Definition begin_update_tx (request : BeginUpdateRequest) (volume_id now : Z) : Tx UpdateLease :=
  let expires_at_ms := u64_wrapping_add now UPDATE_LEASE_TTL_MS in
  '(file, base_size) ← open_update_file request now;
  delete_expired_update_leases now;;
  active ← file_has_active_update_lease (f_file_id file);
  if (active : bool) then st_fail (AlreadyExists (bur_path request))
  else create_update_lease (mkCreateUpdateLease (f_file_id file) volume_id base_size
         (bur_offset request) (bur_prefer_volume_name request) expires_at_ms now).

Definition grant_upload_lease_to_specific_storage (storage_id : Z) (lease : UpdateLease)
  : Central (Fs0Result unit) :=
  connection ←? reading (λ s, ok_or NotFound (storage_connection storage_id s));
  let request := GrantUploadLeaseRq (mkGrantUploadLeaseRequest (ul_lease_id lease) (ul_file_id lease)
    (ul_volume_id lease) (ul_base_size lease) (ul_expires_at_ms lease)
    (ul_prefer_volume_name lease)) in
  response ←? await (QRpc connection (ReqControl request));
  mret (match response with
        | RespControl (GrantUploadLeaseRs lease_id) =>
            if bool_decide (lease_id = ul_lease_id lease) then Ok tt
            else Err (InvalidFrame ("unexpected grant upload lease response: "
                                    +:+ debug_response response))
        | RespError err => Err err
        | response => Err (InvalidFrame ("unexpected grant upload lease response: "
                                         +:+ debug_response response))
        end).

Definition revoke_storage_upload_lease (storage_id lease_id : Z) : Central unit :=
  connection ← reading (storage_connection storage_id);
  match connection return Central unit with
  | None => mret tt
  | Some connection =>
      _ ← await (QRpc connection (ReqControl (RevokeUploadLeaseRq lease_id)));
      mret tt
  end.

Definition revoke_if_online (storage_id : option Z) (lease_id : Z) : Central unit :=
  match storage_id with
  | Some storage_id => revoke_storage_upload_lease storage_id lease_id
  | None => mret tt
  end.

Definition begin_update (request : BeginUpdateRequest) : Central (Fs0Result ControlResponse) :=
  peers ← reading storage_peers_snapshot;
  match select_volume (bur_prefer_volume_name request) (bur_update_size_hint request)
          (volumes_of peers) None return Central (Fs0Result ControlResponse) with
  | None => mret (Err (NoAvailableVolume (bur_prefer_volume_name request)
                         (bur_update_size_hint request)))
  | Some (storage_id, volume_id) =>
      env ← await QTx;
      now ← await QNow;
      lease ←? atomic (locked_tx env (begin_update_tx request volume_id now));
      granted ← grant_upload_lease_to_specific_storage storage_id lease;
      match granted return Central (Fs0Result ControlResponse) with
      | Ok _ => mret (Ok (BeginUpdateRs lease))
      | Err err =>
          env ← await QTx;
          _ ←? atomic (locked_tx env (delete_update_lease (ul_lease_id lease)));
          mret (Err err)
      end
  end.

Definition lease_expired (lease_id file_id : Z) : Fs0Error :=
  VersionConflict ("update lease " +:+ pretty lease_id +:+ " for file " +:+ pretty file_id
                   +:+ " expired before commit").
Definition not_found_to_conflict (lease_id file_id : Z) (err : Fs0Error) : Fs0Error :=
  match err with NotFound => lease_expired lease_id file_id | err => err end.
Definition file_changed : Fs0Error :=
  VersionConflict "file changed while update lease was active".

(** the raw lengths of the submitted bundles, summed *)
Definition submitted_step (ready : gmap HashId Z) (sum : Z) (bundle : CommittedBundle)
  : Fs0Result Z :=
  match ready !! cb_bundle_id bundle with
  | None => Err ChunkNotReady
  | Some raw_len =>
      if bool_decide (raw_len ≠ cb_raw_len bundle) then Err InvalidRequest
      else ok_or (IntegerConversion "submitted bundle raw size overflow")
             (u64_checked_add sum (cb_raw_len bundle))
  end.

(** the second locked region of [commit_update]; [now] and [now_lease] are its two
    clock readings *)
Definition commit_update_tx (request : CommitUpdateRequest) (now now_lease : Z) : Tx FileRecord :=
  lease ← st_map_err (not_found_to_conflict (cur_lease_id request) (cur_file_id request))
            (load_active_update_lease (cur_lease_id request) (cur_file_id request) now_lease);
  if bool_decide (lr_base_size_bytes lease ≠ cur_base_size request) then st_fail file_changed
  else if bool_decide (cur_new_size request < lr_offset_bytes lease) then st_fail InvalidRequest
  else
    file ← get_file_by_id (lr_file_id lease);
    if bool_decide (f_size_bytes file ≠ cur_base_size request) then st_fail file_changed
    else
      replicas ← get_bundle_replicas_by_id (map cb_bundle_id (cur_bundles request));
      let ready := foldl (λ m r, or_insert (br_bundle_id r) (br_raw_len r) m) ∅ replicas in
      submitted ← st_lift (try_fold (submitted_step ready) 0 (cur_bundles request));
      if bool_decide (submitted ≠ cur_new_size request) then st_fail InvalidRequest
      else
        upsert_file_bundles_by_file_id (lr_file_id lease) (cur_bundles request);;
        '(final_raw, final_compressed) ← calculate_size_by_file_id (lr_file_id lease);
        if bool_decide (final_raw ≠ cur_new_size request) then st_fail InvalidRequest
        else
          updated_file ← update_file_after_update (lr_file_id lease) (cur_new_size request)
                           final_compressed now;
          delete_update_lease (cur_lease_id request);;
          file_dir ← get_dir_path_by_id (f_dir_id file);
          insert_file_change_log
            (if bool_decide (f_size_bytes file = 0) then KCreated else KUpdated)
            (Some (file_dir, f_name file)) (Some (lr_file_id lease)) now;;
          file_record updated_file.

(** still under the lock: [server.online_volumes.read().get(&volume_id).copied()] *)
Definition online_storage (block : Block (Fs0Result Z)) : Block (Fs0Result (option Z)) := λ s,
  let '(r, s') := block s in
  (match r with Ok volume_id => Ok (cs_online_volumes s' !! volume_id) | Err e => Err e end, s').

Definition commit_update (request : CommitUpdateRequest) : Central (Fs0Result ControlResponse) :=
  let lease_id := cur_lease_id request in
  let file_id := cur_file_id request in
  env ← await QTx;
  now_volume ← await QNow;
  storage_id ←? atomic (online_storage (locked_tx env
    (st_map_err (not_found_to_conflict lease_id file_id)
       (active_update_lease_volume lease_id file_id now_volume))));
  env ← await QTx;
  now ← await QNow;
  now_lease ← await QNow;
  file ←? atomic (locked_tx env (commit_update_tx request now now_lease));
  revoke_if_online storage_id lease_id;;
  mret (Ok (CommitUpdateRs file)).

Definition abort_update_tx (lease_id file_id now : Z) : Tx Z :=
  volume_id ← active_update_lease_volume lease_id file_id now;
  delete_update_lease lease_id;;
  mret volume_id.

Definition abort_update (lease_id file_id : Z) : Central (Fs0Result ControlResponse) :=
  env ← await QTx;
  now ← await QNow;
  storage_id ←? atomic (online_storage (locked_tx env (abort_update_tx lease_id file_id now)));
  revoke_if_online storage_id lease_id;;
  mret (Ok AbortUpdateRs).
End Update.
End Update.

(** ** request_handlers/storage.rs *)

Module Storage.
Section Storage.
Context `{SqliteText, RowIds}.

Definition validate_client_auth (client_id : Z) (client_token : string)
  : Central (Fs0Result ControlResponse) :=
  reading (λ s,
    match cs_clients s !! client_id with
    | None => Err Unauthorized
    | Some client =>
        if bool_decide (ccc_token client = client_token) then Ok (ValidateClientAuthRs client_id)
        else Err Unauthorized
    end).

Definition create_volume (name : string) (max_bytes : Z) : Central (Fs0Result ControlResponse) :=
  env ← await QTx;
  volume ←? atomic (locked_tx env (CentralTables.create_volume name max_bytes));
  mret (Ok (CreateVolumeRs (svi_volume_id volume))).

Definition report_event (event : BundleReplicaEvent) : Tx unit :=
  match bre_kind event with
  | Stored =>
      raw_len ← st_lift (ok_or InvalidRequest (bre_raw_len event));
      compressed_len ← st_lift (ok_or InvalidRequest (bre_compressed_len event));
      insert_bundle_replica (bre_bundle_id event) (bre_volume_id event) raw_len compressed_len
  | Deleted => delete_bundle_replica (bre_bundle_id event) (bre_volume_id event)
  end.

Definition report_bundle_replica_tx (events : list BundleReplicaEvent) : Tx unit :=
  st_for events report_event.

(** the storage may report on a volume only while it is mounted by it *)
Definition reports_own_volumes (s : CentralServer) (storage_id : Z)
    (events : list BundleReplicaEvent) : bool :=
  forallb (λ event, bool_decide (cs_online_volumes s !! bre_volume_id event = Some storage_id)) events.

(** the read lock on the mounted volumes is held through the transaction *)
Definition report_bundle_replica (storage_id : Z) (events : list BundleReplicaEvent)
  : Central (Fs0Result ControlResponse) :=
  env ← await QTx;
  _ ←? atomic (λ s,
    if reports_own_volumes s storage_id events
    then locked_tx env (report_bundle_replica_tx events) s
    else (Err InvalidRequest, s));
  mret (Ok ReportBundleReplicaRs).

Definition update_storage_endpoint (storage_id : Z) (iroh_endpoint : list Byte.byte)
  : Central (Fs0Result ControlResponse) :=
  atomic (λ s,
    match cs_storages s !! storage_id with
    | None => (Err NotFound, s)
    | Some storage =>
        let peer := scc_peer storage in
        let peer := mkStoragePeerInfo (spi_storage_id peer) (spi_name peer) (spi_volumes peer)
                      iroh_endpoint in
        (Ok UpdateStorageEndpointRs,
         set_storages s (<[storage_id := mkStorageControlConnection peer (scc_connection storage)]>
                           (cs_storages s)))
    end).

(** [volumes.iter_mut().find(..)] and the three assignments *)
Fixpoint update_first_volume (registered : StorageVolumeInfo) (volumes : list StorageVolumeInfo)
  : option (list StorageVolumeInfo) :=
  match volumes with
  | [] => None
  | volume :: volumes =>
      if bool_decide (svi_volume_id volume = svi_volume_id registered)
      then Some (mkStorageVolumeInfo (svi_volume_id volume) (svi_name registered)
                   (svi_max_bytes registered) (svi_max_volume_offset registered)
                   (svi_read_only volume) :: volumes)
      else volumes ← update_first_volume registered volumes; Some (volume :: volumes)
  end.

Definition update_storage_volume_offset (storage_id volume_id max_volume_offset : Z)
  : Central (Fs0Result ControlResponse) :=
  env ← await QTx;
  registered ←? atomic (locked_tx env (update_volume_offset volume_id max_volume_offset));
  atomic (λ s,
    match cs_storages s !! storage_id with
    | None => (Err NotFound, s)
    | Some storage =>
        let peer := scc_peer storage in
        match update_first_volume registered (spi_volumes peer) with
        | None => (Err NotFound, s)
        | Some volumes =>
            let peer := mkStoragePeerInfo (spi_storage_id peer) (spi_name peer) volumes
                          (spi_iroh_endpoint peer) in
            (Ok UpdateStorageVolumeOffsetRs,
             set_storages s (<[storage_id := mkStorageControlConnection peer (scc_connection storage)]>
                               (cs_storages s)))
        end
    end).
End Storage.
End Storage.

(** ** request_handlers/client.rs *)

(** [struct BundleReadTarget] *)
Record BundleReadTarget := mkBundleReadTarget {
  brt_raw_len : Z; brt_compressed_len : Z; brt_replicas : list ReplicaLocation }.

Module Client.
Section Client.
Context `{SqliteText, RowIds}.

Definition central_status : Central (Fs0Result ControlResponse) :=
  clients_count ← reading (λ s, Z.of_nat (size (cs_clients s)) mod 2 ^ 32);
  peers ← reading storage_peers_snapshot;
  mret (Ok (CentralStatusRs clients_count peers)).

Definition list_directory (dir : string) (limit : Z) (cursor : option Z)
  : Central (Fs0Result ControlResponse) :=
  env ← await QTx;
  entries ←? atomic (locked_tx env (CentralDir.list_directory dir limit cursor));
  mret (Ok (ListDirectoryRs entries)).

Definition file_id_by_path (path : string) : Central (Fs0Result Z) :=
  env ← await QTx;
  atomic (locked_tx_read env (file ← get_file_by_path path; mret (f_file_id file))).

(** one replica of the loop: only those on a mounted volume count *)
Definition add_read_target (online : gmap Z Z) (targets : gmap HashId BundleReadTarget)
    (replica : BundleReplicaRow) : gmap HashId BundleReadTarget :=
  match online !! br_volume_id replica with
  | None => targets
  | Some storage_id =>
      let target := default
        (mkBundleReadTarget (br_raw_len replica) (br_compressed_len replica) [])
        (targets !! br_bundle_id replica) in
      <[br_bundle_id replica := mkBundleReadTarget (brt_raw_len target) (brt_compressed_len target)
          (brt_replicas target ++ [mkReplicaLocation storage_id (br_volume_id replica)])]> targets
  end.

Definition plan_bundle (targets : gmap HashId BundleReadTarget) (file_bundle : FileBundleRow)
  : Fs0Result FileBundleRef :=
  bundle ← ok_or ChunkNotReady (targets !! fbw_bundle_id file_bundle);
  Ok (mkFileBundleRef (fbw_bundle_index file_bundle) (brt_raw_len bundle) (brt_compressed_len bundle)
        (fbw_bundle_id file_bundle) (brt_replicas bundle)).

(** the set of ids is read in some order; the batches only group the rows *)
Definition unique_bundle_ids (file_bundles : list FileBundleRow) : list HashId :=
  elements (list_to_set (map fbw_bundle_id file_bundles) : gset HashId).

Definition read_plan_tx (online : gmap Z Z) (file_id : Z) : Tx FileReadPlan :=
  file ← get_file_by_id file_id;
  record ← file_record file;
  file_bundles ← get_file_bundles_by_file_id file_id;
  replicas ← get_bundle_replicas_by_id (unique_bundle_ids file_bundles);
  bundles ← st_lift (collect (plan_bundle (foldl (add_read_target online) ∅ replicas)) file_bundles);
  mret (mkFileReadPlan (fr_file_id record) (fr_path record) (fr_size_bytes record) bundles).

Definition get_file_read_plan_by_id (file_id : Z) : Central (Fs0Result ControlResponse) :=
  env ← await QTx;
  plan ←? atomic (λ s, locked_tx_read env (read_plan_tx (cs_online_volumes s) file_id) s);
  mret (Ok (GetFileReadPlanByIdRs plan)).

Definition get_file_read_plan (path : string) : Central (Fs0Result ControlResponse) :=
  file_id ←? file_id_by_path path;
  get_file_read_plan_by_id file_id.

Definition has_bundle (bundle_id : HashId) (volume_id : option Z)
  : Central (Fs0Result ControlResponse) :=
  env ← await QTx;
  replicas ←? atomic (locked_tx_read env (get_bundle_replicas_by_id [bundle_id]));
  mret (Ok (HasBundleRs (existsb (λ replica,
    match volume_id with
    | None => true
    | Some volume_id => bool_decide (br_volume_id replica = volume_id)
    end) replicas))).

Definition delete_file_tx (file_id now : Z) : Tx unit :=
  delete_file_bundles_by_file_id file_id;;
  CentralTables.delete_file_by_id file_id;;
  insert_file_change_log KDeleted None (Some file_id) now.

Definition delete_file_by_id (file_id : Z) : Central (Fs0Result ControlResponse) :=
  env ← await QTx;
  now ← await QNow;
  _ ←? atomic (locked_tx env (delete_file_tx file_id now));
  mret (Ok DeleteFileByIdRs).

Definition delete_file (path : string) : Central (Fs0Result ControlResponse) :=
  file_id ←? file_id_by_path path;
  delete_file_by_id file_id.

Definition copy_file_tx (source_file_id : Z) (target_path : string) (now : Z) : Tx FileRecord :=
  '(target_dir, target_name) ← st_lift (split_fs0_path_dir_and_name target_path);
  file ← CentralTables.copy_file_by_id source_file_id target_path now;
  copy_file_bundles source_file_id (f_file_id file);;
  insert_file_change_log KCreated (Some (target_dir, target_name)) (Some (f_file_id file)) now;;
  file_record file.

Definition copy_file_by_id (source_file_id : Z) (target_path : string)
  : Central (Fs0Result ControlResponse) :=
  env ← await QTx;
  now ← await QNow;
  record ←? atomic (locked_tx env (copy_file_tx source_file_id target_path now));
  mret (Ok (CopyFileByIdRs record)).

Definition copy_file (source_path target_path : string) : Central (Fs0Result ControlResponse) :=
  source_file_id ←? file_id_by_path source_path;
  copy_file_by_id source_file_id target_path.

Definition rename_file_tx (file_id : Z) (target_path : string) (now : Z) : Tx FileRecord :=
  '(target_dir, target_name) ← st_lift (split_fs0_path_dir_and_name target_path);
  file ← CentralTables.rename_file_by_id file_id target_path now;
  insert_file_change_log KMoved (Some (target_dir, target_name)) (Some file_id) now;;
  file_record file.

Definition rename_file_by_id (file_id : Z) (target_path : string)
  : Central (Fs0Result ControlResponse) :=
  env ← await QTx;
  now ← await QNow;
  record ←? atomic (locked_tx env (rename_file_tx file_id target_path now));
  mret (Ok (RenameFileByIdRs record)).

Definition rename_file (source_path target_path : string) : Central (Fs0Result ControlResponse) :=
  file_id ←? file_id_by_path source_path;
  rename_file_by_id file_id target_path.

Definition get_file_change_logs (after_event_id limit : Z) : Central (Fs0Result ControlResponse) :=
  env ← await QTx;
  logs ←? atomic (locked_tx_read env (CentralTables.get_file_change_logs after_event_id limit));
  mret (Ok (GetFileChangeLogsRs logs)).
End Client.
End Client.

(** ** request_handlers.rs *)

Section Dispatch.
Context `{SqliteText, RowIds, DebugResponse}.

Definition validate_registration_version (version : string) : Fs0Result unit :=
  if bool_decide (version = FS0_VERSION) then Ok tt else Err (Fs0Version FS0_VERSION version).

Definition handle_client_request (request : ControlRequest) : Central (Fs0Result ControlResponse) :=
  match request with
  | CentralStatusRq => Client.central_status
  | CreateVolumeRq name max_bytes => Storage.create_volume name max_bytes
  | ListDirectoryRq dir limit cursor => Client.list_directory dir limit cursor
  | GetFileReadPlanRq path => Client.get_file_read_plan path
  | GetFileReadPlanByIdRq file_id => Client.get_file_read_plan_by_id file_id
  | HasBundleRq bundle_id volume_id => Client.has_bundle bundle_id volume_id
  | DeleteFileRq path => Client.delete_file path
  | DeleteFileByIdRq file_id => Client.delete_file_by_id file_id
  | CopyFileRq source_path target_path => Client.copy_file source_path target_path
  | CopyFileByIdRq source_file_id target_path => Client.copy_file_by_id source_file_id target_path
  | RenameFileRq source_path target_path => Client.rename_file source_path target_path
  | RenameFileByIdRq file_id target_path => Client.rename_file_by_id file_id target_path
  | GetFileChangeLogsRq after_event_id limit => Client.get_file_change_logs after_event_id limit
  | BeginUpdateRq request => Update.begin_update request
  | CommitUpdateRq request => Update.commit_update request
  | AbortUpdateRq lease_id file_id => Update.abort_update lease_id file_id
  | _ => mret (Err Unauthorized)
  end.

(** [if let Some(peer) = server.storage_peer(storage_id) { broadcast }] *)
Definition announce_storage (storage_id : Z) : Central unit :=
  peer ← reading (storage_peer storage_id);
  match peer with
  | Some peer => broadcast_event (StorageChanged peer)
  | None => mret tt
  end.

Definition handle_storage_request (storage_id : Z) (request : ControlRequest)
  : Central (Fs0Result ControlResponse) :=
  match request with
  | CreateVolumeRq name max_bytes => Storage.create_volume name max_bytes
  | ValidateClientAuthRq client_id client_token => Storage.validate_client_auth client_id client_token
  | ReportBundleReplicaRq events => Storage.report_bundle_replica storage_id events
  | UpdateStorageEndpointRq request_storage_id iroh_endpoint =>
      if bool_decide (request_storage_id ≠ storage_id) then mret (Err Unauthorized)
      else
        response ←? Storage.update_storage_endpoint storage_id iroh_endpoint;
        announce_storage storage_id;;
        mret (Ok response)
  | UpdateStorageVolumeOffsetRq volume_id max_volume_offset =>
      Storage.update_storage_volume_offset storage_id volume_id max_volume_offset
  | _ => mret (Err Unauthorized)
  end.

Definition to_response (result : Fs0Result ControlResponse) : ProtocolResponse :=
  match result with Ok response => RespControl response | Err err => RespError err end.

(** the response and the new identity of the connection *)
Definition handle_control_request (connection : Connection) (request : ControlRequest)
    (identity : ControlConnectionIdentity)
  : Central (ProtocolResponse * ControlConnectionIdentity) :=
  match request with
  | RegisterClientRq _ token version =>
      match validate_registration_version version with
      | Err err => mret (RespError err, identity)
      | Ok _ =>
          registered ← register_client token connection;
          mret (match registered with
                | Ok (client_id, storages) =>
                    (RespControl (RegisterClientRs client_id storages), IdClient client_id)
                | Err err => (RespError err, identity)
                end)
      end
  | RegisterStorageRq name token version volumes iroh_endpoint =>
      match validate_registration_version version with
      | Err err => mret (RespError err, identity)
      | Ok _ =>
          registered ← register_storage name token volumes iroh_endpoint connection;
          match registered return Central (ProtocolResponse * ControlConnectionIdentity) with
          | Ok (storage_id, storages) =>
              announce_storage storage_id;;
              mret (RespControl (RegisterStorageRs storage_id storages), IdStorage storage_id)
          | Err err => mret (RespError err, identity)
          end
      end
  | request =>
      result ← match identity with
               | IdClient _ => handle_client_request request
               | IdStorage storage_id => handle_storage_request storage_id request
               | Anonymous => mret (Err Unauthorized)
               end;
      mret (to_response result, identity)
  end.

(** *** server/spawn.rs *)

(** the handler of [spawn_accept]: the identity is locked while a request runs,
    so the requests of a connection are served one after the other *)
Definition handle_protocol_request (connection : Connection) (request : ProtocolRequest)
    (identity : ControlConnectionIdentity)
  : Central (ProtocolResponse * ControlConnectionIdentity) :=
  match request with
  | ReqControl request => handle_control_request connection request identity
  | _ => mret (RespError InvalidRequest, identity)
  end.

Fixpoint serve_requests (connection : Connection) (requests : list ProtocolRequest)
    (identity : ControlConnectionIdentity) : Central ControlConnectionIdentity :=
  match requests with
  | [] => mret identity
  | request :: requests =>
      '(_, identity) ← handle_protocol_request connection request identity;
      serve_requests connection requests identity
  end.

(** a connection that sends [requests] and then ends *)
Definition handle_control_connection (connection : Connection) (requests : list ProtocolRequest)
  : Central unit :=
  identity ← serve_requests connection requests Anonymous;
  event ← unregister_identity identity;
  match event return Central unit with
  | Some event => broadcast_event event
  | None => mret tt
  end;;
  await (QClose connection).
End Dispatch.
