(* ===== verification/CentralUpdate.v ===== *)
(** * Updates of files: what a commit and a lease guarantee

    The refinement of the update handlers of [CentralHandlers.v]: when a commit
    succeeds and what it leaves in the tables, when a lease is given out, and which
    volume an update goes to. *)

From Stdlib Require Import SpecFloat.
From S2P Require Import Prelude Types Paths DirCache CentralDb DirTree CentralInv CentralDir.
From S2P Require Import CentralTables CentralFacts CentralRuns Link Conc CentralServer.
From S2P Require Import CentralHandlers Sample.

(** what the requests may carry: values of their [u64] fields *)
Definition commit_request_ok (request : CommitUpdateRequest) : Prop :=
  0 ≤ cur_lease_id request ∧ 0 ≤ cur_file_id request ∧
  0 ≤ cur_new_size request ∧ Z.of_nat (length (cur_bundles request)) ≤ i64_max ∧
  Forall (λ b, 0 ≤ cb_raw_len b) (cur_bundles request).

Section Commit.
Context `{SqliteText, RowIds, !RowIdLaws, DebugResponse}.

(** every submitted bundle is stored, with the raw length submitted; [lens] are
    the stored (raw, compressed) lengths *)
Definition bundles_stored (db : CentralDb) (bundles : list CommittedBundle) (lens : list (Z * Z)) : Prop :=
  Forall2 (λ b l, ready_lengths db (cb_bundle_id b) = Some l ∧ l.1 = cb_raw_len b) bundles lens.

Lemma submitted_step_eq ready sum b :
  Update.submitted_step ready sum b =
  match ready !! cb_bundle_id b with
  | None => Err ChunkNotReady
  | Some raw_len =>
      if bool_decide (raw_len ≠ cb_raw_len b) then Err InvalidRequest
      else if bool_decide (sum + cb_raw_len b ≤ u64_max) then Ok (sum + cb_raw_len b)
      else Err (IntegerConversion "submitted bundle raw size overflow")
  end.
Proof.
  unfold Update.submitted_step, u64_checked_add. destruct (ready !! cb_bundle_id b); [|done].
  by repeat case_bool_decide.
Qed.

Lemma submitted_fold db (ready : gmap HashId Z) bundles a sum :
  (∀ b, b ∈ bundles → ready !! cb_bundle_id b = fst <$> ready_lengths db (cb_bundle_id b)) →
  Forall (λ b, 0 ≤ cb_raw_len b) bundles → a ≤ u64_max →
  try_fold (Update.submitted_step ready) a bundles = Ok sum ↔
  ∃ lens, bundles_stored db bundles lens ∧ sum = a + zsum (map fst lens) ∧ sum ≤ u64_max.
Proof.
  revert a. induction bundles as [|b bundles IH]; intros a Hready Hpos Ha; simpl.
  - split.
    + intros [= <-]. exists []. split_and!; [constructor|simpl; lia|lia].
    + intros (lens & Hl%Forall2_nil_inv_l & -> & _). subst. simpl. by rewrite Z.add_0_r.
  - apply Forall_cons in Hpos as [Hb Hpos].
    assert (∀ b', b' ∈ bundles → ready !! cb_bundle_id b' = fst <$> ready_lengths db (cb_bundle_id b')) as Hr'
      by (intros b' Hin; apply Hready; by right).
    rewrite submitted_step_eq, Hready by (by left).
    destruct (ready_lengths db (cb_bundle_id b)) as [[r c]|] eqn:Hl; simpl.
    + case_bool_decide as Hraw.
      * split; [done|]. intros (lens & Hs & _). apply Forall2_cons_inv_l in Hs as (l & ? & [Hl' Hl1] & _).
        rewrite Hl in Hl'. injection Hl' as <-. done.
      * destruct (decide (r = cb_raw_len b)) as [->|]; [|done]. case_bool_decide as Hover.
        -- rewrite Ok_bind, IH by done. split.
           ++ intros (lens & Hs & -> & ?). exists ((cb_raw_len b, c) :: lens). simpl.
              split_and!; [by constructor|lia|lia].
           ++ intros (lens & Hs & -> & ?). apply Forall2_cons_inv_l in Hs as ([r' c'] & lens' & [Hl' Hl1] & Hs & ->).
              simpl in *. subst r'. exists lens'. split_and!; [done|lia|lia].
        -- split; [done|]. intros (lens & Hs & -> & Hmax).
           apply Forall2_cons_inv_l in Hs as ([r' c'] & lens' & [Hl' Hl1] & Hs & ->). simpl in *. subst r'.
           assert (0 ≤ zsum (map fst lens')); [|lia].
           apply zsum_nonneg, Forall_fmap. apply Forall_forall. intros l Hin. simpl.
           apply list_elem_of_lookup in Hin as [i Hi].
           destruct (Forall2_lookup_r _ _ _ _ _ Hs Hi) as (b' & Hb' & _ & ->).
           by apply (Forall_lookup_1 _ _ _ _ Hpos Hb').
    + split; [done|]. intros (lens & Hs & _). apply Forall2_cons_inv_l in Hs as (l & ? & [Hl' _] & _). congruence.
Qed.

(** the replicas read for the submitted ids give the stored lengths *)
Lemma ready_raw_lengths db bundles b :
  db_ok db → b ∈ bundles →
  foldl (λ m r, or_insert (br_bundle_id r) (br_raw_len r) m) ∅
    (replicas_of db (map cb_bundle_id bundles)) !! cb_bundle_id b
  = fst <$> ready_lengths db (cb_bundle_id b).
Proof.
  intros Hok Hb. rewrite (or_insert_fold br_raw_len), lookup_empty, lfind_replicas_of by done.
  rewrite bool_decide_true by (by apply (list_elem_of_fmap_2 cb_bundle_id)).
  unfold ready_lengths. by destruct (first_replica db (cb_bundle_id b)).
Qed.

(** after the replacement the file is made of the submitted bundles *)
Lemma calculate_replaced_run db c file_id bundles lens x y :
  let db1 := bundles_replaced db file_id (map cb_bundle_id bundles) in
  db_ok db → db_ok db1 → file_id ≤ i64_max → bundles_stored db bundles lens →
  calculate_size_by_file_id file_id (mkCentralTx db1 c) = (Ok (x, y), mkCentralTx db1 c) ↔
  x = zsum (map fst lens) ∧ y = zsum (map snd lens) ∧ x ≤ u64_max ∧ y ≤ u64_max.
Proof.
  intros db1 Hok Hok1 Hid Hs. rewrite calculate_size_run by done. cbn [tx_db].
  unfold db1 at 1 2 3. rewrite select_file_bundles_replaced. fold db1.
  set (ids := map cb_bundle_id bundles).
  assert (∀ i l, map fb_bundle_id (numbered file_id i l) = l) as Hnum.
  { intros i l. revert i. induction l as [|h l IH]; intros i; simpl; [done|]. by rewrite IH. }
  rewrite Hnum.
  assert (∀ h, first_replicas (replicas_of db1 ids) !! h = if bool_decide (h ∈ ids) then ready_lengths db h else None)
    as Hlook by (intros h; by rewrite first_replicas_lookup).
  assert (∀ (r : Fs0Result (Z * Z)) (s : CentralTx), (r, s) = (Ok (x, y), s) ↔ r = Ok (x, y)) as Hpair
    by (intros; split; [by intros [=]|by intros ->]).
  rewrite Hpair, try_fold_sizes; [|intros h r k|unfold u64_max; lia|unfold u64_max; lia].
  2:{ rewrite Hlook. case_bool_decide; [|done]. intros Hr. apply ready_lengths_pos in Hr; [lia|done]. }
  assert (∀ ls, Forall2 (λ w l, first_replicas (replicas_of db1 ids) !! fbw_bundle_id w = Some l)
            (map bundle_row_of (numbered file_id 0 ids)) ls ↔ ls = lens) as Hls.
  { assert (∀ i bs lens ls, (∀ b, b ∈ bs → cb_bundle_id b ∈ ids) → bundles_stored db bs lens →
      Forall2 (λ w l, first_replicas (replicas_of db1 ids) !! fbw_bundle_id w = Some l)
        (map bundle_row_of (numbered file_id i (map cb_bundle_id bs))) ls ↔ ls = lens) as Hgen.
    { clear -Hlook. intros i bs lens ls Hin Hs. revert i ls.
      induction Hs as [|b l bs lens [Hb _] Hs IH]; intros i ls; simpl.
      - split; [by intros ?%Forall2_nil_inv_l|intros ->; constructor].
      - assert (first_replicas (replicas_of db1 ids) !! cb_bundle_id b = Some l) as Hbl.
        { rewrite Hlook, bool_decide_true; [done|]. apply Hin. by left. }
        split.
        + intros (l' & ls' & Hl' & Hls' & ->)%Forall2_cons_inv_l. simpl in Hl'. f_equal; [congruence|].
          apply (IH ltac:(intros b' Hb'; apply Hin; by right) (i + 1)). done.
        + intros ->. constructor; [done|]. by apply (IH ltac:(intros b' Hb'; apply Hin; by right) (i + 1)). }
    intros ls. apply Hgen; [|done]. intros b Hb. by apply (list_elem_of_fmap_2 cb_bundle_id). }
  setoid_rewrite Hls. split.
  - intros (? & -> & -> & -> & ? & ?). simpl in *. auto.
  - intros (-> & -> & ? & ?). exists lens. auto.
Qed.

Lemma lift_u64_inv v name (s s' : CentralTx) x :
  st_lift (u64_to_i64 v name) s = (Ok x, s') → x = v ∧ s' = s ∧ v ≤ i64_max.
Proof. unfold st_lift. intros [= Hx <-]. by apply u64_to_i64_Ok in Hx as [-> ?]. Qed.

Lemma load_lease_inv lease_id file_id now s lr s' :
  db_ok (tx_db s) → load_active_update_lease lease_id file_id now s = (Ok lr, s') →
  s' = s ∧ lease_id ≤ i64_max ∧ file_id ≤ i64_max ∧ now ≤ i64_max ∧
  ∃ l, find_active_lease (tx_db s) lease_id file_id now = Some l ∧
       lr = mkLeaseRecord file_id (l_base_size_bytes l) (l_offset_bytes l).
Proof.
  intros Hok Hrun. pose proof Hrun as Hinv. unfold load_active_update_lease in Hinv.
  apply ST_bind_Ok in Hinv as (? & ? & (-> & -> & Hl)%lift_u64_inv & Hinv).
  apply ST_bind_Ok in Hinv as (? & ? & (-> & -> & Hf)%lift_u64_inv & Hinv).
  apply ST_bind_Ok in Hinv as (? & ? & (-> & -> & Hn)%lift_u64_inv & _).
  destruct (load_lease_run lease_id file_id now s Hok Hl Hf Hn) as [Hload _].
  rewrite Hrun in Hload. injection Hload as Hlr ->.
  destruct (find_active_lease (tx_db s) lease_id file_id now) as [l|] eqn:Hfind; [|done].
  split_and!; [done..|]. exists l. split; [done|]. injection Hlr as ->.
  apply find_active_lease_Some in Hfind as (_ & _ & -> & _); done.
Qed.

(** when a commit may succeed *)
Definition commit_allowed (db : CentralDb) (request : CommitUpdateRequest) (now : Z)
    (f : FileRow) (lens : list (Z * Z)) : Prop :=
  (∃ l, find_active_lease db (cur_lease_id request) (cur_file_id request) now = Some l ∧
        l_base_size_bytes l = cur_base_size request ∧ l_offset_bytes l ≤ cur_new_size request) ∧
  find_file db (cur_file_id request) = Some f ∧ f_size_bytes f = cur_base_size request ∧
  bundles_stored db (cur_bundles request) lens ∧ cur_new_size request = zsum (map fst lens).

(** the tables after it, but for the event *)
Definition committed (db : CentralDb) (request : CommitUpdateRequest) (now : Z)
    (lens : list (Z * Z)) : CentralDb :=
  without_leases (λ l, l_lease_id l = cur_lease_id request)
    (update_file (cur_file_id request) (resized (cur_new_size request) (zsum (map snd lens)) now)
       (bundles_replaced db (cur_file_id request) (map cb_bundle_id (cur_bundles request)))).

Definition commit_kind (f : FileRow) : FileChangeLogKind :=
  if bool_decide (f_size_bytes f = 0) then KCreated else KUpdated.

Lemma zsum_lens_nonneg db bundles lens :
  db_ok db → bundles_stored db bundles lens → 0 ≤ zsum (map fst lens) ∧ 0 ≤ zsum (map snd lens).
Proof.
  intros Hok Hs. induction Hs as [|b [r c] bs ls [Hl _] _ [IH1 IH2]]; simpl; [done|].
  apply ready_lengths_pos in Hl; [|done]. lia.
Qed.

(** the steps up to the tests, in one *)
Lemma commit_checked request now now_lease s f lens :
  db_ok (tx_db s) → commit_request_ok request →
  cur_lease_id request ≤ i64_max → cur_file_id request ≤ i64_max → now_lease ≤ i64_max →
  commit_allowed (tx_db s) request now_lease f lens →
  zsum (map fst lens) ≤ u64_max → zsum (map snd lens) ≤ u64_max →
  Update.commit_update_tx request now now_lease s =
    (updated_file ← update_file_after_update (cur_file_id request) (cur_new_size request)
                      (zsum (map snd lens)) now;
     delete_update_lease (cur_lease_id request);;
     file_dir ← get_dir_path_by_id (f_dir_id f);
     insert_file_change_log (commit_kind f) (Some (file_dir, f_name f))
       (Some (cur_file_id request)) now;;
     file_record updated_file)
    (mkCentralTx (bundles_replaced (tx_db s) (cur_file_id request)
       (map cb_bundle_id (cur_bundles request))) (tx_dir_cache s)) ∧
  db_ok (bundles_replaced (tx_db s) (cur_file_id request) (map cb_bundle_id (cur_bundles request))).
Proof.
  intros Hok (_ & _ & _ & Hlen & Hpos) Hlid Hfid Hnow ((l & Hfl & Hbase & Hoff) & Hf & Hsize & Hs & Hsum) Hr Hc.
  destruct (load_lease_run (cur_lease_id request) (cur_file_id request) now_lease s Hok Hlid Hfid Hnow)
    as [Hload _]. rewrite Hfl in Hload. simpl in Hload.
  pose proof Hfl as (_ & _ & Hlf & _)%find_active_lease_Some; [|done]. rewrite Hlf in Hload.
  pose proof Hf as [Hin Hfi]%find_file_Some; [|done].
  assert (cur_file_id request ∈ file_ids (tx_db s)) as Hfin
    by (rewrite <- Hfi; by apply (list_elem_of_fmap_2 f_file_id)).
  destruct (upsert_file_bundles_run (cur_file_id request) (cur_bundles request) s) as [Hup Hok1]; [done..|].
  split; [|done]. unfold Update.commit_update_tx.
  rewrite (ST_bind_run _ _ s (mkLeaseRecord (cur_file_id request) (l_base_size_bytes l) (l_offset_bytes l)) s)
    by (unfold st_map_err; by rewrite Hload).
  simpl. rewrite (bool_decide_false (_ ≠ _)) by (by rewrite Hbase; intros []).
  rewrite (bool_decide_false (_ < _)) by lia.
  rewrite (ST_bind_run _ _ s f s) by (rewrite get_file_by_id_run by done; by rewrite Hf).
  rewrite (bool_decide_false (_ ≠ _)) by (by rewrite Hsize; intros []).
  rewrite (ST_bind_run _ _ _ _ _ (get_bundle_replicas_run _ _ Hok)).
  rewrite (ST_bind_run _ _ s (cur_new_size request) s).
  2:{ unfold st_lift. f_equal. apply (submitted_fold (tx_db s)).
      - intros b Hb. by apply ready_raw_lengths.
      - done.
      - unfold u64_max. lia.
      - exists lens. rewrite Hsum. split_and!; [done|lia|done]. }
  rewrite (bool_decide_false (_ ≠ _)) by tauto.
  rewrite (ST_bind_run _ _ _ _ _ Hup).
  rewrite (ST_bind_run _ _ _ (zsum (map fst lens), zsum (map snd lens)) _
    (proj2 (calculate_replaced_run (tx_db s) (tx_dir_cache s) (cur_file_id request) (cur_bundles request)
      lens _ _ Hok Hok1 Hfid Hs) (conj eq_refl (conj eq_refl (conj Hr Hc))))).
  rewrite (bool_decide_false (_ ≠ _)) by (rewrite Hsum; tauto). done.
Qed.

(** an [Ok] passed every test *)
Lemma commit_tests request now now_lease s record s' :
  db_ok (tx_db s) → commit_request_ok request →
  Update.commit_update_tx request now now_lease s = (Ok record, s') →
  cur_lease_id request ≤ i64_max ∧ cur_file_id request ≤ i64_max ∧ now_lease ≤ i64_max ∧
  ∃ f lens, commit_allowed (tx_db s) request now_lease f lens ∧
    zsum (map fst lens) ≤ u64_max ∧ zsum (map snd lens) ≤ u64_max.
Proof.
  intros Hok (_ & _ & _ & Hlen & Hpos) Hrun. unfold Update.commit_update_tx in Hrun.
  apply ST_bind_Ok in Hrun as (lr & s1 & Hload & Hrun).
  unfold st_map_err in Hload. destruct (load_active_update_lease _ _ _ s) as [[lr'|] s1'] eqn:Hl; [|done].
  simpl in Hload. injection Hload as -> ->.
  apply load_lease_inv in Hl as (-> & Hlid & Hfid & Hnow & l & Hfl & ->); [|done]. simpl in Hrun.
  destruct (bool_decide (l_base_size_bytes l ≠ _)) eqn:Hb; [done|]. apply bool_decide_eq_false in Hb.
  destruct (bool_decide (_ < l_offset_bytes l)) eqn:Ho; [done|]. apply bool_decide_eq_false in Ho.
  apply ST_bind_Ok in Hrun as (f & s1 & Hget & Hrun). rewrite get_file_by_id_run in Hget by done.
  injection Hget as Hget <-. apply ok_or_Ok in Hget.
  destruct (bool_decide (f_size_bytes f ≠ _)) eqn:Hsz; [done|]. apply bool_decide_eq_false in Hsz.
  rewrite (ST_bind_run _ _ _ _ _ (get_bundle_replicas_run _ _ Hok)) in Hrun.
  apply ST_bind_Ok in Hrun as (sum & s1 & Hsum & Hrun). unfold st_lift in Hsum. injection Hsum as Hsum <-.
  apply (submitted_fold (tx_db s)) in Hsum as (lens & Hs & -> & Hmax);
    [|intros b Hin; by apply ready_raw_lengths|done|unfold u64_max; lia].
  destruct (bool_decide (0 + _ ≠ _)) eqn:Hnew; [done|]. apply bool_decide_eq_false in Hnew.
  pose proof Hget as [Hin Hfi]%find_file_Some; [|done].
  assert (cur_file_id request ∈ file_ids (tx_db s)) as Hfin
    by (rewrite <- Hfi; by apply (list_elem_of_fmap_2 f_file_id)).
  destruct (upsert_file_bundles_run (cur_file_id request) (cur_bundles request) s) as [Hup Hok1]; [done..|].
  rewrite (ST_bind_run _ _ _ _ _ Hup) in Hrun.
  apply ST_bind_Ok in Hrun as ([x y] & s1 & Hcalc & _).
  assert (s1 = mkCentralTx (bundles_replaced (tx_db s) (cur_file_id request)
    (map cb_bundle_id (cur_bundles request))) (tx_dir_cache s)) as ->.
  { rewrite calculate_size_run in Hcalc by done. by injection Hcalc. }
  apply (calculate_replaced_run (tx_db s) _ _ _ lens) in Hcalc as (-> & -> & ? & ?); [|done..].
  split_and!; [done..|]. exists f, lens. split_and!; [|lia|lia]. split_and!; [|done| |done|].
  - exists l. split_and!; [done| |lia]. destruct (decide (l_base_size_bytes l = cur_base_size request)); tauto.
  - destruct (decide (f_size_bytes f = cur_base_size request)); tauto.
  - destruct (decide (0 + zsum (map fst lens) = cur_new_size request)); [lia|tauto].
Qed.

Lemma update_file_inv id size comp now s f s' :
  update_file_after_update id size comp now s = (Ok f, s') →
  size ≤ i64_max ∧ comp ≤ i64_max ∧ now ≤ i64_max.
Proof.
  unfold update_file_after_update. intros Hinv.
  apply ST_bind_Ok in Hinv as (? & ? & (-> & -> & _)%lift_u64_inv & Hinv).
  apply ST_bind_Ok in Hinv as (? & ? & (-> & -> & Hs)%lift_u64_inv & Hinv).
  apply ST_bind_Ok in Hinv as (? & ? & (-> & -> & Hc)%lift_u64_inv & Hinv).
  apply ST_bind_Ok in Hinv as (? & ? & (-> & -> & Hn)%lift_u64_inv & _). done.
Qed.

(** the steps after the tests *)
Lemma commit_tail_run request now s f lens cs db1 :
  db1 = bundles_replaced (tx_db s) (cur_file_id request) (map cb_bundle_id (cur_bundles request)) →
  db_ok (tx_db s) → db_ok db1 → cache_ok (db_dirs (tx_db s)) (tx_dir_cache s) →
  find_file (tx_db s) (cur_file_id request) = Some f →
  dir_at (db_dirs (tx_db s)) (f_dir_id f) cs →
  0 ≤ cur_file_id request ≤ i64_max → cur_lease_id request ≤ i64_max →
  is_i64_nonneg (cur_new_size request) → is_i64_nonneg (zsum (map snd lens)) → is_i64_nonneg now →
  ∃ r db' c', (updated_file ← update_file_after_update (cur_file_id request) (cur_new_size request)
                      (zsum (map snd lens)) now;
     delete_update_lease (cur_lease_id request);;
     file_dir ← get_dir_path_by_id (f_dir_id f);
     insert_file_change_log (commit_kind f) (Some (file_dir, f_name f))
       (Some (cur_file_id request)) now;;
     file_record updated_file) (mkCentralTx db1 (tx_dir_cache s)) = (r, mkCentralTx db' c') ∧
    cache_ok (db_dirs (tx_db s)) c' ∧
    match r with
    | Ok record =>
        record = record_of cs (resized (cur_new_size request) (zsum (map snd lens)) now f) ∧
        event_added (committed (tx_db s) request now lens) (commit_kind f)
          (Some (render cs, f_name f)) (Some (cur_file_id request)) now db'
    | Err _ => autoincrement_rowid (seq_file_events (tx_db s)) (map e_event_id (db_file_events (tx_db s))) = None
    end.
Proof.
  intros Hdb1 Hok Hok1 Hc Hf Hat Hfid Hlid Hns Hcs Hnow.
  assert (find_file db1 (cur_file_id request) = Some f) as Hf1 by (by subst db1).
  assert (db_dirs db1 = db_dirs (tx_db s)) as Hds1 by (by subst db1).
  destruct (update_file_run (cur_file_id request) (cur_new_size request) (zsum (map snd lens)) now
    (mkCentralTx db1 (tx_dir_cache s)) f) as [Hup Hok2]; [done|done|lia|done|done|done|].
  cbn [tx_db tx_dir_cache] in Hup, Hok2. rewrite (ST_bind_run _ _ _ _ _ Hup).
  set (db2 := update_file _ _ db1) in *.
  destruct (delete_lease_run (cur_lease_id request) (mkCentralTx db2 (tx_dir_cache s))) as [Hdel Hok3]; [done..|].
  cbn [tx_db tx_dir_cache] in Hdel, Hok3. rewrite (ST_bind_run _ _ _ _ _ Hdel).
  set (db3 := without_leases _ db2) in *.
  assert (db3 = committed (tx_db s) request now lens) as Hdb3 by (by subst db3 db2 db1).
  assert (db_dirs db3 = db_dirs (tx_db s)) as Hds3 by (by rewrite Hdb3).
  destruct (get_dir_path_by_id_run (f_dir_id f) cs (mkCentralTx db3 (tx_dir_cache s)) (db_dirs (tx_db s)))
    as (c1 & Hpath & Hc1); [done|by apply ok_dirs|done|done|].
  rewrite (ST_bind_run _ _ _ _ _ Hpath). cbn [tx_db].
  assert (autoincrement_rowid (seq_file_events (tx_db s)) (map e_event_id (db_file_events (tx_db s))) =
          autoincrement_rowid (seq_file_events db3) (map e_event_id (db_file_events db3))) as Hseq
    by (by rewrite Hdb3).
  destruct (insert_log_run (commit_kind f) (Some (render cs, f_name f)) (Some (cur_file_id request)) now
    (mkCentralTx db3 c1)) as [(e & Hlog & _)|(db4 & Hlog & Hev)]; [done|done|apply Hnow| |].
  - rewrite (ST_bind_run_Err _ _ _ _ _ Hlog). exists (Err e), db3, c1. split_and!; [done|done|].
    rewrite Hseq. clearbody db3. clear Hseq.
    destruct (autoincrement_rowid (seq_file_events db3) (map e_event_id (db_file_events db3)))
      as [id|] eqn:Hid; [|done]. exfalso.
    unfold insert_file_change_log in Hlog.
    rewrite (ST_bind_run _ _ _ (Some (cur_file_id request)) (mkCentralTx db3 c1)) in Hlog.
    2:{ unfold st_lift, mbind, Result_bind. by rewrite u64_to_i64_fits by lia. }
    rewrite (ST_bind_run _ _ _ _ _ (lift_fits _ _ _ (proj2 Hnow))) in Hlog.
    unfold sql, insert_event_row in Hlog. cbn [tx_db] in Hlog. by rewrite Hid in Hlog.
  - rewrite (ST_bind_run _ _ _ _ _ Hlog). cbn [tx_db tx_dir_cache] in *.
    pose proof Hev as (eid & _ & Hdb4 & Hok4).
    destruct (file_record_run (resized (cur_new_size request) (zsum (map snd lens)) now f) cs
      (mkCentralTx db4 c1) (db_dirs (tx_db s))) as (c2 & Hrec & Hc2).
    { by rewrite Hdb4. } { by apply ok_dirs. } { done. } { done. }
    rewrite Hrec. exists (Ok (record_of cs (resized (cur_new_size request) (zsum (map snd lens)) now f))), db4, c2.
    split_and!; [done|done|done|]. by rewrite <- Hdb3.
Qed.

(** what a commit that succeeds found and left *)
Lemma commit_outcome request now now_lease s record s' :
  db_ok (tx_db s) → cache_ok (db_dirs (tx_db s)) (tx_dir_cache s) →
  commit_request_ok request → 0 ≤ now →
  Update.commit_update_tx request now now_lease s = (Ok record, s') →
  ∃ f lens cs,
    commit_allowed (tx_db s) request now_lease f lens ∧
    dir_at (db_dirs (tx_db s)) (f_dir_id f) cs ∧
    event_added (committed (tx_db s) request now lens) (commit_kind f)
      (Some (render cs, f_name f)) (Some (cur_file_id request)) now (tx_db s') ∧
    record = record_of cs (resized (cur_new_size request) (zsum (map snd lens)) now f) ∧
    select_file_bundles (tx_db s') (cur_file_id request) =
      numbered (cur_file_id request) 0 (map cb_bundle_id (cur_bundles request)).
Proof.
  intros Hok Hc Hreq Hnow Hrun.
  destruct (commit_tests request now now_lease s record s' Hok Hreq Hrun)
    as (Hlid & Hfid & Hnl & f & lens & Hall & Hr & Hcm).
  destruct (commit_checked request now now_lease s f lens) as [Heq Hok1]; [done..|].
  rewrite Heq in Hrun. pose proof Hrun as Hinv. apply ST_bind_Ok in Hinv as (? & ? & Hup & _).
  apply update_file_inv in Hup as (Hns & Hcs & Hnm).
  pose proof Hall as (_ & Hf & _ & Hs & Hsum). pose proof Hf as [Hin _]%find_file_Some; [|done].
  destruct (file_dir_at _ f Hok Hin) as (cs & Hat).
  destruct (zsum_lens_nonneg _ _ _ Hok Hs) as [Hr0 Hc0].
  destruct Hreq as (? & ? & ? & ? & ?).
  destruct (commit_tail_run request now s f lens cs _ eq_refl Hok Hok1 Hc Hf Hat)
    as (r & db' & c' & Htail & _ & Hres); [done|done|done|done|done|].
  rewrite Hrun in Htail. injection Htail as <- ->. destruct Hres as [-> Hev].
  exists f, lens, cs. split_and!; [done..|]. simpl. destruct Hev as (eid & _ & -> & _).
  unfold committed. simpl. apply (select_file_bundles_replaced (tx_db s)).
Qed.

(** C10. A commit that succeeds had a live lease on the file, taken when the file
    had its present size and at an offset within the new size, and the
    submitted bundles were all stored with the submitted raw lengths, which add
    up to the new size.  Its effect is to replace the bundles of the file, set
    its sizes (the compressed size is that of the stored bundles) and time,
    end the lease and append one event: created when the file was empty,
    updated otherwise. *)
Theorem commit_update_effect request now now_lease s record s' :
  db_ok (tx_db s) → cache_ok (db_dirs (tx_db s)) (tx_dir_cache s) →
  commit_request_ok request → 0 ≤ now →
  Update.commit_update_tx request now now_lease s = (Ok record, s') →
  ∃ f lens cs,
    commit_allowed (tx_db s) request now_lease f lens ∧
    dir_at (db_dirs (tx_db s)) (f_dir_id f) cs ∧
    event_added (committed (tx_db s) request now lens) (commit_kind f)
      (Some (render cs, f_name f)) (Some (cur_file_id request)) now (tx_db s') ∧
    record = record_of cs (resized (cur_new_size request) (zsum (map snd lens)) now f) ∧
    select_file_bundles (tx_db s') (cur_file_id request) =
      numbered (cur_file_id request) 0 (map cb_bundle_id (cur_bundles request)).
Proof. exact (commit_outcome request now now_lease s record s'). Qed.

(** C15. Conversely such a commit succeeds, when the numbers fit SQLite's integers and
    the event log has a free id. *)
Theorem commit_update_progress request now now_lease s f lens :
  db_ok (tx_db s) → cache_ok (db_dirs (tx_db s)) (tx_dir_cache s) →
  commit_request_ok request → cur_lease_id request ≤ i64_max → cur_file_id request ≤ i64_max →
  now_lease ≤ i64_max → is_i64_nonneg now →
  commit_allowed (tx_db s) request now_lease f lens →
  cur_new_size request ≤ i64_max → zsum (map snd lens) ≤ i64_max →
  is_Some (autoincrement_rowid (seq_file_events (tx_db s)) (map e_event_id (db_file_events (tx_db s)))) →
  is_ok (Update.commit_update_tx request now now_lease s).1 = true.
Proof.
  intros Hok Hc Hreq Hlid Hfid Hnl Hnow Hall Hns Hcs Hseq.
  pose proof Hall as (_ & Hf & _ & Hs & Hsum). pose proof Hf as [Hin _]%find_file_Some; [|done].
  destruct (file_dir_at _ f Hok Hin) as (cs & Hat).
  destruct (zsum_lens_nonneg _ _ _ Hok Hs) as [Hr0 Hc0].
  destruct (commit_checked request now now_lease s f lens) as [Heq Hok1];
    [done..|unfold i64_max, u64_max in *; lia|unfold i64_max, u64_max in *; lia|].
  rewrite Heq. destruct Hreq as (? & ? & ? & ? & ?).
  destruct (commit_tail_run request now s f lens cs _ eq_refl Hok Hok1 Hc Hf Hat)
    as (r & db' & c' & Htail & _ & Hres); [done|done|done|done|done|].
  rewrite Htail. simpl. destruct r; [done|]. rewrite Hres in Hseq. by destruct Hseq.
Qed.
End Commit.

(** ** Where an update may go *)

Section Choice.
Context `{DebugResponse}.

(** the volumes an update may be written to *)
Definition usable_volumes (hint : option Z) (volumes : list (Z * StorageVolumeInfo))
  : list (Z * StorageVolumeInfo) :=
  base.filter (λ sv, Update.skip_volume hint sv.2 = false) volumes.

(** the reference: the first usable volume with the preferred name, and else
    the first usable one *)
Definition best_volume (prefer : option string) (hint : option Z)
    (volumes : list (Z * StorageVolumeInfo)) : option (Z * Z) :=
  let usable := usable_volumes hint volumes in
  let chosen := match lfind (λ sv, bool_decide (prefer = Some (svi_name sv.2))) usable with
                | Some sv => Some sv
                | None => head usable
                end in
  (λ sv, (sv.1, svi_volume_id sv.2)) <$> chosen.

Lemma select_volume_run prefer hint volumes candidate :
  Update.select_volume prefer hint volumes candidate =
  match lfind (λ sv, bool_decide (prefer = Some (svi_name sv.2))) (usable_volumes hint volumes) with
  | Some sv => Some (sv.1, svi_volume_id sv.2)
  | None => match candidate with
            | Some c => Some c
            | None => (λ sv, (sv.1, svi_volume_id sv.2)) <$> head (usable_volumes hint volumes)
            end
  end.
Proof.
  unfold usable_volumes. revert candidate.
  induction volumes as [|[sid v] vs IH]; intros candidate; simpl; [by destruct candidate|].
  destruct (Update.skip_volume hint v) eqn:Hskip.
  - by rewrite filter_cons_False by (simpl; congruence).
  - rewrite filter_cons_True by done. simpl. case_bool_decide; [done|]. rewrite IH.
    destruct (lfind _ _); [done|]. by destruct candidate.
Qed.

(** C22. The two nested loops of [begin_update] choose the first volume with the
    preferred name among the usable ones, and without one the first usable
    volume; they find none exactly when no volume is usable.  A usable volume is
    writable, not of size 0, below the usage threshold, and has room for the
    size hint. *)
Theorem select_volume_is_best prefer hint volumes :
  Update.select_volume prefer hint volumes None = best_volume prefer hint volumes ∧
  (best_volume prefer hint volumes = None ↔ usable_volumes hint volumes = []) ∧
  (∀ sid vid, best_volume prefer hint volumes = Some (sid, vid) →
     ∃ v, (sid, v) ∈ volumes ∧ svi_volume_id v = vid ∧ svi_read_only v = false ∧
          svi_max_bytes v ≠ 0 ∧ over_threshold (svi_max_volume_offset v) (svi_max_bytes v) = false ∧
          ∀ size, hint = Some size → size ≤ Z.max 0 (svi_max_bytes v - svi_max_volume_offset v)).
Proof.
  split_and!.
  - rewrite select_volume_run. unfold best_volume. by destruct (lfind _ _).
  - unfold best_volume. destruct (usable_volumes hint volumes) as [|sv vs]; simpl; [done|].
    case_bool_decide; [done|]. by destruct (lfind _ _).
  - intros sid vid Hb. unfold best_volume in Hb. apply fmap_Some in Hb as ([sid' v] & Hv & [= -> ->]).
    assert ((sid', v) ∈ usable_volumes hint volumes) as [Hskip Hin]%list_elem_of_filter.
    { destruct (lfind _ _) as [sv|] eqn:Hf.
      - injection Hv as ->. by apply lfind_Some in Hf as [? _].
      - destruct (usable_volumes hint volumes); simplify_eq/=. by left. }
    simpl in Hskip. unfold Update.skip_volume in Hskip.
    apply orb_false_iff in Hskip as [[[Hro Hmb%bool_decide_eq_false]%orb_false_iff Hth]%orb_false_iff Hh].
    exists v. split_and!; [done..|]. intros size ->. apply bool_decide_eq_false in Hh.
    unfold u64_saturating_sub in Hh. lia.
Qed.
End Choice.

(** ** The lease of an update *)

Section Begin.
Context `{SqliteText, RowIds, !RowIdLaws, DebugResponse}.

(** the file an update is of: an existing one that reaches up to the offset, or a
    new empty one *)
Definition opened (db : CentralDb) (request : BeginUpdateRequest) (now : Z) (f : FileRow)
    (base_size : Z) (db' : CentralDb) : Prop :=
  (file_of_path db (bur_path request) = Ok f ∧ bur_offset request ≤ f_size_bytes f ∧
   base_size = f_size_bytes f ∧ db' = db) ∨
  (file_of_path db (bur_path request) = Err NotFound ∧ bur_offset request = 0 ∧
   base_size = 0 ∧ f_size_bytes f = 0 ∧ file_added db (bur_path request) f db').

Lemma file_of_path_in db path f : db_ok db → file_of_path db path = Ok f → f ∈ db_files db.
Proof.
  intros Hok. unfold file_of_path. destruct (split_fs0_path_dir_and_name path) as [[d n]|]; [|done].
  rewrite Ok_bind. intros (id & _ & Hf%ok_or_Ok)%Result_bind_Ok.
  by apply find_file_by_name_Some in Hf as [? _].
Qed.

Lemma file_at_path db f cs :
  db_ok db → f ∈ db_files db → dir_at (db_dirs db) (f_dir_id f) cs →
  Forall (λ c, valid_component c = true) (cs ++ [f_name f]) →
  file_of_path db (render (cs ++ [f_name f])) = Ok f.
Proof.
  intros Hok Hin Hat Hv. unfold file_of_path.
  rewrite (proj2 (split_dir_and_name_render (render (cs ++ [f_name f])) (render cs) (f_name f)))
    by (by exists cs).
  rewrite Ok_bind, (proj2 (dir_id_of_path_Ok _ _ (f_dir_id f) (ok_dirs _ Hok))).
  2:{ exists cs. split_and!; [done| |done]. by apply Forall_app in Hv as [? _]. }
  rewrite Ok_bind. apply ok_or_Ok. by apply find_file_by_name_Some.
Qed.

Lemma open_update_file_run request now s :
  db_ok (tx_db s) → cache_ok (db_dirs (tx_db s)) (tx_dir_cache s) → 0 ≤ now →
  ∃ r db' c', Update.open_update_file request now s = (r, mkCentralTx db' c') ∧
    cache_ok (db_dirs (tx_db s)) c' ∧
    match r with
    | Ok (f, base_size) => opened (tx_db s) request now f base_size db'
    | Err _ => True
    end.
Proof.
  intros Hok Hc Hnow. unfold Update.open_update_file.
  destruct (get_file_by_path_run (bur_path request) s _ Hok eq_refl Hc) as (c' & Hrun & Hc').
  rewrite (ST_bind_run _ _ s (file_of_path (tx_db s) (bur_path request)) (mkCentralTx (tx_db s) c'))
    by (unfold st_try; by rewrite Hrun).
  destruct (file_of_path (tx_db s) (bur_path request)) as [f|e] eqn:Hf.
  { case_bool_decide.
    - eexists _, _, _. split; [done|]. done.
    - eexists _, _, _. split; [done|]. split; [done|]. left. split_and!; [done|lia|done|done]. }
  assert (e = NotFound ∨ e ≠ NotFound) as [->|He] by (destruct (decide (e = NotFound)); tauto).
  2:{ exists (Err e), (tx_db s), c'. split; [by destruct e|done]. }
  case_bool_decide as Ho; [by eexists _, _, _; split_and!|].
  destruct (create_file_run (bur_path request) now (mkCentralTx (tx_db s) c') Hok Hc' Hnow)
    as (r & db' & c2 & Hcr & Hc2 & Hr).
  destruct r as [f|e].
  - rewrite (ST_bind_run _ _ _ _ _ Hcr). eexists _, _, _. split; [done|]. split; [done|].
    right. destruct Hr as (Hadd & Hsz & _). split_and!; [done|lia|done|done|exact Hadd].
  - rewrite (ST_bind_run_Err _ _ _ _ _ Hcr). eexists _, _, _. by split_and!.
Qed.

(** what is known of the opened file *)
Lemma opened_facts db request now f base_size db' :
  db_ok db → opened db request now f base_size db' →
  db_ok db' ∧ f ∈ db_files db' ∧ base_size = f_size_bytes f ∧ bur_offset request ≤ base_size ∧
  db_update_leases db' = db_update_leases db ∧ db_volumes db' = db_volumes db ∧
  db_dirs db ⊆ db_dirs db' ∧ file_of_path db' (bur_path request) = Ok f.
Proof.
  intros Hok [(Hf & Ho & -> & ->)|(_ & -> & -> & Hsz & new & cs & Hdb & Hp & Hv & Hat & Hni & Hok' & _)].
  - split_and!; [done|by eapply file_of_path_in|done..].
  - split_and!; [done| | |lia| | | |].
    + rewrite Hdb. simpl. set_solver.
    + done.
    + by rewrite Hdb.
    + by rewrite Hdb.
    + rewrite Hdb. simpl. set_solver.
    + rewrite Hp. apply file_at_path; [done|by rewrite Hdb; simpl; set_solver|done|done].
Qed.

Definition lease_row (lease : UpdateLease) (now : Z) : LeaseTuple :=
  mkLeaseTuple (ul_lease_id lease) (ul_file_id lease) (ul_volume_id lease) (ul_base_size lease)
    (ul_offset lease) (ul_prefer_volume_name lease) (ul_expires_at_ms lease) now.

(** what [begin_update] leaves: the expired leases are gone, the file has no other
    lease, and the new one is recorded *)
Definition begun (db : CentralDb) (request : BeginUpdateRequest) (volume_id now : Z)
    (lease : UpdateLease) (db' : CentralDb) : Prop :=
  ∃ f base_size db0,
    let db1 := without_leases (λ l, l_expires_at_ms l ≤ now) db0 in
    opened db request now f base_size db0 ∧ ¬ file_leased db1 (f_file_id f) ∧
    volume_id ∈ volume_ids db ∧ now ≤ i64_max ∧
    ul_file_id lease = f_file_id f ∧ ul_volume_id lease = volume_id ∧ ul_base_size lease = base_size ∧
    ul_offset lease = bur_offset request ∧ ul_expires_at_ms lease = now + UPDATE_LEASE_TTL_MS ∧
    ul_prefer_volume_name lease = bur_prefer_volume_name request ∧
    0 < ul_lease_id lease ≤ i64_max ∧ (ul_lease_id lease ∉ map l_lease_id (db_update_leases db1)) ∧
    db' = set_update_leases db1 (db_update_leases db1 ++ [lease_row lease now]) (ul_lease_id lease) ∧
    db_ok db'.

Lemma delete_expired_over now s :
  i64_max < now → ∃ e, delete_expired_update_leases now s = (Err e, s).
Proof.
  intros Hn. unfold delete_expired_update_leases. eexists.
  erewrite ST_bind_run_Err; [done|]. unfold st_lift, u64_to_i64. by rewrite bool_decide_false by lia.
Qed.

Lemma begin_update_run request volume_id now s :
  db_ok (tx_db s) → cache_ok (db_dirs (tx_db s)) (tx_dir_cache s) → 0 ≤ now →
  0 ≤ bur_offset request →
  ∃ r db' c', Update.begin_update_tx request volume_id now s = (r, mkCentralTx db' c') ∧
    cache_ok (db_dirs (tx_db s)) c' ∧
    match r with Ok lease => begun (tx_db s) request volume_id now lease db' | Err _ => True end.
Proof.
  intros Hok Hc Hnow Ho. unfold Update.begin_update_tx.
  destruct (open_update_file_run request now s Hok Hc Hnow) as (r & db0 & c0 & Hopen & Hc0 & Hr).
  destruct r as [[f base]|e];
    [rewrite (ST_bind_run _ _ _ _ _ Hopen)|rewrite (ST_bind_run_Err _ _ _ _ _ Hopen); by eexists _, _, _].
  destruct (opened_facts _ _ _ _ _ _ Hok Hr) as (Hok0 & Hf & Hbase & Hob & Hls & Hvs & Hds & _).
  destruct (decide (now ≤ i64_max)) as [Hmax|Hmax].
  2:{ destruct (delete_expired_over now (mkCentralTx db0 c0)) as (e & He); [lia|].
      rewrite (ST_bind_run_Err _ _ _ _ _ He). by eexists _, _, _. }
  destruct (delete_expired_run now (mkCentralTx db0 c0) Hok0 Hmax) as [Hdel Hok1].
  rewrite (ST_bind_run _ _ _ _ _ Hdel). cbn [tx_db tx_dir_cache] in *.
  set (db1 := without_leases _ db0) in *.
  assert (f_file_id f ∈ file_ids db1) as Hfin by (by apply (list_elem_of_fmap_2 f_file_id) in Hf).
  pose proof (Forall_file_ids _ Hok1) as Hfs. rewrite Forall_forall in Hfs. pose proof (Hfs _ Hfin) as Hfr.
  pose proof (ok_seqs _ Hok1) as (_ & [_ Hsf] & _).
  rewrite (ST_bind_run _ _ _ _ _ (file_has_lease_run (f_file_id f) (mkCentralTx db1 c0) ltac:(lia))).
  cbn [tx_db]. case_bool_decide as Hl; [by eexists _, _, _|].
  assert (u64_wrapping_add now UPDATE_LEASE_TTL_MS = now + UPDATE_LEASE_TTL_MS) as ->.
  { unfold u64_wrapping_add, UPDATE_LEASE_TTL_MS, i64_max in *. apply Z.mod_small. lia. }
  destruct (create_lease_run (mkCreateUpdateLease (f_file_id f) volume_id base (bur_offset request)
    (bur_prefer_volume_name request) (now + UPDATE_LEASE_TTL_MS) now) (mkCentralTx db1 c0))
    as [[e He]|(id & Hrun & Hok2 & Hid & Hni & Hv)]; [done..|simpl; lia|done| | |].
  { simpl. unfold UPDATE_LEASE_TTL_MS. lia. }
  { rewrite He. by eexists _, _, _. }
  eexists _, _, _. split; [exact Hrun|]. split; [done|].
  exists f, base, db0. split_and!; [done|done| |done|done|done|done|done|done|done|apply Hid|apply Hid|done|done|done].
  cbn in Hv. unfold volume_ids in *. simpl in Hv. by rewrite Hvs in Hv.
Qed.

(** C21. [begin_update] gives out a lease only on a file that no unexpired lease
    covers; it is for the existing file (as long as the offset is within it) or,
    at offset 0, for a newly created empty one, lasts for the lease time, and is
    recorded, next to the unexpired leases only. *)
Theorem begin_update_effect request volume_id now s lease s' :
  db_ok (tx_db s) → cache_ok (db_dirs (tx_db s)) (tx_dir_cache s) → 0 ≤ now →
  0 ≤ bur_offset request →
  Update.begin_update_tx request volume_id now s = (Ok lease, s') →
  begun (tx_db s) request volume_id now lease (tx_db s') ∧
  (∀ l, l ∈ db_update_leases (tx_db s) → l_file_id l = ul_file_id lease → l_expires_at_ms l ≤ now) ∧
  find_active_lease (tx_db s') (ul_lease_id lease) (ul_file_id lease) now = Some (lease_row lease now).
Proof.
  intros Hok Hc Hnow Ho Hrun.
  destruct (begin_update_run request volume_id now s Hok Hc Hnow Ho) as (r & db' & c' & Hrun' & _ & Hb).
  rewrite Hrun in Hrun'. injection Hrun' as <- ->. split; [done|].
  destruct Hb as (f & base & db0 & Hopen & Hfree & _ & _ & Hfid & _ & _ & _ & Hexp & _ & _ & _ & Hdb' & Hok').
  destruct (opened_facts _ _ _ _ _ _ Hok Hopen) as (_ & _ & _ & _ & Hls & _).
  split.
  - intros l Hl Hlf. destruct (decide (l_expires_at_ms l ≤ now)) as [|Hn]; [done|]. exfalso. apply Hfree.
    unfold file_leased. rewrite <- Hfid, <- Hlf. apply (list_elem_of_fmap_2 l_file_id).
    simpl. rewrite Hls. by apply list_elem_of_filter.
  - apply find_active_lease_Some; [done|]. cbn [tx_db]. rewrite Hdb'. simpl. split_and!; [set_solver|done..|].
    rewrite Hexp. unfold UPDATE_LEASE_TTL_MS. lia.
Qed.

End Begin.

(** ** Instances *)

#[local] Existing Instances plain_sqlite_text sequential_rowids sequential_rowid_laws.

Definition sample_update : BeginUpdateRequest := mkBeginUpdateRequest "/docs/a.txt" 4 None (Some 100).
Definition sample_grant : UpdateLease := mkUpdateLease 2 1 2 10 4 60300 None.

Lemma sample_update_run :
  Update.begin_update_tx sample_update 2 300 sample_tx =
  (Ok sample_grant, (Update.begin_update_tx sample_update 2 300 sample_tx).2).
Proof. apply run_value. vm_compute. reflexivity. Qed.

Lemma sample_commit_run :
  Update.commit_update_tx sample_commit 500 510 sample_tx =
  (Ok (mkFileRecord 2 "/docs/b.txt" 7 4 200 500),
   (Update.commit_update_tx sample_commit 500 510 sample_tx).2).
Proof. apply run_value. vm_compute. reflexivity. Qed.

Lemma sample_commit_ok : commit_request_ok sample_commit.
Proof. unfold commit_request_ok, i64_max. simpl. split_and!; try lia. repeat constructor; simpl; lia. Qed.

Lemma sample_commit_allowed :
  commit_allowed sample_db sample_commit 510 sample_new_file [(7, 4)].
Proof.
  unfold commit_allowed, bundles_stored. split_and!; [|vm_compute; reflexivity..| |vm_compute; reflexivity].
  - exists sample_lease. split_and!; [vm_compute; reflexivity|done|done].
  - constructor; [|constructor]. split; [vm_compute; reflexivity|done].
Qed.

Lemma commit_update_effect_witness :
  select_file_bundles (tx_db (Update.commit_update_tx sample_commit 500 510 sample_tx).2) 2 =
  [mkFileBundleTuple 2 0 sample_hash2].
Proof.
  destruct (commit_update_effect sample_commit 500 510 sample_tx _ _ sample_db_ok (empty_cache_ok _)
    sample_commit_ok ltac:(lia) sample_commit_run) as (f & lens & cs & _ & _ & _ & _ & H).
  exact H.
Defined.

Lemma commit_update_progress_witness :
  is_ok (Update.commit_update_tx sample_commit 500 510 sample_tx).1 = true.
Proof.
  apply (commit_update_progress sample_commit 500 510 sample_tx sample_new_file [(7, 4)] sample_db_ok
    (empty_cache_ok _) sample_commit_ok); try (unfold is_i64_nonneg, i64_max; simpl; lia).
  - exact sample_commit_allowed.
  - vm_compute. eexists. reflexivity.
Defined.

Lemma begin_update_effect_witness :
  find_active_lease (tx_db (Update.begin_update_tx sample_update 2 300 sample_tx).2) 2 1 300 =
  Some (mkLeaseTuple 2 1 2 10 4 None 60300 300).
Proof.
  exact (proj2 (proj2 (begin_update_effect sample_update 2 300 sample_tx _ _ sample_db_ok (empty_cache_ok _)
    ltac:(lia) ltac:(simpl; lia) sample_update_run))).
Defined.

Lemma select_volume_is_best_witness :
  let volumes := [(7, mkStorageVolumeInfo 1 "disk" 1000 950 false);
                  (8, mkStorageVolumeInfo 2 "backup" 1000 10 false)] in
  Update.select_volume (Some "disk") (Some 100) volumes None = Some (8, 2).
Proof.
  intros volumes. rewrite (proj1 (select_volume_is_best (Some "disk") (Some 100) volumes)).
  vm_compute. reflexivity.
Defined.
