(* ===== verification/CentralSafety.v ===== *)
(** * What every handler of the central server keeps

    [tx_ok] is the invariant of the database and its directory cache.  Each
    transaction body of the handlers keeps it: [tx_keeps] says that a run that
    ends well leaves it, and that a run that fails leaves a cache that is sound
    for the tables the rollback restores.  The last part lifts this to every
    interleaving of every number of connections. *)

From S2P Require Import Prelude Types Paths DirCache CentralDb DirTree CentralInv Sample.
From S2P Require Import CentralDir CentralTables CentralFacts CentralRuns Link Conc CentralServer.
From S2P Require Import CentralHandlers CentralUpdate.

Definition tx_ok (s : CentralTx) : Prop :=
  db_ok (tx_db s) ∧ cache_ok (db_dirs (tx_db s)) (tx_dir_cache s).

(** the tables are well formed and their directories are [ds]; the cache is sound
    for the directories [old] *)
Definition stays (old ds : list DirRow) (s : CentralTx) : Prop :=
  db_ok (tx_db s) ∧ db_dirs (tx_db s) = ds ∧ cache_ok old (tx_dir_cache s).

(** the body changes neither the directories nor the cache in a way that matters *)
Definition calm {A} (body : Tx A) : Prop :=
  ∀ old ds, triple (stays old ds) body (λ _, stays old ds) (λ s, cache_ok old (tx_dir_cache s)).

(** the same when the cache is about the directories as they are *)
Definition calm_cached {A} (body : Tx A) : Prop :=
  ∀ ds, triple (stays ds ds) body (λ _, stays ds ds) (λ s, cache_ok ds (tx_dir_cache s)).

Definition tx_keeps {A} (body : Tx A) : Prop := ∀ s, tx_ok s →
  match body s with
  | (Ok _, s') => tx_ok s'
  | (Err _, s') => cache_ok (db_dirs (tx_db s)) (tx_dir_cache s')
  end.

(** for a transaction that is never committed only the cache counts *)
Definition tx_reads {A} (body : Tx A) : Prop := ∀ s, tx_ok s →
  cache_ok (db_dirs (tx_db s)) (tx_dir_cache (body s).2).

Section Calm.
Context `{SqliteText, RowIds, !RowIdLaws}.

Lemma calm_is_cached {A} (body : Tx A) : calm body → calm_cached body.
Proof. intros Hc ds. apply Hc. Qed.

Lemma calm_keeps {A} (body : Tx A) : calm_cached body → tx_keeps body.
Proof.
  intros Hc s [Hok Hcache]. specialize (Hc (db_dirs (tx_db s)) s (conj Hok (conj eq_refl Hcache))).
  destruct (body s) as [[a|e] s']; [|done]. destruct Hc as (? & Hds & ?). split; [done|]. by rewrite Hds.
Qed.

Lemma calm_reads {A} (body : Tx A) : calm_cached body → tx_reads body.
Proof.
  intros Hc s [Hok Hcache]. specialize (Hc (db_dirs (tx_db s)) s (conj Hok (conj eq_refl Hcache))).
  destruct (body s) as [[a|e] s']; [|done]. by destruct Hc as (_ & _ & ?).
Qed.

Lemma calm_ret {A} (a : A) : calm (mret a).
Proof. intros old ds s Hs. exact Hs. Qed.

Lemma calm_fail {A} e : calm (st_fail e : Tx A).
Proof. intros old ds s Hs. apply Hs. Qed.

Lemma calm_lift {A} (r : Fs0Result A) : calm (st_lift r).
Proof. intros old ds s Hs. unfold st_lift. destruct r; [exact Hs|apply Hs]. Qed.

Lemma calm_query {A} (q : CentralDb → A) : calm (query q).
Proof. intros old ds s Hs. exact Hs. Qed.

Lemma calm_bind {A B} (m : Tx A) (f : A → Tx B) : calm m → (∀ a, calm (f a)) → calm (m ≫= f).
Proof. intros Hm Hf old ds. eapply triple_bind; [apply Hm|]. intros a. apply Hf. Qed.

Lemma cached_bind {A B} (m : Tx A) (f : A → Tx B) :
  calm_cached m → (∀ a, calm_cached (f a)) → calm_cached (m ≫= f).
Proof. intros Hm Hf ds. eapply triple_bind; [apply Hm|]. intros a. apply Hf. Qed.

(** after an integer conversion the value fits *)
Lemma calm_i64 {B} v name (f : Z → Tx B) :
  (v ≤ i64_max → calm (f v)) → calm (x ← st_lift (u64_to_i64 v name); f x).
Proof.
  intros Hf. unfold u64_to_i64. case_bool_decide as Hv.
  - intros old ds s Hs. unfold mbind, ST_bind, st_lift. by apply (Hf Hv).
  - intros old ds s Hs. apply Hs.
Qed.

Lemma calm_st_map_err {A} g (m : Tx A) : calm m → calm (st_map_err g m).
Proof.
  intros Hm old ds s Hs. specialize (Hm old ds s Hs). unfold st_map_err.
  destruct (m s) as [[a|e] s']; exact Hm.
Qed.

Lemma calm_sql {A} (stmt : Stmt A) :
  (∀ db a db', db_ok db → stmt db = Ok (a, db') → db_ok db' ∧ db_dirs db' = db_dirs db) →
  calm (sql stmt).
Proof.
  intros Hstmt old ds s (Hok & Hds & Hc). unfold sql.
  destruct (stmt (tx_db s)) as [[a db']|e] eqn:Hrun; [|done].
  apply Hstmt in Hrun as [Hok' Hds']; [|done]. split_and!; [done|by rewrite <- Hds|done].
Qed.

(** what is known of the value of the first step *)
Lemma calm_bind_value {A B} (φ : A → Prop) (m : Tx A) (f : A → Tx B) :
  calm_cached m → (∀ s a s', db_ok (tx_db s) → m s = (Ok a, s') → φ a) →
  (∀ a, φ a → calm_cached (f a)) → calm_cached (m ≫= f).
Proof.
  intros Hm Hv Hf ds s Hs. pose proof (Hm ds s Hs) as Hr. unfold mbind, ST_bind.
  destruct (m s) as [[a|e] s1] eqn:Hrun; [|done]. apply Hf; [|done].
  eapply Hv; [|exact Hrun]. apply Hs.
Qed.

Lemma cached_if {A} (b : bool) (m m' : Tx A) :
  calm_cached m → calm_cached m' → calm_cached (if b then m else m').
Proof. by destruct b. Qed.

(** a run described by a lemma of CentralRuns *)
Lemma calm_run {A} (body : Tx A) :
  (∀ s, db_ok (tx_db s) → ∃ r db', body s = (r, mkCentralTx db' (tx_dir_cache s)) ∧
     (is_ok r = true → db_ok db' ∧ db_dirs db' = db_dirs (tx_db s))) → calm body.
Proof.
  intros Hb old ds s (Hok & Hds & Hc). destruct (Hb s Hok) as (r & db' & -> & Hr).
  destruct r; [|done]. destruct (Hr eq_refl) as [? Hd]. split_and!; [done|by rewrite <- Hds|done].
Qed.

End Calm.

(** through the steps of a body, up to the ones a lemma is needed for *)
Ltac calm_step :=
  match goal with
  | |- calm (mret _) => apply calm_ret
  | |- calm (λ s, _) => fail 1
  | |- calm (st_fail _) => apply calm_fail
  | |- calm (query _) => apply calm_query
  | |- calm (st_lift (u64_to_i64 _ _) ≫= _) => apply calm_i64; intros ?
  | |- calm (st_lift _) => apply calm_lift
  | |- calm (st_map_err _ _) => apply calm_st_map_err
  | |- calm (_ ≫= _) => apply calm_bind; [|intros ?]
  | |- calm (match ?x with _ => _ end) => destruct x
  | |- calm (if ?b then _ else _) => destruct b
  | |- calm (let '(_, _) := ?x in _) => destruct x
  end.
Ltac calm := repeat calm_step.

(** ** The operations of the tables *)

Section Ops.
Context `{SqliteText, RowIds, !RowIdLaws}.

Lemma get_file_by_id_calm id : calm (get_file_by_id id).
Proof. unfold get_file_by_id. calm. Qed.

Lemma get_file_bundles_calm id : calm (get_file_bundles_by_file_id id).
Proof. unfold get_file_bundles_by_file_id. calm. Qed.

Lemma get_bundle_replicas_calm ids : calm (get_bundle_replicas_by_id ids).
Proof.
  apply calm_run. intros [db c] Hok. eexists _, db. split; [by apply get_bundle_replicas_run|done].
Qed.

Lemma calculate_size_calm id : calm (calculate_size_by_file_id id).
Proof.
  unfold calculate_size_by_file_id. apply calm_bind; [apply get_file_bundles_calm|].
  intros bs. apply calm_bind; [apply get_bundle_replicas_calm|]. intros. calm.
Qed.

Lemma get_volume_calm id : calm (get_volume id).
Proof. unfold get_volume. calm. Qed.

Lemma update_volume_offset_calm id offset : 0 ≤ offset → calm (update_volume_offset id offset).
Proof.
  intros Ho. unfold update_volume_offset. calm_step. calm_step. apply calm_bind.
  - apply calm_sql. intros db n db' Hok Hrun. split.
    + eapply set_volume_offset_ok; [done|split; [done|eassumption]|done].
    + unfold set_volume_offset in Hrun. by injection Hrun as <- <-.
  - intros n. calm. apply get_volume_calm.
Qed.

Lemma create_volume_calm name max : 0 ≤ max → calm (create_volume name max).
Proof.
  intros Hm. apply calm_run. intros s Hok.
  destruct (create_volume_run name max s Hok Hm) as [[e ->]|(id & -> & Hok' & _)].
  - exists (Err e), (tx_db s). split; [by destruct s|done].
  - eexists _, _. split; [done|]. done.
Qed.

Lemma delete_leases_calm (P : LeaseTuple → Prop) `{∀ l, Decision (P l)} :
  calm (sql (delete_leases_where P)).
Proof.
  apply calm_sql. intros db [] db' Hok Hrun. split; [by eapply delete_leases_ok|].
  unfold delete_leases_where in Hrun. by injection Hrun as <-.
Qed.

Lemma delete_update_lease_calm id : calm (delete_update_lease id).
Proof. unfold delete_update_lease. calm. apply (delete_leases_calm (λ l, l_lease_id l = id)). Qed.

Lemma active_lease_volume_calm lease file now : calm (active_update_lease_volume lease file now).
Proof. unfold active_update_lease_volume. calm. Qed.

Lemma insert_log_calm kind target file now :
  is_i64_nonneg (default 0 file) → 0 ≤ now → calm (insert_file_change_log kind target file now).
Proof.
  intros Hf Hn. apply calm_run. intros s Hok.
  destruct (insert_log_run kind target file now s Hok Hf Hn) as [(e & -> & _)|(db' & -> & id & _ & -> & Hok')].
  - exists (Err e), (tx_db s). split; [by destruct s|done].
  - eexists _, _. split; [done|]. done.
Qed.

Lemma insert_replica_calm b v raw comp : 0 ≤ raw → 0 ≤ comp → calm (insert_bundle_replica b v raw comp).
Proof.
  intros Hr Hc. apply calm_run. intros s Hok.
  destruct (insert_bundle_replica_run b v raw comp s Hok Hr Hc) as [[e ->]|(db' & -> & Hok' & _ & _ & _ & Hdb & _)].
  - exists (Err e), (tx_db s). split; [by destruct s|done].
  - eexists _, _. split; [done|]. intros _. split; [done|]. by rewrite Hdb.
Qed.

Lemma delete_replica_calm b v : calm (delete_bundle_replica b v).
Proof.
  apply calm_run. intros s Hok.
  destruct (delete_bundle_replica_run b v s Hok) as [[e ->]|(db' & -> & Hok' & Hdb & _)].
  - exists (Err e), (tx_db s). split; [by destruct s|done].
  - eexists _, _. split; [done|]. intros _. split; [done|]. by rewrite Hdb.
Qed.

Lemma get_logs_calm after limit : calm (get_file_change_logs after limit).
Proof. unfold get_file_change_logs. calm. Qed.

Lemma delete_file_bundles_calm id : calm (delete_file_bundles_by_file_id id).
Proof.
  unfold delete_file_bundles_by_file_id. calm. apply calm_sql. intros db [] db' Hok Hrun.
  split; [by eapply delete_file_bundle_rows_ok|]. unfold delete_file_bundle_rows in Hrun. by injection Hrun as <-.
Qed.

Lemma delete_file_calm id : calm (delete_file_by_id id).
Proof.
  unfold delete_file_by_id. calm. apply calm_sql. intros db n db' Hok Hrun.
  rewrite delete_file_row_run in Hrun by done. injection Hrun as <- <-.
  split; [by apply without_file_ok|done].
Qed.

(** ** The operations that use the cache *)

Lemma get_file_by_path_cached path : calm_cached (get_file_by_path path).
Proof.
  intros ds s (Hok & Hds & Hc).
  destruct (get_file_by_path_run path s ds Hok (eq_sym Hds) Hc) as (c' & -> & Hc').
  destruct (file_of_path _ _); [|done]. by split_and!.
Qed.

Lemma get_dir_id_cached path : calm_cached (get_dir_id_by_path path).
Proof.
  intros ds s (Hok & Hds & Hc). pose proof (ok_dirs _ Hok) as Hd. rewrite Hds in Hd.
  destruct (get_dir_id_by_path_run path s ds (eq_sym Hds) Hd Hc) as (c' & -> & Hc').
  destruct (dir_id_of_path _ _); [|done]. by split_and!.
Qed.

Lemma get_dir_path_cached id : calm_cached (get_dir_path_by_id id).
Proof.
  intros ds s (Hok & Hds & Hc). pose proof (ok_dirs _ Hok) as Hd. rewrite Hds in Hd.
  destruct (decide (id ∈ dir_ids ds)) as [Hid|Hid].
  - destruct (dir_at_exists _ _ Hd Hid) as (cs & Hat & _).
    destruct (get_dir_path_by_id_run id cs s ds (eq_sym Hds) Hd Hc Hat) as (c' & -> & Hc'). by split_and!.
  - destruct (get_dir_path_by_id_missing id s) as [e ->]; by rewrite ?Hds.
Qed.

Lemma list_directory_cached dir limit cursor : calm_cached (list_directory dir limit cursor).
Proof.
  unfold list_directory. apply cached_bind; [apply get_dir_id_cached|]. intros id.
  apply calm_is_cached. calm.
Qed.

Lemma file_record_cached f : calm_cached (file_record f).
Proof.
  unfold file_record. apply cached_bind; [apply get_dir_path_cached|]. intros id.
  apply calm_is_cached. calm.
Qed.

Lemma read_plan_cached online id : calm_cached (Client.read_plan_tx online id).
Proof.
  unfold Client.read_plan_tx. apply cached_bind; [apply calm_is_cached, get_file_by_id_calm|]. intros f.
  apply cached_bind; [apply file_record_cached|]. intros r. apply calm_is_cached.
  apply calm_bind; [apply get_file_bundles_calm|]. intros bs.
  apply calm_bind; [apply get_bundle_replicas_calm|]. intros rs. calm.
Qed.
End Ops.

(** ** The transactions of the handlers *)

Section Bodies.
Context `{SqliteText, RowIds, !RowIdLaws, DebugResponse}.

Lemma insert_bundle_row_calm row : is_i64_nonneg (fb_bundle_index row) → calm (sql (insert_file_bundle_row row)).
Proof.
  intros Hi. apply calm_sql. intros db [] db' Hok Hrun. pose proof Hrun as Hins.
  unfold insert_file_bundle_row in Hrun. case_bool_decide as Hk; [done|]. case_bool_decide as Hf; [|done].
  destruct (insert_file_bundle_row_ok row db Hok Hi Hf Hk) as [Hrun' Hok'].
  rewrite Hins in Hrun'. by injection Hrun' as ->.
Qed.

Lemma upsert_bundles_calm id bundles : calm (upsert_file_bundles_by_file_id id bundles).
Proof.
  unfold upsert_file_bundles_by_file_id. apply calm_bind; [apply delete_file_bundles_calm|]. intros _.
  assert (∀ i, 0 ≤ i → calm (insert_file_bundles id i bundles)) as Hins; [|by apply Hins].
  induction bundles as [|b bs IH]; intros i Hi; simpl; [apply calm_ret|]. calm.
  - by apply insert_bundle_row_calm.
  - apply IH. lia.
Qed.

Lemma update_file_calm id size comp now :
  0 ≤ size → 0 ≤ comp → 0 ≤ now → calm (update_file_after_update id size comp now).
Proof.
  intros. unfold update_file_after_update. calm; [|apply get_file_by_id_calm].
  apply calm_sql. intros db n db' Hok Hrun.
  rewrite resize_file_row_run in Hrun. injection Hrun as <- <-. split; [|done]. by apply resized_ok.
Qed.

(** *** Updates *)

Lemma begin_update_keeps request volume_id now :
  0 ≤ bur_offset request → 0 ≤ now → tx_keeps (Update.begin_update_tx request volume_id now).
Proof.
  intros Ho Hn s [Hok Hc].
  destruct (begin_update_run request volume_id now s Hok Hc Hn Ho) as (r & db' & c' & -> & Hc' & Hr).
  destruct r as [lease|e]; [|done].
  destruct Hr as (f & base & db0 & Hopen & _ & _ & _ & _ & _ & _ & _ & _ & _ & _ & _ & Hdb' & Hok').
  destruct (opened_facts _ _ _ _ _ _ Hok Hopen) as (_ & _ & _ & _ & _ & _ & Hds & _).
  split; [done|]. eapply cache_ok_mono; [|exact Hc']. by rewrite Hdb'.
Qed.

Lemma commit_tail_cached fid lid size comp now f kind :
  0 ≤ fid ≤ i64_max → 0 ≤ size → 0 ≤ comp → 0 ≤ now →
  calm_cached (updated_file ← update_file_after_update fid size comp now;
     delete_update_lease lid;;
     file_dir ← get_dir_path_by_id (f_dir_id f);
     insert_file_change_log kind (Some (file_dir, f_name f)) (Some fid) now;;
     file_record updated_file).
Proof.
  intros. apply cached_bind; [by apply calm_is_cached, update_file_calm|]. intros u.
  apply cached_bind; [apply calm_is_cached, delete_update_lease_calm|]. intros _.
  apply cached_bind; [apply get_dir_path_cached|]. intros dir.
  apply cached_bind; [by apply calm_is_cached, insert_log_calm|]. intros _.
  apply file_record_cached.
Qed.

Lemma load_lease_calm lid fid now : calm (load_active_update_lease lid fid now).
Proof. unfold load_active_update_lease. calm. Qed.

Lemma calculate_size_value fid s x y s' :
  db_ok (tx_db s) → calculate_size_by_file_id fid s = (Ok (x, y), s') → 0 ≤ y.
Proof.
  intros Hok Hrun. assert (fid ≤ i64_max) as Hfid.
  { unfold calculate_size_by_file_id, get_file_bundles_by_file_id in Hrun.
    apply ST_bind_Ok in Hrun as (? & ? & Hrun & _). by apply ST_bind_Ok in Hrun as (? & ? & (? & ? & ?)%lift_u64_inv & _). }
  rewrite calculate_size_run in Hrun by done. injection Hrun as Hrun _.
  apply try_fold_sizes in Hrun as (ls & Hls & _ & -> & _); [|intros h r c|unfold u64_max; lia..].
  - assert (0 ≤ zsum (map snd ls)); [|lia]. apply zsum_nonneg, Forall_fmap, Forall_forall.
    intros [r c] Hin. apply list_elem_of_lookup in Hin as [i Hi].
    destruct (Forall2_lookup_r _ _ _ _ _ Hls Hi) as (w & _ & Hw).
    rewrite first_replicas_lookup in Hw by done. case_bool_decide; [|done].
    apply ready_lengths_pos in Hw; [|done]. simpl. lia.
  - rewrite first_replicas_lookup by done. case_bool_decide; [|done].
    intros Hw%ready_lengths_pos; [|done]. lia.
Qed.

Lemma commit_update_cached request now now_lease :
  0 ≤ cur_file_id request → 0 ≤ cur_new_size request → 0 ≤ now →
  calm_cached (Update.commit_update_tx request now now_lease).
Proof.
  intros Hfid Hns Hn. unfold Update.commit_update_tx.
  apply (calm_bind_value (λ lease, lr_file_id lease = cur_file_id request ∧ cur_file_id request ≤ i64_max)).
  { apply calm_is_cached, calm_st_map_err, load_lease_calm. }
  { intros s a s' Hok Hrun. unfold st_map_err in Hrun.
    destruct (load_active_update_lease _ _ _ s) as [[lr|e] s1] eqn:Hl; [|done]. injection Hrun as <- <-.
    apply load_lease_inv in Hl as (_ & _ & Hf & _ & l & _ & ->); done. }
  intros lease [-> Hmax]. do 2 (apply cached_if; [apply calm_is_cached, calm_fail|]).
  apply cached_bind; [apply calm_is_cached, get_file_by_id_calm|]. intros f.
  apply cached_if; [apply calm_is_cached, calm_fail|].
  apply cached_bind; [apply calm_is_cached, get_bundle_replicas_calm|]. intros rs.
  apply cached_bind; [apply calm_is_cached, calm_lift|]. intros sum.
  apply cached_if; [apply calm_is_cached, calm_fail|].
  apply cached_bind; [apply calm_is_cached, upsert_bundles_calm|]. intros _.
  apply (calm_bind_value (λ xy, 0 ≤ xy.2)).
  { apply calm_is_cached, calculate_size_calm. }
  { intros s [x y] s' Hok Hrun. by apply calculate_size_value in Hrun. }
  intros [x y] Hy. simpl in Hy. apply cached_if; [apply calm_is_cached, calm_fail|].
  by apply commit_tail_cached.
Qed.

Lemma abort_update_calm lid fid now : calm (Update.abort_update_tx lid fid now).
Proof.
  unfold Update.abort_update_tx. apply calm_bind; [apply active_lease_volume_calm|]. intros v.
  apply calm_bind; [apply delete_update_lease_calm|]. intros _. calm.
Qed.

(** *** Reports and registration *)

Definition report_event_ok (event : BundleReplicaEvent) : Prop :=
  0 ≤ default 0 (bre_raw_len event) ∧ 0 ≤ default 0 (bre_compressed_len event).

Lemma report_event_calm event : report_event_ok event → calm (Storage.report_event event).
Proof.
  intros [Hr Hc]. unfold Storage.report_event. destruct (bre_kind event); [|apply delete_replica_calm].
  destruct (bre_raw_len event) as [r|]; [|apply calm_fail].
  destruct (bre_compressed_len event) as [c|]; [|apply calm_fail]. by apply insert_replica_calm.
Qed.

Lemma report_events_calm events :
  Forall report_event_ok events → calm (Storage.report_bundle_replica_tx events).
Proof.
  unfold Storage.report_bundle_replica_tx. induction 1 as [|e es He _ IH]; simpl; [apply calm_ret|].
  apply calm_bind; [by apply report_event_calm|done].
Qed.

Definition volume_info_ok (v : StorageVolumeInfo) : Prop := 0 ≤ svi_max_volume_offset v.

Lemma register_volumes_calm volumes : Forall volume_info_ok volumes → calm (register_volumes volumes).
Proof.
  induction 1 as [|v vs Hv _ IH]; simpl; [apply calm_ret|].
  apply calm_bind; [apply get_volume_calm|]. intros reg.
  apply calm_bind; [|intros _].
  - case_bool_decide; [|apply calm_ret]. apply calm_bind; [|intros _; apply calm_ret].
    apply update_volume_offset_calm. unfold volume_info_ok in Hv. lia.
  - case_bool_decide; [apply calm_fail|]. apply calm_bind; [done|]. intros. apply calm_ret.
Qed.

(** *** Files *)

Lemma delete_file_value fid s s' :
  db_ok (tx_db s) → delete_file_by_id fid s = (Ok tt, s') → 0 ≤ fid ≤ i64_max.
Proof.
  intros Hok Hrun. assert (fid ≤ i64_max) as Hm.
  { unfold delete_file_by_id in Hrun. by apply ST_bind_Ok in Hrun as (? & ? & (? & ? & ?)%lift_u64_inv & _). }
  rewrite delete_file_run in Hrun by done. case_bool_decide as Hin; [|done].
  pose proof (Forall_file_ids _ Hok) as Hfs. rewrite Forall_forall in Hfs. apply Hfs in Hin. lia.
Qed.

Lemma delete_file_tx_cached fid now : 0 ≤ now → calm_cached (Client.delete_file_tx fid now).
Proof.
  intros Hn. unfold Client.delete_file_tx.
  apply cached_bind; [apply calm_is_cached, delete_file_bundles_calm|]. intros _.
  apply (calm_bind_value (λ _, 0 ≤ fid ≤ i64_max)); [apply calm_is_cached, delete_file_calm| |].
  - intros s [] s'. apply delete_file_value.
  - intros _ ?. by apply calm_is_cached, insert_log_calm.
Qed.

(** what is left once the file row is written: the cache is still about the
    directories before the new ones, the last step reads the file's directory *)
Lemma written_keeps {A} (m : Tx A) f cs s db' c' ds' :
  calm m → db_ok db' → db_dirs db' = ds' → db_dirs (tx_db s) ⊆ ds' →
  cache_ok (db_dirs (tx_db s)) c' → dir_at ds' (f_dir_id f) cs →
  match (m;; file_record f) (mkCentralTx db' c') with
  | (Ok _, s') => tx_ok s'
  | (Err _, s') => cache_ok (db_dirs (tx_db s)) (tx_dir_cache s')
  end.
Proof.
  intros Hm Hok' Hds' Hsub Hc' Hat. unfold mbind, ST_bind.
  pose proof (Hm (db_dirs (tx_db s)) ds' (mkCentralTx db' c') (conj Hok' (conj Hds' Hc'))) as Hr.
  destruct (m (mkCentralTx db' c')) as [[a|e] s1]; [|done]. destruct Hr as (Hok1 & Hds1 & Hc1).
  destruct (file_record_run f cs s1 ds') as (c2 & -> & Hc2); [done|by rewrite <- Hds1; apply ok_dirs| |done|].
  - by eapply cache_ok_mono.
  - split; [done|]. simpl. by rewrite Hds1.
Qed.

Lemma copy_bundles_run source target s :
  db_ok (tx_db s) → source ≤ i64_max → target ≤ i64_max → target ∈ file_ids (tx_db s) →
  (∀ b, b ∈ db_file_bundles (tx_db s) → fb_file_id b ≠ target) →
  let copied := map (λ b, mkFileBundleTuple target (fb_bundle_index b) (fb_bundle_id b))
                  (base.filter (λ b, fb_file_id b = source) (db_file_bundles (tx_db s))) in
  let db' := set_file_bundles (tx_db s) (db_file_bundles (tx_db s) ++ copied) in
  copy_file_bundles source target s = (Ok tt, mkCentralTx db' (tx_dir_cache s)) ∧ db_ok db'.
Proof.
  intros Hok Hs Ht Hin Hfresh copied db'. unfold copy_file_bundles.
  destruct (copy_file_bundle_rows_ok target source (tx_db s) Hok Hin Hfresh) as [Hrun Hok'].
  rewrite (ST_bind_run _ _ _ _ _ (lift_fits _ _ _ Ht)), (ST_bind_run _ _ _ _ _ (lift_fits _ _ _ Hs)).
  by rewrite (sql_Ok _ s _ _ Hrun).
Qed.

(** a file just added has an id of its own and no bundles *)
Lemma file_added_facts db path f db' :
  db_ok db → file_added db path f db' →
  db_ok db' ∧ 0 < f_file_id f ≤ i64_max ∧ f_file_id f ∈ file_ids db' ∧
  (∀ b, b ∈ db_file_bundles db' → fb_file_id b ≠ f_file_id f) ∧ db_dirs db ⊆ db_dirs db'.
Proof.
  intros Hok (new & cs & Hdb & _ & _ & _ & Hfresh & Hok' & _).
  assert (f ∈ db_files db') as Hin by (rewrite Hdb; simpl; set_solver).
  split; [done|]. split; [by eapply file_id_nonneg|].
  split_and!; [by apply (list_elem_of_fmap_2 f_file_id)| |rewrite Hdb; simpl; set_solver].
  - intros b Hb Heq. rewrite Hdb in Hb. simpl in Hb. pose proof (ok_bundles _ Hok) as Hbs.
    rewrite Forall_forall in Hbs. apply Hbs in Hb as [_ Hb]. by rewrite Heq in Hb.
Qed.

Lemma copy_file_keeps source path now : 0 ≤ now → tx_keeps (Client.copy_file_tx source path now).
Proof.
  intros Hn s [Hok Hc]. unfold Client.copy_file_tx, mbind at 1, ST_bind, st_lift.
  destruct (split_fs0_path_dir_and_name path) as [[dir name]|e]; [|done].
  unfold mbind at 1, ST_bind.
  destruct (copy_file_run source path now s Hok Hc Hn) as (r & db1 & c1 & -> & Hc1 & Hr).
  destruct r as [f|e]; [|done]. destruct Hr as (Hadd & Hsm & _).
  destruct (file_added_facts _ _ _ _ Hok Hadd) as (Hok1 & Hid & Hin & Hfresh & Hsub).
  destruct Hadd as (new & cs & Hdb & _ & _ & Hat & _).
  destruct (copy_bundles_run source (f_file_id f) (mkCentralTx db1 c1)) as [Hrun Hok2]; [done..|lia|done|done|].
  rewrite (ST_bind_run _ _ _ _ _ Hrun). cbn [tx_db tx_dir_cache] in *.
  eapply (written_keeps _ f cs); [|exact Hok2|reflexivity|done|done|done].
  apply insert_log_calm; [|done]. unfold is_i64_nonneg. simpl. lia.
Qed.

Lemma rename_file_keeps fid path now : 0 ≤ now → tx_keeps (Client.rename_file_tx fid path now).
Proof.
  intros Hn s [Hok Hc]. unfold Client.rename_file_tx, mbind at 1, ST_bind, st_lift.
  destruct (split_fs0_path_dir_and_name path) as [[dir name]|e]; [|done].
  unfold mbind at 1, ST_bind.
  destruct (rename_file_run fid path now s Hok Hc Hn) as (r & db1 & c1 & -> & Hc1 & Hr).
  destruct r as [f|e]; [|done]. destruct Hr as ((new & cs & g & Hg & _ & Hdb & _ & _ & Hat & Hok1 & _) & Hm).
  apply find_file_Some in Hg as [Hin <-]; [|done]. pose proof (file_id_nonneg _ _ Hok Hin).
  eapply (written_keeps _ f cs); [|exact Hok1|reflexivity| |done|done].
  - apply insert_log_calm; [|done]. unfold is_i64_nonneg. simpl. lia.
  - rewrite Hdb. simpl. set_solver.
Qed.

Lemma read_file_id_reads path : tx_reads (file ← get_file_by_path path; mret (f_file_id file)).
Proof.
  apply calm_reads, cached_bind; [apply get_file_by_path_cached|]. intros f. apply calm_is_cached, calm_ret.
Qed.
End Bodies.

(** ** The transactions of the handlers *)

Section Transactions.
Context `{SqliteText, RowIds, !RowIdLaws, DebugResponse}.

(** the ones that are committed, by what their handlers give them *)
Inductive HandlerTx : Type → Type :=
| HtBeginUpdate (request : BeginUpdateRequest) (volume_id now : Z) : HandlerTx UpdateLease
| HtDeleteLease (lease_id : Z) : HandlerTx unit
| HtLeaseVolume (lease_id file_id now : Z) : HandlerTx Z
| HtCommitUpdate (request : CommitUpdateRequest) (now now_lease : Z) : HandlerTx FileRecord
| HtAbortUpdate (lease_id file_id now : Z) : HandlerTx Z
| HtCreateVolume (name : string) (max_bytes : Z) : HandlerTx StorageVolumeInfo
| HtReport (events : list BundleReplicaEvent) : HandlerTx unit
| HtVolumeOffset (volume_id offset : Z) : HandlerTx StorageVolumeInfo
| HtRegister (volumes : list StorageVolumeInfo) : HandlerTx (list StorageVolumeInfo)
| HtListDirectory (dir : string) (limit : Z) (cursor : option Z) : HandlerTx DirectoryEntries
| HtDeleteFile (file_id now : Z) : HandlerTx unit
| HtCopyFile (source : Z) (path : string) (now : Z) : HandlerTx FileRecord
| HtRenameFile (file_id : Z) (path : string) (now : Z) : HandlerTx FileRecord.

Definition tx_body {A} (t : HandlerTx A) : Tx A :=
  match t with
  | HtBeginUpdate request volume_id now => Update.begin_update_tx request volume_id now
  | HtDeleteLease lease_id => delete_update_lease lease_id
  | HtLeaseVolume lease_id file_id now =>
      st_map_err (Update.not_found_to_conflict lease_id file_id) (active_update_lease_volume lease_id file_id now)
  | HtCommitUpdate request now now_lease => Update.commit_update_tx request now now_lease
  | HtAbortUpdate lease_id file_id now => Update.abort_update_tx lease_id file_id now
  | HtCreateVolume name max_bytes => create_volume name max_bytes
  | HtReport events => Storage.report_bundle_replica_tx events
  | HtVolumeOffset volume_id offset => update_volume_offset volume_id offset
  | HtRegister volumes => register_volumes volumes
  | HtListDirectory dir limit cursor => list_directory dir limit cursor
  | HtDeleteFile file_id now => Client.delete_file_tx file_id now
  | HtCopyFile source path now => Client.copy_file_tx source path now
  | HtRenameFile file_id path now => Client.rename_file_tx file_id path now
  end.

(** the values a request and a clock can have *)
Definition tx_values {A} (t : HandlerTx A) : Prop :=
  match t with
  | HtBeginUpdate request _ now => 0 ≤ bur_offset request ∧ 0 ≤ now
  | HtCommitUpdate request now _ => commit_request_ok request ∧ 0 ≤ now
  | HtCreateVolume _ max_bytes => 0 ≤ max_bytes
  | HtReport events => Forall report_event_ok events
  | HtVolumeOffset _ offset => 0 ≤ offset
  | HtRegister volumes => Forall volume_info_ok volumes
  | HtDeleteFile _ now | HtCopyFile _ _ now | HtRenameFile _ _ now => 0 ≤ now
  | _ => True
  end.

Lemma handler_tx_keeps {A} (t : HandlerTx A) : tx_values t → tx_keeps (tx_body t).
Proof.
  destruct t; cbn [tx_values tx_body]; intros Hv;
    [destruct Hv; by apply begin_update_keeps|apply calm_keeps..|by apply copy_file_keeps|by apply rename_file_keeps].
  - apply calm_is_cached, delete_update_lease_calm.
  - apply calm_is_cached, calm_st_map_err, active_lease_volume_calm.
  - destruct Hv as [(? & ? & ? & _) ?]. by apply commit_update_cached.
  - apply calm_is_cached, abort_update_calm.
  - by apply calm_is_cached, create_volume_calm.
  - by apply calm_is_cached, report_events_calm.
  - by apply calm_is_cached, update_volume_offset_calm.
  - by apply calm_is_cached, register_volumes_calm.
  - apply list_directory_cached.
  - by apply delete_file_tx_cached.
Qed.

(** what every one of them keeps of the tables *)
Definition tx_stable (Q : CentralDb → Prop) : Prop := ∀ A (t : HandlerTx A) s a s',
  tx_values t → tx_ok s → Q (tx_db s) → tx_body t s = (Ok a, s') → Q (tx_db s').
End Transactions.

(** ** All connections together *)

(** [Q] is what else is kept of the tables *)
Definition central_ok (Q : CentralDb → Prop) (s : CentralServer) : Prop :=
  (tx_ok (cs_db s) ∧ Q (tx_db (cs_db s))) ∧
  map_Forall (λ id st, spi_storage_id (scc_peer st) = id) (cs_storages s).

(** the clock does not go below the epoch, and COMMIT does not fail *)
Definition answer_ok (B : Type) (q : CentralQuery B) : B → Prop :=
  match q in CentralQuery B return B → Prop with
  | QNow => λ now, 0 ≤ now
  | QTx => λ env, tx_commit_error env = None
  | _ => λ _, True
  end.

(** the values of a request's [u64] fields *)
Definition request_ok (request : ProtocolRequest) : Prop :=
  match request with
  | ReqControl (RegisterStorageRq _ _ _ volumes _) => Forall volume_info_ok volumes
  | ReqControl (CreateVolumeRq _ max_bytes) => 0 ≤ max_bytes
  | ReqControl (BeginUpdateRq request) => 0 ≤ bur_offset request
  | ReqControl (CommitUpdateRq request) => commit_request_ok request
  | ReqControl (ReportBundleReplicaRq events) => Forall report_event_ok events
  | ReqControl (UpdateStorageVolumeOffsetRq _ offset) => 0 ≤ offset
  | _ => True
  end.

Section Pool.
Context `{SqliteText, RowIds, !RowIdLaws, DebugResponse}.

Context (Q : CentralDb → Prop) (Hstable : tx_stable Q).

Abbreviation safe p := (keeps answer_ok (central_ok Q) p).

Lemma locked_tx_keeps {A} env (t : HandlerTx A) s :
  tx_commit_error env = None → tx_values t → central_ok Q s → central_ok Q (locked_tx env (tx_body t) s).2.
Proof.
  intros Henv Hb [[Hok HQ] Hst]. unfold locked_tx, run_tx. rewrite Henv.
  destruct (tx_begin_error env); [done|]. pose proof (handler_tx_keeps t Hb (cs_db s) Hok) as Hkeeps.
  destruct (tx_body t (cs_db s)) as [[a|e] s'] eqn:Hrun; split; try done; (split; [|]); try done; [exact (Hstable _ _ _ _ _ Hb Hok HQ Hrun)|].
  split; [apply Hok|exact Hkeeps].
Qed.

Lemma locked_read_keeps {A} env (body : Tx A) s :
  tx_reads body → central_ok Q s → central_ok Q (locked_tx_read env body s).2.
Proof.
  intros Hb [[Hok HQ] Hst]. unfold locked_tx_read, run_tx_read.
  destruct (tx_begin_error env); [done|]. specialize (Hb (cs_db s) Hok).
  destruct (body (cs_db s)) as [r s']. split; [|done]. split; [|done]. split; [apply Hok|exact Hb].
Qed.

(** [await QTx] and the transaction *)
Lemma tx_safe {A B} (t : HandlerTx A) (k : A → Central (Fs0Result B)) :
  tx_values t → (∀ a, safe (k a)) → safe (env ← await QTx; prog_try k (atomic (locked_tx env (tx_body t)))).
Proof.
  intros Hb Hk env Henv. apply keeps_try; [|done]. apply keeps_atomic. intros s Hs. by apply locked_tx_keeps.
Qed.

Lemma reading_safe {A} (f : CentralServer → A) : safe (reading f).
Proof. by apply keeps_atomic. Qed.

Lemma await_safe {A} (q : CentralQuery A) : safe (await q).
Proof. done. Qed.

Lemma send_to_all_safe event cs : safe (send_to_all event cs).
Proof. induction cs; simpl; [done|]. intros x _. done. Qed.

Lemma broadcast_safe event : safe (broadcast_event event).
Proof.
  unfold broadcast_event. apply keeps_bind; [apply reading_safe|]. intros c1.
  apply keeps_bind; [apply reading_safe|]. intros c2. apply send_to_all_safe.
Qed.

Lemma announce_safe id : safe (announce_storage id).
Proof.
  apply keeps_bind; [apply reading_safe|]. intros [p|]; [apply broadcast_safe|done].
Qed.

Lemma set_storage_ok s id peer conn :
  central_ok Q s → spi_storage_id peer = id →
  central_ok Q (set_storages s (<[id := mkStorageControlConnection peer conn]> (cs_storages s))).
Proof. intros [Hok Hst] Hid. split; [done|]. by apply map_Forall_insert_2. Qed.

(** *** Registration *)

Lemma register_client_safe token conn : safe (register_client token conn).
Proof.
  apply keeps_bind; [apply reading_safe|]. intros []; simpl; [|done]. intros s Hs. split; [exact Hs|].
  intros s' Hs'. split; [exact Hs'|]. done.
Qed.

Lemma register_storage_safe name token volumes endpoint conn :
  Forall volume_info_ok volumes → safe (register_storage name token volumes endpoint conn).
Proof.
  intros Hv. apply keeps_bind; [apply reading_safe|]. intros []; [|done]. cbn [negb].
  apply (tx_safe (HtRegister volumes)); [done|]. intros vs.
  apply keeps_bind; [by apply keeps_atomic|]. intros id. apply keeps_try.
  - apply keeps_atomic. intros s Hs. unfold mount_volumes. by destruct (existsb _ _).
  - intros _. apply keeps_bind.
    + apply keeps_atomic. intros s Hs. by apply set_storage_ok.
    + intros _. apply keeps_bind; [apply reading_safe|done].
Qed.

Lemma unregister_safe identity : safe (unregister_identity identity).
Proof.
  destruct identity as [|id|id]; simpl; [done| |].
  - intros s Hs. split; [exact Hs|]. by destruct (cs_clients s !! id).
  - intros s [Hok Hst]. split; [split; [done|by apply map_Forall_delete]|].
    assert (∀ b, safe (atomic (λ s, (tt, set_online_volumes s
      (base.filter (λ kv, kv.2 ≠ id) (cs_online_volumes s))));;
      mret (if (b : bool) then Some (StorageRemoved id) else None))) as Hrest.
    { intros b. apply keeps_bind; [by apply keeps_atomic|done]. }
    destruct (cs_storages s !! id); [|apply (Hrest false)]. intros _ _. apply (Hrest true).
Qed.

(** *** Requests *)

Lemma revoke_safe storage lease : safe (Update.revoke_if_online storage lease).
Proof.
  destruct storage as [sid|]; [|done]. unfold Update.revoke_if_online, Update.revoke_storage_upload_lease.
  apply keeps_bind; [apply reading_safe|]. by intros [c|].
Qed.

Lemma grant_safe sid lease : safe (Update.grant_upload_lease_to_specific_storage sid lease).
Proof.
  unfold Update.grant_upload_lease_to_specific_storage.
  apply keeps_try; [apply reading_safe|]. intros c. apply keeps_try; [apply await_safe|]. done.
Qed.

Lemma begin_update_safe request : 0 ≤ bur_offset request → safe (Update.begin_update request).
Proof.
  intros Ho. apply keeps_bind; [apply reading_safe|]. intros peers.
  destruct (Update.select_volume _ _ _ _) as [[sid vid]|]; [|done].
  intros env Henv now Hnow. apply keeps_try.
  { apply keeps_atomic. intros s Hs. by apply (locked_tx_keeps env (HtBeginUpdate request vid now)). }
  intros lease. apply keeps_bind; [apply grant_safe|]. intros [[]|err]; [done|].
  by apply (tx_safe (HtDeleteLease (ul_lease_id lease))).
Qed.

Lemma online_safe env (t : HandlerTx Z) s :
  tx_commit_error env = None → tx_values t → central_ok Q s →
  central_ok Q (Update.online_storage (locked_tx env (tx_body t)) s).2.
Proof.
  intros Henv Hb Hs. unfold Update.online_storage.
  pose proof (locked_tx_keeps env t s Henv Hb Hs). by destruct (locked_tx env (tx_body t) s).
Qed.

Lemma commit_update_safe request :
  commit_request_ok request → safe (Update.commit_update request).
Proof.
  intros Hreq env Henv nv _. apply keeps_try.
  { apply keeps_atomic. intros s Hs. by apply (online_safe env (HtLeaseVolume (cur_lease_id request) (cur_file_id request) nv)). }
  intros sid env2 Henv2 now Hnow nl _. apply keeps_try.
  { apply keeps_atomic. intros s Hs. by apply (locked_tx_keeps env2 (HtCommitUpdate request now nl)). }
  intros rec. apply keeps_bind; [apply revoke_safe|done].
Qed.

Lemma abort_update_safe lid fid : safe (Update.abort_update lid fid).
Proof.
  intros env Henv now Hnow. apply keeps_try.
  { apply keeps_atomic. intros s Hs. by apply (online_safe env (HtAbortUpdate lid fid now)). }
  intros sid. apply keeps_bind; [apply revoke_safe|done].
Qed.

Lemma file_id_by_path_safe path : safe (Client.file_id_by_path path).
Proof.
  intros env Henv. apply keeps_atomic. intros s Hs. by apply locked_read_keeps; [apply read_file_id_reads|].
Qed.

Lemma delete_file_safe fid : safe (Client.delete_file_by_id fid).
Proof.
  intros env Henv now Hnow. apply keeps_try; [|done]. apply keeps_atomic. intros s Hs.
  by apply (locked_tx_keeps env (HtDeleteFile fid now)).
Qed.

Lemma copy_file_safe fid path : safe (Client.copy_file_by_id fid path).
Proof.
  intros env Henv now Hnow. apply keeps_try; [|done]. apply keeps_atomic. intros s Hs.
  by apply (locked_tx_keeps env (HtCopyFile fid path now)).
Qed.

Lemma rename_file_safe fid path : safe (Client.rename_file_by_id fid path).
Proof.
  intros env Henv now Hnow. apply keeps_try; [|done]. apply keeps_atomic. intros s Hs.
  by apply (locked_tx_keeps env (HtRenameFile fid path now)).
Qed.

Lemma read_plan_safe fid : safe (Client.get_file_read_plan_by_id fid).
Proof.
  intros env Henv. apply keeps_try; [|done]. apply keeps_atomic. intros s Hs.
  apply locked_read_keeps; [|done]. apply calm_reads, read_plan_cached.
Qed.

Lemma create_volume_safe name max : 0 ≤ max → safe (Storage.create_volume name max).
Proof. intros Hm. by apply (tx_safe (HtCreateVolume name max)). Qed.

Lemma client_request_safe request :
  request_ok (ReqControl request) → safe (handle_client_request request).
Proof.
  intros Hr. destruct request; try done; cbn [handle_client_request].
  - by apply create_volume_safe.
  - by apply (tx_safe (HtListDirectory dir limit cursor)).
  - apply keeps_try; [apply file_id_by_path_safe|]. intros. apply read_plan_safe.
  - apply read_plan_safe.
  - intros env Henv. apply keeps_try; [|done]. apply keeps_atomic. intros s Hs.
    apply locked_read_keeps; [|done]. apply calm_reads, calm_is_cached, get_bundle_replicas_calm.
  - apply keeps_try; [apply file_id_by_path_safe|]. intros. apply delete_file_safe.
  - apply delete_file_safe.
  - apply keeps_try; [apply file_id_by_path_safe|]. intros. apply copy_file_safe.
  - apply copy_file_safe.
  - apply keeps_try; [apply file_id_by_path_safe|]. intros. apply rename_file_safe.
  - apply rename_file_safe.
  - intros env Henv. apply keeps_try; [|done]. apply keeps_atomic. intros s Hs.
    apply locked_read_keeps; [|done]. apply calm_reads, calm_is_cached, get_logs_calm.
  - by apply begin_update_safe.
  - by apply commit_update_safe.
  - apply abort_update_safe.
Qed.

Lemma storage_request_safe sid request :
  request_ok (ReqControl request) → safe (handle_storage_request sid request).
Proof.
  intros Hr. destruct request; try done; cbn [handle_storage_request].
  - case_bool_decide; [done|]. apply keeps_try.
    + apply keeps_atomic. intros s Hs. destruct (cs_storages s !! sid) as [st|] eqn:Hst; [|done].
      apply set_storage_ok; [done|]. by apply (proj2 Hs) in Hst.
    + intros r. apply keeps_bind; [apply announce_safe|done].
  - by apply create_volume_safe.
  - intros env Henv. apply keeps_try; [|done]. apply keeps_atomic. intros s Hs.
    destruct (Storage.reports_own_volumes _ _ _); [|done]. by apply (locked_tx_keeps env (HtReport events)).
  - apply (tx_safe (HtVolumeOffset volume_id max_volume_offset)); [done|]. intros reg.
    apply keeps_atomic. intros s Hs. destruct (cs_storages s !! sid) as [st|] eqn:Hst; [|done].
    cbv zeta. destruct (Storage.update_first_volume reg (spi_volumes (scc_peer st))); [|done].
    apply set_storage_ok; [done|]. by apply (proj2 Hs) in Hst.
Qed.

Lemma control_request_safe conn request identity :
  request_ok (ReqControl request) → safe (handle_control_request conn request identity).
Proof.
  intros Hr.
  assert (∀ m : Central (Fs0Result ControlResponse), safe m →
    safe (result ← m; mret (to_response result, identity))) as Hother
    by (intros m Hm; by apply keeps_bind).
  assert (safe (result ← match identity with
      | IdClient _ => handle_client_request request
      | IdStorage storage_id => handle_storage_request storage_id request
      | Anonymous => mret (Err Unauthorized)
      end; mret (to_response result, identity))) as Hdef.
  { apply Hother. destruct identity; [done|by apply client_request_safe|by apply storage_request_safe]. }
  destruct request; try exact Hdef; cbn [handle_control_request].
  - destruct (validate_registration_version version); [|done].
    apply keeps_bind; [apply register_client_safe|done].
  - destruct (validate_registration_version version); [|done].
    apply keeps_bind; [by apply register_storage_safe|]. intros [[id ss]|e]; [|done].
    apply keeps_bind; [apply announce_safe|done].
Qed.

Lemma serve_requests_safe conn requests identity :
  Forall request_ok requests → safe (serve_requests conn requests identity).
Proof.
  intros Hrs. revert identity. induction Hrs as [|r rs Hr _ IH]; intros identity; simpl; [done|].
  apply keeps_bind; [|intros [resp id']; apply IH]. destruct r; try done. by apply control_request_safe.
Qed.

(** what is done at the end of a connection *)
Lemma leave_safe conn identity : safe (event ← unregister_identity identity;
  match event return Central unit with Some event => broadcast_event event | None => mret tt end;;
  await (QClose conn)).
Proof.
  apply keeps_bind; [apply unregister_safe|]. intros event.
  apply keeps_bind; [by destruct event; [apply broadcast_safe|]|]. intros _. apply await_safe.
Qed.

Lemma connection_safe conn requests :
  Forall request_ok requests → safe (handle_control_connection conn requests).
Proof.
  intros Hrs. unfold handle_control_connection. apply keeps_bind; [by apply serve_requests_safe|]. apply leave_safe.
Qed.

Lemma new_server_ok tokens : Q schema_db → central_ok Q (CentralServer_new tokens).
Proof.
  intros HQ. split; [split; [split|]|]; simpl; [apply schema_db_ok|apply empty_cache_ok|exact HQ|apply map_Forall_empty].
Qed.
End Pool.

Lemma true_stable `{SqliteText, RowIds, !RowIdLaws, DebugResponse} : tx_stable (λ _, True).
Proof. done.
Qed.

(** Whatever the connected peers send and however the server's work for them is
    interleaved, every state it reaches from a fresh start has well-formed tables
    (unique keys, live references, no name both a file and a directory, numbers
    in range) and a directory cache that names only directories there are; this
    as long as no COMMIT fails. *)
Theorem central_invariant `{SqliteText, RowIds, !RowIdLaws, DebugResponse} tokens s pool :
  rtc (pool_step answer_ok
         (λ p, ∃ conn requests, Forall request_ok requests ∧ p = handle_control_connection conn requests))
      (CentralServer_new tokens, []) (s, pool) →
  db_ok (tx_db (cs_db s)) ∧ cache_ok (db_dirs (tx_db (cs_db s))) (tx_dir_cache (cs_db s)) ∧
  map_Forall (λ id st, spi_storage_id (scc_peer st) = id) (cs_storages s).
Proof.
  intros Hsteps.
  destruct (keeps_reachable answer_ok (central_ok (λ _, True))
    (λ p, ∃ conn requests, Forall request_ok requests ∧ p = handle_control_connection conn requests)
    (CentralServer_new tokens) [] s pool) as [[[[? ?] _] ?] _]; [|by apply new_server_ok|done|done|done].
  intros p (conn & requests & Hr & ->). by apply connection_safe; [apply true_stable|].
Qed.

(** ** Instances *)

#[local] Existing Instances plain_sqlite_text sequential_rowids sequential_rowid_laws.
#[local] Instance plain_debug : DebugResponse := λ _, "response".

Lemma central_invariant_witness :
  db_ok (tx_db (cs_db (set_next_id (CentralServer_new ["token"]) 2))).
Proof.
  refine (proj1 (central_invariant ["token"] (set_next_id (CentralServer_new ["token"]) 2) _ _)).
  eapply rtc_l.
  { apply step_start. exists (mkConnection 1), [ReqControl (RegisterClientRq None "token" FS0_VERSION)].
    split; [repeat constructor|reflexivity]. }
  eapply rtc_l; [eapply (step_atomic _ _ _ _ _ 0); [reflexivity|reflexivity]|].
  eapply rtc_l; [eapply (step_atomic _ _ _ _ _ 0); [reflexivity|reflexivity]|].
  apply rtc_refl.
Defined.

(** *** Without the assumption on COMMIT

    A transaction whose COMMIT fails is rolled back, but the directories it
    cached on its way stay in the cache. *)

Definition failing_commit : TxEnv := mkTxEnv None (Some DatabaseFull).

(** the cache names a directory that is not in the tables *)
Definition stale_state : CentralTx :=
  (run_tx failing_commit (Client.copy_file_tx 1 "/new/c.txt" 500) sample_tx).2.
(** and the next update under that name builds on it *)
Definition looping_state : CentralTx :=
  (run_tx tx_env_ok (Client.rename_file_tx 1 "/new/sub/c.txt" 600) stale_state).2.

Lemma looping_row : select_dir (tx_db looping_state) 3 = Some (mkDirRow 3 (Some 3) "sub").
Proof. vm_compute. reflexivity. Qed.

(** C40. After a failed COMMIT of a copy into the new directory [/new] the cache
    answers its id although the table has no such row; a copy into it is then
    refused by the foreign key, while a rename into [/new/sub] succeeds and
    stores a directory that is its own parent, on which the walk to the root
    never ends. *)
Theorem failed_commit_leaves_stale_cache :
  tx_db stale_state = sample_db ∧
  (get_id "/new" (tx_dir_cache stale_state)).1 = Some 3 ∧ (3 ∉ dir_ids (db_dirs sample_db)) ∧
  (run_tx tx_env_ok (Client.copy_file_tx 1 "/new/c.txt" 600) stale_state).1 =
    Err (Sqlite "FOREIGN KEY constraint failed") ∧
  is_ok (run_tx tx_env_ok (Client.rename_file_tx 1 "/new/sub/c.txt" 600) stale_state).1 = true ∧
  ∀ fuel, dir_path_loop fuel (tx_db looping_state) 3 [] = None.
Proof.
  split_and!; [vm_compute; reflexivity|vm_compute; reflexivity|vm_compute; set_solver|
    vm_compute; reflexivity|vm_compute; reflexivity|].
  intros fuel. pose proof looping_row as Hrow. revert Hrow. generalize (tx_db looping_state) as db.
  intros db Hrow. generalize (@nil string). induction fuel as [|fuel IH]; intros names; [done|].
  cbn [dir_path_loop]. rewrite u64_to_i64_fits by (unfold i64_max; lia). rewrite Ok_bind, Hrow.
  apply IH.
Qed.
