(* ===== verification/CentralFiles.v ===== *)
(** * Files: deletion, copies, renames, read plans and the change log

    The effect of the transactions of [request_handlers/client.rs] on the tables,
    and what their answers say. *)

From S2P Require Import Prelude Types Paths DirCache CentralDb DirTree CentralInv Sample.
From S2P Require Import CentralDir CentralTables CentralFacts CentralRuns Link Conc CentralServer.
From S2P Require Import CentralHandlers CentralUpdate CentralSafety.

Section Files.
Context `{SqliteText, RowIds, !RowIdLaws}.

Lemma ids_i64 db id : db_ok db → id ∈ file_ids db → 0 < id ≤ i64_max.
Proof.
  intros Hok Hin. pose proof (Forall_file_ids _ Hok) as Hfs. rewrite Forall_forall in Hfs.
  apply Hfs in Hin. pose proof (ok_seqs _ Hok) as (_ & [_ ?] & _). lia.
Qed.

Lemma find_file_without db id i :
  db_ok db → find_file (without_file db id) i = if bool_decide (i = id) then None else find_file db i.
Proof.
  intros Hok. pose proof (without_file_ok db id Hok) as Hok'. case_bool_decide as Hi.
  - apply find_file_None. subst. unfold file_ids. simpl.
    intros (f & Hf & Hin)%list_elem_of_fmap. apply list_elem_of_filter in Hin as [? _]. done.
  - apply option_eq. intros f. rewrite !find_file_Some by done. simpl.
    rewrite list_elem_of_filter. split; [intros [[_ ?] ?]; done|]. intros [? <-]. done.
Qed.

Lemma select_bundles_without db id i :
  i ≠ id → select_file_bundles (without_file db id) i = select_file_bundles db i.
Proof.
  intros Hi. unfold select_file_bundles. f_equal. simpl. rewrite list_filter_filter.
  apply list_filter_iff. intros b. naive_solver congruence.
Qed.

(** the bundle ids of a file, in order *)
Definition bundle_ids (db : CentralDb) (fid : Z) : list (Z * HashId) :=
  map (λ b, (fb_bundle_index b, fb_bundle_id b)) (select_file_bundles db fid).

Lemma bundle_ids_same db db' i :
  select_file_bundles db' i = select_file_bundles db i → bundle_ids db' i = bundle_ids db i.
Proof. unfold bundle_ids. by intros ->. Qed.

(** logging an event changes nothing else *)
Lemma event_added_same db kind target fid now db' :
  event_added db kind target fid now db' →
  (∀ i, find_file db' i = find_file db i) ∧ (∀ i, select_file_bundles db' i = select_file_bundles db i) ∧
  db_dirs db' = db_dirs db ∧ db_files db' = db_files db ∧ db_update_leases db' = db_update_leases db ∧
  db_bundle_replicas db' = db_bundle_replicas db ∧ db_ok db'.
Proof. intros (id & _ & -> & ?). done. Qed.

(** Deleting a file by id succeeds only for an existing file; it removes the
    file with its bundles and leases, leaves every other file and its bundles as
    they were, and logs the deletion.  A file id that is not there is NotFound; else a
    deletion is refused only for a number that does not fit or for want of an event id. *)
Theorem delete_file_effect fid now s r s' :
  db_ok (tx_db s) → 0 ≤ now → Client.delete_file_tx fid now s = (r, s') →
  (r = Ok tt → fid ∈ file_ids (tx_db s) ∧
     event_added (without_file (tx_db s) fid) KDeleted None (Some fid) now (tx_db s') ∧
     find_file (tx_db s') fid = None ∧
     (∀ i, i ≠ fid → find_file (tx_db s') i = find_file (tx_db s) i ∧
        bundle_ids (tx_db s') i = bundle_ids (tx_db s) i)) ∧
  (fid ≤ i64_max → fid ∉ file_ids (tx_db s) → r = Err NotFound) ∧
  (∀ e, r = Err e → source_refused (tx_db s) fid now e ∨ e = from_sqlite DatabaseFull).
Proof.
  intros Hok Hnow. unfold Client.delete_file_tx, delete_file_bundles_by_file_id.
  destruct (decide (fid ≤ i64_max)) as [Hm|Hm].
  2:{ unfold mbind at 1, ST_bind. unfold mbind at 1, ST_bind, st_lift, u64_to_i64.
      rewrite bool_decide_false by done. intros [= <- <-]. split_and!; [done..|]. intros e [= <-]. left. right. split; [lia|by eexists]. }
  set (s1 := mkCentralTx (set_file_bundles (tx_db s)
    (base.filter (λ b, fb_file_id b ≠ fid) (db_file_bundles (tx_db s)))) (tx_dir_cache s)).
  assert (db_ok (tx_db s1)) as Hok1.
  { eapply (delete_file_bundle_rows_ok fid (tx_db s)); [done|reflexivity]. }
  assert (without_file (tx_db s1) fid = without_file (tx_db s) fid) as Hw.
  { unfold without_file. simpl. unfold set_update_leases, set_file_bundles, set_files. simpl. f_equal.
    rewrite list_filter_filter. apply list_filter_iff. naive_solver. }
  rewrite (ST_bind_run _ _ s tt s1).
  2:{ by rewrite (ST_bind_run _ _ _ _ _ (lift_fits _ _ _ Hm)). }
  pose proof (delete_file_run fid s1 Hok1 Hm) as Hdel. rewrite Hw in Hdel.
  change (file_ids (tx_db s1)) with (file_ids (tx_db s)) in Hdel.
  case_bool_decide as Hin.
  - rewrite (ST_bind_run _ _ _ _ _ Hdel). pose proof (without_file_ok _ fid Hok) as Hok2.
    pose proof (ids_i64 _ _ Hok Hin) as Hpos.
    destruct (insert_log_run KDeleted None (Some fid) now
      (mkCentralTx (without_file (tx_db s) fid) (tx_dir_cache s1)) Hok2) as [(e & -> & Href)|(db' & -> & Hev)];
      [unfold is_i64_nonneg; simpl; lia|done| |].
    { intros [= <- <-]. split_and!; [done..|]. intros e' [= <-]. destruct Href as [->|[? ?]]; [by right|left; right; auto]. }
    intros [= <- <-]. split; [|done]. intros _. split; [done|]. split; [done|].
    apply event_added_same in Hev as (Hf & Hb & _). cbn [tx_db] in *. rewrite Hf.
    split; [by rewrite find_file_without, bool_decide_true|].
    intros i Hi. rewrite Hf, find_file_without, bool_decide_false by done. split; [done|].
    apply bundle_ids_same. rewrite Hb. by apply select_bundles_without.
  - rewrite (ST_bind_run_Err _ _ _ _ _ Hdel). intros [= <- <-]. split_and!; [done..|]. intros e [= <-]. left. left.
    split; [done|]. by apply find_file_None.
Qed.

Lemma find_file_added db path f db' i :
  db_ok db → file_added db path f db' →
  find_file db' i = if bool_decide (i = f_file_id f) then Some f else find_file db i.
Proof.
  intros Hok (new & cs & Hdb & _ & _ & _ & Hfresh & Hok' & _). case_bool_decide as Hi.
  - subst i. apply find_file_Some; [done|]. split; [|done]. rewrite Hdb. simpl. set_solver.
  - apply option_eq. intros g. rewrite !find_file_Some by done. rewrite Hdb. simpl.
    rewrite elem_of_app, list_elem_of_singleton. naive_solver.
Qed.

(** the copied rows, sorted, are the source's with another file id *)
Lemma select_bundles_copied db source target :
  db_ok db → (∀ b, b ∈ db_file_bundles db → fb_file_id b ≠ target) →
  let copy := λ b, mkFileBundleTuple target (fb_bundle_index b) (fb_bundle_id b) in
  let db' := set_file_bundles db (db_file_bundles db ++
               map copy (base.filter (λ b, fb_file_id b = source) (db_file_bundles db))) in
  select_file_bundles db' target = map copy (select_file_bundles db source) ∧
  ∀ i, i ≠ target → select_file_bundles db' i = select_file_bundles db i.
Proof.
  intros Hok Hfresh copy db'. unfold select_file_bundles. simpl. split.
  - rewrite filter_app, (proj2 (filter_nil_iff _ _)), app_nil_l.
    2:{ intros b Hb Heq. by apply (Hfresh b). }
    rewrite filter_all by (intros b (b0 & -> & _)%list_elem_of_fmap; done).
    set (rows := base.filter (λ b, fb_file_id b = source) (db_file_bundles db)).
    assert (∀ x y, bundle_index_le x y → bundle_index_le y x → fb_bundle_index x = fb_bundle_index y) as Hanti
      by (unfold bundle_index_le; lia).
    apply (sorted_perm_unique bundle_index_le).
    + apply StronglySorted_merge_sort; intros b *; unfold bundle_index_le; lia.
    + assert (StronglySorted bundle_index_le (merge_sort bundle_index_le rows)) as Hs.
      { apply StronglySorted_merge_sort; intros b *; unfold bundle_index_le; lia. }
      induction Hs as [|x l Hs IH Hx]; simpl; constructor; [done|]. by apply Forall_fmap.
    + rewrite merge_sort_Permutation. apply Permutation_map. by rewrite merge_sort_Permutation.
    + intros x y Hx Hy Hxy Hyx. rewrite merge_sort_Permutation in Hx, Hy.
      apply list_elem_of_fmap in Hx as (x0 & -> & Hx%list_elem_of_filter).
      apply list_elem_of_fmap in Hy as (y0 & -> & Hy%list_elem_of_filter).
      apply (Hanti (copy x0) (copy y0) Hxy) in Hyx. simpl in Hyx.
      assert (x0 = y0) as ->; [|done]. destruct Hx as [Hfx Hx], Hy as [Hfy Hy].
      eapply (NoDup_map_inj bundle_key); [by apply ok_bundle_keys, Hok|done..|].
      unfold bundle_key. congruence.
  - intros i Hi. f_equal. rewrite filter_app, (proj2 (filter_nil_iff _ (map _ _))), app_nil_r; [done|].
    intros b (b0 & -> & _)%list_elem_of_fmap Heq. by apply Hi.
Qed.

Lemma target_path cs name :
  Forall (λ c, valid_component c = true) cs → path_of_target (render cs) name = render (cs ++ [name]).
Proof.
  intros Hv. pose proof (join_render_valid cs name Hv) as Hj. unfold join_fs0_path in Hj.
  unfold path_of_target. repeat case_match; repeat case_bool_decide; congruence.
Qed.

(** the rows of the source again, for the target *)
Definition bundles_copied (db : CentralDb) (source target : Z) : CentralDb :=
  set_file_bundles db (db_file_bundles db ++
    map (λ b, mkFileBundleTuple target (fb_bundle_index b) (fb_bundle_id b))
      (base.filter (λ b, fb_file_id b = source) (db_file_bundles db))).

(** an event that cannot be logged *)
Lemma log_is_refused db id existing path now e :
  log_refused now e → source_refused db id now e ∨ target_refused db existing path e.
Proof. intros [->|[Hn Hm]]; [right; right; by left|left; right; auto]. Qed.

(** what a copy that succeeds did, table by table, and why one does not *)
Lemma copy_file_tx_run source path now s :
  db_ok (tx_db s) → cache_ok (db_dirs (tx_db s)) (tx_dir_cache s) → 0 ≤ now →
  ∃ r s', Client.copy_file_tx source path now s = (r, s') ∧
  match r with
  | Ok record => ∃ g f db1 cs, find_file (tx_db s) source = Some g ∧ file_added (tx_db s) path f db1 ∧
    f_size_bytes f = f_size_bytes g ∧ f_compressed_size_bytes f = f_compressed_size_bytes g ∧
    f_created_at_ms f = now ∧ f_updated_at_ms f = now ∧
    path = render (cs ++ [f_name f]) ∧ Forall (λ c, valid_component c = true) (cs ++ [f_name f]) ∧
    event_added (bundles_copied db1 source (f_file_id f)) KCreated (Some (render cs, f_name f))
      (Some (f_file_id f)) now (tx_db s') ∧ record = record_of cs f
  | Err e => source_refused (tx_db s) source now e ∨ target_refused (tx_db s) None path e
  end.
Proof.
  intros Hok Hc Hn. unfold Client.copy_file_tx.
  destruct (split_fs0_path_dir_and_name path) as [[dir name]|e] eqn:Hsplit; [|exists (Err e), s; split; [done|right; by left]].
  rewrite (ST_bind_run _ _ s (dir, name) s) by done.
  destruct (copy_file_run source path now s Hok Hc Hn) as (r & db1 & c1 & Hcopy & Hc1 & Hr).
  destruct r as [f|e]; [|rewrite (ST_bind_run_Err _ _ _ _ _ Hcopy); eexists (Err _), _; by split].
  rewrite (ST_bind_run _ _ _ _ _ Hcopy).
  destruct Hr as (Hadd & Hsm & g & Hg & Hsz & Hcsz & Hcr & Hup & _).
  destruct (file_added_facts _ _ _ _ Hok Hadd) as (Hok1 & Hid & Hin & Hfresh & Hsub).
  pose proof Hadd as (new & cs & Hdb & Hpath & Hv & Hat & _).
  destruct (copy_bundles_run source (f_file_id f) (mkCentralTx db1 c1)) as [Hcb Hok2]; [done..|lia|done|done|].
  rewrite (ST_bind_run _ _ _ _ _ Hcb). cbn [tx_db tx_dir_cache] in *.
  change (set_file_bundles db1 _) with (bundles_copied db1 source (f_file_id f)) in *.
  apply split_dir_and_name_render in Hsplit as (cs' & Hpath' & -> & Hv').
  assert (cs' ++ [name] = cs ++ [f_name f]) as Hcs by (apply render_inj; [done|done|congruence]).
  apply app_inj_tail in Hcs as [-> ->].
  destruct (insert_log_run KCreated (Some (render cs, f_name f)) (Some (f_file_id f)) now
    (mkCentralTx (bundles_copied db1 source (f_file_id f)) c1)) as [(e & He & Href)|(db3 & Hlog & Hev)];
    [done|unfold is_i64_nonneg; simpl; lia|done| |].
  { rewrite (ST_bind_run_Err _ _ _ _ _ He). eexists (Err _), _. split; [done|]. by apply log_is_refused. }
  rewrite (ST_bind_run _ _ _ _ _ Hlog). cbn [tx_db tx_dir_cache] in *.
  pose proof (event_added_same _ _ _ _ _ _ Hev) as (_ & _ & Hd3 & _).
  destruct (file_record_run f cs (mkCentralTx db3 c1) (db_dirs db1)) as (c3 & Hrec & _);
    [done|by apply ok_dirs|by eapply cache_ok_mono|done|].
  rewrite Hrec. eexists (Ok _), _. split; [done|]. exists g, f, db1, cs. by split_and!.
Qed.

Lemma copy_outcome source path now s record s' :
  db_ok (tx_db s) → cache_ok (db_dirs (tx_db s)) (tx_dir_cache s) → 0 ≤ now →
  Client.copy_file_tx source path now s = (Ok record, s') →
  ∃ g f db1 cs, find_file (tx_db s) source = Some g ∧ file_added (tx_db s) path f db1 ∧
    f_size_bytes f = f_size_bytes g ∧ f_compressed_size_bytes f = f_compressed_size_bytes g ∧
    f_created_at_ms f = now ∧ f_updated_at_ms f = now ∧
    path = render (cs ++ [f_name f]) ∧ Forall (λ c, valid_component c = true) (cs ++ [f_name f]) ∧
    event_added (bundles_copied db1 source (f_file_id f)) KCreated (Some (render cs, f_name f))
      (Some (f_file_id f)) now (tx_db s') ∧ record = record_of cs f.
Proof.
  intros Hok Hc Hn Hrun. destruct (copy_file_tx_run source path now s Hok Hc Hn) as (r & s1 & Hrun' & Hr).
  rewrite Hrun in Hrun'. by injection Hrun' as <- <-.
Qed.

(** A copy that succeeds makes a new file at the target path, with an id of its
    own, the size of the source and the same bundles at the same indexes; the
    source and every other file keep their row and their bundles, the creation
    is logged, and the answer describes the new file. *)
Theorem copy_file_effect source path now s record s' :
  db_ok (tx_db s) → cache_ok (db_dirs (tx_db s)) (tx_dir_cache s) → 0 ≤ now →
  Client.copy_file_tx source path now s = (Ok record, s') →
  ∃ g f, find_file (tx_db s) source = Some g ∧ (f_file_id f ∉ file_ids (tx_db s)) ∧
    record = mkFileRecord (f_file_id f) path (f_size_bytes g) (f_compressed_size_bytes g) now now ∧
    file_of_path (tx_db s') path = Ok f ∧
    bundle_ids (tx_db s') (f_file_id f) = bundle_ids (tx_db s) source ∧
    (∀ i, i ≠ f_file_id f → find_file (tx_db s') i = find_file (tx_db s) i ∧
                            bundle_ids (tx_db s') i = bundle_ids (tx_db s) i) ∧
    (∃ cs e, path = render (cs ++ [f_name f]) ∧
             db_file_events (tx_db s') = db_file_events (tx_db s) ++ [e] ∧
             log_of e = mkFileChangeLog (e_event_id e) KCreated (Some (f_file_id f)) (Some path) now).
Proof.
  intros Hok Hc Hn Hrun.
  destruct (copy_outcome source path now s record s' Hok Hc Hn Hrun)
    as (g & f & db1 & cs & Hg & Hadd & Hsz & Hcsz & Hcr & Hup & Hp & Hv & Hev & ->).
  destruct (file_added_facts _ _ _ _ Hok Hadd) as (Hok1 & _ & Hin & Hfresh & _).
  pose proof (λ i, find_file_added _ _ _ _ i Hok Hadd) as Hfind.
  destruct (select_bundles_copied db1 source (f_file_id f) Hok1 Hfresh) as [Hsel Hother].
  pose proof (event_added_same _ _ _ _ _ _ Hev) as (Hf3 & Hb3 & Hd3 & Hfl3 & _ & _ & Hok3).
  destruct Hadd as (new & cs' & Hdb & Hpath & Hv' & Hat & Hni & _).
  assert (cs' ++ [f_name f] = cs ++ [f_name f]) as [-> _]%app_inj_tail by (apply render_inj; [done|done|congruence]).
  exists g, f. split_and!; [done|done|by unfold record_of; rewrite Hp, Hsz, Hcsz, Hcr, Hup| | | |].
  - rewrite Hp. apply file_at_path; [done| |by rewrite Hd3|done].
    rewrite Hfl3. simpl. rewrite Hdb. simpl. set_solver.
  - unfold bundle_ids. rewrite Hb3. setoid_rewrite Hsel. rewrite map_map. by rewrite Hdb.
  - intros i Hi. split.
    { rewrite Hf3. change (find_file (bundles_copied _ _ _) i) with (find_file db1 i). by rewrite Hfind, bool_decide_false. }
    apply bundle_ids_same. rewrite Hb3. etransitivity; [by apply Hother|]. by rewrite Hdb.
  - exists cs. destruct Hev as (eid & _ & -> & _). eexists. split; [done|]. split; [simpl; by rewrite Hdb|].
    unfold log_of. simpl. rewrite target_path, Hp; [done|]. apply (Forall_app _ cs [f_name f]), Hv.
Qed.

(** a change of one row that keeps its id *)
Lemma find_file_mapped db db' id h g i :
  db_ok db → db_ok db' → db_files db' = db_files (update_file id h db) → (∀ f, f_file_id (h f) = f_file_id f) →
  find_file db id = Some g →
  find_file db' i = if bool_decide (i = id) then Some (h g) else find_file db i.
Proof.
  intros Hok Hok' Hfs Hh Hg. pose proof Hg as [Hin Hid]%find_file_Some; [|done]. case_bool_decide as Hi.
  - subst i. apply find_file_Some; [done|]. split; [|by rewrite Hh]. rewrite Hfs. simpl.
    apply list_elem_of_fmap. exists g. by rewrite bool_decide_true.
  - apply option_eq. intros k. rewrite !find_file_Some, Hfs by done. simpl. rewrite list_elem_of_fmap. split.
    + intros [(k0 & -> & Hk0) Hki]. case_bool_decide as Heq; [|done]. rewrite Hh in Hki. congruence.
    + intros [Hk <-]. split; [|done]. exists k. by rewrite bool_decide_false.
Qed.

(** a file whose key changed is no longer found at its old path *)
Lemma old_path_gone db db' new id dir name now g p cs :
  db_ok db → db_ok db' → db' = update_file id (moved dir name now) (set_dirs db (db_dirs db ++ new)) →
  find_file db id = Some g → file_of_path db p = Ok g → dir_at (db_dirs db') dir cs →
  p ≠ render (cs ++ [name]) → file_of_path db' p = Err NotFound.
Proof.
  intros Hok Hok' Hdb' Hg Hp Hat Hne. pose proof Hg as [Hin Hid]%find_file_Some; [|done].
  unfold file_of_path in *. destruct (split_fs0_path_dir_and_name p) as [[d n]|e] eqn:Hsplit; [|done].
  rewrite Ok_bind in *. apply Result_bind_Ok in Hp as (did & Hd & Hf%ok_or_Ok).
  apply find_file_by_name_Some in Hf as [_ Hkey]; [|done].
  apply dir_id_of_path_Ok in Hd as (ds & -> & Hv & Hatd); [|by apply ok_dirs].
  assert (db_dirs db ⊆ db_dirs db') as Hsub by (rewrite Hdb'; simpl; set_solver).
  rewrite (proj2 (dir_id_of_path_Ok _ _ did (ok_dirs _ Hok'))) by (exists ds; eauto using dir_at_mono).
  rewrite Ok_bind. destruct (find_file_by_name db' did n) as [h|] eqn:Hh; [exfalso|done].
  apply find_file_by_name_Some in Hh as [Hh Hkeyh]; [|done]. rewrite Hdb' in Hh. simpl in Hh.
  apply list_elem_of_fmap in Hh as (h0 & -> & Hh0). case_bool_decide as Heq.
  - apply Hne. unfold file_key in Hkeyh. simpl in Hkeyh. injection Hkeyh as <- <-.
    apply split_dir_and_name_render in Hsplit as (ds' & -> & Hren & Hv').
    apply render_inj in Hren; [|done|by apply Forall_app in Hv' as [? _]]. subst ds'.
    by rewrite (dir_at_path_unique _ _ _ _ (ok_dirs _ Hok') (dir_at_mono _ _ _ _ Hsub Hatd) Hat).
  - apply Heq. rewrite <- Hid. f_equal.
    eapply (NoDup_map_inj file_key); [by apply ok_file_keys, Hok|done..|congruence].
Qed.

(** what a rename that succeeds did, table by table, and why one does not *)
Lemma rename_file_tx_run fid path now s :
  db_ok (tx_db s) → cache_ok (db_dirs (tx_db s)) (tx_dir_cache s) → 0 ≤ now →
  ∃ r s', Client.rename_file_tx fid path now s = (r, s') ∧
  match r with
  | Ok record => ∃ f db1 cs, file_moved (tx_db s) fid path now f db1 ∧
    path = render (cs ++ [f_name f]) ∧ Forall (λ c, valid_component c = true) (cs ++ [f_name f]) ∧
    event_added db1 KMoved (Some (render cs, f_name f)) (Some fid) now (tx_db s') ∧ record = record_of cs f
  | Err e => source_refused (tx_db s) fid now e ∨ target_refused (tx_db s) (Some fid) path e
  end.
Proof.
  intros Hok Hc Hn. unfold Client.rename_file_tx.
  destruct (split_fs0_path_dir_and_name path) as [[dir name]|e] eqn:Hsplit; [|exists (Err e), s; split; [done|right; by left]].
  rewrite (ST_bind_run _ _ s (dir, name) s) by done.
  destruct (rename_file_run fid path now s Hok Hc Hn) as (r & db1 & c1 & Hren & Hc1 & Hr).
  destruct r as [f|e]; [|rewrite (ST_bind_run_Err _ _ _ _ _ Hren); eexists (Err _), _; by split].
  rewrite (ST_bind_run _ _ _ _ _ Hren). destruct Hr as (Hmoved & Hm).
  pose proof Hmoved as (new & cs & g & Hg & Hf & Hdb & Hpath & Hv & Hat & Hok1 & _).
  pose proof Hg as [Hin Hid]%find_file_Some; [|done].
  apply split_dir_and_name_render in Hsplit as (cs' & Hpath' & -> & Hv').
  assert (cs' ++ [name] = cs ++ [f_name f]) as Hcs by (apply render_inj; [done|done|congruence]).
  apply app_inj_tail in Hcs as [-> ->].
  pose proof (file_id_nonneg _ _ Hok Hin) as Hpos.
  destruct (insert_log_run KMoved (Some (render cs, f_name f)) (Some fid) now
    (mkCentralTx db1 c1)) as [(e & He & Href)|(db3 & Hlog & Hev)];
    [done|unfold is_i64_nonneg; simpl; lia|done| |].
  { rewrite (ST_bind_run_Err _ _ _ _ _ He). eexists (Err _), _. split; [done|]. by apply log_is_refused. }
  rewrite (ST_bind_run _ _ _ _ _ Hlog). cbn [tx_db tx_dir_cache] in *.
  pose proof (event_added_same _ _ _ _ _ _ Hev) as (_ & _ & Hd3 & _).
  destruct (file_record_run f cs (mkCentralTx db3 c1) (db_dirs db1)) as (c3 & Hrec & _);
    [done|by apply ok_dirs|eapply cache_ok_mono; [|exact Hc1]; rewrite Hdb; simpl; set_solver|done|].
  rewrite Hrec. eexists (Ok _), _. split; [done|]. exists f, db1, cs. by split_and!.
Qed.

Lemma rename_outcome fid path now s record s' :
  db_ok (tx_db s) → cache_ok (db_dirs (tx_db s)) (tx_dir_cache s) → 0 ≤ now →
  Client.rename_file_tx fid path now s = (Ok record, s') →
  ∃ f db1 cs, file_moved (tx_db s) fid path now f db1 ∧
    path = render (cs ++ [f_name f]) ∧ Forall (λ c, valid_component c = true) (cs ++ [f_name f]) ∧
    event_added db1 KMoved (Some (render cs, f_name f)) (Some fid) now (tx_db s') ∧ record = record_of cs f.
Proof.
  intros Hok Hc Hn Hrun. destruct (rename_file_tx_run fid path now s Hok Hc Hn) as (r & s1 & Hrun' & Hr).
  rewrite Hrun in Hrun'. by injection Hrun' as <- <-.
Qed.

(** A rename that succeeds moves an existing file to the target path, where it is
    found from then on and no longer at its old path; its id, sizes, creation
    time and bundles stay, as does every other file, and the move is logged. *)
Theorem rename_file_effect fid path now s record s' :
  db_ok (tx_db s) → cache_ok (db_dirs (tx_db s)) (tx_dir_cache s) → 0 ≤ now →
  Client.rename_file_tx fid path now s = (Ok record, s') →
  ∃ g f, find_file (tx_db s) fid = Some g ∧ f = moved (f_dir_id f) (f_name f) now g ∧
    record = mkFileRecord fid path (f_size_bytes g) (f_compressed_size_bytes g) (f_created_at_ms g) now ∧
    file_of_path (tx_db s') path = Ok f ∧
    (∀ p, file_of_path (tx_db s) p = Ok g → p ≠ path → file_of_path (tx_db s') p = Err NotFound) ∧
    (∀ i, i ≠ fid → find_file (tx_db s') i = find_file (tx_db s) i) ∧
    (∀ i, bundle_ids (tx_db s') i = bundle_ids (tx_db s) i) ∧
    (∃ e, db_file_events (tx_db s') = db_file_events (tx_db s) ++ [e] ∧
          log_of e = mkFileChangeLog (e_event_id e) KMoved (Some fid) (Some path) now).
Proof.
  intros Hok Hc Hn Hrun.
  destruct (rename_outcome fid path now s record s' Hok Hc Hn Hrun) as (f & db1 & cs & Hmoved & Hp & Hv & Hev & ->).
  destruct Hmoved as (new & cs' & g & Hg & Hf & Hdb & Hpath & Hv' & Hat & Hok1 & _).
  assert (cs' ++ [f_name f] = cs ++ [f_name f]) as [-> _]%app_inj_tail by (apply render_inj; [done|done|congruence]).
  pose proof Hg as [Hin Hid]%find_file_Some; [|done].
  pose proof (event_added_same _ _ _ _ _ _ Hev) as (Hf3 & Hb3 & Hd3 & Hfl3 & _ & _ & Hok3).
  assert (∀ p, file_of_path (tx_db s') p = file_of_path db1 p) as Hfp.
  { intros p. unfold file_of_path, find_file_by_name. by rewrite Hd3, Hfl3. }
  assert (f_file_id f = fid) as Hff by (rewrite Hf; simpl; exact Hid).
  assert (∀ i, find_file db1 i = if bool_decide (i = fid) then Some f else find_file (tx_db s) i) as Hfind.
  { intros i. rewrite Hf. apply find_file_mapped; try done. by rewrite Hdb. }
  exists g, f. split_and!; [done|done| | | | | |].
  - unfold record_of. rewrite Hp, Hff. by rewrite Hf.
  - rewrite Hfp, Hp. apply file_at_path; [done| |done|done].
    apply (find_file_Some db1 fid f Hok1). by rewrite Hfind, bool_decide_true.
  - intros p Hfpath Hne. rewrite Hfp. eapply (old_path_gone (tx_db s) db1); eauto. congruence.
  - intros i Hi. by rewrite Hf3, Hfind, bool_decide_false.
  - intros i. apply bundle_ids_same. rewrite Hb3. by rewrite Hdb.
  - destruct Hev as (eid & _ & -> & _). eexists. split; [by rewrite Hdb|].
    unfold log_of. simpl. rewrite target_path, Hp; [done|]. apply (Forall_app _ cs [f_name f]), Hv.
Qed.
End Files.

(** ** Instances *)

#[local] Existing Instances plain_sqlite_text sequential_rowids sequential_rowid_laws.

Lemma delete_file_effect_witness :
  let s' := (Client.delete_file_tx 1 700 sample_tx).2 in
  find_file (tx_db s') 1 = None ∧ find_file (tx_db s') 2 = Some sample_new_file.
Proof.
  destruct (delete_file_effect 1 700 sample_tx (Ok tt) (Client.delete_file_tx 1 700 sample_tx).2
    sample_db_ok ltac:(lia)) as [H _]; [apply run_value; vm_compute; reflexivity|].
  destruct (H eq_refl) as (_ & _ & H1 & H2). split; [exact H1|].
  etransitivity; [exact (proj1 (H2 2 ltac:(lia)))|reflexivity].
Defined.

Lemma copy_file_effect_witness :
  let s' := (Client.copy_file_tx 1 "/new/c.txt" 700 sample_tx).2 in
  ∃ f, file_of_path (tx_db s') "/new/c.txt" = Ok f ∧
       bundle_ids (tx_db s') (f_file_id f) = [(0, sample_hash)].
Proof.
  destruct (copy_file_effect 1 "/new/c.txt" 700 sample_tx (mkFileRecord 3 "/new/c.txt" 10 5 700 700)
    (Client.copy_file_tx 1 "/new/c.txt" 700 sample_tx).2 sample_db_ok (empty_cache_ok _) ltac:(lia))
    as (g & f & _ & _ & _ & H1 & H2 & _); [apply run_value; vm_compute; reflexivity|].
  exists f. split; [exact H1|]. etransitivity; [exact H2|reflexivity].
Defined.

Lemma rename_file_effect_witness :
  let s' := (Client.rename_file_tx 1 "/new/c.txt" 700 sample_tx).2 in
  file_of_path (tx_db s') "/docs/a.txt" = Err NotFound ∧ bundle_ids (tx_db s') 1 = [(0, sample_hash)].
Proof.
  destruct (rename_file_effect 1 "/new/c.txt" 700 sample_tx (mkFileRecord 1 "/new/c.txt" 10 5 100 700)
    (Client.rename_file_tx 1 "/new/c.txt" 700 sample_tx).2 sample_db_ok (empty_cache_ok _) ltac:(lia))
    as (g & f & Hg & _ & _ & _ & H1 & _ & H2 & _); [apply run_value; vm_compute; reflexivity|].
  split; [|etransitivity; [exact (H2 1)|reflexivity]].
  apply H1; [|done]. assert (Some g = Some sample_file) as [= ->] by (rewrite <- Hg; reflexivity). vm_compute. reflexivity.
Defined.
