(* ===== verification/CentralReads.v ===== *)
(** * What the central server answers to readers

    The read plan of a file names, bundle by bundle in order, the mounted
    replicas; the change log can be followed page by page without a gap. *)

From S2P Require Import Prelude Types Paths DirCache CentralDb DirTree CentralInv Sample.
From S2P Require Import CentralDir CentralTables CentralFacts CentralRuns Link Conc CentralServer.
From S2P Require Import CentralHandlers CentralUpdate CentralSafety CentralFiles.

Section Plans.
Context `{SqliteText, RowIds, !RowIdLaws}.

(** the replicas of a bundle on mounted volumes, by volume id *)
Definition online_replicas (online : gmap Z Z) (db : CentralDb) (b : HashId) : list BundleReplicaRow :=
  base.filter (λ r, is_Some (online !! br_volume_id r)) (select_replicas db [b]).

Definition location (online : gmap Z Z) (r : BundleReplicaRow) : ReplicaLocation :=
  mkReplicaLocation (default 0 (online !! br_volume_id r)) (br_volume_id r).

(** what the plan says of one bundle of the file *)
Definition bundle_ref (online : gmap Z Z) (db : CentralDb) (row : FileBundleTuple)
  : option FileBundleRef :=
  r ← head (online_replicas online db (fb_bundle_id row));
  Some (mkFileBundleRef (fb_bundle_index row) (br_raw_len r) (br_compressed_len r) (fb_bundle_id row)
          (map (location online) (online_replicas online db (fb_bundle_id row)))).

(** the same read off the loop's map *)
Definition extend_target (online : gmap Z Z) (o : option BundleReadTarget) (rows : list BundleReplicaRow)
  : option BundleReadTarget :=
  match rows with
  | [] => o
  | r :: _ =>
      let t := default (mkBundleReadTarget (br_raw_len r) (br_compressed_len r) []) o in
      Some (mkBundleReadTarget (brt_raw_len t) (brt_compressed_len t)
              (brt_replicas t ++ map (location online) rows))
  end.

Definition counts (online : gmap Z Z) (b : HashId) (r : BundleReplicaRow) : Prop :=
  br_bundle_id r = b ∧ is_Some (online !! br_volume_id r).
#[export] Instance counts_dec online b r : Decision (counts online b r).
Proof. unfold counts. apply _. Defined.

Lemma add_read_targets_lookup online rows m b :
  foldl (Client.add_read_target online) m rows !! b =
  extend_target online (m !! b) (base.filter (counts online b) rows).
Proof.
  revert m. induction rows as [|r rows IH]; intros m; simpl; [done|]. rewrite IH.
  unfold Client.add_read_target. destruct (decide (counts online b r)) as [Hc|Hc].
  - rewrite filter_cons_True by done. destruct Hc as [<- [sid Hon]]. rewrite Hon, lookup_insert_eq.
    assert (location online r = mkReplicaLocation sid (br_volume_id r)) as Hloc
      by (unfold location; by rewrite Hon).
    destruct (base.filter _ rows) as [|r' rs]; simpl; rewrite Hloc; [done|]. by rewrite <- app_assoc.
  - rewrite filter_cons_False by done. destruct (online !! br_volume_id r) as [sid|] eqn:Hon; [|done].
    rewrite lookup_insert_ne; [done|]. intros Hb. apply Hc. split; [done|]. by rewrite Hon.
Qed.

Lemma select_replicas_one db batch b :
  db_ok db → b ∈ batch →
  base.filter (λ r, br_bundle_id r = b) (select_replicas db batch) = select_replicas db [b].
Proof.
  intros Hok Hb. apply (sorted_perm_unique replica_le).
  - apply StronglySorted_filter, StronglySorted_merge_sort; intros x *; unfold replica_le; lia.
  - apply StronglySorted_merge_sort; intros x *; unfold replica_le; lia.
  - unfold select_replicas. rewrite !merge_sort_Permutation, list_filter_filter.
    erewrite list_filter_iff; [reflexivity|]. intros r. rewrite list_elem_of_singleton. naive_solver.
  - intros x y [Hx [Hxin _]%select_replicas_in]%list_elem_of_filter
      [Hy [Hyin _]%select_replicas_in]%list_elem_of_filter Hxy Hyx.
    eapply (NoDup_map_inj replica_key); [by apply ok_replica_keys, Hok|done..|].
    unfold replica_key. rewrite Hx, Hy. f_equal. unfold replica_le in *. rewrite Hx, Hy in *. lia.
Qed.

Lemma select_replicas_none db batch b :
  b ∉ batch → base.filter (λ r, br_bundle_id r = b) (select_replicas db batch) = [].
Proof. intros Hb. apply filter_nil_iff. intros r [_ Hr]%select_replicas_in <-. done. Qed.

Lemma NoDup_chunks_fuel {A} n fuel (l : list A) :
  (0 < n)%nat → (length l ≤ fuel)%nat → concat (chunks_fuel fuel n l) = l.
Proof.
  intros Hn. revert l. induction fuel as [|fuel IH]; intros [|y l] Hl; simpl in *; try done; try lia.
  rewrite IH by (rewrite length_drop; simpl; lia). apply take_drop.
Qed.

Lemma replicas_of_one db ids b :
  db_ok db → NoDup ids → b ∈ ids →
  base.filter (λ r, br_bundle_id r = b) (replicas_of db ids) = select_replicas db [b].
Proof.
  intros Hok Hnd Hb. unfold replicas_of.
  assert (concat (chunks BUNDLE_ID_QUERY_BATCH_SIZE ids) = ids) as Hcat.
  { apply NoDup_chunks_fuel; [unfold BUNDLE_ID_QUERY_BATCH_SIZE|]; lia. }
  rewrite <- Hcat in Hnd, Hb. clear Hcat.
  induction (chunks BUNDLE_ID_QUERY_BATCH_SIZE ids) as [|batch batches IH]; [by apply elem_of_nil in Hb|].
  simpl in *. rewrite filter_app. apply NoDup_app in Hnd as (_ & Hdis & Hnd).
  assert (∀ bs, b ∉ concat bs →
    base.filter (λ r, br_bundle_id r = b) (concat (map (select_replicas db) bs)) = []) as Hnil.
  { intros bs. induction bs as [|b1 bs IHb]; simpl; [done|]. rewrite elem_of_app. intros Hn.
    rewrite filter_app, select_replicas_none, IHb; tauto. }
  apply elem_of_app in Hb as [Hb|Hb].
  - by rewrite select_replicas_one, Hnil, app_nil_r by auto.
  - rewrite IH by done. rewrite select_replicas_none; [done|]. intros Hb'. by apply (Hdis b).
Qed.

Lemma plan_bundle_run online db ids row :
  db_ok db → NoDup ids → fb_bundle_id row ∈ ids →
  Client.plan_bundle (foldl (Client.add_read_target online) ∅ (replicas_of db ids)) (bundle_row_of row) =
  ok_or ChunkNotReady (bundle_ref online db row).
Proof.
  intros Hok Hnd Hin. unfold Client.plan_bundle, bundle_ref. cbn [bundle_row_of fbw_bundle_id fbw_bundle_index].
  rewrite add_read_targets_lookup, lookup_empty.
  assert (base.filter (counts online (fb_bundle_id row)) (replicas_of db ids) =
          online_replicas online db (fb_bundle_id row)) as ->.
  { unfold online_replicas. rewrite <- (replicas_of_one db ids) by done. rewrite list_filter_filter.
    apply list_filter_iff. intros r. unfold counts. tauto. }
  by destruct (online_replicas online db (fb_bundle_id row)).
Qed.

Lemma collect_ok_or {E A B C} (e : E) (f : B → Result E C) (g : A → option C) (h : A → B) xs :
  (∀ x, x ∈ xs → f (h x) = ok_or e (g x)) → collect f (map h xs) = ok_or e (mapM g xs).
Proof.
  induction xs as [|x xs IH]; intros Hf; simpl; [done|].
  rewrite Hf by (by left). rewrite IH by (intros y Hy; apply Hf; by right).
  destruct (g x); simpl; [|done]. by destruct (mapM g xs).
Qed.

Lemma read_plan_run online fid s f cs :
  db_ok (tx_db s) → cache_ok (db_dirs (tx_db s)) (tx_dir_cache s) → fid ≤ i64_max →
  find_file (tx_db s) fid = Some f → dir_at (db_dirs (tx_db s)) (f_dir_id f) cs →
  (Client.read_plan_tx online fid s).1 =
    (bundles ← ok_or ChunkNotReady (mapM (bundle_ref online (tx_db s)) (select_file_bundles (tx_db s) fid));
     Ok (mkFileReadPlan fid (render (cs ++ [f_name f])) (f_size_bytes f) bundles)).
Proof.
  intros Hok Hc Hfid Hf Hat. unfold Client.read_plan_tx.
  rewrite (ST_bind_run _ _ s f s) by (rewrite get_file_by_id_run by done; by rewrite Hf).
  destruct (file_record_run f cs s _ eq_refl (ok_dirs _ Hok) Hc Hat) as (c' & Hrec & _).
  rewrite (ST_bind_run _ _ _ _ _ Hrec).
  rewrite (ST_bind_run _ _ _ _ _ (get_file_bundles_run fid (mkCentralTx (tx_db s) c') Hok Hfid)).
  rewrite (ST_bind_run _ _ _ _ _ (get_bundle_replicas_run _ (mkCentralTx (tx_db s) c') Hok)).
  cbn [tx_db]. set (rows := select_file_bundles (tx_db s) fid).
  rewrite (collect_ok_or ChunkNotReady _ (bundle_ref online (tx_db s)) bundle_row_of).
  2:{ intros row Hrow. apply plan_bundle_run; [done|unfold Client.unique_bundle_ids; apply NoDup_elements|].
      unfold Client.unique_bundle_ids. apply elem_of_elements, elem_of_list_to_set. rewrite map_map.
      by apply (list_elem_of_fmap_2 fb_bundle_id). }
  unfold mbind, ST_bind, Result_bind, st_lift. apply find_file_Some in Hf as [_ Hid]; [|done].
  destruct (mapM _ rows); simpl; [|done]. by rewrite Hid.
Qed.

(** C26. The read plan of a file gives its path and size and its bundles in index
    order, each with every replica that is on a mounted volume, by volume id
    and under the storage that mounted it, and with the lengths of the first; when
    some bundle has no mounted replica the answer is ChunkNotReady, and when the
    file does not exist it is NotFound. *)
Theorem read_plan_spec online fid s :
  db_ok (tx_db s) → cache_ok (db_dirs (tx_db s)) (tx_dir_cache s) → fid ≤ i64_max →
  match (Client.read_plan_tx online fid s).1 with
  | Ok plan => ∃ f, find_file (tx_db s) fid = Some f ∧
      file_of_path (tx_db s) (plan_path plan) = Ok f ∧ plan_size plan = f_size_bytes f ∧
      Forall2 (λ row ref,
        fbr_bundle_index ref = fb_bundle_index row ∧ fbr_bundle_id ref = fb_bundle_id row ∧
        fbr_replicas ref = map (location online) (online_replicas online (tx_db s) (fb_bundle_id row)) ∧
        fbr_replicas ref ≠ [] ∧
        ∃ r, head (online_replicas online (tx_db s) (fb_bundle_id row)) = Some r ∧
             fbr_raw_len ref = br_raw_len r ∧ fbr_compressed_len ref = br_compressed_len r)
        (select_file_bundles (tx_db s) fid) (plan_bundles plan)
  | Err e =>
      (e = NotFound ∧ find_file (tx_db s) fid = None) ∨
      (e = ChunkNotReady ∧ ∃ row, row ∈ select_file_bundles (tx_db s) fid ∧
         online_replicas online (tx_db s) (fb_bundle_id row) = [])
  end.
Proof.
  intros Hok Hc Hfid. destruct (find_file (tx_db s) fid) as [f|] eqn:Hf.
  2:{ unfold Client.read_plan_tx. rewrite (ST_bind_run_Err _ _ s NotFound s); [by left|].
      rewrite get_file_by_id_run by done. by rewrite Hf. }
  pose proof Hf as [Hin _]%find_file_Some; [|done]. destruct (file_dir_at _ f Hok Hin) as (cs & Hat).
  rewrite (read_plan_run online fid s f cs) by done.
  destruct (mapM _ _) as [bundles|] eqn:Hm; cbn [ok_or]; [rewrite Ok_bind|rewrite Err_bind].
  - exists f. split_and!; [done| |done|].
    + apply file_at_path; [done..|]. apply Forall_app. split; [by eapply (dir_at_valid _ _ _ (ok_dirs _ Hok))|].
      pose proof (ok_files _ Hok) as Hfs. rewrite Forall_forall in Hfs. apply Forall_singleton. by destruct (Hfs f Hin) as (_ & _ & ? & _).
    + apply mapM_Some in Hm. eapply Forall2_impl; [exact Hm|]. intros row ref Hr. unfold bundle_ref in Hr.
      destruct (online_replicas online (tx_db s) (fb_bundle_id row)) as [|r rs] eqn:Hon; [done|].
      simpl in Hr. injection Hr as <-. simpl. split_and!; [done..|]. by exists r.
  - right. split; [done|]. apply mapM_None, Exists_exists in Hm as (row & Hrow & Hr). exists row. split; [done|].
    unfold bundle_ref in Hr. by destruct (online_replicas _ _ _).
Qed.
End Plans.

(** ** The change log *)

Section Log.
Context `{SqliteText, RowIds, !RowIdLaws}.

(** a client that asks for the events after the last one it has seen, until the
    server says there is no more *)
Fixpoint follow_log (fuel : nat) (after limit : Z) : Tx (list FileChangeLog) :=
  match fuel with
  | O => st_fail (Internal "out of fuel")
  | S fuel =>
      page ← CentralTables.get_file_change_logs after limit;
      match fcls_next_event_id page with
      | None => mret (fcls_operations page)
      | Some next => rest ← follow_log fuel next limit; mret (fcls_operations page ++ rest)
      end
  end.

Definition events_after (db : CentralDb) (after : Z) : list FileEventTuple :=
  base.filter (λ e, after < e_event_id e) (db_file_events db).

(** dropping a prefix of the sorted events is asking after its last id *)
Lemma events_after_drop db after n e :
  db_ok db → last (take n (events_after db after)) = Some e →
  events_after db (e_event_id e) = drop n (events_after db after).
Proof.
  intros Hok Hlast. unfold events_after in *.
  assert (StronglySorted event_lt (base.filter (λ e, after < e_event_id e) (db_file_events db))) as Hs
    by apply StronglySorted_filter, ok_event_order, Hok.
  assert (base.filter (λ x, e_event_id e < e_event_id x) (db_file_events db) =
          base.filter (λ x, e_event_id e < e_event_id x)
            (base.filter (λ x, after < e_event_id x) (db_file_events db))) as ->.
  { rewrite list_filter_filter. apply list_filter_iff. intros x. split; [|tauto]. intros Hx. split; [done|].
    apply last_Some in Hlast as (l' & Hl'). assert (e ∈ take n
      (base.filter (λ e, after < e_event_id e) (db_file_events db))) as Hin by (rewrite Hl'; set_solver).
    apply elem_of_take in Hin as (i & Hin & _). apply list_elem_of_lookup_2, list_elem_of_filter in Hin as [? _]. lia. }
  revert Hs Hlast. generalize (base.filter (λ e, after < e_event_id e) (db_file_events db)) as l. clear.
  intros l Hs Hlast. rewrite <- (take_drop n l) in Hs |- * at 1.
  apply last_Some in Hlast as (l' & Hl'). rewrite Hl' in *. apply StronglySorted_app in Hs as (Hcross & Hs1 & Hs2).
  rewrite filter_app, (proj2 (filter_nil_iff _ _)), app_nil_l.
  - apply filter_all. intros x Hx. apply (Hcross e x); [set_solver|done].
  - intros x Hx Hlt. apply elem_of_app in Hx as [Hx|Hx%list_elem_of_singleton]; [|subst; lia].
    apply StronglySorted_app in Hs1 as (Hc & _). specialize (Hc x e Hx ltac:(set_solver)). unfold event_lt in Hc. lia.
Qed.

(** Following the change log from an event id, whatever the page size, gives
    every later event exactly once, in the order they were logged. *)
Theorem follow_log_complete fuel after limit s :
  db_ok (tx_db s) → after ≤ i64_max → (length (db_file_events (tx_db s)) < fuel)%nat →
  follow_log fuel after limit s = (Ok (map log_of (events_after (tx_db s) after)), s).
Proof.
  intros Hok Hafter Hfuel.
  assert (length (events_after (tx_db s) after) < fuel)%nat as Hlen.
  { eapply Nat.le_lt_trans; [apply length_filter|done]. }
  clear Hfuel. revert after Hafter Hlen. induction fuel as [|fuel IH]; intros after Hafter Hlen; [lia|].
  simpl. rewrite (ST_bind_run _ _ _ _ _ (get_logs_run after limit s Hok Hafter)).
  unfold log_page. cbn [fcls_next_event_id fcls_operations]. fold (events_after (tx_db s) after).
  set (n := zclamp 1 1024 limit). assert (1 ≤ n) as Hn by (unfold n, zclamp; lia).
  rewrite length_map. case_bool_decide as Hmore.
  - rewrite firstn_map.
    destruct (last (take (Z.to_nat n) (events_after (tx_db s) after))) as [e|] eqn:Hlast.
    2:{ apply last_None in Hlast. destruct (events_after (tx_db s) after); simpl in *; [lia|].
        destruct (Z.to_nat n) eqn:?; [lia|done]. }
    rewrite (fmap_last log_of), Hlast. cbn [fmap option_fmap option_map log_of fcl_event_id].
    pose proof (events_after_drop _ _ _ _ Hok Hlast) as Hdrop.
    assert (e_event_id e ≤ i64_max) as He.
    { apply last_Some in Hlast as (l' & Hl').
      assert (e ∈ take (Z.to_nat n) (events_after (tx_db s) after)) as Hin by (rewrite Hl'; set_solver).
      apply elem_of_take in Hin as (i & Hin & _). apply list_elem_of_lookup_2, list_elem_of_filter in Hin as [_ Hin].
      pose proof (Forall_event_ids _ Hok) as Hids. rewrite Forall_forall in Hids.
      apply (list_elem_of_fmap_2 e_event_id), Hids in Hin. pose proof (ok_seqs _ Hok) as (_ & _ & _ & [_ ?]). lia. }
    rewrite (ST_bind_run _ _ _ _ _ (IH _ He ltac:(rewrite Hdrop, length_drop; lia))), Hdrop.
    unfold mret, ST_ret. do 2 f_equal. by rewrite <- map_app, take_drop.
  - unfold mret, ST_ret. do 2 f_equal. apply take_ge. rewrite length_map. lia.
Qed.
End Log.

(** ** Instances *)

#[local] Existing Instances plain_sqlite_text sequential_rowids sequential_rowid_laws.

Lemma read_plan_spec_witness :
  match (Client.read_plan_tx {[ 2 := 9 ]} 1 sample_tx).1 with
  | Ok plan => map fbr_replicas (plan_bundles plan) = [[mkReplicaLocation 9 2]]
  | Err _ => False
  end.
Proof.
  pose proof (read_plan_spec {[ 2 := 9 ]} 1 sample_tx sample_db_ok (empty_cache_ok _)
    ltac:(unfold i64_max; lia)) as H.
  assert ((Client.read_plan_tx {[ 2 := 9 ]} 1 sample_tx).1 =
    Ok (mkFileReadPlan 1 "/docs/a.txt" 10 [mkFileBundleRef 0 10 5 sample_hash [mkReplicaLocation 9 2]]))
    as Heq by (vm_compute; reflexivity).
  rewrite Heq in *. destruct H as (f & _ & _ & _ & H).
  apply Forall2_length in H. simpl in *. reflexivity.
Defined.

Lemma follow_log_complete_witness :
  (follow_log 2 0 1 sample_tx).1 = Ok [mkFileChangeLog 1 KCreated (Some 1) (Some "/docs/a.txt") 150].
Proof.
  rewrite (follow_log_complete 2 0 1 sample_tx sample_db_ok); [vm_compute; reflexivity| |].
  - unfold i64_max. lia.
  - simpl. lia.
Defined.
