(* ===== verification/CentralRegistry.v ===== *)
(** * Who may do what: registration, roles and reports

    The registry of the central server run by run: what a registration changes and
    that its undoing gives the registry back, which requests a connection may
    make in which role, that a failed client request leaves the tables alone,
    and how the reports of a storage move the replica table. *)

From S2P Require Import Prelude Types Paths DirCache CentralDb DirTree CentralInv Sample.
From S2P Require Import CentralDir CentralTables CentralFacts CentralRuns Link Conc CentralServer.
From S2P Require Import CentralHandlers CentralUpdate CentralSafety.

(** ** Failed requests *)

Section Failures.
Context `{SqliteText, RowIds, DebugResponse}.

Definition tables (s : CentralServer) : CentralDb := tx_db (cs_db s).

(** the run leaves the tables as they were, always or when it fails *)
Definition reads_only {A} (p : Central A) : Prop := ∀ o n s, tables (out_state (run o n p s)) = tables s.
Definition fails_clean {A} (p : Central (Fs0Result A)) : Prop := ∀ o n s e,
  out_value (run o n p s) = Err e → tables (out_state (run o n p s)) = tables s.

Lemma reads_clean {A} (p : Central (Fs0Result A)) : reads_only p → fails_clean p.
Proof. intros Hp o n s e _. apply Hp. Qed.

Lemma ret_reads {A} (a : A) : reads_only (mret a).
Proof. done. Qed.

Lemma await_reads {A} (q : CentralQuery A) : reads_only (await q).
Proof. done. Qed.

Lemma atomic_reads {A} (block : Block A) : (∀ s, tables (block s).2 = tables s) → reads_only (atomic block).
Proof. intros Hb o n s. simpl. specialize (Hb s). by destruct (block s). Qed.

Lemma bind_reads {A B} (p : Central A) (f : A → Central B) :
  reads_only p → (∀ a, reads_only (f a)) → reads_only (p ≫= f).
Proof. intros Hp Hf o n s. rewrite run_bind. cbv zeta. cbn [out_state]. by rewrite Hf, Hp. Qed.

Lemma bind_clean {A B} (p : Central A) (f : A → Central (Fs0Result B)) :
  reads_only p → (∀ a, fails_clean (f a)) → fails_clean (p ≫= f).
Proof.
  intros Hp Hf o n s e. rewrite run_bind. cbv zeta. cbn [out_state out_value]. intros He.
  by rewrite (Hf _ _ _ _ _ He), Hp.
Qed.

(** a step that fails cleanly, and nothing can fail after it succeeded *)
Lemma try_clean {A B} (p : Central (Fs0Result A)) (f : A → Central (Fs0Result B)) :
  fails_clean p → (∀ a o n s, is_ok (out_value (run o n (f a) s)) = true) → fails_clean (prog_try f p).
Proof.
  intros Hp Hf o n s e. unfold prog_try. rewrite run_bind. cbv zeta. cbn [out_state out_value].
  destruct (out_value (run o n p s)) as [a|e'] eqn:Hv.
  - intros He. pose proof (Hf a o (n + length (out_asked (run o n p s)))%nat (out_state (run o n p s))) as Hok.
    rewrite He in Hok. done.
  - intros [= ->]. by apply (Hp _ _ _ _ Hv).
Qed.

Lemma try_reads_clean {A B} (p : Central (Fs0Result A)) (f : A → Central (Fs0Result B)) :
  reads_only p → (∀ a, fails_clean (f a)) → fails_clean (prog_try f p).
Proof. intros Hp Hf. apply bind_clean; [done|]. intros [a|e]; [apply Hf|by apply reads_clean]. Qed.

Lemma reading_reads {A} (f : CentralServer → A) : reads_only (reading f).
Proof. by apply atomic_reads. Qed.

(** an early return rolls back *)
Lemma locked_tx_clean {A} env (body : Tx A) : fails_clean (atomic (locked_tx env body)).
Proof.
  intros o n s e. simpl. unfold locked_tx, run_tx. destruct (tx_begin_error env); [done|].
  destruct (body (cs_db s)) as [[a|e'] s']; [|done]. by destruct (tx_commit_error env).
Qed.

Lemma locked_read_tables {A} env (body : Tx A) s : tables (locked_tx_read env body s).2 = tables s.
Proof.
  unfold locked_tx_read, run_tx_read. destruct (tx_begin_error env); [done|]. by destruct (body (cs_db s)).
Qed.

Lemma locked_read_reads {A} env (body : Tx A) : reads_only (atomic (locked_tx_read env body)).
Proof. apply atomic_reads, locked_read_tables. Qed.

Lemma online_clean env (body : Tx Z) : fails_clean (atomic (Update.online_storage (locked_tx env body))).
Proof.
  intros o n s e. simpl. unfold Update.online_storage. pose proof (locked_tx_clean env body o n s) as Hc.
  simpl in Hc. destruct (locked_tx env body s) as [[v|e'] s']; simpl in *; [done|]. intros _. by eapply Hc.
Qed.

(** the first step of a commit only looks the volume up *)
Lemma online_lookup_reads env lid fid now :
  reads_only (atomic (Update.online_storage (locked_tx env
    (st_map_err (Update.not_found_to_conflict lid fid) (active_update_lease_volume lid fid now))))).
Proof.
  apply atomic_reads. intros s. unfold Update.online_storage, locked_tx, run_tx.
  destruct (tx_begin_error env); [done|]. unfold st_map_err.
  assert (∃ r, active_update_lease_volume lid fid now (cs_db s) = (r, cs_db s)) as [r ->].
  { unfold active_update_lease_volume, mbind, ST_bind, st_lift, query.
    repeat (case_match; simplify_eq; eauto). }
  destruct r; simpl; [|done]. by destruct (tx_commit_error env).
Qed.

Lemma revoke_ok {A} storage lid (a : A) o n s :
  is_ok (out_value (run o n (Update.revoke_if_online storage lid;; mret (Ok a) : Central (Fs0Result A)) s)) = true.
Proof. rewrite run_bind. done. Qed.

(** C27. A client's request that is answered with an error has left the tables as
    they were; [BeginUpdate] alone may have created the empty file it could then not
    get a lease for. *)
Theorem failed_request_keeps_tables request o n s e :
  (∀ r, request ≠ BeginUpdateRq r) →
  out_value (run o n (handle_client_request request) s) = Err e →
  tables (out_state (run o n (handle_client_request request) s)) = tables s.
Proof.
  intros Hne. revert o n s e. change (fails_clean (handle_client_request request)).
  assert (∀ path, reads_only (Client.file_id_by_path path)) as Hpath.
  { intros path. apply bind_reads; [apply await_reads|]. intros. apply locked_read_reads. }
  assert (∀ fid, fails_clean (Client.delete_file_by_id fid)) as Hdel.
  { intros. do 2 (apply bind_clean; [apply await_reads|intros]). by apply try_clean; [apply locked_tx_clean|]. }
  assert (∀ fid path, fails_clean (Client.copy_file_by_id fid path)) as Hcopy.
  { intros. do 2 (apply bind_clean; [apply await_reads|intros]). by apply try_clean; [apply locked_tx_clean|]. }
  assert (∀ fid path, fails_clean (Client.rename_file_by_id fid path)) as Hren.
  { intros. do 2 (apply bind_clean; [apply await_reads|intros]). by apply try_clean; [apply locked_tx_clean|]. }
  assert (∀ fid, fails_clean (Client.get_file_read_plan_by_id fid)) as Hplan.
  { intros. apply bind_clean; [apply await_reads|intros env].
    apply try_clean; [|done]. apply reads_clean, atomic_reads. intros s.
    apply (locked_read_tables env (Client.read_plan_tx (cs_online_volumes s) fid)). }
  destruct request; try (by apply reads_clean, ret_reads); cbn [handle_client_request]; try done.
  - apply bind_clean; [apply await_reads|intros]. by apply try_clean; [apply locked_tx_clean|].
  - apply bind_clean; [apply await_reads|intros]. by apply try_clean; [apply locked_tx_clean|].
  - apply try_reads_clean; [apply Hpath|apply Hplan].
  - apply bind_clean; [apply await_reads|intros].
    apply try_clean; [apply reads_clean, locked_read_reads|done].
  - apply try_reads_clean; [apply Hpath|apply Hdel].
  - apply try_reads_clean; [apply Hpath|intros; apply Hcopy].
  - apply try_reads_clean; [apply Hpath|intros; apply Hren].
  - apply bind_clean; [apply await_reads|intros].
    apply try_clean; [apply reads_clean, locked_read_reads|done].
  - by destruct (Hne request).
  - do 2 (apply bind_clean; [apply await_reads|intros]).
    apply try_reads_clean; [apply online_lookup_reads|]. intros sid.
    do 3 (apply bind_clean; [apply await_reads|intros]).
    apply try_clean; [apply locked_tx_clean|]. intros. apply revoke_ok.
  - do 2 (apply bind_clean; [apply await_reads|intros]).
    apply try_clean; [apply online_clean|]. intros. apply revoke_ok.
Qed.
End Failures.

(** ** Roles *)

Section Roles.
Context `{SqliteText, RowIds, DebugResponse}.

Definition is_registration (request : ControlRequest) : bool :=
  match request with
  | RegisterClientRq _ _ _ | RegisterStorageRq _ _ _ _ _ => true
  | _ => false
  end.

(** the requests of each role *)
Definition client_request (request : ControlRequest) : bool :=
  match request with
  | CentralStatusRq | CreateVolumeRq _ _ | ListDirectoryRq _ _ _ | GetFileReadPlanRq _
  | GetFileReadPlanByIdRq _ | HasBundleRq _ _ | DeleteFileRq _ | DeleteFileByIdRq _ | CopyFileRq _ _
  | CopyFileByIdRq _ _ | RenameFileRq _ _ | RenameFileByIdRq _ _ | GetFileChangeLogsRq _ _
  | BeginUpdateRq _ | CommitUpdateRq _ | AbortUpdateRq _ _ => true
  | _ => false
  end.
Definition storage_request (storage_id : Z) (request : ControlRequest) : bool :=
  match request with
  | CreateVolumeRq _ _ | ValidateClientAuthRq _ _ | ReportBundleReplicaRq _
  | UpdateStorageVolumeOffsetRq _ _ => true
  | UpdateStorageEndpointRq id _ => bool_decide (id = storage_id)
  | _ => false
  end.
Definition role_allows (identity : ControlConnectionIdentity) (request : ControlRequest) : bool :=
  match identity with
  | Anonymous => false
  | IdClient _ => client_request request
  | IdStorage storage_id => storage_request storage_id request
  end.

(** C28. A request that is not one of the connection's role (any request, before a
    registration) is answered Unauthorized, and a registration from another
    version with the version it takes; both without reading or changing any
    state, and without a message to anybody. *)
Theorem unauthorized_requests o n connection request identity s :
  (is_registration request = false → role_allows identity request = false →
   run o n (handle_control_request connection request identity) s =
     mkOutcome (RespError Unauthorized, identity) s []) ∧
  (∀ name token version, version ≠ FS0_VERSION → request = RegisterClientRq name token version →
   run o n (handle_control_request connection request identity) s =
     mkOutcome (RespError (Fs0Version FS0_VERSION version), identity) s []) ∧
  (∀ name token version volumes endpoint, version ≠ FS0_VERSION →
   request = RegisterStorageRq name token version volumes endpoint →
   run o n (handle_control_request connection request identity) s =
     mkOutcome (RespError (Fs0Version FS0_VERSION version), identity) s []).
Proof.
  split_and!.
  - intros Hreg Hrole. destruct identity as [|cid|sid].
    + by destruct request.
    + by destruct request.
    + destruct request; try done. simpl in Hrole. apply bool_decide_eq_false in Hrole.
      cbn [handle_control_request handle_storage_request]. by rewrite bool_decide_true.
  - intros name token version Hv ->. cbn [handle_control_request]. unfold validate_registration_version.
    by rewrite bool_decide_false.
  - intros name token version volumes endpoint Hv ->. cbn [handle_control_request].
    unfold validate_registration_version. by rewrite bool_decide_false.
Qed.
End Roles.

(** ** Registration of storages *)

Section Mounts.
Context `{SqliteText, RowIds, !RowIdLaws}.

Definition reported_ids (volumes : list StorageVolumeInfo) : list Z := map svi_volume_id volumes.

Lemma foldl_mount (volumes : list StorageVolumeInfo) sid (m : gmap Z Z) v :
  foldl (λ m v, <[svi_volume_id v := sid]> m) m volumes !! v =
  if bool_decide (v ∈ reported_ids volumes) then Some sid else m !! v.
Proof.
  revert m. induction volumes as [|u us IH]; intros m; simpl; [done|]. rewrite IH.
  destruct (decide (v ∈ reported_ids us)) as [Hin|Hin].
  - rewrite !bool_decide_true; [done|set_solver|done].
  - rewrite (bool_decide_false (v ∈ reported_ids us)) by done. destruct (decide (v = svi_volume_id u)) as [->|Hne].
    + rewrite lookup_insert_eq, bool_decide_true; [done|set_solver].
    + rewrite lookup_insert_ne by done. by rewrite bool_decide_false by set_solver.
Qed.

Lemma mount_volumes_run sid volumes s :
  mount_volumes sid volumes s =
  if bool_decide (Forall (λ v, cs_online_volumes s !! v = None) (reported_ids volumes))
  then (Ok tt, set_online_volumes s
          (foldl (λ m v, <[svi_volume_id v := sid]> m) (cs_online_volumes s) volumes))
  else (Err VolumeAlreadyMounted, s).
Proof.
  unfold mount_volumes. destruct (existsb _ volumes) eqn:He.
  - rewrite bool_decide_false; [done|]. intros Hf. apply existsb_exists in He as (v & Hin & Hv%bool_decide_eq_true).
    rewrite Forall_forall in Hf. specialize (Hf (svi_volume_id v)). rewrite Hf in Hv; [by destruct Hv|].
    apply (list_elem_of_fmap_2 svi_volume_id). by apply list_elem_of_In.
  - rewrite bool_decide_true; [done|]. apply Forall_forall. intros i (v & -> & Hin)%list_elem_of_fmap.
    assert (¬ is_Some (cs_online_volumes s !! svi_volume_id v)) as Hn; [|by apply eq_None_not_Some].
    apply existsb_false in He. rewrite Forall_forall in He. by apply (bool_decide_eq_false_1 _ (He v Hin)).
Qed.

Lemma register_volumes_ids volumes s vs s' :
  register_volumes volumes s = (Ok vs, s') → reported_ids vs = reported_ids volumes.
Proof.
  revert s vs s'. induction volumes as [|v volumes IH]; intros s vs s' Hrun.
  { by injection Hrun as <- _. }
  cbn [register_volumes] in Hrun. apply ST_bind_Ok in Hrun as (reg & s1 & _ & Hrun).
  apply ST_bind_Ok in Hrun as (u & s2 & _ & Hrun). case_bool_decide; [done|].
  apply ST_bind_Ok in Hrun as (rest & s3 & Hrest & Hrun). injection Hrun as <- _. simpl.
  f_equal. by eapply IH.
Qed.

Lemma locked_tx_registry {A} env (body : Tx A) s :
  let s' := (locked_tx env body s).2 in
  cs_storages s' = cs_storages s ∧ cs_online_volumes s' = cs_online_volumes s ∧
  cs_clients s' = cs_clients s ∧ cs_next_id s' = cs_next_id s ∧ cs_auth_tokens s' = cs_auth_tokens s.
Proof. unfold locked_tx. by destruct (run_tx env body (cs_db s)). Qed.

(** what a registration that answered [r] did *)
Definition registered (name : string) (volumes : list StorageVolumeInfo) (endpoint : list Byte.byte)
    (token : string) (conn : Connection) (s : CentralServer)
    (r : Fs0Result (Z * list StoragePeerInfo)) (s' : CentralServer) : Prop :=
  match r with
  | Ok (sid, peers) =>
      sid = cs_next_id s ∧ token ∈ cs_auth_tokens s ∧
      (∀ v, v ∈ reported_ids volumes → cs_online_volumes s !! v = None) ∧
      (∀ v, cs_online_volumes s' !! v =
            if bool_decide (v ∈ reported_ids volumes) then Some sid else cs_online_volumes s !! v) ∧
      (∃ vols, reported_ids vols = reported_ids volumes ∧ cs_storages s' =
         <[sid := mkStorageControlConnection (mkStoragePeerInfo sid name vols endpoint) conn]>
           (cs_storages s)) ∧
      cs_clients s' = cs_clients s ∧ peers = storage_peers_snapshot s'
  | Err e =>
      cs_storages s' = cs_storages s ∧ cs_online_volumes s' = cs_online_volumes s ∧
      cs_clients s' = cs_clients s
  end.

Lemma register_storage_run name token volumes endpoint conn o n s :
  let out := run o n (register_storage name token volumes endpoint conn) s in
  registered name volumes endpoint token conn s (out_value out) (out_state out).
Proof.
  unfold register_storage, reading, await, ask, atomic. cbn [mbind Prog_bind prog_bind run].
  destruct (token_allowed s token) eqn:Htok; [|done].
  cbn [negb prog_bind prog_try mbind Prog_bind run].
  set (env := o n TxEnv QTx). clearbody env.
  pose proof (locked_tx_registry env (register_volumes volumes) s) as (Hst & Hon & Hcl & Hid & _).
  destruct (locked_tx env (register_volumes volumes) s) as [[vs|e] s1] eqn:Hl; simpl in Hst, Hon, Hcl, Hid;
    [|by split_and!].
  assert (reported_ids vs = reported_ids volumes) as Hids.
  { unfold locked_tx, run_tx in Hl. destruct (tx_begin_error env); [done|].
    destruct (register_volumes volumes (cs_db s)) as [[vs'|e] s2] eqn:Hr; [|done].
    destruct (tx_commit_error env); [done|]. injection Hl as <- _. by eapply register_volumes_ids. }
  cbn [prog_bind run prog_try mbind Prog_bind next_id].
  set (s2 := set_next_id s1 _). rewrite Hid.
  rewrite mount_volumes_run, Hids. case_bool_decide as Hfree; [|by split_and!].
  cbn. split_and!; try done.
  - unfold token_allowed in Htok. apply existsb_exists in Htok as (t & Hin & <-%bool_decide_eq_true).
    by apply list_elem_of_In.
  - intros v Hv. rewrite Forall_forall in Hfree. specialize (Hfree v Hv). simpl in Hfree. by rewrite Hon in Hfree.
  - intros v. rewrite foldl_mount, Hids. by rewrite <- Hon.
  - exists vs. split; [done|]. by rewrite <- Hst.
Qed.

(** A storage is registered with a fresh id and exactly when its token is
    configured, the database accepts its volumes, and none of them is mounted;
    then all of them, and no other volume, are mounted by it.  A registration that
    fails leaves the registry as it was. *)
Theorem register_storage_spec name token volumes endpoint conn o n s :
  let out := run o n (register_storage name token volumes endpoint conn) s in
  registered name volumes endpoint token conn s (out_value out) (out_state out).
Proof. apply register_storage_run. Qed.

(** no storage is registered under the id, nor has a volume mounted *)
Definition unused_id (s : CentralServer) (sid : Z) : Prop :=
  cs_storages s !! sid = None ∧ ∀ v, cs_online_volumes s !! v ≠ Some sid.

(** Ending a registration gives the registry back: when the id the storage got
    was unused, the storages and the mounted volumes are again what they were
    before it registered. *)
Theorem unregister_undoes_register name token volumes endpoint conn o n o' n' s sid peers :
  let s1 := out_state (run o n (register_storage name token volumes endpoint conn) s) in
  let s2 := out_state (run o' n' (unregister_storage sid) s1) in
  out_value (run o n (register_storage name token volumes endpoint conn) s) = Ok (sid, peers) →
  unused_id s sid →
  cs_storages s2 = cs_storages s ∧ cs_online_volumes s2 = cs_online_volumes s ∧
  cs_clients s2 = cs_clients s ∧
  out_value (run o' n' (unregister_storage sid) s1) = Some (StorageRemoved sid).
Proof.
  intros s1 s2 Hreg [Hfresh Hnone].
  pose proof (register_storage_run name token volumes endpoint conn o n s) as Hout. cbv zeta in Hout.
  fold s1 in Hout. rewrite Hreg in Hout. destruct Hout as (_ & _ & Hfree & Hon & (vols & _ & Hst) & Hcl & _).
  assert (delete sid (cs_storages s1) = cs_storages s) as Hdel by (by rewrite Hst, delete_insert_id).
  assert (base.filter (λ kv, kv.2 ≠ sid) (cs_online_volumes s1) = cs_online_volumes s) as Hfil.
  { apply map_eq. intros v. apply option_eq. intros i. rewrite map_lookup_filter_Some, Hon. simpl.
    case_bool_decide as Hv.
    - rewrite Hfree by done. naive_solver.
    - split; [tauto|]. intros Hi. split; [done|]. intros ->. by apply (Hnone v). }
  assert (cs_storages s1 !! sid = Some (mkStorageControlConnection
    (mkStoragePeerInfo sid name vols endpoint) conn)) as Hlook by (by rewrite Hst, lookup_insert_eq).
  subst s2. unfold unregister_storage, atomic, await, ask. cbn [mbind Prog_bind prog_bind run].
  rewrite Hlook. cbn. rewrite Hdel, Hfil. by split_and!.
Qed.
End Mounts.

(** ** Reports of bundle replicas *)

Section Reports.
Context `{SqliteText, RowIds, !RowIdLaws}.

(** the replica (bundle, volume) after one event *)
Definition apply_report (b : HashId) (v : Z) (current : option BundleReplicaRow)
    (event : BundleReplicaEvent) : option BundleReplicaRow :=
  if bool_decide (bre_bundle_id event = b ∧ bre_volume_id event = v) then
    match bre_kind event with
    | Stored => raw ← bre_raw_len event; comp ← bre_compressed_len event;
                Some (mkBundleReplicaRow b v raw comp)
    | Deleted => None
    end
  else current.

Lemma report_event_run event s s' :
  db_ok (tx_db s) → report_event_ok event → Storage.report_event event s = (Ok tt, s') →
  db_ok (tx_db s') ∧ tx_db s' = set_bundle_replicas (tx_db s) (db_bundle_replicas (tx_db s')) ∧
  tx_dir_cache s' = tx_dir_cache s ∧
  ∀ b v, find_replica (tx_db s') b v = apply_report b v (find_replica (tx_db s) b v) event.
Proof.
  intros Hok [Hr Hc] Hrun. unfold Storage.report_event in Hrun. unfold apply_report.
  destruct (bre_kind event) eqn:Hk.
  - destruct (bre_raw_len event) as [raw|]; [|done]. destruct (bre_compressed_len event) as [comp|]; [|done].
    change (insert_bundle_replica (bre_bundle_id event) (bre_volume_id event) raw comp s = (Ok tt, s')) in Hrun.
    destruct (insert_bundle_replica_run (bre_bundle_id event) (bre_volume_id event) raw comp s Hok Hr Hc)
      as [[e He]|(db' & Hi & Hok' & _ & _ & _ & Hdb & Hself & Hother)]; [by rewrite He in Hrun|].
    rewrite Hi in Hrun. injection Hrun as <-. cbn [tx_db tx_dir_cache]. split_and!; [done..|].
    intros b v. case_bool_decide as Hbv; [by destruct Hbv as [<- <-]|]. apply Hother. intros [= -> ->]. by apply Hbv.
  - destruct (delete_bundle_replica_run (bre_bundle_id event) (bre_volume_id event) s Hok)
      as [[e He]|(db' & Hi & Hok' & Hdb & Hself & Hother)]; [by rewrite He in Hrun|].
    rewrite Hi in Hrun. injection Hrun as <-. cbn [tx_db tx_dir_cache]. split_and!; [done..|].
    intros b v. case_bool_decide as Hbv; [by destruct Hbv as [<- <-]|]. apply Hother. intros [= -> ->]. by apply Hbv.
Qed.

Lemma report_events_run events s s' :
  db_ok (tx_db s) → Forall report_event_ok events →
  Storage.report_bundle_replica_tx events s = (Ok tt, s') →
  tx_db s' = set_bundle_replicas (tx_db s) (db_bundle_replicas (tx_db s')) ∧
  ∀ b v, find_replica (tx_db s') b v = foldl (apply_report b v) (find_replica (tx_db s) b v) events.
Proof.
  unfold Storage.report_bundle_replica_tx. intros Hok Hev. revert s Hok.
  induction Hev as [|e es He Hes IH]; intros s Hok Hrun; simpl in Hrun.
  - injection Hrun as <-. split; [by destruct s as [[]]|done].
  - apply ST_bind_Ok in Hrun as ([] & s1 & He1 & Hrun).
    apply report_event_run in He1 as (Hok1 & Hdb1 & _ & Hf1); [|done..].
    destruct (IH s1 Hok1 Hrun) as [Hdb Hf]. split.
    + rewrite Hdb at 1. rewrite Hdb1. done.
    + intros b v. simpl. by rewrite Hf, Hf1.
Qed.

(** A storage may report only on volumes it has mounted: a report that names
    another volume is refused and changes nothing.  An accepted report moves the
    replica table event by event, in order (stored adds or replaces the row,
    deleted removes it), and no other table; a refused one leaves the tables. *)
Theorem report_bundle_replica_spec sid events o n s :
  let out := run o n (Storage.report_bundle_replica sid events) s in
  db_ok (tables s) → Forall report_event_ok events →
  (¬ Forall (λ e, cs_online_volumes s !! bre_volume_id e = Some sid) events →
     out_value out = Err InvalidRequest ∧ out_state out = s) ∧
  (∀ r, out_value out = Ok r →
     tables (out_state out) = set_bundle_replicas (tables s) (db_bundle_replicas (tables (out_state out))) ∧
     ∀ b v, find_replica (tables (out_state out)) b v =
            foldl (apply_report b v) (find_replica (tables s) b v) events) ∧
  (∀ e, out_value out = Err e → tables (out_state out) = tables s).
Proof.
  intros out Hok Hev. subst out. unfold Storage.report_bundle_replica, await, ask, atomic.
  cbn [mbind Prog_bind prog_bind prog_try run]. set (env := o n TxEnv QTx). clearbody env.
  destruct (Storage.reports_own_volumes s sid events) eqn:Hown.
  - split.
    { intros Hn. exfalso. apply Hn. unfold Storage.reports_own_volumes in Hown. apply Forall_forall.
      intros e He. apply forallb_forall with (x := e) in Hown; [|by apply list_elem_of_In].
      by apply bool_decide_eq_true in Hown. }
    unfold locked_tx, run_tx. destruct (tx_begin_error env); [done|].
    destruct (Storage.report_bundle_replica_tx events (cs_db s)) as [[[]|e] s1] eqn:Hrun; [|done].
    destruct (tx_commit_error env); [done|]. cbn. split; [|done]. intros _ _.
    by apply report_events_run.
  - cbn. by split_and!.
Qed.
End Reports.

(** ** Instances *)

#[local] Existing Instances plain_sqlite_text sequential_rowids sequential_rowid_laws.
#[local] Instance plain_debug : DebugResponse := λ _, "response".

Definition calm_oracle : Oracle CentralQuery := λ _ _ q,
  match q in CentralQuery B return B with
  | QNow => 700
  | QTx => tx_env_ok
  | QRpc _ _ => Err NotFound
  | QSendEvent _ _ => Ok tt
  | QClose _ => tt
  end.

(** a server with the storage 9 mounting volume 1 *)
Definition sample_server : CentralServer :=
  mkCentralServer ["token"] 10 ∅
    {[ 9 := mkStorageControlConnection (mkStoragePeerInfo 9 "storage" [mkStorageVolumeInfo 1 "disk" 1000 20 false] [])
              (mkConnection 5) ]} {[ 1 := 9 ]} sample_tx.

Lemma failed_request_keeps_tables_witness :
  tables (out_state (run calm_oracle 0 (handle_client_request (CopyFileRq "/docs/a.txt" "/docs/b.txt"))
    sample_server)) = sample_db.
Proof.
  apply (failed_request_keeps_tables (CopyFileRq "/docs/a.txt" "/docs/b.txt") calm_oracle 0 sample_server
    (AlreadyExists "/docs/b.txt")); [done|]. vm_compute. reflexivity.
Defined.

Lemma unregister_undoes_register_witness :
  let s1 := out_state (run calm_oracle 0 (register_storage "other" "token"
    [mkStorageVolumeInfo 2 "" 1000 30 false] [] (mkConnection 6)) sample_server) in
  cs_online_volumes (out_state (run calm_oracle 0 (unregister_storage 10) s1)) = {[ 1 := 9 ]}.
Proof.
  assert (∃ peers, out_value (run calm_oracle 0 (register_storage "other" "token"
    [mkStorageVolumeInfo 2 "" 1000 30 false] [] (mkConnection 6)) sample_server) = Ok (10, peers)) as [peers H]
    by (vm_compute; eexists; reflexivity).
  apply (unregister_undoes_register "other" "token" [mkStorageVolumeInfo 2 "" 1000 30 false] []
    (mkConnection 6) calm_oracle 0 calm_oracle 0 sample_server 10 peers H). split.
  - reflexivity.
  - intros v. simpl. destruct (decide (v = 1)) as [->|Hv]; [by rewrite lookup_singleton_eq|].
    by rewrite lookup_singleton_ne by congruence.
Defined.

Lemma report_bundle_replica_spec_witness :
  let event := mkBundleReplicaEvent 1 Stored 1 sample_hash (Some 12) (Some 6) in
  let out := run calm_oracle 0 (Storage.report_bundle_replica 9 [event]) sample_server in
  find_replica (tables (out_state out)) sample_hash 1 = Some (mkBundleReplicaRow sample_hash 1 12 6).
Proof.
  intros event out.
  destruct (report_bundle_replica_spec 9 [event] calm_oracle 0 sample_server sample_db_ok) as (_ & H & _).
  - repeat constructor; simpl; lia.
  - destruct (H ReportBundleReplicaRs) as [_ Hr]; [vm_compute; reflexivity|].
    etransitivity; [exact (Hr sample_hash 1)|]. vm_compute. reflexivity.
Defined.

Lemma register_storage_spec_witness :
  let volumes := [mkStorageVolumeInfo 2 "" 1000 30 false] in
  let out := run calm_oracle 0 (register_storage "other" "token" volumes [] (mkConnection 6)) sample_server in
  cs_online_volumes (out_state out) !! 2 = Some 10 ∧ cs_online_volumes (out_state out) !! 1 = Some 9.
Proof.
  intros volumes out.
  pose proof (register_storage_spec "other" "token" volumes [] (mkConnection 6) calm_oracle 0 sample_server) as H.
  cbv zeta in H. fold out in H.
  assert (∃ peers, out_value out = Ok (10, peers)) as [peers Hv] by (vm_compute; eexists; reflexivity).
  rewrite Hv in H. destruct H as (_ & _ & _ & H & _). split; etransitivity; [exact (H 2)|reflexivity|exact (H 1)|reflexivity].
Defined.

Lemma unauthorized_requests_witness :
  run calm_oracle 0 (handle_control_request (mkConnection 1) (DeleteFileByIdRq 1) (IdStorage 9)) sample_server =
  mkOutcome (RespError Unauthorized, IdStorage 9) sample_server [].
Proof.
  exact (proj1 (unauthorized_requests calm_oracle 0 (mkConnection 1) (DeleteFileByIdRq 1) (IdStorage 9)
    sample_server) eq_refl eq_refl).
Defined.
