(* ===== verification/VolumeDb.v ===== *)
(** * The metadata database of a volume

    Models [fs0-volume/src/schema.sql] and [fs0-volume/src/db.rs].  The tables are
    lists of rows; every method runs in the error-state monad over them.  A
    statement that writes takes the engine's verdict on it ([None], or the error
    that kept it from being stored).  [VolumeDb] also holds the copy of the meta row
    the process keeps. *)

From S2P Require Import Prelude Types Paths CentralDb.

(** ** Data (volume.rs, schema.sql) *)

Record VolumeMeta := mkVolumeMeta {
  vm_volume_id : Z; vm_format_version : Z; vm_max_bytes : Z; vm_active_volume_offset : Z;
  vm_created_at_ms : Z; vm_updated_at_ms : Z }.

Record ChunkMeta := mkChunkMeta {
  cm_chunk_id : HashId; cm_compressed_hash : HashId; cm_volume_offset : Z;
  cm_raw_len : Z; cm_compressed_len : Z }.

Record BundleMeta := mkBundleMeta {
  bm_bundle_id : HashId; bm_raw_len : Z; bm_compressed_len : Z; bm_chunk_count : Z }.

Record BundleChunkRow := mkBundleChunkRow {
  bcr_bundle_id : HashId; bcr_chunk_index : Z; bcr_chunk_id : HashId }.

Record BundleChangeRow := mkBundleChangeRow {
  bch_event_id : Z; bch_event_type : string; bch_bundle_id : HashId }.

(** the tables ([sqlite_sequence] included), and [VolumeDb::meta] *)
Record VolumeDb := mkVolumeDb {
  vd_meta_row : option VolumeMeta;
  vd_chunks : list ChunkMeta;
  vd_bundle_chunks : list BundleChunkRow;
  vd_records : list BundleChangeRow;
  vd_seq_records : Z;
  vd_meta : VolumeMeta }.

Definition set_vd_meta_row (db : VolumeDb) x : VolumeDb :=
  mkVolumeDb x (vd_chunks db) (vd_bundle_chunks db) (vd_records db) (vd_seq_records db) (vd_meta db).
Definition set_vd_chunks (db : VolumeDb) x : VolumeDb :=
  mkVolumeDb (vd_meta_row db) x (vd_bundle_chunks db) (vd_records db) (vd_seq_records db) (vd_meta db).
Definition set_vd_bundle_chunks (db : VolumeDb) x : VolumeDb :=
  mkVolumeDb (vd_meta_row db) (vd_chunks db) x (vd_records db) (vd_seq_records db) (vd_meta db).
Definition set_vd_records (db : VolumeDb) x seq : VolumeDb :=
  mkVolumeDb (vd_meta_row db) (vd_chunks db) (vd_bundle_chunks db) x seq (vd_meta db).
Definition set_vd_meta (db : VolumeDb) x : VolumeDb :=
  mkVolumeDb (vd_meta_row db) (vd_chunks db) (vd_bundle_chunks db) (vd_records db) (vd_seq_records db) x.

Abbreviation VDb := (ST VolumeDb Fs0Error).
Definition VStmt (A : Type) : Type := VolumeDb → Result SqlError (A * VolumeDb).

Section Db.
Context `{SqliteText, RowIds}.

(** a writing statement under the engine's verdict [err] *)
Definition vexec {A} (err : option SqlError) (stmt : VStmt A) : VDb A := λ db,
  match err with
  | Some e => (Err (from_sqlite e), db)
  | None =>
      match stmt db with
      | Ok (a, db') => (Ok a, db')
      | Err e => (Err (from_sqlite e), db)
      end
  end.
Definition vquery {A} (q : VolumeDb → A) : VDb A := λ db, (Ok (q db), db).

(** [let tx = self.conn.transaction()?; body; tx.commit()?] *)
Definition vtx {A} (commit_err : option SqlError) (body : VDb A) : VDb A := λ db,
  match body db with
  | (Ok a, db') =>
      match commit_err with
      | None => (Ok a, db')
      | Some e => (Err (from_sqlite e), db)
      end
  | (Err e, _) => (Err e, db)
  end.

(** [self.meta = ..] *)
Definition set_meta (meta : VolumeMeta) : VDb unit := λ db, (Ok tt, set_vd_meta db meta).

(** ** Meta *)

Definition row_to_meta (row : VolumeMeta) : Fs0Result VolumeMeta :=
  volume_id ← row_u64 0 "volume_id" (vm_volume_id row);
  format_version ← row_u64 1 "format_version" (vm_format_version row);
  max_bytes ← row_u64 2 "max_bytes" (vm_max_bytes row);
  active ← row_u64 3 "active_volume_offset" (vm_active_volume_offset row);
  created ← row_u64 4 "created_at_ms" (vm_created_at_ms row);
  updated ← row_u64 5 "updated_at_ms" (vm_updated_at_ms row);
  Ok (mkVolumeMeta volume_id format_version max_bytes active created updated).

Definition load_meta_from_conn : VDb VolumeMeta :=
  row ← vquery vd_meta_row;
  match row with
  | None => st_fail (from_sqlite QueryReturnedNoRows)
  | Some row => st_lift (row_to_meta row)
  end.

(** [create] on a new file: the schema is there even when the row is not *)
Definition schema_volume_db (meta : VolumeMeta) : VolumeDb := mkVolumeDb None [] [] [] 0 meta.
Definition insert_meta (meta : VolumeMeta) : VStmt unit := λ db, Ok (tt, set_vd_meta_row db (Some meta)).
Definition VolumeDb_create (err : option SqlError) (meta : VolumeMeta) : Fs0Result unit * VolumeDb :=
  (volume_id ← st_lift (u64_to_i64 (vm_volume_id meta) "volume_id");
   format_version ← st_lift (u64_to_i64 (vm_format_version meta) "format_version");
   max_bytes ← st_lift (u64_to_i64 (vm_max_bytes meta) "max_bytes");
   active ← st_lift (u64_to_i64 (vm_active_volume_offset meta) "active_volume_offset");
   created ← st_lift (u64_to_i64 (vm_created_at_ms meta) "created_at_ms");
   updated ← st_lift (u64_to_i64 (vm_updated_at_ms meta) "updated_at_ms");
   vexec err (insert_meta (mkVolumeMeta volume_id format_version max_bytes active created updated)))
  (schema_volume_db meta).

(** [open] on the tables of an existing file *)
Definition VolumeDb_open : VDb unit :=
  meta ← load_meta_from_conn;
  set_meta meta.

Definition update_volume_id (volume_id updated_at_ms : Z) : VStmt unit := λ db,
  Ok (tt, set_vd_meta_row db ((λ m, mkVolumeMeta volume_id (vm_format_version m) (vm_max_bytes m)
    (vm_active_volume_offset m) (vm_created_at_ms m) updated_at_ms) <$> vd_meta_row db)).

Definition assign_volume_id (err : option SqlError) (volume_id updated_at_ms : Z) : VDb VolumeMeta :=
  meta ← vquery vd_meta;
  if bool_decide (vm_volume_id meta ≠ 0 ∧ vm_volume_id meta ≠ volume_id)
  then st_fail (InvalidData ("volume already has id " +:+ pretty (vm_volume_id meta)
                             +:+ ", cannot assign " +:+ pretty volume_id))
  else
    key ← st_lift (u64_to_i64 volume_id "volume_id");
    updated ← st_lift (u64_to_i64 updated_at_ms "updated_at_ms");
    vexec err (update_volume_id key updated);;
    let meta := mkVolumeMeta volume_id (vm_format_version meta) (vm_max_bytes meta)
                  (vm_active_volume_offset meta) (vm_created_at_ms meta) updated_at_ms in
    set_meta meta;;
    mret meta.

Definition raise_active_offset (active_volume_offset updated_at_ms : Z) : VStmt unit := λ db,
  Ok (tt, set_vd_meta_row db ((λ m, mkVolumeMeta (vm_volume_id m) (vm_format_version m) (vm_max_bytes m)
    (Z.max (vm_active_volume_offset m) active_volume_offset) (vm_created_at_ms m) updated_at_ms)
    <$> vd_meta_row db)).

Definition reserve_active_volume_offset (err : option SqlError) (active_volume_offset updated_at_ms : Z)
  : VDb VolumeMeta :=
  active ← st_lift (u64_to_i64 active_volume_offset "active volume offset");
  updated ← st_lift (u64_to_i64 updated_at_ms "updated_at_ms");
  vexec err (raise_active_offset active updated);;
  meta ← load_meta_from_conn;
  set_meta meta;;
  mret meta.

(** ** Chunks *)

Definition row_to_chunk (row : ChunkMeta) : Fs0Result ChunkMeta :=
  volume_offset ← row_u64 2 "volume_offset" (cm_volume_offset row);
  raw_len ← row_u64 3 "raw_len" (cm_raw_len row);
  compressed_len ← row_u64 4 "compressed_len" (cm_compressed_len row);
  Ok (mkChunkMeta (cm_chunk_id row) (cm_compressed_hash row) volume_offset raw_len compressed_len).

Definition find_chunk (db : VolumeDb) (chunk_id : HashId) : option ChunkMeta :=
  lfind (λ c, bool_decide (cm_chunk_id c = chunk_id)) (vd_chunks db).

Definition load_chunk (chunk_id : HashId) : VDb ChunkMeta :=
  row ← vquery (λ db, find_chunk db chunk_id);
  match row with
  | None => st_fail (ChunkNotFound chunk_id)
  | Some row => st_lift (row_to_chunk row)
  end.

(** the map of the rows with one of the ids; the table's order, a later row wins *)
Definition load_chunks_by_ids (chunk_ids : list HashId) : VDb (gmap HashId ChunkMeta) :=
  if bool_decide (chunk_ids = []) then mret ∅
  else
    rows ← vquery (λ db, base.filter (λ c, cm_chunk_id c ∈ chunk_ids) (vd_chunks db));
    chunks ← st_lift (collect row_to_chunk rows);
    mret (foldl (λ m c, <[cm_chunk_id c := c]> m) ∅ chunks).

(** [INSERT .. ON CONFLICT(chunk_id) DO NOTHING] *)
Definition insert_chunk_row (chunk : ChunkMeta) : VStmt unit := λ db,
  if bool_decide (cm_chunk_id chunk ∈ map cm_chunk_id (vd_chunks db)) then Ok (tt, db)
  else Ok (tt, set_vd_chunks db (vd_chunks db ++ [chunk])).

Definition insert_chunk (err : option SqlError) (chunk : ChunkMeta) : VDb unit :=
  volume_offset ← st_lift (u64_to_i64 (cm_volume_offset chunk) "volume offset");
  raw_len ← st_lift (u64_to_i64 (cm_raw_len chunk) "raw len");
  compressed_len ← st_lift (u64_to_i64 (cm_compressed_len chunk) "compressed len");
  vexec err (insert_chunk_row (mkChunkMeta (cm_chunk_id chunk) (cm_compressed_hash chunk)
    volume_offset raw_len compressed_len)).

(** bundle_chunks.chunk_id REFERENCES chunks ON DELETE RESTRICT *)
Definition delete_chunk_row (chunk_id : HashId) : VStmt unit := λ db,
  if bool_decide (chunk_id ∈ map bcr_chunk_id (vd_bundle_chunks db) ∧
                  chunk_id ∈ map cm_chunk_id (vd_chunks db))
  then Err ConstraintForeignKey
  else Ok (tt, set_vd_chunks db (base.filter (λ c, cm_chunk_id c ≠ chunk_id) (vd_chunks db))).

Definition delete_chunk (err : option SqlError) (chunk_id : HashId) : VDb unit :=
  vexec err (delete_chunk_row chunk_id).

(** ** Bundles *)

(** [bundle_chunks bc JOIN chunks c ON c.chunk_id = bc.chunk_id WHERE bc.bundle_id = ?1] *)
Definition bundle_members (db : VolumeDb) (bundle_id : HashId) : list ChunkMeta :=
  omap (λ row, find_chunk db (bcr_chunk_id row))
    (base.filter (λ row, bcr_bundle_id row = bundle_id) (vd_bundle_chunks db)).

(** [COALESCE(SUM(x), 0)]: SUM over integers fails when it leaves the i64 range *)
Definition sql_sum (l : list Z) : Result SqlError Z :=
  if bool_decide (zsum l ≤ i64_max) then Ok (zsum l) else Err IntegerOverflow.

Definition load_bundle (bundle_id : HashId) : VDb BundleMeta :=
  members ← vquery (λ db, bundle_members db bundle_id);
  match members with
  | [] => st_fail (BundleNotFound bundle_id)
  | _ =>
      raw ← st_lift (map_err from_sqlite (sql_sum (map cm_raw_len members)));
      compressed ← st_lift (map_err from_sqlite (sql_sum (map cm_compressed_len members)));
      raw_len ← st_lift (row_u64 1 "raw_len" raw);
      compressed_len ← st_lift (row_u64 2 "compressed_len" compressed);
      mret (mkBundleMeta bundle_id raw_len compressed_len (Z.of_nat (length members)))
  end.

Definition delete_bundle_rows (bundle_id : HashId) : VStmt unit := λ db,
  Ok (tt, set_vd_bundle_chunks db
            (base.filter (λ row, bcr_bundle_id row ≠ bundle_id) (vd_bundle_chunks db))).

Definition bundle_chunk_key (row : BundleChunkRow) : HashId * Z := (bcr_bundle_id row, bcr_chunk_index row).

(** PRIMARY KEY (bundle_id, chunk_index), chunk_id REFERENCES chunks *)
Definition insert_bundle_chunk_row (row : BundleChunkRow) : VStmt unit := λ db,
  if bool_decide (bundle_chunk_key row ∈ map bundle_chunk_key (vd_bundle_chunks db))
  then Err ConstraintUnique
  else if bool_decide (bcr_chunk_id row ∈ map cm_chunk_id (vd_chunks db))
  then Ok (tt, set_vd_bundle_chunks db (vd_bundle_chunks db ++ [row]))
  else Err ConstraintForeignKey.

Fixpoint insert_bundle_chunks (bundle_id : HashId) (chunks : list BundleChunkRef) : VDb unit :=
  match chunks with
  | [] => mret tt
  | chunk :: chunks =>
      index ← st_lift (u64_to_i64 (bc_chunk_index chunk) "chunk_index");
      vexec None (insert_bundle_chunk_row (mkBundleChunkRow bundle_id index (bc_chunk_id chunk)));;
      insert_bundle_chunks bundle_id chunks
  end.

(** ** The outbox of bundle changes *)

Definition event_type_of (kind : BundleReplicaEventKind) : string :=
  match kind with Stored => "bundle_stored" | Deleted => "bundle_deleted" end.

(** [INSERT .. ON CONFLICT(bundle_id) DO UPDATE SET event_type = ?1] *)
Definition upsert_change_row (event_type : string) (bundle_id : HashId) : VStmt unit := λ db,
  if bool_decide (bundle_id ∈ map bch_bundle_id (vd_records db)) then
    Ok (tt, set_vd_records db
      (map (λ r, if bool_decide (bch_bundle_id r = bundle_id)
                 then mkBundleChangeRow (bch_event_id r) event_type bundle_id else r) (vd_records db))
      (vd_seq_records db))
  else
    match autoincrement_rowid (vd_seq_records db) (map bch_event_id (vd_records db)) with
    | None => Err DatabaseFull
    | Some id => Ok (tt, set_vd_records db (vd_records db ++ [mkBundleChangeRow id event_type bundle_id]) id)
    end.

Definition insert_bundle_change_record_tx (bundle_id : HashId) (kind : BundleReplicaEventKind) : VDb unit :=
  vexec None (upsert_change_row (event_type_of kind) bundle_id).

Definition commit_bundle_rows (err : option SqlError) (bundle_id : HashId) (chunks : list BundleChunkRef)
  : VDb BundleMeta :=
  vtx err (
    vexec None (delete_bundle_rows bundle_id);;
    insert_bundle_chunks bundle_id chunks;;
    insert_bundle_change_record_tx bundle_id Stored);;
  load_bundle bundle_id.

Definition delete_bundle (err : option SqlError) (bundle_id : HashId) : VDb unit :=
  vtx err (
    vexec None (delete_bundle_rows bundle_id);;
    insert_bundle_change_record_tx bundle_id Deleted).

(** [ORDER BY chunk_index] *)
Definition chunk_index_le (a b : BundleChunkRow) : Prop := bcr_chunk_index a ≤ bcr_chunk_index b.
#[export] Instance chunk_index_le_dec : RelDecision chunk_index_le.
Proof. intros a b. unfold chunk_index_le. apply _. Defined.

Definition row_to_bundle_chunk (row : BundleChunkRow) : Fs0Result BundleChunkRef :=
  index ← row_u64 0 "chunk_index" (bcr_chunk_index row);
  Ok (mkBundleChunkRef index (bcr_chunk_id row)).

Definition list_bundle_chunks (bundle_id : HashId) : VDb (list BundleChunkRef) :=
  rows ← vquery (λ db, merge_sort chunk_index_le
           (base.filter (λ row, bcr_bundle_id row = bundle_id) (vd_bundle_chunks db)));
  st_lift (collect row_to_bundle_chunk rows).

(** [ORDER BY e.event_id] *)
Definition record_le (a b : BundleChangeRow) : Prop := bch_event_id a ≤ bch_event_id b.
#[export] Instance record_le_dec : RelDecision record_le.
Proof. intros a b. unfold record_le. apply _. Defined.

(** one row of the report: the sums over the bundle's chunks as they are now *)
Definition row_to_replica_event (db : VolumeDb) (row : BundleChangeRow) : Fs0Result BundleReplicaEvent :=
  raw ← map_err from_sqlite (sql_sum (map cm_raw_len (bundle_members db (bch_bundle_id row))));
  compressed ← map_err from_sqlite (sql_sum (map cm_compressed_len (bundle_members db (bch_bundle_id row))));
  kind ← (if bool_decide (bch_event_type row = "bundle_stored") then Ok Stored
          else if bool_decide (bch_event_type row = "bundle_deleted") then Ok Deleted
          else Err (from_sqlite (FromSqlConversionFailure 1 SqlText
                 ("invalid bundle change record type: " +:+ bch_event_type row))));
  event_id ← row_u64 0 "event_id" (bch_event_id row);
  raw_len ← row_optional_u64 3 "raw_len" (Some raw);
  compressed_len ← row_optional_u64 4 "compressed_len" (Some compressed);
  Ok (mkBundleReplicaEvent event_id kind (vm_volume_id (vd_meta db)) (bch_bundle_id row) raw_len compressed_len).

Definition get_bundle_change_records (limit : Z) : VDb (list BundleReplicaEvent) :=
  sql_limit ← st_lift (u64_to_i64 limit "limit");
  rows ← vquery (λ db, (db, take (Z.to_nat sql_limit) (merge_sort record_le (vd_records db))));
  st_lift (collect (row_to_replica_event rows.1) rows.2).

Definition delete_change_rows (max_event_id : Z) : VStmt unit := λ db,
  Ok (tt, set_vd_records db (base.filter (λ r, max_event_id < bch_event_id r) (vd_records db))
            (vd_seq_records db)).

Definition remove_bundle_change_records (err : option SqlError) (max_event_id : Z) : VDb unit :=
  key ← st_lift (u64_to_i64 max_event_id "max_event_id");
  vexec err (delete_change_rows key).
End Db.
