(* ===== verification/VolumeIo.v ===== *)
(** * The data files of a volume

    Models [fs0-volume/src/data_file_cache.rs] and [fs0-volume/src/io_platform.rs].
    A volume's bytes are in the files [.fs0.data.N] of 4 GiB each; the cache has a slot
    for each with the open file, if any.  The operating system is the environment
    of the programs: it decides how many bytes a read or a write moves and whether a
    call fails.  What a call does to a file when it succeeds is written out
    ([pread], [pwrite], [preallocate]).

    The two semaphores only delay a program, which an interleaving may do anyway. *)

From S2P Require Import Prelude Types Paths CentralDb VolumeDb Conc.

(** ** State *)

(** a file: its length and its bytes (zero where nothing was written) *)
Record DataFile := mkDataFile { df_len : Z; df_byte : Z → Byte.byte }.
Definition empty_data_file : DataFile := mkDataFile 0 (λ _, Byte.x00).

(** [file] is the index of the data file the slot holds open *)
Record DataFileSlot := mkDataFileSlot { ds_file : option Z; ds_last_access_ms : Z }.
Definition DataFileSlot_new : DataFileSlot := mkDataFileSlot None 0.

(** the database under its lock, [DataFileCache::slots], and the directory's data files *)
Record VolumeState := mkVolumeState {
  vl_db : VolumeDb; vl_slots : list DataFileSlot; vl_files : gmap Z DataFile }.

Definition set_vl_db (s : VolumeState) db : VolumeState := mkVolumeState db (vl_slots s) (vl_files s).
Definition set_vl_slots (s : VolumeState) slots : VolumeState :=
  mkVolumeState (vl_db s) slots (vl_files s).
Definition set_vl_files (s : VolumeState) files : VolumeState :=
  mkVolumeState (vl_db s) (vl_slots s) files.

(** ** The environment *)

Inductive VolumeQuery : Type → Type :=
| VNow : VolumeQuery Z                                  (* now_ms() *)
| VVerdict : VolumeQuery (option SqlError)              (* a statement's or a COMMIT's failure *)
| VSyscall (call : string) : VolumeQuery (option string) (* a call's failure *)
| VPread (len : Z) : VolumeQuery (Result string Z)      (* at most so many bytes this time *)
| VPwrite (len : Z) : VolumeQuery (Result string Z)     (* the bytes written *)
| VTryLock : VolumeQuery bool                           (* Mutex::try_lock succeeded *)
| VJoin : VolumeQuery (option string).                  (* a JoinError *)

(** a read stops short of what was asked, but not at nothing before the end of the
    file; a write reports at most what it was given *)
Definition volume_answer_ok (B : Type) (q : VolumeQuery B) : B → Prop :=
  match q in VolumeQuery B return B → Prop with
  | VNow => λ now, is_u64 now
  | VPread len => λ r, match r with Ok n => 1 ≤ n ≤ len | Err _ => True end
  | VPwrite len => λ r, match r with Ok n => 0 ≤ n ≤ len | Err _ => True end
  | _ => λ _, True
  end.

Abbreviation VolumeProg := (Prog VolumeState VolumeQuery).

(** ** System calls *)

(** [read_at] of at most [len] bytes *)
Definition pread (offset len : Z) (file : DataFile) : list Byte.byte :=
  map (df_byte file) (seqZ offset (Z.min len (Z.max 0 (df_len file - offset)))).

Definition pwrite (offset : Z) (bytes : list Byte.byte) (file : DataFile) : DataFile :=
  match bytes with
  | [] => file
  | _ => mkDataFile (Z.max (df_len file) (offset + Z.of_nat (length bytes)))
           (λ i, if bool_decide (offset ≤ i) then
                   match bytes !! Z.to_nat (i - offset) with Some b => b | None => df_byte file i end
                 else df_byte file i)
  end.

(** posix_fallocate(fd, 0, len): the file is at least that long, its bytes stay *)
Definition preallocate (len : Z) (file : DataFile) : DataFile :=
  mkDataFile (Z.max (df_len file) len) (df_byte file).

Definition file_pread (index offset len : Z) (s : VolumeState) : list Byte.byte * VolumeState :=
  (match vl_files s !! index with Some file => pread offset len file | None => [] end, s).
Definition file_pwrite (index offset : Z) (bytes : list Byte.byte) (s : VolumeState)
  : unit * VolumeState :=
  (tt, set_vl_files s (alter (pwrite offset bytes) index (vl_files s))).

(** ** io_platform.rs *)

(** the loops: [fuel] iterations, as many as there are bytes to move, are enough
    because every iteration moves one *)
Fixpoint io_read_at (fuel : nat) (index offset len : Z) : VolumeProg (Result string (list Byte.byte)) :=
  match fuel with
  | O => mret (Ok [])
  | S fuel =>
      if bool_decide (len = 0) then mret (Ok []) else
      n ←? ask (VPread len);
      bytes ← atomic (file_pread index offset n);
      match bytes with
      | [] => mret (Err "failed to fill whole buffer")
      | _ =>
          let read := Z.of_nat (length bytes) in
          rest ←? io_read_at fuel index (offset + read) (len - read);
          mret (Ok (bytes ++ rest))
      end
  end.

Fixpoint io_write_at (fuel : nat) (index offset : Z) (buf : list Byte.byte)
  : VolumeProg (Result string unit) :=
  match fuel with
  | O => mret (Ok tt)
  | S fuel =>
      match buf with
      | [] => mret (Ok tt)
      | _ =>
          written ←? ask (VPwrite (Z.of_nat (length buf)));
          _ ← atomic (file_pwrite index offset (take (Z.to_nat written) buf));
          if bool_decide (written = 0) then mret (Err "failed to write whole buffer")
          else io_write_at fuel index (offset + written) (drop (Z.to_nat written) buf)
      end
  end.

(** [file.sync_data()?] *)
Definition syscall (call : string) : VolumeProg (Result string unit) :=
  failure ← ask (VSyscall call);
  mret (match failure with Some e => Err e | None => Ok tt end).

(** ** DataFileCache *)

Definition with_capacity (data_files : Z) : list DataFileSlot :=
  replicate (Z.to_nat data_files) DataFileSlot_new.

Definition io_error (r : Result string unit) : Fs0Result unit := map_err Io r.

(** the open, under the slot's lock *)
Definition open_slot (index : Z) (create_if_missing : bool) (open_err metadata_err alloc_err : option string)
    (s : VolumeState) : Fs0Result Z * VolumeState :=
  match vl_slots s !! Z.to_nat index with
  | None => (Err (InvalidData ("data file index " +:+ pretty index +:+ " exceeds configured data files "
                               +:+ pretty (length (vl_slots s)))), s)
  | Some slot =>
      match ds_file slot with
      | Some file => (Ok file, s)
      | None =>
          let opened s :=
            (Ok index, set_vl_slots s
               (<[Z.to_nat index := mkDataFileSlot (Some index) (ds_last_access_ms slot)]> (vl_slots s))) in
          match open_err with
          | Some e => (Err (Io e), s)
          | None =>
              if negb create_if_missing then
                match vl_files s !! index with
                | None => (Err (Io "No such file or directory (os error 2)"), s)
                | Some _ => opened s
                end
              else
                let file := default empty_data_file (vl_files s !! index) in
                let created := set_vl_files s (<[index := file]> (vl_files s)) in
                match metadata_err with
                | Some e => (Err (Io e), created)
                | None =>
                    if bool_decide (df_len file < VOLUME_DEFAULT_DATA_FILE_SIZE) then
                      match alloc_err with
                      | Some e => (Err (Io e), created)
                      | None => opened (set_vl_files s
                          (<[index := preallocate VOLUME_DEFAULT_DATA_FILE_SIZE file]> (vl_files s)))
                      end
                    else opened created
                end
          end
      end
  end.

Definition get_or_open (index : Z) (create_if_missing : bool) : VolumeProg (Fs0Result Z) :=
  configured ← atomic (λ s, (Z.of_nat (length (vl_slots s)), s));
  if bool_decide (index < configured) then
    open_err ← ask (VSyscall "open");
    metadata_err ← ask (VSyscall "metadata");
    alloc_err ← ask (VSyscall "preallocate");
    opened ← atomic (open_slot index create_if_missing open_err metadata_err alloc_err);
    join ← ask VJoin;
    mret (match join with
          | Some e => Err (Internal ("open data file task failed: " +:+ e))
          | None => opened
          end)
  else
    mret (Err (InvalidData ("data file index " +:+ pretty index +:+ " exceeds configured data files "
                            +:+ pretty configured))).

Definition touch (index now : Z) (s : VolumeState) : unit * VolumeState :=
  (tt, set_vl_slots s (alter (λ slot, mkDataFileSlot (ds_file slot) now) (Z.to_nat index) (vl_slots s))).

(** [task_result.map_err(..)?; Ok(result?)] *)
Definition join_task {A} (what : string) (result : Result string A) : VolumeProg (Fs0Result A) :=
  join ← ask VJoin;
  mret (match join with
        | Some e => Err (Internal (what +:+ " task failed: " +:+ e))
        | None => map_err Io result
        end).

Definition read_at (index offset len : Z) : VolumeProg (Fs0Result (list Byte.byte)) :=
  file ←? get_or_open index false;
  now ← ask VNow;
  _ ← atomic (touch index now);
  result ← io_read_at (Z.to_nat len) file offset len;
  join_task "read" result.

Definition write_at (index offset : Z) (bytes : list Byte.byte) : VolumeProg (Fs0Result unit) :=
  file ←? get_or_open index true;
  now ← ask VNow;
  _ ← atomic (touch index now);
  result ← (io_write_at (length bytes) file offset bytes;;? syscall "sync_data");
  join_task "write" result.

(** one slot of [close_idle], with the outcome of [try_lock] *)
Definition close_idle_slot (now_ms : Z) (locked : bool) (slot : DataFileSlot) : DataFileSlot :=
  if bool_decide (ds_last_access_ms slot = 0) then slot
  else if bool_decide (u64_saturating_sub now_ms (ds_last_access_ms slot) ≤ VOLUME_DATA_FILE_IDLE_TTL_MS)
  then slot
  else if locked then mkDataFileSlot None (ds_last_access_ms slot) else slot.

Fixpoint close_idle_slots (now_ms : Z) (slots : list nat) : VolumeProg unit :=
  match slots with
  | [] => mret tt
  | i :: slots =>
      locked ← ask VTryLock;
      _ ← atomic (λ s, (tt, set_vl_slots s (alter (close_idle_slot now_ms locked) i (vl_slots s))));
      close_idle_slots now_ms slots
  end.

Definition close_idle (now_ms : Z) : VolumeProg unit :=
  slots ← atomic (λ s, (seq 0 (length (vl_slots s)), s));
  close_idle_slots now_ms slots.
