(* ===== verification/Volume.v ===== *)
(** * A volume: chunks and bundles

    Models [fs0-volume/src/volume.rs].  The methods of [Volume] are programs over
    the volume's database, which they use under its lock, and its data files, which
    they use outside it. *)

From S2P Require Import Prelude Types Paths CentralDb VolumeDb Conc VolumeIo.

Section Volume.
Context `{SqliteText, RowIds, Blake3}.

(** ** Creating and opening *)

(** [root.join(VOLUME_DB_FILE).display()] *)
Definition volume_db_path (root : string) : string :=
  if bool_decide (root = "") then VOLUME_DB_FILE
  else if bool_decide (last (String.list_ascii_of_string root) = Some "/"%char)
  then root +:+ VOLUME_DB_FILE
  else root +:+ "/" +:+ VOLUME_DB_FILE.

(** [disk] is the database file of the directory, if there is one.  [open_err]: a failure of [VolumeDb::create] before
    its INSERT (opening the file, a pragma, the schema), and whether SQLite has made the file by then; such a file has no
    row of meta data (nor have its tables to be there: what reads the row fails either way) *)
Definition init_fs (root : string) (max_bytes now : Z) (mkdir_err : option string)
    (open_err : option (SqlError * bool)) (insert_err : option SqlError) (disk : option VolumeDb)
  : Fs0Result unit * option VolumeDb :=
  if bool_decide (max_bytes < VOLUME_DEFAULT_DATA_FILE_SIZE)
  then (Err (InvalidConfig "max_bytes must be at least 4GB"), disk)
  else match mkdir_err with
  | Some e => (Err (Io e), disk)
  | None =>
      match disk with
      | Some _ => (Err (AlreadyExists (volume_db_path root)), disk)
      | None =>
          let meta := mkVolumeMeta 0 VOLUME_FORMAT_VERSION max_bytes 0 now now in
          match open_err with
          | Some (e, made) => (Err (from_sqlite e), if (made : bool) then Some (schema_volume_db meta) else None)
          | None => let '(r, db) := VolumeDb_create insert_err meta in (r, Some db)
          end
      end
  end.

Definition init_volume_id (root : string) (volume_id now : Z) (err : option SqlError)
    (disk : option VolumeDb) : Fs0Result VolumeMeta * option VolumeDb :=
  match disk with
  | None => (Err (VolumeNotFound (volume_db_path root)), disk)
  | Some db => let '(r, db) := (VolumeDb_open;; assign_volume_id err volume_id now) db in (r, Some db)
  end.

(** [open]; the data files the directory already has are [files] *)
Definition Volume_open (root : string) (disk : option VolumeDb) (files : gmap Z DataFile)
  : Fs0Result VolumeState :=
  match disk with
  | None => Err (VolumeNotFound (volume_db_path root))
  | Some db =>
      match VolumeDb_open db with
      | (Err e, _) => Err e
      | (Ok _, db) =>
          let data_files := u64_div_ceil (vm_max_bytes (vd_meta db)) VOLUME_DEFAULT_DATA_FILE_SIZE in
          Ok (mkVolumeState db (with_capacity data_files) files)
      end
  end.

(** ** The locked database *)

Definition with_db {A} (m : VDb A) (s : VolumeState) : Fs0Result A * VolumeState :=
  let '(r, db) := m (vl_db s) in (r, set_vl_db s db).

Definition locked {A} (m : VDb A) : VolumeProg (Fs0Result A) := atomic (with_db m).

Definition Volume_meta : VolumeProg (Fs0Result VolumeMeta) := locked (vquery vd_meta).

(** ** Chunks *)

Definition write_compressed_bytes (volume_offset : Z) (bytes : list Byte.byte)
  : VolumeProg (Fs0Result unit) :=
  write_at (volume_offset / VOLUME_DEFAULT_DATA_FILE_SIZE)
    (volume_offset mod VOLUME_DEFAULT_DATA_FILE_SIZE) bytes.

Definition read_compressed_bytes (volume_offset compressed_len : Z)
  : VolumeProg (Fs0Result (list Byte.byte)) :=
  read_at (volume_offset / VOLUME_DEFAULT_DATA_FILE_SIZE)
    (volume_offset mod VOLUME_DEFAULT_DATA_FILE_SIZE) compressed_len.

(** where a chunk of that length goes: it does not cross the end of a data file *)
Definition chunk_offset (active compressed_len : Z) : Z :=
  let offset_in_data_file := active mod VOLUME_DEFAULT_DATA_FILE_SIZE in
  if bool_decide (VOLUME_DEFAULT_DATA_FILE_SIZE < offset_in_data_file + compressed_len)
  then (active / VOLUME_DEFAULT_DATA_FILE_SIZE + 1) * VOLUME_DEFAULT_DATA_FILE_SIZE
  else active.

(** the block of [put_chunk] that looks the chunk up and reserves its range:
    [inl] the chunk that is there, [inr] the row to insert once it is written *)
Definition reserve_chunk (err : option SqlError) (now : Z) (chunk_id compressed_hash : HashId)
    (raw_len compressed_len : Z) : VDb (ChunkMeta + ChunkMeta) :=
  existing ← st_try (load_chunk chunk_id);
  match existing with
  | Ok existing =>
      if bool_decide (cm_raw_len existing ≠ raw_len ∨ cm_compressed_len existing ≠ compressed_len ∨
                      cm_compressed_hash existing ≠ compressed_hash)
      then st_fail (HashMismatch (cm_volume_offset existing))
      else mret (inl existing)
  | Err (ChunkNotFound _) =>
      meta ← vquery vd_meta;
      let volume_offset := chunk_offset (vm_active_volume_offset meta) compressed_len in
      next_active_offset ← st_lift (ok_or (IntegerConversion "volume offset overflow")
                                      (u64_checked_add volume_offset compressed_len));
      if bool_decide (vm_max_bytes meta < next_active_offset)
      then st_fail (CapacityExceeded next_active_offset (vm_max_bytes meta))
      else
        reserve_active_volume_offset err next_active_offset now;;
        mret (inr (mkChunkMeta chunk_id compressed_hash volume_offset raw_len compressed_len))
  | Err e => st_fail e
  end.

Definition put_chunk (chunk_id : HashId) (raw_len : Z) (compressed_bytes : list Byte.byte)
  : VolumeProg (Fs0Result ChunkMeta) :=
  if bool_decide (raw_len = 0) then mret (Err (InvalidData "raw_len must be greater than zero"))
  else if bool_decide (compressed_bytes = []) then mret (Err (InvalidData "compressed_bytes cannot be empty"))
  else
    let compressed_len := Z.of_nat (length compressed_bytes) in
    if bool_decide (VOLUME_DEFAULT_DATA_FILE_SIZE < compressed_len)
    then mret (Err (InvalidData ("compressed chunk length " +:+ pretty compressed_len
                +:+ " exceeds data file size " +:+ pretty VOLUME_DEFAULT_DATA_FILE_SIZE)))
    else
      let compressed_hash := blake3_hash compressed_bytes in
      now ← ask VNow;
      reserve_err ← ask VVerdict;
      reserved ←? locked (reserve_chunk reserve_err now chunk_id compressed_hash raw_len compressed_len);
      match reserved with
      | inl existing => mret (Ok existing)
      | inr insert =>
          write_compressed_bytes (cm_volume_offset insert) compressed_bytes;;?
          insert_err ← ask VVerdict;
          locked (VolumeDb.insert_chunk insert_err insert;; load_chunk chunk_id)
      end.

Definition read_chunk (chunk_id : HashId) : VolumeProg (Fs0Result (ChunkMeta * list Byte.byte)) :=
  chunk ←? locked (load_chunk chunk_id);
  bytes ←? read_compressed_bytes (cm_volume_offset chunk) (cm_compressed_len chunk);
  mret (Ok (chunk, bytes)).

Definition chunk_meta (chunk_id : HashId) : VolumeProg (Fs0Result ChunkMeta) :=
  locked (load_chunk chunk_id).

Definition delete_chunk (chunk_id : HashId) : VolumeProg (Fs0Result unit) :=
  err ← ask VVerdict;
  locked (VolumeDb.delete_chunk err chunk_id).

Definition close_idle_data_files : VolumeProg unit :=
  now ← ask VNow;
  close_idle now.

(** ** Bundles *)

(** [chunks.iter().enumerate()]: every index is its position *)
Fixpoint contiguous_from (expected_index : Z) (chunks : list BundleChunkRef) : bool :=
  match chunks with
  | [] => true
  | chunk :: chunks =>
      bool_decide (bc_chunk_index chunk = expected_index) && contiguous_from (expected_index + 1) chunks
  end.

(** [for chunk in &chunks { chunk_meta.get(..).ok_or(..)?; }] *)
Fixpoint require_chunks (chunk_meta : gmap HashId ChunkMeta) (chunks : list BundleChunkRef) : VDb unit :=
  match chunks with
  | [] => mret tt
  | chunk :: chunks =>
      match chunk_meta !! bc_chunk_id chunk with
      | None => st_fail (ChunkNotFound (bc_chunk_id chunk))
      | Some _ => require_chunks chunk_meta chunks
      end
  end.

Definition commit_bundle_locked (err : option SqlError) (bundle_id : HashId)
    (chunks : list BundleChunkRef) : VDb BundleMeta :=
  existing ← st_try (load_bundle bundle_id);
  match existing with
  | Ok existing => mret existing
  | Err (BundleNotFound _) =>
      chunk_meta ← load_chunks_by_ids (map bc_chunk_id chunks);
      require_chunks chunk_meta chunks;;
      commit_bundle_rows err bundle_id chunks
  | Err e => st_fail e
  end.

Definition commit_bundle (bundle_id : HashId) (chunks : list BundleChunkRef)
  : VolumeProg (Fs0Result BundleMeta) :=
  if bool_decide (chunks = []) then mret (Err (InvalidData "bundle must contain at least one chunk"))
  else if negb (contiguous_from 0 chunks)
  then mret (Err (InvalidData "bundle chunk indexes must be contiguous"))
  else if bool_decide (bundle_hash_from_chunks chunks ≠ bundle_id)
  then mret (Err (InvalidData "bundle id does not match committed chunk ids"))
  else
    err ← ask VVerdict;
    locked (commit_bundle_locked err bundle_id chunks).

Definition list_bundle_chunks (bundle_id : HashId) : VolumeProg (Fs0Result (list BundleChunkRef)) :=
  chunks ←? locked (VolumeDb.list_bundle_chunks bundle_id);
  mret (if bool_decide (chunks = []) then Err (BundleNotFound bundle_id) else Ok chunks).

Definition delete_bundle (bundle_id : HashId) : VolumeProg (Fs0Result unit) :=
  err ← ask VVerdict;
  locked (VolumeDb.delete_bundle err bundle_id).

Definition get_bundle_change_records (limit : Z) : VolumeProg (Fs0Result (list BundleReplicaEvent)) :=
  locked (VolumeDb.get_bundle_change_records limit).

Definition remove_bundle_change_records (max_event_id : Z) : VolumeProg (Fs0Result unit) :=
  err ← ask VVerdict;
  locked (VolumeDb.remove_bundle_change_records err max_event_id).

(** ** The calls of a volume's clients *)

Inductive VolumeCall :=
| CallPutChunk (chunk_id : HashId) (raw_len : Z) (compressed_bytes : list Byte.byte)
| CallReadChunk (chunk_id : HashId)
| CallChunkMeta (chunk_id : HashId)
| CallDeleteChunk (chunk_id : HashId)
| CallCommitBundle (bundle_id : HashId) (chunks : list BundleChunkRef)
| CallListBundleChunks (bundle_id : HashId)
| CallDeleteBundle (bundle_id : HashId)
| CallGetBundleChangeRecords (limit : Z)
| CallRemoveBundleChangeRecords (max_event_id : Z)
| CallMeta
| CallCloseIdle.

(** the answers, for the pool of the calls under way *)
Inductive VolumeReturn :=
| RetChunk (r : Fs0Result ChunkMeta)
| RetBytes (r : Fs0Result (ChunkMeta * list Byte.byte))
| RetUnit (r : Fs0Result unit)
| RetBundle (r : Fs0Result BundleMeta)
| RetChunks (r : Fs0Result (list BundleChunkRef))
| RetEvents (r : Fs0Result (list BundleReplicaEvent))
| RetMeta (r : Fs0Result VolumeMeta).

Definition volume_call (call : VolumeCall) : VolumeProg VolumeReturn :=
  match call with
  | CallPutChunk chunk_id raw_len bytes => r ← put_chunk chunk_id raw_len bytes; mret (RetChunk r)
  | CallReadChunk chunk_id => r ← read_chunk chunk_id; mret (RetBytes r)
  | CallChunkMeta chunk_id => r ← chunk_meta chunk_id; mret (RetChunk r)
  | CallDeleteChunk chunk_id => r ← delete_chunk chunk_id; mret (RetUnit r)
  | CallCommitBundle bundle_id chunks => r ← commit_bundle bundle_id chunks; mret (RetBundle r)
  | CallListBundleChunks bundle_id => r ← list_bundle_chunks bundle_id; mret (RetChunks r)
  | CallDeleteBundle bundle_id => r ← delete_bundle bundle_id; mret (RetUnit r)
  | CallGetBundleChangeRecords limit => r ← get_bundle_change_records limit; mret (RetEvents r)
  | CallRemoveBundleChangeRecords max => r ← remove_bundle_change_records max; mret (RetUnit r)
  | CallMeta => r ← Volume_meta; mret (RetMeta r)
  | CallCloseIdle => _ ← close_idle_data_files; mret (RetUnit (Ok tt))
  end.
End Volume.
