(* ===== verification/VolumeInv.v ===== *)
(** * The invariant of a volume

    What holds of the database and the data files together, between any two blocks
    of the calls under way: the bytes of every chunk are in its range and have its
    hash, the ranges of the chunks and of the writes under way are disjoint, within
    the reserved part of the volume and each within one data file ([volume_inv]);
    the members of a bundle spell its id, and the outbox agrees with the bundles
    ([bundles_ok]).  And how the files change under the system calls. *)

From S2P Require Import Prelude Types Paths CentralDb VolumeDb Conc VolumeIo Volume.

#[global] Abbreviation F := VOLUME_DEFAULT_DATA_FILE_SIZE (only parsing).

Lemma data_file_size : VOLUME_DEFAULT_DATA_FILE_SIZE = 4294967296.
Proof. done. Qed.

(** arithmetic with the data file size *)
Ltac flia := rewrite ?data_file_size in *; Z.to_euclidean_division_equations; lia.

(** ** The bytes of a volume *)

(** the byte at a volume offset, if its data file reaches so far *)
Definition volume_byte (files : gmap Z DataFile) (i : Z) : option Byte.byte :=
  match files !! (i / F) with
  | Some file => if bool_decide (i mod F < df_len file) then Some (df_byte file (i mod F)) else None
  | None => None
  end.

Definition holds (files : gmap Z DataFile) (offset : Z) (bytes : list Byte.byte) : Prop :=
  ∀ j b, bytes !! j = Some b → volume_byte files (offset + Z.of_nat j) = Some b.

(** [files'] has every byte of [files] outside a range, and every file *)
Definition keeps_files (lo hi : Z) (files files' : gmap Z DataFile) : Prop :=
  (∀ i b, i < lo ∨ hi ≤ i → volume_byte files i = Some b → volume_byte files' i = Some b) ∧
  (∀ k, is_Some (files !! k) → is_Some (files' !! k)).

Lemma keeps_files_refl lo hi files : keeps_files lo hi files files.
Proof. by split. Qed.

Lemma holds_keeps lo hi files files' offset bytes :
  keeps_files lo hi files files' → offset + Z.of_nat (length bytes) ≤ lo ∨ hi ≤ offset →
  holds files offset bytes → holds files' offset bytes.
Proof.
  intros [Hk _] Hd Hh j b Hj. apply Hk; [|by apply Hh].
  apply lookup_lt_Some in Hj. lia.
Qed.

Lemma volume_byte_div files index o : 0 ≤ o < F →
  volume_byte files (index * F + o) =
  match files !! index with
  | Some file => if bool_decide (o < df_len file) then Some (df_byte file o) else None
  | None => None
  end.
Proof.
  intros Ho. unfold volume_byte.
  replace ((index * F + o) / F) with index by flia.
  by replace ((index * F + o) mod F) with o by flia.
Qed.

Lemma pwrite_length o bytes file : df_len file ≤ df_len (pwrite o bytes file).
Proof. destruct bytes; simpl; lia. Qed.

Lemma pwrite_other o bytes file i :
  i < o ∨ o + Z.of_nat (length bytes) ≤ i → df_byte (pwrite o bytes file) i = df_byte file i.
Proof.
  intros Hi. destruct bytes as [|b bytes]; [done|]. cbn [pwrite df_byte].
  case_bool_decide; [|done]. rewrite lookup_ge_None_2; [done|]. lia.
Qed.

Lemma pwrite_at o bytes file j b : 0 ≤ o → bytes !! j = Some b →
  df_byte (pwrite o bytes file) (o + Z.of_nat j) = b ∧
  o + Z.of_nat j < df_len (pwrite o bytes file).
Proof.
  intros Ho Hj. pose proof (lookup_lt_Some _ _ _ Hj) as Hlt.
  destruct bytes as [|b0 bytes]; [done|]. cbn [pwrite df_byte df_len]. split; [|lia].
  rewrite bool_decide_true by lia. replace (Z.to_nat _) with j by lia. by rewrite Hj.
Qed.

Lemma file_pwrite_keeps files index o bytes : 0 ≤ o → o + Z.of_nat (length bytes) ≤ F →
  keeps_files (index * F + o) (index * F + o + Z.of_nat (length bytes))
    files (alter (pwrite o bytes) index files).
Proof.
  intros Ho Hlen. split.
  - intros i b Hi. unfold volume_byte.
    destruct (decide (i / F = index)) as [<-|Hne]; [|by rewrite lookup_alter_ne by done].
    rewrite lookup_alter_eq. destruct (files !! (i / F)) as [file|]; [|done]. simpl.
    intros Hb. case_bool_decide; [|done].
    rewrite bool_decide_true by (pose proof (pwrite_length o bytes file); lia).
    rewrite pwrite_other; [done|]. flia.
  - intros k Hk. destruct (decide (k = index)) as [->|]; [|by rewrite lookup_alter_ne by done].
    rewrite lookup_alter_eq. by apply fmap_is_Some.
Qed.

Lemma file_pwrite_holds files index o bytes : 0 ≤ o → o + Z.of_nat (length bytes) ≤ F →
  is_Some (files !! index) → holds (alter (pwrite o bytes) index files) (index * F + o) bytes.
Proof.
  intros Ho Hlen [file Hfile] j b Hj. pose proof (lookup_lt_Some _ _ _ Hj) as Hlt.
  rewrite <-Z.add_assoc, volume_byte_div by lia. rewrite lookup_alter_eq, Hfile. simpl.
  destruct (pwrite_at o bytes file j b Ho Hj) as [-> Hb]. by rewrite bool_decide_true.
Qed.

Lemma holds_app files offset bytes bytes' :
  holds files offset bytes → holds files (offset + Z.of_nat (length bytes)) bytes' →
  holds files offset (bytes ++ bytes').
Proof.
  intros H1 H2 j b Hj. apply lookup_app_Some in Hj as [Hj|[Hge Hj]]; [by apply H1|].
  specialize (H2 _ _ Hj). by replace (offset + Z.of_nat j) with
    (offset + Z.of_nat (length bytes) + Z.of_nat (j - length bytes)) by lia.
Qed.

(** opening creates an empty file at most, or makes it longer *)
Lemma insert_file_keeps lo hi files index file :
  df_byte file = df_byte (default empty_data_file (files !! index)) →
  df_len (default empty_data_file (files !! index)) ≤ df_len file →
  keeps_files lo hi files (<[index := file]> files).
Proof.
  intros Hbyte Hlen. split.
  - intros i b _. unfold volume_byte.
    destruct (decide (i / F = index)) as [<-|Hne]; [|by rewrite lookup_insert_ne by done].
    rewrite lookup_insert_eq. destruct (files !! (i / F)) as [old|]; [|done]. simpl in *.
    rewrite Hbyte. case_bool_decide; [|done]. by rewrite bool_decide_true by lia.
  - intros k Hk. destruct (decide (k = index)) as [->|].
    + rewrite lookup_insert_eq. by eexists.
    + by rewrite lookup_insert_ne.
Qed.

(** ** Ranges *)

Definition disjoint_ranges (r r' : Z * Z) : Prop := r.1 + r.2 ≤ r'.1 ∨ r'.1 + r'.2 ≤ r.1.
#[export] Instance disjoint_ranges_sym : Symmetric disjoint_ranges.
Proof. intros r r' [?|?]; [right|left]; done. Qed.

Fixpoint pairwise_disjoint (rs : list (Z * Z)) : Prop :=
  match rs with
  | [] => True
  | r :: rs => Forall (disjoint_ranges r) rs ∧ pairwise_disjoint rs
  end.

#[export] Instance pairwise_disjoint_perm : Proper (Permutation ==> iff) pairwise_disjoint.
Proof.
  assert (∀ rs rs', rs ≡ₚ rs' → pairwise_disjoint rs → pairwise_disjoint rs') as Hp.
  { induction 1 as [|r rs rs' Hrs IH|r r' rs|rs1 rs2 rs3 _ IH1 _ IH2]; simpl; [done| | |auto].
    - intros [Hall Hpair]. split; [by rewrite <-Hrs|auto].
    - rewrite !Forall_cons. intros ((Hr & Hrs) & Hrs' & Hpair). split_and!; auto.
      by symmetry. }
  intros rs rs' Hrs. split; apply Hp; [done|by symmetry].
Qed.

Lemma pairwise_disjoint_app rs rs' :
  pairwise_disjoint (rs ++ rs') ↔
  pairwise_disjoint rs ∧ pairwise_disjoint rs' ∧ Forall (λ r, Forall (disjoint_ranges r) rs') rs.
Proof.
  induction rs as [|r rs IH]; simpl; [intuition auto using Forall_nil_2|].
  rewrite IH, Forall_app, Forall_cons. tauto.
Qed.

(** ** The storage invariant *)

(** a range reserved by a [put_chunk] under way: the bytes written so far, and whether
    its data file is open *)
Record Claim := mkClaim {
  clm_offset : Z; clm_len : Z; clm_bytes : list Byte.byte; clm_open : bool }.

Definition chunk_range (c : ChunkMeta) : Z * Z := (cm_volume_offset c, cm_compressed_len c).
Definition claim_range (c : Claim) : Z * Z := (clm_offset c, clm_len c).

Definition range_ok (active : Z) (r : Z * Z) : Prop :=
  0 ≤ r.1 ∧ 0 < r.2 ∧ r.1 + r.2 ≤ active ∧ r.1 mod F + r.2 ≤ F.

(** what the callers of [put_chunk] promise of a chunk's id, raw length and bytes *)
Class ContentRule := content_ok : HashId → Z → list Byte.byte → Prop.
(** no promise *)
Definition any_content : ContentRule := λ _ _ _, True.

Section Inv.
Context `{Blake3, ContentRule}.

Definition meta_ok (db : VolumeDb) : Prop :=
  vd_meta_row db = Some (vd_meta db) ∧
  is_i64_nonneg (vm_volume_id (vd_meta db)) ∧ is_i64_nonneg (vm_format_version (vd_meta db)) ∧
  0 ≤ vm_active_volume_offset (vd_meta db) ≤ vm_max_bytes (vd_meta db) ∧
  vm_max_bytes (vd_meta db) ≤ i64_max ∧
  is_i64_nonneg (vm_created_at_ms (vd_meta db)) ∧ is_i64_nonneg (vm_updated_at_ms (vd_meta db)).

Definition chunk_ok (s : VolumeState) (c : ChunkMeta) : Prop :=
  range_ok (vm_active_volume_offset (vd_meta (vl_db s))) (chunk_range c) ∧
  is_i64_nonneg (cm_raw_len c) ∧
  ∃ bytes, Z.of_nat (length bytes) = cm_compressed_len c ∧
    blake3_hash bytes = cm_compressed_hash c ∧ holds (vl_files s) (cm_volume_offset c) bytes ∧
    content_ok (cm_chunk_id c) (cm_raw_len c) bytes.

Definition claim_ok (s : VolumeState) (c : Claim) : Prop :=
  range_ok (vm_active_volume_offset (vd_meta (vl_db s))) (claim_range c) ∧
  Z.of_nat (length (clm_bytes c)) ≤ clm_len c ∧
  holds (vl_files s) (clm_offset c) (clm_bytes c) ∧
  (clm_open c → is_Some (vl_files s !! (clm_offset c / F))).

Definition slot_ok (files : gmap Z DataFile) (i : nat) (slot : DataFileSlot) : Prop :=
  ∀ file, ds_file slot = Some file → file = Z.of_nat i ∧ is_Some (files !! file).

Definition slots_ok (s : VolumeState) : Prop :=
  Z.of_nat (length (vl_slots s)) = u64_div_ceil (vm_max_bytes (vd_meta (vl_db s))) F ∧
  ∀ i slot, vl_slots s !! i = Some slot → slot_ok (vl_files s) i slot.

(** the rows of a bundle *)
Definition bundle_rows (db : VolumeDb) (bundle_id : HashId) : list BundleChunkRow :=
  base.filter (λ row, bcr_bundle_id row = bundle_id) (vd_bundle_chunks db).
Definition rows_of (bundle_id : HashId) (chunks : list BundleChunkRef) : list BundleChunkRow :=
  map (λ c, mkBundleChunkRow bundle_id (bc_chunk_index c) (bc_chunk_id c)) chunks.

Definition bundle_ok (db : VolumeDb) (bundle_id : HashId) : Prop :=
  bundle_rows db bundle_id = [] ∨
  ∃ chunks, bundle_rows db bundle_id = rows_of bundle_id chunks ∧
    contiguous_from 0 chunks ∧ bundle_hash_from_chunks chunks = bundle_id.

(** a change waiting to be reported says what became of the bundle *)
Definition record_ok (db : VolumeDb) (r : BundleChangeRow) : Prop :=
  bch_event_type r = "bundle_stored" ∧ bundle_rows db (bch_bundle_id r) ≠ [] ∨
  bch_event_type r = "bundle_deleted" ∧ bundle_rows db (bch_bundle_id r) = [].

(** the table of changes: in the order of their ids, one for a bundle *)
Record outbox_ok (db : VolumeDb) : Prop := {
  ob_ids : Forall (λ r, 0 < bch_event_id r ≤ vd_seq_records db) (vd_records db);
  ob_bundles : NoDup (map bch_bundle_id (vd_records db));
  ob_sorted : StronglySorted (λ a b, bch_event_id a < bch_event_id b) (vd_records db);
  ob_seq : 0 ≤ vd_seq_records db ≤ i64_max }.

Record bundles_ok (db : VolumeDb) : Prop := {
  bko_bundle : ∀ bundle_id, bundle_ok db bundle_id;
  bko_chunk : Forall (λ row, bcr_chunk_id row ∈ map cm_chunk_id (vd_chunks db)) (vd_bundle_chunks db);
  bko_record : Forall (record_ok db) (vd_records db);
  bko_outbox : outbox_ok db }.

Record volume_inv (s : VolumeState) (claims : list Claim) : Prop := {
  vi_meta : meta_ok (vl_db s);
  vi_slots : slots_ok s;
  vi_chunks : Forall (chunk_ok s) (vd_chunks (vl_db s));
  vi_claims : Forall (claim_ok s) claims;
  vi_ranges : pairwise_disjoint (map chunk_range (vd_chunks (vl_db s)) ++ map claim_range claims);
  vi_ids : NoDup (map cm_chunk_id (vd_chunks (vl_db s)));
  vi_bundles : bundles_ok (vl_db s) }.

Lemma volume_inv_perm s cs cs' : cs ≡ₚ cs' → volume_inv s cs → volume_inv s cs'.
Proof. intros Hcs []. split; [done..| | |done|done]; by rewrite <-Hcs. Qed.
End Inv.
