(* ===== verification/VolumeFacts.v ===== *)
(** * What the locked blocks of a volume do

    The runs of the database methods on a database that satisfies the invariant, and
    that each block keeps the invariant, with the claim it makes or gives up. *)

From S2P Require Import Prelude Types Paths CentralDb VolumeDb Conc VolumeIo Volume VolumeInv.

Ltac split4 := refine (conj _ (conj _ (conj _ _))).

Section Facts.
Context `{SqliteText, RowIds, Blake3, ContentRule}.

(** ** Files *)

Lemma claim_ok_files s s' lo hi c :
  vl_db s' = vl_db s → keeps_files lo hi (vl_files s) (vl_files s') →
  disjoint_ranges (claim_range c) (lo, hi - lo) → claim_ok s c → claim_ok s' c.
Proof.
  intros Hdb Hkeep Hdis (Hr & Hlen & Hbytes & Hopen). unfold claim_ok. rewrite Hdb. split_and!; try done.
  - eapply holds_keeps; [done| |done]. destruct Hdis as [Hd|Hd]; simpl in Hd; [left|right]; lia.
  - intros Ho. by apply Hkeep, Hopen.
Qed.

Lemma chunk_ok_files s s' lo hi c :
  vl_db s' = vl_db s → keeps_files lo hi (vl_files s) (vl_files s') →
  disjoint_ranges (chunk_range c) (lo, hi - lo) → chunk_ok s c → chunk_ok s' c.
Proof.
  intros Hdb Hkeep Hdis (Hr & Hraw & bytes & Hlen & Hhash & Hbytes & Hcontent). unfold chunk_ok. rewrite Hdb.
  split_and!; try done; [apply Hr..|]. exists bytes. split_and!; [done..| |done].
  eapply holds_keeps; [done| |done]. destruct Hdis as [Hd|Hd]; simpl in Hd; [left|right]; lia.
Qed.

Lemma volume_inv_files s s' lo hi cs cs' :
  volume_inv s cs → vl_db s' = vl_db s → slots_ok s' →
  keeps_files lo hi (vl_files s) (vl_files s') →
  Forall (λ c, disjoint_ranges (chunk_range c) (lo, hi - lo)) (vd_chunks (vl_db s)) →
  map claim_range cs' = map claim_range cs → Forall (claim_ok s') cs' → volume_inv s' cs'.
Proof.
  intros [] Hdb Hslots Hkeep Hdis Hranges Hclaims.
  split; rewrite ?Hdb, ?Hranges; try done.
  eapply Forall_combine; [exact vi_chunks|exact Hdis|].
  intros c Hc Hd. by eapply chunk_ok_files.
Qed.

Lemma claims_disjoint s cs c : volume_inv s (c :: cs) →
  Forall (λ c', disjoint_ranges (claim_range c') (claim_range c)) cs ∧
  Forall (λ c', disjoint_ranges (chunk_range c') (claim_range c)) (vd_chunks (vl_db s)).
Proof.
  intros [_ _ _ _ Hr _ _]. simpl in Hr.
  apply pairwise_disjoint_app in Hr as (_ & [Hc _] & Hch). rewrite Forall_map in Hc, Hch.
  split; [by eapply Forall_impl|]. eapply Forall_impl; [exact Hch|]. intros c' Hc'.
  by apply Forall_cons in Hc' as [? _].
Qed.

(** the files change inside the first claim's range only *)
Lemma volume_inv_claim_files s s' lo hi c c' cs :
  volume_inv s (c :: cs) → vl_db s' = vl_db s → slots_ok s' →
  keeps_files lo hi (vl_files s) (vl_files s') →
  clm_offset c ≤ lo → lo ≤ hi → hi ≤ clm_offset c + clm_len c →
  claim_range c' = claim_range c → claim_ok s' c' → volume_inv s' (c' :: cs).
Proof.
  intros Hinv Hdb Hslots Hkeep Hlo Hlohi Hhi Hr Hc'.
  destruct (claims_disjoint _ _ _ Hinv) as [Hcs Hchs].
  assert (∀ r, disjoint_ranges r (claim_range c) → disjoint_ranges r (lo, hi - lo)) as Hsub.
  { intros r [Hd|Hd]; [left|right]; simpl in *; lia. }
  eapply volume_inv_files; [exact Hinv|done..| | |].
  - by eapply Forall_impl; [exact Hchs|]; auto.
  - simpl. by rewrite Hr.
  - constructor; [done|]. pose proof (vi_claims _ _ Hinv) as Hall. apply Forall_cons in Hall as [_ Hall].
    eapply Forall_combine; [exact Hall|exact Hcs|]. intros c0 ? ?.
    eapply claim_ok_files; eauto.
Qed.

(** a change that keeps the bytes of every file *)
Lemma volume_inv_keep_files s s' cs :
  volume_inv s cs → vl_db s' = vl_db s → slots_ok s' →
  keeps_files 0 0 (vl_files s) (vl_files s') → volume_inv s' cs.
Proof.
  intros Hinv Hdb Hslots Hkeep. eapply volume_inv_files; [exact Hinv|done..| |done|].
  - eapply Forall_impl; [apply (vi_chunks _ _ Hinv)|]. intros c [[? _] _]. by right.
  - eapply Forall_impl; [apply (vi_claims _ _ Hinv)|]. intros c Hc. eapply claim_ok_files; [done..| |done].
    destruct Hc as [[? _] _]. by right.
Qed.

(** ** Slots *)

Lemma slots_ok_alter s g i : slots_ok s → (∀ slot file, ds_file (g slot) = Some file → ds_file slot = Some file) →
  slots_ok (set_vl_slots s (alter g i (vl_slots s))).
Proof.
  intros [Hlen Hslots] Hg. split; simpl; [by rewrite length_alter|]. intros j slot Hj.
  destruct (decide (j = i)) as [->|].
  - rewrite list_lookup_alter_eq in Hj. apply fmap_Some in Hj as (slot0 & Hi & ->).
    intros file Hfile. by eapply Hslots, Hg.
  - rewrite list_lookup_alter_ne in Hj by done. by eapply Hslots.
Qed.

Lemma touch_keeps s cs index now : volume_inv s cs → volume_inv (touch index now s).2 cs.
Proof.
  intros Hinv. eapply volume_inv_keep_files; [done..| |apply keeps_files_refl].
  apply slots_ok_alter; [apply Hinv|]. done.
Qed.

Lemma close_idle_slot_keeps s cs now locked i : volume_inv s cs →
  volume_inv (set_vl_slots s (alter (close_idle_slot now locked) i (vl_slots s))) cs.
Proof.
  intros Hinv. eapply volume_inv_keep_files; [done..| |apply keeps_files_refl].
  apply slots_ok_alter; [apply Hinv|]. intros slot file. unfold close_idle_slot.
  repeat case_bool_decide; [done..|]. by destruct locked.
Qed.

(** the file of an opened slot is the slot's, and it exists *)
Lemma open_slot_spec s index create open_err metadata_err alloc_err r s' :
  slots_ok s → 0 ≤ index →
  open_slot index create open_err metadata_err alloc_err s = (r, s') →
  vl_db s' = vl_db s ∧ slots_ok s' ∧ (∀ lo hi, keeps_files lo hi (vl_files s) (vl_files s')) ∧
  ∀ file, r = Ok file → file = index ∧ is_Some (vl_files s' !! index).
Proof.
  intros Hs Hindex. unfold open_slot. pose proof Hs as [Hlen Hslots].
  destruct (vl_slots s !! Z.to_nat index) as [slot|] eqn:Hslot;
    [|intros [= <- <-]; split4; auto using keeps_files_refl; done].
  destruct (ds_file slot) as [file|] eqn:Hfile.
  { intros [= <- <-]. split4; auto using keeps_files_refl. intros ? [= <-].
    destruct (Hslots _ _ Hslot _ Hfile) as [-> ?]. rewrite Z2Nat.id in * by lia. done. }
  assert (∀ files', (∀ lo hi, keeps_files lo hi (vl_files s) files') → slots_ok (set_vl_files s files'))
    as Hfiles.
  { intros files' Hk. split; [done|]. intros i slot0 Hi f Hf. destruct (Hslots _ _ Hi _ Hf) as [? ?].
    split; [done|]. by apply (Hk 0 0). }
  assert (∀ files', (∀ lo hi, keeps_files lo hi (vl_files s) files') → is_Some (files' !! index) →
    slots_ok (set_vl_slots (set_vl_files s files')
      (<[Z.to_nat index := mkDataFileSlot (Some index) (ds_last_access_ms slot)]> (vl_slots s)))) as Hopen.
  { intros files' Hk Hex. split; simpl; [by rewrite length_insert|]. intros i slot0 Hi f Hf.
    apply list_lookup_insert_Some in Hi as [(<- & <- & _)|(_ & Hi)]; [|by eapply (Hfiles _ Hk)].
    injection Hf as <-. split; [lia|done]. }
  destruct open_err as [e|]; [intros [= <- <-]; split4; auto using keeps_files_refl; done|].
  destruct create; simpl.
  - set (old := default empty_data_file (vl_files s !! index)).
    assert (∀ lo hi, keeps_files lo hi (vl_files s) (<[index:=old]> (vl_files s))) as Hk1.
    { intros lo hi. by apply insert_file_keeps. }
    assert (∀ lo hi, keeps_files lo hi (vl_files s) (<[index:=preallocate F old]> (vl_files s))) as Hk2.
    { intros lo hi. apply insert_file_keeps; [done|]. simpl. fold old. lia. }
    assert (∀ f, is_Some (<[index:=f]> (vl_files s) !! index)) as Hex
      by (intros; rewrite lookup_insert_eq; by eexists).
    destruct metadata_err as [e|]; [intros [= <- <-]; split4; auto; done|].
    case_bool_decide; [destruct alloc_err as [e|]; [intros [= <- <-]; split4; auto; done|]|];
      intros [= <- <-]; (split4; [done|by apply Hopen|done|intros ? [= <-]; split; [done|apply Hex]]).
  - destruct (vl_files s !! index) as [old|] eqn:Hold; [|intros [= <- <-]; split4; auto using keeps_files_refl; done].
    intros [= <- <-]. split4; [done| |intros; apply keeps_files_refl|].
    + destruct s. apply (Hopen _ (λ lo hi, keeps_files_refl lo hi _)). by eexists.
    + intros ? [= <-]. split; [done|]. simpl. by eexists.
Qed.

(** ** Chunk rows *)

Lemma chunk_row_ok s c : chunk_ok s c → row_to_chunk c = Ok c.
Proof.
  intros ((Hofs & Hcl & _) & [Hrl _] & _). simpl in *. unfold row_to_chunk.
  rewrite !row_u64_fits by lia. by destruct c.
Qed.

Lemma find_chunk_Some db id c : find_chunk db id = Some c → c ∈ vd_chunks db ∧ cm_chunk_id c = id.
Proof.
  unfold find_chunk. induction (vd_chunks db) as [|c' l IH]; simpl; [done|].
  case_bool_decide; [intros [= ->]; set_solver|]. intros Hf. set_solver.
Qed.

Lemma find_chunk_None db id : find_chunk db id = None ↔ id ∉ map cm_chunk_id (vd_chunks db).
Proof.
  unfold find_chunk. induction (vd_chunks db) as [|c' l IH]; simpl; [set_solver|].
  case_bool_decide; set_solver.
Qed.

Lemma find_chunk_unique db c :
  NoDup (map cm_chunk_id (vd_chunks db)) → c ∈ vd_chunks db → find_chunk db (cm_chunk_id c) = Some c.
Proof.
  unfold find_chunk. induction (vd_chunks db) as [|c' l IH]; simpl; [set_solver|].
  intros [Hn Hnd]%NoDup_cons [->|Hc]%elem_of_cons; [by rewrite bool_decide_true|].
  rewrite bool_decide_false; [auto|]. intros Heq. apply Hn. rewrite Heq. by apply (list_elem_of_fmap_2 cm_chunk_id).
Qed.

Lemma load_chunk_run s cs id : volume_inv s cs →
  load_chunk id (vl_db s) =
  (match find_chunk (vl_db s) id with Some c => Ok c | None => Err (ChunkNotFound id) end, vl_db s).
Proof.
  intros Hinv. unfold load_chunk, vquery, mbind, ST_bind.
  destruct (find_chunk (vl_db s) id) as [c|] eqn:Hf; [|done].
  apply find_chunk_Some in Hf as [Hc _].
  pose proof (proj1 (Forall_forall _ _) (vi_chunks _ _ Hinv) _ Hc) as Hok.
  unfold st_lift. by rewrite (chunk_row_ok _ _ Hok).
Qed.

(** ** Reserving a range *)

Lemma chunk_offset_spec active len : 0 ≤ active → 0 < len ≤ F →
  active ≤ chunk_offset active len ≤ active + F ∧ chunk_offset active len mod F + len ≤ F.
Proof. intros. unfold chunk_offset. case_bool_decide; flia. Qed.

(** the meta row after a reservation up to [active] *)
Definition raised_meta (m : VolumeMeta) (active now : Z) : VolumeMeta :=
  mkVolumeMeta (vm_volume_id m) (vm_format_version m) (vm_max_bytes m) active (vm_created_at_ms m) now.
Definition raised (db : VolumeDb) (active now : Z) : VolumeDb :=
  let meta := raised_meta (vd_meta db) active now in
  mkVolumeDb (Some meta) (vd_chunks db) (vd_bundle_chunks db) (vd_records db) (vd_seq_records db) meta.

Lemma reserve_run db err active now :
  meta_ok db → vm_active_volume_offset (vd_meta db) ≤ active ≤ vm_max_bytes (vd_meta db) → is_u64 now →
  reserve_active_volume_offset err active now db =
  match u64_to_i64 now "updated_at_ms" with
  | Err e => (Err e, db)
  | Ok _ =>
      match err with
      | Some e => (Err (from_sqlite e), db)
      | None => (Ok (raised_meta (vd_meta db) active now), raised db active now)
      end
  end.
Proof.
  intros (Hrow & Hv & Hf & Ha & Hm & Hc & Hu) Hactive Hnow.
  unfold reserve_active_volume_offset, mbind, ST_bind, st_lift at 1 2.
  rewrite (u64_to_i64_fits active) by lia.
  destruct (u64_to_i64 now "updated_at_ms") as [now'|e] eqn:Hnow'; [|done].
  apply u64_to_i64_Ok in Hnow' as [-> Hle].
  unfold vexec. destruct err as [e|]; [done|].
  unfold raise_active_offset. rewrite Hrow. simpl.
  unfold load_meta_from_conn, vquery, mbind, ST_bind. simpl. unfold row_to_meta. simpl.
  unfold is_i64_nonneg, is_u64 in *.
  rewrite !row_u64_fits by lia. unfold mbind, Result_bind, st_lift, set_meta, raised, raised_meta, mret, ST_ret. simpl.
  by rewrite Z.max_r by lia.
Qed.

Lemma reserve_chunk_run s cs err now id hash raw_len len :
  volume_inv s cs → 0 < len ≤ F → is_u64 now →
  let db := vl_db s in
  let offset := chunk_offset (vm_active_volume_offset (vd_meta db)) len in
  reserve_chunk err now id hash raw_len len db =
  match find_chunk db id with
  | Some c =>
      if bool_decide (cm_raw_len c = raw_len ∧ cm_compressed_len c = len ∧ cm_compressed_hash c = hash)
      then (Ok (inl c), db) else (Err (HashMismatch (cm_volume_offset c)), db)
  | None =>
      if bool_decide (vm_max_bytes (vd_meta db) < offset + len)
      then (Err (CapacityExceeded (offset + len) (vm_max_bytes (vd_meta db))), db)
      else match u64_to_i64 now "updated_at_ms", err with
        | Err e, _ => (Err e, db)
        | Ok _, Some e => (Err (from_sqlite e), db)
        | Ok _, None => (Ok (inr (mkChunkMeta id hash offset raw_len len)), raised db (offset + len) now)
        end
  end.
Proof.
  intros Hinv Hlen Hnow db offset. pose proof (vi_meta _ _ Hinv) as Hmeta.
  unfold reserve_chunk, mbind, ST_bind, st_try. subst db. rewrite (load_chunk_run s cs id Hinv).
  destruct (find_chunk (vl_db s) id) as [c|].
  { destruct (bool_decide _) eqn:Hb; [rewrite bool_decide_false|rewrite bool_decide_true]; [done| |done|].
    - apply bool_decide_eq_true in Hb. tauto.
    - apply bool_decide_eq_false in Hb. destruct (decide (cm_raw_len c = raw_len)); [|tauto].
      destruct (decide (cm_compressed_len c = len)); [|tauto].
      destruct (decide (cm_compressed_hash c = hash)); tauto. }
  unfold vquery, st_lift. fold offset.
  destruct Hmeta as (Hrow & Hv & Hf & Ha & Hm & Hcr & Hu).
  assert (0 ≤ vm_active_volume_offset (vd_meta (vl_db s))) as Hpos by lia.
  destruct (chunk_offset_spec _ len Hpos Hlen) as [Hoff _]. fold offset in Hoff.
  assert (ok_or (IntegerConversion "volume offset overflow") (u64_checked_add offset len) = Ok (offset + len)) as ->.
  { unfold u64_checked_add. rewrite bool_decide_true; [done|].
    rewrite data_file_size in *. unfold u64_max, i64_max in *. lia. }
  case_bool_decide; [done|].
  rewrite reserve_run; [|done|lia|done].
  destruct (u64_to_i64 now "updated_at_ms"); [|done]. by destruct err.
Qed.

Lemma range_ok_raise active active' r : active ≤ active' → range_ok active r → range_ok active' r.
Proof. intros ? (?&?&?&?). unfold range_ok. lia. Qed.

Lemma bundles_ok_ext db db' :
  vd_bundle_chunks db' = vd_bundle_chunks db → vd_records db' = vd_records db →
  vd_seq_records db' = vd_seq_records db →
  Forall (λ row, bcr_chunk_id row ∈ map cm_chunk_id (vd_chunks db')) (vd_bundle_chunks db) →
  bundles_ok db → bundles_ok db'.
Proof.
  destruct db, db'. simpl. intros -> -> -> Hfk [Hbk _ Hrec []]. split; done.
Qed.

(** a reservation makes a claim *)
Lemma reserve_keeps s cs len now :
  volume_inv s cs → 0 < len ≤ F → is_u64 now → now ≤ i64_max →
  let offset := chunk_offset (vm_active_volume_offset (vd_meta (vl_db s))) len in
  offset + len ≤ vm_max_bytes (vd_meta (vl_db s)) →
  volume_inv (set_vl_db s (raised (vl_db s) (offset + len) now)) (mkClaim offset len [] false :: cs).
Proof.
  intros Hinv Hlen Hnow Hnow' offset Hmax. destruct Hinv as [Hmeta Hslots Hchunks Hclaims Hranges Hids Hb].
  destruct Hmeta as (Hrow & Hv & Hf & Ha & Hm & Hcr & Hu).
  destruct (chunk_offset_spec (vm_active_volume_offset (vd_meta (vl_db s))) len) as [Hoff Hmod]; [lia|done|].
  fold offset in Hoff, Hmod.
  split.
  - unfold meta_ok. simpl. unfold is_i64_nonneg, is_u64 in *. split_and!; done || lia.
  - done.
  - eapply Forall_impl; [exact Hchunks|]. intros c (Hr & ?). split; [|done]. simpl.
    eapply range_ok_raise; [|done]. lia.
  - constructor.
    + split4; simpl; [unfold range_ok; simpl; lia|lia|by intros j b|done].
    + eapply Forall_impl; [exact Hclaims|]. intros c (Hr & ?). split; [|done]. simpl.
      eapply range_ok_raise; [|done]. lia.
  - simpl. rewrite <-Permutation_middle. simpl. split; [|done].
    apply Forall_app. rewrite !Forall_map. split.
    + eapply Forall_impl; [exact Hchunks|]. intros c [(_ & _ & Hr & _) _]. right. simpl in *. lia.
    + eapply Forall_impl; [exact Hclaims|]. intros c [(_ & _ & Hr & _) _]. right. simpl in *. lia.
  - done.
  - eapply bundles_ok_ext; [..|exact Hb]; try done. apply Hb.
Qed.

(** ** Inserting and deleting chunks *)

Lemma insert_chunk_run db err c : 0 ≤ cm_volume_offset c → cm_volume_offset c ≤ i64_max →
  cm_compressed_len c ≤ i64_max →
  VolumeDb.insert_chunk err c db =
  match u64_to_i64 (cm_raw_len c) "raw len" with
  | Err e => (Err e, db)
  | Ok _ =>
      match err with
      | Some e => (Err (from_sqlite e), db)
      | None => (Ok tt, if bool_decide (cm_chunk_id c ∈ map cm_chunk_id (vd_chunks db)) then db
                        else set_vd_chunks db (vd_chunks db ++ [c]))
      end
  end.
Proof.
  intros Hc1 Hc2 Hc3. unfold insert_chunk, mbind, ST_bind, st_lift.
  rewrite (u64_to_i64_fits (cm_volume_offset c)) by done.
  destruct (u64_to_i64 (cm_raw_len c) "raw len") as [raw|e] eqn:Hraw; [|done].
  apply u64_to_i64_Ok in Hraw as [-> _].
  rewrite (u64_to_i64_fits (cm_compressed_len c)) by done.
  unfold vexec. destruct err as [e|]; [done|]. unfold insert_chunk_row. simpl.
  case_bool_decide; [done|]. by destruct c.
Qed.

(** the claim of a chunk whose bytes are written becomes the chunk's range *)
Lemma insert_keeps s cs c b :
  volume_inv s (mkClaim (cm_volume_offset c) (cm_compressed_len c) b true :: cs) →
  Z.of_nat (length b) = cm_compressed_len c → blake3_hash b = cm_compressed_hash c →
  is_i64_nonneg (cm_raw_len c) → content_ok (cm_chunk_id c) (cm_raw_len c) b →
  cm_chunk_id c ∉ map cm_chunk_id (vd_chunks (vl_db s)) →
  volume_inv (set_vl_db s (set_vd_chunks (vl_db s) (vd_chunks (vl_db s) ++ [c]))) cs.
Proof.
  intros [Hmeta Hslots Hchunks Hclaims Hranges Hids Hb] Hlen Hhash Hraw Hcontent Hfresh.
  apply Forall_cons in Hclaims as [(Hr & _ & Hholds & _) Hclaims]. split; simpl; try done.
  - apply Forall_app. split; [exact Hchunks|]. constructor; [|done]. split; [exact Hr|]. split; [done|]. by exists b.
  - rewrite map_app, <-app_assoc. simpl. exact Hranges.
  - rewrite map_app. apply NoDup_app. split_and!; [done| |apply NoDup_singleton]. set_solver.
  - eapply bundles_ok_ext; [..|exact Hb]; [done..|]. eapply Forall_impl; [apply Hb|]. intros row Hrow. simpl. rewrite map_app. set_solver.
Qed.

Lemma drop_claim s cs cs' : volume_inv s (cs ++ cs') → volume_inv s cs'.
Proof.
  intros []. split; try done.
  - by apply Forall_app in vi_claims as [_ ?].
  - rewrite map_app, (Permutation_app_comm (map claim_range cs)), app_assoc in vi_ranges.
    by apply pairwise_disjoint_app in vi_ranges as [? _].
Qed.

Lemma pairwise_disjoint_submseteq rs rs' :
  rs ⊆+ rs' → pairwise_disjoint rs' → pairwise_disjoint rs.
Proof.
  intros [k ->]%submseteq_Permutation Hp. by apply pairwise_disjoint_app in Hp as [? _].
Qed.

Lemma delete_keeps s cs id :
  volume_inv s cs → id ∉ map bcr_chunk_id (vd_bundle_chunks (vl_db s)) ∨ id ∉ map cm_chunk_id (vd_chunks (vl_db s)) →
  volume_inv (set_vl_db s (set_vd_chunks (vl_db s)
    (base.filter (λ c, cm_chunk_id c ≠ id) (vd_chunks (vl_db s))))) cs.
Proof.
  intros [Hmeta Hslots Hchunks Hclaims Hranges Hids Hb] Hfree. split; simpl; try done.
  - apply Forall_forall. intros c [_ Hc]%list_elem_of_filter.
    exact (proj1 (Forall_forall _ _) Hchunks _ Hc).
  - eapply pairwise_disjoint_submseteq; [|exact Hranges]. apply submseteq_skips_r.
    apply sublist_submseteq. apply (fmap_sublist chunk_range), sublist_filter.
  - eapply sublist_NoDup; [exact Hids|]. apply (fmap_sublist cm_chunk_id), sublist_filter.
  - eapply bundles_ok_ext; [..|exact Hb]; [done..|]. pose proof (bko_chunk _ Hb) as Hfk. rewrite Forall_forall in Hfk |- *.
    intros row Hrow. pose proof (Hfk _ Hrow) as Hin. apply list_elem_of_fmap in Hin as (c & Hid & Hc).
    rewrite Hid. apply (list_elem_of_fmap_2 cm_chunk_id), list_elem_of_filter. split; [|done].
    intros Hci. destruct Hfree as [Hfree|Hfree]; apply Hfree; rewrite <-Hci.
    + rewrite <-Hid. by apply (list_elem_of_fmap_2 bcr_chunk_id).
    + by apply (list_elem_of_fmap_2 cm_chunk_id).
Qed.
End Facts.
