(* ===== verification/VolumeBundles.v ===== *)
(** * The bundles of a volume and the outbox of their changes

    The runs of the database methods on bundles, and that each keeps the invariant. *)

From S2P Require Import Prelude Types Paths CentralDb VolumeDb Conc VolumeIo Volume.
From S2P Require Import VolumeInv VolumeFacts.

Section Bundles.
Context `{SqliteText, RowIds, Blake3, ContentRule}.

(** ** Rows of one bundle *)

Lemma rows_of_bundle b b' chunks :
  base.filter (λ row, bcr_bundle_id row = b') (rows_of b chunks) =
  if bool_decide (b = b') then rows_of b chunks else [].
Proof.
  case_bool_decide as Hb; [apply filter_all|apply filter_nil_iff];
    by intros row (c & -> & _)%list_elem_of_fmap.
Qed.

Lemma bundle_rows_other db b b' : b' ≠ b →
  base.filter (λ row, bcr_bundle_id row = b')
    (base.filter (λ row, bcr_bundle_id row ≠ b) (vd_bundle_chunks db)) = bundle_rows db b'.
Proof.
  intros Hne. unfold bundle_rows. rewrite list_filter_filter.
  apply list_filter_iff. intros row. split; [tauto|]. intros <-. done.
Qed.

Lemma bundle_rows_deleted db b :
  base.filter (λ row, bcr_bundle_id row = b)
    (base.filter (λ row, bcr_bundle_id row ≠ b) (vd_bundle_chunks db)) = [].
Proof. apply filter_nil_iff. by intros row [? _]%list_elem_of_filter. Qed.

Lemma bundle_rows_nil db b : bundle_rows db b = [] →
  base.filter (λ row, bcr_bundle_id row ≠ b) (vd_bundle_chunks db) = vd_bundle_chunks db.
Proof.
  intros Hnil. apply filter_all. intros row Hrow Hb.
  exact (filter_nil_not_elem_of _ _ _ Hnil Hb Hrow).
Qed.

Lemma bundle_members_length db b :
  Forall (λ row, bcr_chunk_id row ∈ map cm_chunk_id (vd_chunks db)) (vd_bundle_chunks db) →
  length (bundle_members db b) = length (bundle_rows db b).
Proof.
  intros Hfk. unfold bundle_members. fold (bundle_rows db b).
  assert (Forall (λ row, bcr_chunk_id row ∈ map cm_chunk_id (vd_chunks db)) (bundle_rows db b)) as Hrows.
  { rewrite Forall_forall in *. intros row [_ Hrow]%list_elem_of_filter. auto. }
  clear Hfk. induction Hrows as [|row rows Hrow _ IH]; [done|]. cbn [omap list_omap].
  destruct (find_chunk db (bcr_chunk_id row)) as [c|] eqn:Hc; simpl; [by rewrite IH|].
  by apply find_chunk_None in Hc.
Qed.

(** ** Totals *)

(** what [load_bundle] answers *)
Definition bundle_totals (db : VolumeDb) (b : HashId) : Fs0Result BundleMeta :=
  let members := bundle_members db b in
  let raw := zsum (map cm_raw_len members) in
  let compressed := zsum (map cm_compressed_len members) in
  if bool_decide (bundle_rows db b = []) then Err (BundleNotFound b)
  else if bool_decide (raw ≤ i64_max ∧ compressed ≤ i64_max)
  then Ok (mkBundleMeta b raw compressed (Z.of_nat (length (bundle_rows db b))))
  else Err (from_sqlite IntegerOverflow).

Definition chunk_lens_ok (db : VolumeDb) : Prop :=
  Forall (λ c, 0 ≤ cm_volume_offset c ∧ 0 ≤ cm_raw_len c ∧ 0 ≤ cm_compressed_len c) (vd_chunks db).

Lemma volume_inv_lens s cs : volume_inv s cs → chunk_lens_ok (vl_db s).
Proof.
  intros Hinv. eapply Forall_impl; [apply (vi_chunks _ _ Hinv)|].
  intros c ((Hofs & Hlen & _) & [Hraw _] & _). simpl in *. lia.
Qed.

Lemma bundle_members_lens db b : chunk_lens_ok db →
  0 ≤ zsum (map cm_raw_len (bundle_members db b)) ∧ 0 ≤ zsum (map cm_compressed_len (bundle_members db b)).
Proof.
  intros Hok. assert (Forall (λ c, 0 ≤ cm_raw_len c ∧ 0 ≤ cm_compressed_len c) (bundle_members db b)) as Hm.
  { apply Forall_forall. intros c Hc. apply list_elem_of_omap in Hc as (row & _ & [Hc _]%find_chunk_Some).
    pose proof (proj1 (Forall_forall _ _) Hok _ Hc). simpl in *. tauto. }
  split; apply zsum_nonneg, Forall_map; (eapply Forall_impl; [exact Hm|]); intros c [? ?]; done.
Qed.

Lemma load_bundle_run db b : chunk_lens_ok db → bundles_ok db →
  load_bundle b db = (bundle_totals db b, db).
Proof.
  intros Hlens Hb. destruct (bundle_members_lens db b Hlens) as [Hraw Hcomp].
  pose proof (bundle_members_length db b (bko_chunk _ Hb)) as Hlen.
  unfold load_bundle, vquery, mbind, ST_bind, bundle_totals.
  destruct (bundle_members db b) as [|c members] eqn:Hm.
  { rewrite bool_decide_true; [done|]. by destruct (bundle_rows db b). }
  rewrite bool_decide_false by (intros Hnil; by rewrite Hnil in Hlen).
  rewrite <-Hlen. unfold st_lift, sql_sum. clear Hlen Hm. set (ms := c :: members) in *.
  repeat case_bool_decide; cbn [map_err]; try tauto; by rewrite !row_u64_fits by done.
Qed.

(** ** The chunks a bundle names *)

Lemma row_to_chunk_lens db c : chunk_lens_ok db → c ∈ vd_chunks db → row_to_chunk c = Ok c.
Proof.
  intros Hok Hc. pose proof (proj1 (Forall_forall _ _) Hok _ Hc) as (? & ? & ?).
  unfold row_to_chunk. rewrite !row_u64_fits by done. by destruct c.
Qed.

Lemma foldl_insert_lookup (cs : list ChunkMeta) (m : gmap HashId ChunkMeta) id :
  NoDup (map cm_chunk_id cs) →
  foldl (λ m c, <[cm_chunk_id c := c]> m) m cs !! id =
  match lfind (λ c, bool_decide (cm_chunk_id c = id)) cs with Some c => Some c | None => m !! id end.
Proof.
  revert m. induction cs as [|c cs IH]; intros m; cbn [map foldl lfind]; [done|].
  intros [Hn Hnd]%NoDup_cons. rewrite IH by done. case_bool_decide as Hc.
  - destruct (lfind _ cs) as [c'|] eqn:Hf.
    + exfalso. apply Hn. assert (c' ∈ cs ∧ cm_chunk_id c' = id) as [Hin Hid].
      { clear -Hf. induction cs as [|c cs IH]; simpl in Hf; [done|].
        case_bool_decide; [simplify_eq; set_solver|]. set_solver. }
      rewrite Hc, <-Hid. by apply (list_elem_of_fmap_2 cm_chunk_id).
    + rewrite Hc. apply lookup_insert_eq.
  - destruct (lfind _ cs); [done|]. by rewrite lookup_insert_ne.
Qed.

Lemma load_chunks_by_ids_run db ids : chunk_lens_ok db → NoDup (map cm_chunk_id (vd_chunks db)) →
  ∃ m, load_chunks_by_ids ids db = (Ok m, db) ∧ ∀ id, id ∈ ids → m !! id = find_chunk db id.
Proof.
  intros Hok Hnd. unfold load_chunks_by_ids. case_bool_decide as Hids.
  { exists ∅. split; [done|]. intros id. rewrite Hids. set_solver. }
  set (rows := base.filter (λ c, cm_chunk_id c ∈ ids) (vd_chunks db)).
  assert (collect row_to_chunk rows = Ok (map id rows)) as Hcollect.
  { apply collect_map, Forall_forall. intros c [_ Hc]%list_elem_of_filter. by eapply row_to_chunk_lens. }
  rewrite map_id in Hcollect. eexists. split.
  { unfold vquery, mbind, ST_bind, st_lift. fold rows. by rewrite Hcollect. }
  intros id Hid. rewrite foldl_insert_lookup.
  2:{ eapply sublist_NoDup; [exact Hnd|]. apply (fmap_sublist cm_chunk_id), sublist_filter. }
  rewrite lookup_empty. subst rows. unfold find_chunk. clear -Hid.
  induction (vd_chunks db) as [|c cs IH]; [done|]. rewrite filter_cons. case_decide as Hc; simpl.
  - case_bool_decide; [done|]. exact IH.
  - rewrite bool_decide_false by (intros <-; done). exact IH.
Qed.

Definition missing_chunk (db : VolumeDb) (c : BundleChunkRef) : bool :=
  bool_decide (bc_chunk_id c ∉ map cm_chunk_id (vd_chunks db)).

Lemma require_chunks_run (db : VolumeDb) m chunks :
  (∀ c, c ∈ chunks → m !! bc_chunk_id c = find_chunk db (bc_chunk_id c)) →
  require_chunks m chunks db =
  (match lfind (missing_chunk db) chunks with
   | Some c => Err (ChunkNotFound (bc_chunk_id c)) | None => Ok tt end, db).
Proof.
  induction chunks as [|c chunks IH]; intros Hm; cbn [require_chunks lfind]; [done|].
  rewrite Hm by set_solver. unfold missing_chunk at 1.
  destruct (find_chunk db (bc_chunk_id c)) as [c'|] eqn:Hf.
  - rewrite bool_decide_false; [apply IH; set_solver|]. intros Hn.
    apply find_chunk_None in Hn. by rewrite Hf in Hn.
  - apply find_chunk_None in Hf. by rewrite bool_decide_true.
Qed.

(** ** Writing the rows *)

Lemma contiguous_indexes i chunks : contiguous_from i chunks →
  map bc_chunk_index chunks = seqZ i (Z.of_nat (length chunks)).
Proof.
  revert i. induction chunks as [|c chunks IH]; intros i; cbn [contiguous_from map]; [done|].
  intros [Hc Hcs]%andb_True. apply bool_decide_unpack in Hc as ->. cbn [length].
  rewrite seqZ_cons by lia. f_equal. rewrite (IH _ Hcs). f_equal; lia.
Qed.

Lemma insert_bundle_chunks_run db b chunks i :
  0 ≤ i → i + Z.of_nat (length chunks) ≤ i64_max + 1 → contiguous_from i chunks →
  lfind (missing_chunk db) chunks = None →
  Forall (λ row, bcr_bundle_id row = b → bcr_chunk_index row < i) (vd_bundle_chunks db) →
  insert_bundle_chunks b chunks db =
  (Ok tt, set_vd_bundle_chunks db (vd_bundle_chunks db ++ rows_of b chunks)).
Proof.
  revert db i. induction chunks as [|c chunks IH]; intros db i Hi Hmax Hcont Hmiss Hfresh.
  { cbn [insert_bundle_chunks rows_of map]. rewrite app_nil_r. by destruct db. }
  cbn [insert_bundle_chunks contiguous_from lfind length] in *.
  apply andb_True in Hcont as [Hc Hcs]. apply bool_decide_unpack in Hc.
  destruct (missing_chunk db c) eqn:Hmc; [done|].
  unfold mbind at 1, ST_bind at 1, st_lift. rewrite u64_to_i64_fits by lia.
  unfold mbind, ST_bind, vexec, insert_bundle_chunk_row. cbn [bcr_chunk_id].
  rewrite bool_decide_false.
  2:{ intros Hin. apply list_elem_of_fmap in Hin as (row & Hkey & Hrow). unfold bundle_chunk_key in Hkey.
      injection Hkey as Hb Hidx. simpl in *. pose proof (proj1 (Forall_forall _ _) Hfresh _ Hrow (eq_sym Hb)). simpl in *. lia. }
  rewrite bool_decide_true by (apply bool_decide_eq_false in Hmc; by apply dec_stable).
  rewrite (IH _ (i + 1)); [|lia|lia|done|done|].
  - unfold set_vd_bundle_chunks. simpl. by rewrite <-app_assoc.
  - simpl. apply Forall_app. split.
    + eapply Forall_impl; [exact Hfresh|]. intros row Hr Hb. specialize (Hr Hb). lia.
    + constructor; [|done]. simpl. lia.
Qed.

(** ** The outbox *)

Lemma upsert_change_spec kind b db db' `{!RowIdLaws} :
  outbox_ok db → upsert_change_row (event_type_of kind) b db = Ok (tt, db') →
  db' = set_vd_records db (vd_records db') (vd_seq_records db') ∧ outbox_ok db' ∧
  ∀ r, r ∈ vd_records db' →
    bch_bundle_id r = b ∧ bch_event_type r = event_type_of kind ∨ bch_bundle_id r ≠ b ∧ r ∈ vd_records db.
Proof.
  intros [Hids Hnd Hsort Hseq]. unfold upsert_change_row. case_bool_decide as Hin.
  - intros [= <-]. cbn [vd_records set_vd_records vd_seq_records].
    set (g := λ r, if bool_decide (bch_bundle_id r = b)
                   then mkBundleChangeRow (bch_event_id r) (event_type_of kind) b else r).
    assert (∀ r, bch_bundle_id (g r) = bch_bundle_id r ∧ bch_event_id (g r) = bch_event_id r) as Hg.
    { intros r. unfold g. by case_bool_decide. }
    split; [done|]. split; [split; simpl; [| | |done]|].
    + apply Forall_map. eapply Forall_impl; [exact Hids|]. intros r. by destruct (Hg r) as [_ ->].
    + rewrite map_map. by rewrite (map_ext _ bch_bundle_id) by apply Hg.
    + clear -Hsort Hg. induction Hsort as [|r l Hsort IH Hall]; simpl; constructor; [done|].
      apply Forall_map. eapply Forall_impl; [exact Hall|]. intros r' Hr'.
      destruct (Hg r) as [_ ->]. destruct (Hg r') as [_ ->]. done.
    + intros r0 (r & -> & Hr)%list_elem_of_fmap. unfold g. case_bool_decide; [left|right]; done.
  - destruct (autoincrement_rowid _ _) as [id|] eqn:Hid; [|done]. intros [= <-].
    cbn [vd_records set_vd_records vd_seq_records].
    apply autoincrement_rowid_fresh in Hid as [Hlt Hmax]; [|lia|].
    2:{ apply Forall_map. eapply Forall_impl; [exact Hids|]. simpl. lia. }
    split; [done|]. split; [split; simpl; [| | |lia]|].
    + apply Forall_app. split; [|constructor; [simpl; lia|done]].
      eapply Forall_impl; [exact Hids|]. simpl. lia.
    + rewrite map_app. apply NoDup_app. split_and!; [done| |apply NoDup_singleton]. set_solver.
    + apply StronglySorted_app. split_and!; [|done|].
      * intros r r' Hr Hr'%list_elem_of_singleton. subst r'. simpl.
        pose proof (proj1 (Forall_forall _ _) Hids _ Hr). simpl in *. lia.
      * constructor; constructor.
    + intros r [Hr|Hr%list_elem_of_singleton]%elem_of_app; [right|left; by subst r].
      split; [|done]. intros <-. apply Hin. by apply (list_elem_of_fmap_2 bch_bundle_id).
Qed.

(** a bundle's rows change and the change goes into the outbox *)
Lemma bundle_change_keeps kind b rows s cs db' `{!RowIdLaws} :
  volume_inv s cs →
  upsert_change_row (event_type_of kind) b (set_vd_bundle_chunks (vl_db s) rows) = Ok (tt, db') →
  (∀ b', b' ≠ b → base.filter (λ row, bcr_bundle_id row = b') rows = bundle_rows (vl_db s) b') →
  Forall (λ row, bcr_chunk_id row ∈ map cm_chunk_id (vd_chunks (vl_db s))) rows →
  let rows_b := base.filter (λ row, bcr_bundle_id row = b) rows in
  (kind = Deleted ∧ rows_b = [] ∨ kind = Stored ∧ rows_b ≠ [] ∧
   ∃ chunks, rows_b = rows_of b chunks ∧ contiguous_from 0 chunks ∧ bundle_hash_from_chunks chunks = b) →
  volume_inv (set_vl_db s db') cs.
Proof.
  intros Hinv Hup Hother Hfk rows_b Hb. pose proof (vi_bundles _ _ Hinv) as [Hbk _ Hrec Hob].
  assert (outbox_ok (set_vd_bundle_chunks (vl_db s) rows)) as Hob0 by (destruct Hob; by split).
  destruct (upsert_change_spec _ _ _ _ Hob0 Hup) as (Heq & Hob' & Hrecs).
  revert Heq Hob' Hrecs. generalize (vd_records db') (vd_seq_records db'). intros records seq -> Hob' Hrecs.
  destruct Hinv. split; try done. split; try done.
  - intros b'. destruct (decide (b' = b)) as [->|Hne].
    + destruct Hb as [[_ Hb]|(_ & _ & Hb)]; [by left|by right].
    + destruct (Hbk b') as [Hr|Hr]; [left|right]; unfold bundle_rows; simpl; by rewrite Hother.
  - simpl. apply Forall_forall. intros r Hr. unfold record_ok, bundle_rows. simpl.
    destruct (Hrecs r Hr) as [[-> ->]|[Hne Hin]].
    + destruct Hb as [[-> Hb]|(-> & Hb & _)]; [right|left]; done.
    + rewrite Hother by done. exact (proj1 (Forall_forall _ _) Hrec _ Hin).
Qed.

(** ** The methods *)

Lemma bundle_totals_missing db b : bundle_totals db b = Err (BundleNotFound b) ↔ bundle_rows db b = [].
Proof. unfold bundle_totals, from_sqlite. repeat case_bool_decide; naive_solver. Qed.

(** the database with the rows of a new bundle *)
Definition with_bundle (db : VolumeDb) (b : HashId) (chunks : list BundleChunkRef) : VolumeDb :=
  set_vd_bundle_chunks db (vd_bundle_chunks db ++ rows_of b chunks).
Definition without_bundle (db : VolumeDb) (b : HashId) : VolumeDb :=
  set_vd_bundle_chunks db (base.filter (λ row, bcr_bundle_id row ≠ b) (vd_bundle_chunks db)).

(** what [commit_bundle] does once the bundle is known to be absent *)
Lemma commit_bundle_tx_run err b chunks db :
  bundle_rows db b = [] → contiguous_from 0 chunks → Z.of_nat (length chunks) ≤ i64_max →
  lfind (missing_chunk db) chunks = None →
  vtx err (vexec None (delete_bundle_rows b);; insert_bundle_chunks b chunks;;
           insert_bundle_change_record_tx b Stored) db =
  match upsert_change_row (event_type_of Stored) b (with_bundle db b chunks) with
  | Err e => (Err (from_sqlite e), db)
  | Ok (_, db') => match err with Some e => (Err (from_sqlite e), db) | None => (Ok tt, db') end
  end.
Proof.
  intros Hnil Hcont Hlen Hmiss. unfold vtx. unfold mbind at 1, ST_bind at 1, vexec, delete_bundle_rows.
  rewrite (bundle_rows_nil db b Hnil).
  replace (set_vd_bundle_chunks db (vd_bundle_chunks db)) with db by (by destruct db).
  unfold mbind, ST_bind. rewrite (insert_bundle_chunks_run db b chunks 0); [|lia|lia|done|done|].
  2:{ apply Forall_forall. intros row Hrow Hb. by apply (filter_nil_not_elem_of _ _ _ Hnil Hb) in Hrow. }
  fold (with_bundle db b chunks). unfold insert_bundle_change_record_tx, vexec.
  destruct (upsert_change_row _ _ _) as [[[] db']|e]; [|done]. by destruct err.
Qed.

Lemma with_bundle_rows db b b' chunks : bundle_rows db b = [] →
  base.filter (λ row, bcr_bundle_id row = b') (vd_bundle_chunks (with_bundle db b chunks)) =
  if bool_decide (b = b') then rows_of b chunks else bundle_rows db b'.
Proof.
  intros Hnil. simpl. rewrite filter_app, rows_of_bundle. case_bool_decide as Hb.
  - subst b'. fold (bundle_rows db b). by rewrite Hnil.
  - by rewrite app_nil_r.
Qed.

Lemma with_bundle_keeps s cs b chunks db' `{!RowIdLaws} :
  volume_inv s cs → bundle_rows (vl_db s) b = [] → chunks ≠ [] → contiguous_from 0 chunks →
  bundle_hash_from_chunks chunks = b → lfind (missing_chunk (vl_db s)) chunks = None →
  upsert_change_row (event_type_of Stored) b (with_bundle (vl_db s) b chunks) = Ok (tt, db') →
  volume_inv (set_vl_db s db') cs.
Proof.
  intros Hinv Hnil Hne Hcont Hhash Hmiss Hup. apply (bundle_change_keeps Stored b _ _ _ _ Hinv Hup).
  - intros b' Hb'. pose proof (with_bundle_rows (vl_db s) b b' chunks Hnil) as Hr. simpl in Hr.
    rewrite Hr, bool_decide_false by congruence. done.
  - apply Forall_app. split; [apply (bko_chunk _ (vi_bundles _ _ Hinv))|].
    apply Forall_map. apply Forall_forall. intros c Hc.
    eapply lfind_None in Hmiss; [|exact Hc]. by apply bool_decide_eq_false, dec_stable in Hmiss.
  - pose proof (with_bundle_rows (vl_db s) b b chunks Hnil) as Hr. simpl in Hr.
    rewrite Hr, bool_decide_true by done. right. split_and!; [done| |by exists chunks].
    by destruct chunks.
Qed.

Lemma commit_bundle_locked_run s cs err b chunks `{!RowIdLaws} :
  volume_inv s cs → chunks ≠ [] → contiguous_from 0 chunks → bundle_hash_from_chunks chunks = b →
  Z.of_nat (length chunks) ≤ i64_max →
  let db := vl_db s in
  commit_bundle_locked err b chunks db =
  if bool_decide (bundle_rows db b = []) then
    match lfind (missing_chunk db) chunks with
    | Some c => (Err (ChunkNotFound (bc_chunk_id c)), db)
    | None =>
        match upsert_change_row (event_type_of Stored) b (with_bundle db b chunks) with
        | Err e => (Err (from_sqlite e), db)
        | Ok (_, db') =>
            match err with
            | Some e => (Err (from_sqlite e), db)
            | None => (bundle_totals db' b, db')
            end
        end
    end
  else (bundle_totals db b, db).
Proof.
  intros Hinv Hne Hcont Hhash Hlen db. pose proof (volume_inv_lens _ _ Hinv) as Hlens.
  unfold commit_bundle_locked, mbind, ST_bind, st_try.
  rewrite load_bundle_run by (done || apply Hinv). fold db. case_bool_decide as Hnil.
  - rewrite (proj2 (bundle_totals_missing db b) Hnil).
    destruct (load_chunks_by_ids_run db (map bc_chunk_id chunks)) as (m & -> & Hm); [done|apply Hinv|].
    rewrite require_chunks_run; [|intros c Hc; apply Hm; by apply (list_elem_of_fmap_2 bc_chunk_id)].
    destruct (lfind (missing_chunk db) chunks) as [c|] eqn:Hmiss; [done|].
    unfold commit_bundle_rows, mbind at 1, ST_bind at 1. rewrite commit_bundle_tx_run by done.
    destruct (upsert_change_row _ _ _) as [[[] db']|e] eqn:Hup; [|done]. destruct err as [e|]; [done|].
    pose proof (with_bundle_keeps s cs b chunks db' Hinv Hnil Hne Hcont Hhash Hmiss Hup) as Hinv'.
    apply load_bundle_run; [exact (volume_inv_lens _ _ Hinv')|exact (vi_bundles _ _ Hinv')].
  - destruct (bundle_totals db b) as [meta|e] eqn:Ht; [done|].
    destruct e; try done. exfalso. unfold bundle_totals, from_sqlite in Ht.
    rewrite bool_decide_false in Ht by done. by case_bool_decide.
Qed.

Lemma commit_bundle_locked_keeps s cs err b chunks `{!RowIdLaws} :
  volume_inv s cs → chunks ≠ [] → contiguous_from 0 chunks → bundle_hash_from_chunks chunks = b →
  Z.of_nat (length chunks) ≤ i64_max →
  volume_inv (with_db (commit_bundle_locked err b chunks) s).2 cs.
Proof.
  intros Hinv Hne Hcont Hhash Hlen. unfold with_db.
  rewrite (commit_bundle_locked_run s cs) by done.
  assert (set_vl_db s (vl_db s) = s) as Hs by (by destruct s).
  case_bool_decide as Hnil; simpl; rewrite ?Hs; [|done].
  destruct (lfind _ chunks) eqn:Hmiss; simpl; rewrite ?Hs; [done|].
  destruct (upsert_change_row _ _ _) as [[[] db']|e] eqn:Hup; simpl; rewrite ?Hs; [|done].
  destruct err; simpl; rewrite ?Hs; [done|]. by eapply with_bundle_keeps.
Qed.

Lemma delete_bundle_run err b db :
  VolumeDb.delete_bundle err b db =
  match upsert_change_row (event_type_of Deleted) b (without_bundle db b) with
  | Err e => (Err (from_sqlite e), db)
  | Ok (_, db') => match err with Some e => (Err (from_sqlite e), db) | None => (Ok tt, db') end
  end.
Proof.
  unfold VolumeDb.delete_bundle, vtx. unfold mbind, ST_bind. unfold vexec at 1, delete_bundle_rows.
  fold (without_bundle db b). unfold insert_bundle_change_record_tx, vexec.
  destruct (upsert_change_row _ _ _) as [[[] db']|e]; [|done]. by destruct err.
Qed.

Lemma without_bundle_keeps s cs b db' `{!RowIdLaws} :
  volume_inv s cs → upsert_change_row (event_type_of Deleted) b (without_bundle (vl_db s) b) = Ok (tt, db') →
  volume_inv (set_vl_db s db') cs.
Proof.
  intros Hinv Hup. apply (bundle_change_keeps Deleted b _ _ _ _ Hinv Hup).
  - intros b' Hb'. by apply bundle_rows_other.
  - pose proof (bko_chunk _ (vi_bundles _ _ Hinv)) as Hfk. rewrite Forall_forall in *.
    intros row [_ Hrow]%list_elem_of_filter. auto.
  - left. split; [done|]. apply bundle_rows_deleted.
Qed.

Lemma delete_bundle_keeps s cs err b `{!RowIdLaws} :
  volume_inv s cs → volume_inv (with_db (VolumeDb.delete_bundle err b) s).2 cs.
Proof.
  intros Hinv. unfold with_db. rewrite delete_bundle_run.
  assert (set_vl_db s (vl_db s) = s) as Hs by (by destruct s).
  destruct (upsert_change_row _ _ _) as [[[] db']|e] eqn:Hup; simpl; rewrite ?Hs; [|done].
  destruct err; simpl; rewrite ?Hs; [done|]. by eapply without_bundle_keeps.
Qed.

Lemma remove_records_keeps s cs err max :
  volume_inv s cs → volume_inv (with_db (VolumeDb.remove_bundle_change_records err max) s).2 cs.
Proof.
  intros Hinv. unfold with_db, VolumeDb.remove_bundle_change_records, mbind, ST_bind, st_lift.
  assert (set_vl_db s (vl_db s) = s) as Hs by (by destruct s).
  destruct (u64_to_i64 max "max_event_id"); simpl; rewrite ?Hs; [|done].
  unfold vexec. destruct err; simpl; rewrite ?Hs; [done|].
  destruct Hinv. split; try done. destruct vi_bundles as [Hbk Hck Hrec [Hids Hnd Hsort Hseq]].
  split; simpl; try done; [|split; simpl; [| | |done]].
  - rewrite Forall_forall in *. intros r [_ Hr]%list_elem_of_filter. by apply Hrec.
  - rewrite Forall_forall in *. intros r [_ Hr]%list_elem_of_filter. by apply Hids.
  - eapply sublist_NoDup; [exact Hnd|]. apply (fmap_sublist bch_bundle_id), sublist_filter.
  - by apply StronglySorted_filter.
Qed.
End Bundles.
