(* ===== verification/VolumeSafety.v ===== *)
(** * A volume in every interleaving

    The calls of a volume keep its invariant block by block, so it holds in every
    state that any number of calls under way reach, whenever the process stops, and
    again when the volume is opened. *)

From S2P Require Import Prelude Types Paths CentralDb VolumeDb Conc VolumeIo Volume.
From S2P Require Import VolumeInv VolumeFacts VolumeBundles.

Section Safety.
Context `{SqliteText, RowIds, Blake3, ContentRule, !RowIdLaws}.

Abbreviation vowns := (owns volume_answer_ok volume_inv).

(** ** Blocks that make no claim *)

Definition keeps_inv {A} (block : VolumeState → A * VolumeState) : Prop :=
  ∀ s cs, volume_inv s cs → volume_inv (block s).2 cs.

Lemma owns_stable {A} cs (block : VolumeState → A * VolumeState) :
  keeps_inv block → vowns cs (λ _ cs', cs' = cs) (atomic block).
Proof. intros Hb. apply owns_atomic. intros s frame Hinv. exists cs. split; [by apply Hb|done]. Qed.

Lemma with_db_same {A} (m : VDb A) :
  (∀ db, (m db).2 = db) → keeps_inv (with_db m).
Proof.
  intros Hm s cs Hinv. unfold with_db. specialize (Hm (vl_db s)).
  destruct (m (vl_db s)) as [r db]. simpl in *. subst db. by destruct s.
Qed.

Lemma load_chunk_same id db : (load_chunk id db).2 = db.
Proof. unfold load_chunk, vquery, mbind, ST_bind. by destruct (find_chunk db id). Qed.

Lemma list_bundle_chunks_same b db : (VolumeDb.list_bundle_chunks b db).2 = db.
Proof. done. Qed.

Lemma get_records_same limit db : (VolumeDb.get_bundle_change_records limit db).2 = db.
Proof.
  unfold VolumeDb.get_bundle_change_records, mbind, ST_bind, st_lift.
  by destruct (u64_to_i64 limit "limit").
Qed.

Lemma delete_chunk_keeps err id : keeps_inv (with_db (VolumeDb.delete_chunk err id)).
Proof.
  intros s cs Hinv. assert (set_vl_db s (vl_db s) = s) as Hs by (by destruct s).
  unfold with_db, VolumeDb.delete_chunk, vexec, delete_chunk_row.
  destruct err; simpl; rewrite ?Hs; [done|]. case_bool_decide as Hrow; simpl; rewrite ?Hs; [done|].
  apply delete_keeps; [done|].
  destruct (decide (id ∈ map bcr_chunk_id (vd_bundle_chunks (vl_db s)))); [right|left]; tauto.
Qed.

Lemma file_pread_keeps index offset len : keeps_inv (file_pread index offset len).
Proof. by intros s cs. Qed.

Lemma open_slot_keeps index create e1 e2 e3 : 0 ≤ index → keeps_inv (open_slot index create e1 e2 e3).
Proof.
  intros Hindex s cs Hinv. destruct (open_slot index create e1 e2 e3 s) as [r s'] eqn:Ho.
  apply open_slot_spec in Ho as (Hdb & Hslots & Hkeep & _); [|apply Hinv|done].
  by eapply volume_inv_keep_files.
Qed.

(** ** The data files *)

Lemma syscall_owns cs call : vowns cs (λ _ cs', cs' = cs) (syscall call).
Proof.
  eapply owns_bind; [by apply (owns_ask _ _ _ (λ _ cs', cs' = cs))|]. intros a cs' ->. by apply owns_ret.
Qed.

Lemma get_or_open_owns index create : 0 ≤ index →
  vowns [] (λ _ cs', cs' = []) (get_or_open index create).
Proof.
  intros Hindex. unfold get_or_open. eapply owns_bind; [by apply owns_stable; intros s cs|]. intros configured cs ->.
  case_bool_decide; [|by apply owns_ret].
  eapply owns_bind; [by apply (owns_ask _ _ _ (λ _ cs', cs' = []))|]. intros e1 cs ->.
  eapply owns_bind; [by apply (owns_ask _ _ _ (λ _ cs', cs' = []))|]. intros e2 cs ->.
  eapply owns_bind; [by apply (owns_ask _ _ _ (λ _ cs', cs' = []))|]. intros e3 cs ->.
  eapply owns_bind; [by apply owns_stable, open_slot_keeps|]. intros opened cs ->.
  eapply owns_bind; [by apply (owns_ask _ _ _ (λ _ cs', cs' = []))|]. intros join cs ->. by apply owns_ret.
Qed.

Definition opened_claim (c : Claim) : Claim := mkClaim (clm_offset c) (clm_len c) (clm_bytes c) true.

(** opening the file of a claim *)
Lemma get_or_open_claim c create : 0 ≤ clm_offset c →
  vowns [c] (λ r cs', match r with
                      | Ok file => file = clm_offset c / F ∧ cs' = [opened_claim c]
                      | Err _ => True end) (get_or_open (clm_offset c / F) create).
Proof.
  intros Hc. unfold get_or_open. eapply owns_bind; [by apply owns_stable; intros s cs|]. intros configured cs ->.
  case_bool_decide; [|by apply owns_ret].
  eapply owns_bind; [by apply (owns_ask _ _ _ (λ _ cs', cs' = [c]))|]. intros e1 cs ->.
  eapply owns_bind; [by apply (owns_ask _ _ _ (λ _ cs', cs' = [c]))|]. intros e2 cs ->.
  eapply owns_bind; [by apply (owns_ask _ _ _ (λ _ cs', cs' = [c]))|]. intros e3 cs ->.
  set (Post := λ (r : Fs0Result Z) cs', match r with
    | Ok file => file = clm_offset c / F ∧ cs' = [opened_claim c] | Err _ => True end).
  apply (owns_bind _ _ _ Post).
  - apply owns_atomic. intros s frame Hinv.
    destruct (open_slot (clm_offset c / F) create e1 e2 e3 s) as [r s'] eqn:Ho.
    apply open_slot_spec in Ho as (Hdb & Hslots & Hkeep & Hr); [|apply Hinv|flia]. simpl.
    destruct r as [file|e]; [|exists [c]; split; [by eapply volume_inv_keep_files|done]].
    destruct (Hr file eq_refl) as [-> Hfile]. exists [opened_claim c]. split; [|done].
    eapply (volume_inv_claim_files s s' (clm_offset c) (clm_offset c) c); try done; try lia.
    + pose proof (vi_claims _ _ Hinv) as Hall. apply Forall_cons in Hall as [[(_ & Hl & _) _] _]. simpl in Hl. lia.
    + pose proof (vi_claims _ _ Hinv) as Hall. apply Forall_cons in Hall as [Hok _].
      assert (claim_ok s' c) as (Hr1 & Hl1 & Hb1 & _).
      { eapply (claim_ok_files s s' 0 0); [done|done| |done]. right. simpl. apply Hok. }
      unfold claim_ok, opened_claim. simpl. by split4.
  - intros r cs' Hr'. eapply owns_bind; [by apply (owns_ask _ _ _ (λ _ cs'', cs'' = cs'))|].
    intros join cs'' ->. destruct join; by apply owns_ret.
Qed.

Lemma io_read_at_owns fuel index offset len : vowns [] (λ _ cs', cs' = []) (io_read_at fuel index offset len).
Proof.
  revert offset len. induction fuel as [|fuel IH]; intros offset len; cbn [io_read_at]; [by apply owns_ret|].
  case_bool_decide; [by apply owns_ret|].
  eapply (owns_try _ _ _ (λ _ cs', cs' = [])); [by apply owns_ask; intros [?|?]|]. intros n cs ->.
  eapply owns_bind; [apply owns_stable, file_pread_keeps|]. intros bytes cs ->.
  destruct bytes; [by apply owns_ret|].
  eapply (owns_try _ _ _ (λ _ cs', cs' = [])).
  - eapply owns_conseq; [apply IH|]. by intros [?|?] cs ->.
  - intros rest cs ->. by apply owns_ret.
Qed.

(** one write of the loop: the claim has that many bytes more *)
Lemma file_pwrite_claim s frame offset len done_ buf :
  let c := mkClaim offset len done_ true in
  let c' := mkClaim offset len (done_ ++ buf) true in
  Z.of_nat (length done_ + length buf) ≤ len →
  volume_inv s (c :: frame) →
  volume_inv (file_pwrite (offset / F) (offset mod F + Z.of_nat (length done_)) buf s).2 (c' :: frame).
Proof.
  intros c c' Hlen Hinv. pose proof (vi_claims _ _ Hinv) as Hall.
  apply Forall_cons in Hall as [((Hofs & Hpos & Hact & Hmod) & Hl & Hholds & Hopen) _]. simpl in *.
  set (o := offset mod F + Z.of_nat (length done_)) in *.
  assert (0 ≤ o) as Ho by (subst o; flia).
  assert (o + Z.of_nat (length buf) ≤ F) as Hend by (subst o; lia).
  assert (offset / F * F + o = offset + Z.of_nat (length done_)) as Habs by (subst o; flia).
  pose proof (file_pwrite_keeps (vl_files s) (offset / F) o buf Ho Hend) as Hkeep. rewrite Habs in Hkeep.
  eapply volume_inv_claim_files; [exact Hinv|done| |exact Hkeep|simpl; lia|lia|simpl; lia|done|].
  - destruct (vi_slots _ _ Hinv) as [Hsl Hslots]. split; [done|]. simpl. intros i slot Hi file Hf.
    destruct (Hslots _ _ Hi _ Hf) as [? Hex]. split; [done|]. by apply Hkeep.
  - split4; simpl; [by unfold range_ok|rewrite length_app; lia| |intros _; apply Hkeep; by apply Hopen].
    apply holds_app.
    + eapply holds_keeps; [exact Hkeep|left; lia|done].
    + rewrite <-Habs. apply file_pwrite_holds; [done|done|by apply Hopen].
Qed.

Lemma io_write_at_owns fuel offset len done_ buf :
  (length buf ≤ fuel)%nat → Z.of_nat (length done_ + length buf) ≤ len →
  vowns [mkClaim offset len done_ true]
    (λ r cs', match r with Ok _ => cs' = [mkClaim offset len (done_ ++ buf) true] | Err _ => True end)
    (io_write_at fuel (offset / F) (offset mod F + Z.of_nat (length done_)) buf).
Proof.
  revert done_ buf. induction fuel as [|fuel IH]; intros done_ buf Hfuel Hlen; cbn [io_write_at].
  { destruct buf; [|simpl in Hfuel; lia]. apply owns_ret. by rewrite app_nil_r. }
  destruct buf as [|b buf]; [apply owns_ret; by rewrite app_nil_r|]. set (all := b :: buf) in *.
  set (c := mkClaim offset len done_ true).
  eapply (owns_try _ _ _ (λ w cs', 0 ≤ w ≤ Z.of_nat (length all) ∧ cs' = [c])).
  { apply owns_ask. intros [w|e] Hw; [|done]. by split. }
  intros w cs [Hw ->].
  apply (owns_bind _ _ _ (λ _ cs', cs' = [mkClaim offset len (done_ ++ take (Z.to_nat w) all) true])).
  { apply owns_atomic. intros s frame Hinv. eexists. split; [|done]. apply file_pwrite_claim; [|done].
    rewrite length_take. lia. }
  intros _ cs ->. case_bool_decide as Hw0; [by apply owns_ret|].
  assert (length (take (Z.to_nat w) all) = Z.to_nat w) as Htake by (rewrite length_take; lia).
  assert (length (drop (Z.to_nat w) all) = (length all - Z.to_nat w)%nat) as Hdrop by apply length_drop.
  specialize (IH (done_ ++ take (Z.to_nat w) all) (drop (Z.to_nat w) all)).
  rewrite <-app_assoc, take_drop in IH.
  replace (offset mod F + Z.of_nat (length done_) + w) with
    (offset mod F + Z.of_nat (length (done_ ++ take (Z.to_nat w) all))) by (rewrite length_app; lia).
  apply IH; [rewrite Hdrop; lia|]. rewrite Hdrop, length_app, Htake. lia.
Qed.

Lemma join_task_owns {A} cs what (r : Result string A) :
  vowns cs (λ r' cs', cs' = cs ∧ ∀ a, r' = Ok a → r = Ok a) (join_task what r).
Proof.
  eapply owns_bind; [by apply (owns_ask _ _ _ (λ _ cs', cs' = cs))|]. intros join cs' ->.
  destruct join; apply owns_ret; (split; [done|]); [done|]. destruct r as [x|e]; simpl; [|done]. by intros a0 [= ->].
Qed.

(** a write that succeeds has put all its bytes into the claim *)
Lemma write_compressed_owns offset len bytes : 0 ≤ offset → Z.of_nat (length bytes) = len →
  vowns [mkClaim offset len [] false]
    (λ r cs', match r with Ok _ => cs' = [mkClaim offset len bytes true] | Err _ => True end)
    (write_compressed_bytes offset bytes).
Proof.
  intros Hofs Hlen. unfold write_compressed_bytes, write_at. set (c := mkClaim offset len [] false).
  eapply (owns_try _ _ _ (λ file cs', file = offset / F ∧ cs' = [opened_claim c])).
  { eapply owns_conseq; [by apply (get_or_open_claim c)|]. by intros [?|?] cs'. }
  intros file cs [-> ->].
  eapply owns_bind; [by apply (owns_ask _ _ _ (λ _ cs', cs' = [opened_claim c]))|]. intros now cs ->.
  eapply owns_bind; [apply owns_stable; intros s cs; apply touch_keeps|]. intros _ cs ->.
  eapply (owns_bind _ _ _ (λ r cs', match r with Ok _ => cs' = [mkClaim offset len bytes true] | Err _ => True end)).
  - eapply (owns_try _ _ _ (λ _ cs', cs' = [mkClaim offset len bytes true])).
    + pose proof (io_write_at_owns (length bytes) offset len [] bytes) as Hw. simpl in Hw.
      rewrite Z.add_0_r in Hw. eapply owns_conseq; [apply Hw; lia|]. by intros [?|?] cs'.
    + intros _ cs ->. eapply owns_conseq; [apply syscall_owns|]. by intros [?|?] cs' ->.
  - intros r cs Hr. eapply owns_conseq; [apply join_task_owns|]. intros [a|e] cs' [-> Ha]; [|done].
    by rewrite (Ha a eq_refl) in Hr.
Qed.

Lemma read_compressed_owns offset len : 0 ≤ offset →
  vowns [] (λ _ cs', cs' = []) (read_compressed_bytes offset len).
Proof.
  intros Hofs. unfold read_compressed_bytes, read_at.
  eapply (owns_try _ _ _ (λ _ cs', cs' = [])).
  { eapply owns_conseq; [apply get_or_open_owns; flia|]. by intros [?|?] cs' ->. }
  intros file cs ->.
  eapply owns_bind; [by apply (owns_ask _ _ _ (λ _ cs', cs' = []))|]. intros now cs ->.
  eapply owns_bind; [apply owns_stable; intros s cs; apply touch_keeps|]. intros _ cs ->.
  eapply owns_bind; [apply io_read_at_owns|]. intros r cs ->.
  eapply owns_conseq; [apply join_task_owns|]. by intros a cs' [-> _].
Qed.

Lemma close_idle_slots_owns now slots : vowns [] (λ _ cs', cs' = []) (close_idle_slots now slots).
Proof.
  induction slots as [|i slots IH]; cbn [close_idle_slots]; [by apply owns_ret|].
  eapply owns_bind; [by apply (owns_ask _ _ _ (λ _ cs', cs' = []))|]. intros locked cs ->.
  eapply owns_bind; [apply owns_stable; intros s cs Hs; by apply close_idle_slot_keeps|]. by intros _ cs ->.
Qed.

(** ** Putting a chunk *)

Lemma with_db_run {A} (m : VDb A) s r db : m (vl_db s) = (r, db) → with_db m s = (r, set_vl_db s db).
Proof. intros Hm. unfold with_db. by rewrite Hm. Qed.

Lemma set_vl_db_id s : set_vl_db s (vl_db s) = s.
Proof. by destruct s. Qed.

(** the claim made by the block that reserves a range *)
Lemma reserve_chunk_owns err now id hash raw_len len : 0 < len ≤ F → is_u64 now →
  vowns [] (λ r cs', match r with
    | Ok (inr c) => cm_chunk_id c = id ∧ cm_compressed_hash c = hash ∧ cm_raw_len c = raw_len ∧
                    cm_compressed_len c = len ∧ 0 ≤ cm_volume_offset c ∧
                    cs' = [mkClaim (cm_volume_offset c) len [] false]
    | _ => True end) (locked (reserve_chunk err now id hash raw_len len)).
Proof.
  intros Hlen Hnow. apply owns_atomic. intros s frame Hinv.
  pose proof (reserve_chunk_run s frame err now id hash raw_len len Hinv Hlen Hnow) as Hrun. simpl in Hrun.
  destruct (find_chunk (vl_db s) id) as [c|].
  { case_bool_decide; rewrite (with_db_run _ _ _ _ Hrun), set_vl_db_id; by exists []. }
  case_bool_decide as Hmax; [rewrite (with_db_run _ _ _ _ Hrun), set_vl_db_id; by exists []|].
  destruct (u64_to_i64 now "updated_at_ms") as [now'|e] eqn:Hnow';
    [|rewrite (with_db_run _ _ _ _ Hrun), set_vl_db_id; by exists []].
  destruct err as [e|]; rewrite (with_db_run _ _ _ _ Hrun); [rewrite set_vl_db_id; by exists []|].
  apply u64_to_i64_Ok in Hnow' as [_ Hle]. eexists [_]. split.
  - apply reserve_keeps; [done|done|done|done|lia].
  - simpl. split_and!; try done. pose proof (vi_meta _ _ Hinv) as (_ & _ & _ & Ha & _).
    destruct (chunk_offset_spec (vm_active_volume_offset (vd_meta (vl_db s))) len); lia.
Qed.

(** the claim becomes the chunk's range, unless the chunk appeared meanwhile *)
Lemma insert_chunk_owns err c bytes id : 0 ≤ cm_raw_len c →
  Z.of_nat (length bytes) = cm_compressed_len c → blake3_hash bytes = cm_compressed_hash c →
  content_ok (cm_chunk_id c) (cm_raw_len c) bytes →
  vowns [mkClaim (cm_volume_offset c) (cm_compressed_len c) bytes true] (λ _ _, True)
    (locked (VolumeDb.insert_chunk err c;; load_chunk id)).
Proof.
  intros Hraw Hlen Hhash Hcontent. apply owns_atomic. intros s frame Hinv.
  pose proof (vi_claims _ _ Hinv) as Hall. apply Forall_cons in Hall as [[(Hofs & Hpos & Hact & _) _] _].
  pose proof (vi_meta _ _ Hinv) as (_ & _ & _ & Ha & Hmax & _). simpl in *.
  pose proof (insert_chunk_run (vl_db s) err c) as Hrun.
  set (m := (VolumeDb.insert_chunk err c;; load_chunk id) : VDb ChunkMeta).
  assert ((m (vl_db s)).2 = vl_db s ∨
    cm_raw_len c ≤ i64_max ∧ (cm_chunk_id c ∉ map cm_chunk_id (vd_chunks (vl_db s))) ∧
    (m (vl_db s)).2 = set_vd_chunks (vl_db s) (vd_chunks (vl_db s) ++ [c])) as Hm.
  { subst m. unfold mbind, ST_bind. rewrite Hrun by lia.
    destruct (u64_to_i64 (cm_raw_len c) "raw len") as [raw|e] eqn:Hr; [|by left].
    apply u64_to_i64_Ok in Hr as [_ Hr]. destruct err; [by left|].
    case_bool_decide; [left|right]; rewrite load_chunk_same; auto. }
  unfold with_db. destruct (m (vl_db s)) as [r db]. simpl in Hm.
  destruct Hm as [->|(Hr & Hfresh & ->)]; simpl.
  - rewrite set_vl_db_id. eexists [_]. by split.
  - exists []. split; [|done]. by eapply insert_keeps.
Qed.

Lemma put_chunk_owns id raw_len bytes : 0 ≤ raw_len → content_ok id raw_len bytes → vowns [] (λ _ _, True) (put_chunk id raw_len bytes).
Proof.
  intros Hraw Hcontent. unfold put_chunk. case_bool_decide; [by apply owns_ret|].
  case_bool_decide as Hne; [by apply owns_ret|]. case_bool_decide as Hsize; [by apply owns_ret|].
  eapply owns_bind; [by apply (owns_ask _ _ _ (λ now cs', is_u64 now ∧ cs' = []))|]. intros now cs [Hnow ->].
  eapply owns_bind; [by apply (owns_ask _ _ _ (λ _ cs', cs' = []))|]. intros err cs ->.
  assert (0 < Z.of_nat (length bytes)) as Hpos by (destruct bytes; [done|simpl; lia]).
  eapply (owns_try _ _ _ (λ r cs', match r with
    | inr c => cm_chunk_id c = id ∧ cm_compressed_hash c = blake3_hash bytes ∧ cm_raw_len c = raw_len ∧
               cm_compressed_len c = Z.of_nat (length bytes) ∧ 0 ≤ cm_volume_offset c ∧
               cs' = [mkClaim (cm_volume_offset c) (Z.of_nat (length bytes)) [] false]
    | inl _ => True end)).
  { eapply owns_conseq; [apply (reserve_chunk_owns err now); [lia|done]|]. by intros [[]|] cs. }
  intros [c|c] cs; [intros; by apply owns_ret|]. intros (Hid & Hhash & Hrl & Hcl & Hofs & ->).
  eapply (owns_try _ _ _ (λ _ cs', cs' = [mkClaim (cm_volume_offset c) (Z.of_nat (length bytes)) bytes true])).
  { eapply owns_conseq; [by apply write_compressed_owns|]. by intros [?|?] cs. }
  intros _ cs ->. eapply owns_bind; [by apply (owns_ask _ _ _ (λ _ cs', cs' = [mkClaim (cm_volume_offset c) (Z.of_nat (length bytes)) bytes true]))|].
  intros err' cs ->. rewrite <-Hcl. apply insert_chunk_owns; [lia|done|done|by rewrite Hid, Hrl].
Qed.

(** ** Every call *)

Lemma locked_owns {A} (m : VDb A) : keeps_inv (with_db m) → vowns [] (λ _ cs', cs' = []) (locked m).
Proof. apply owns_stable. Qed.

(** what a caller passes: a [u64] length and content that keeps the promise, a [Vec] no
    longer than its largest size *)
Definition call_ok (call : VolumeCall) : Prop :=
  match call with
  | CallPutChunk id raw_len bytes => is_u64 raw_len ∧ content_ok id raw_len bytes
  | CallCommitBundle _ chunks => Z.of_nat (length chunks) ≤ i64_max
  | _ => True
  end.

Lemma read_chunk_owns id : vowns [] (λ _ cs', cs' = []) (read_chunk id).
Proof.
  unfold read_chunk. eapply (owns_try _ _ _ (λ c cs', 0 ≤ cm_volume_offset c ∧ cs' = [])).
  - apply owns_atomic. intros s frame Hinv. exists [].
    split; [apply with_db_same; [apply load_chunk_same|done]|].
    unfold with_db. destruct (load_chunk id (vl_db s)) as [[c|e] db] eqn:Hl; simpl; [|done].
    split; [|done]. unfold load_chunk, vquery, mbind, ST_bind in Hl.
    destruct (find_chunk (vl_db s) id); [|done]. unfold st_lift, row_to_chunk in Hl. injection Hl as Hl _.
    minv. repeat match goal with Hr : row_u64 _ _ _ = Ok _ |- _ => apply row_u64_Ok in Hr as [-> ?] end. done.
  - intros c cs [Hofs ->]. eapply (owns_try _ _ _ (λ _ cs', cs' = [])).
    + eapply owns_conseq; [by apply read_compressed_owns|]. by intros [?|?] cs ->.
    + intros bytes cs ->. by apply owns_ret.
Qed.

Lemma commit_bundle_owns b chunks : Z.of_nat (length chunks) ≤ i64_max →
  vowns [] (λ _ cs', cs' = []) (commit_bundle b chunks).
Proof.
  intros Hlen. unfold commit_bundle. case_bool_decide as Hne; [by apply owns_ret|].
  destruct (contiguous_from 0 chunks) eqn:Hcont; cbn [negb]; [|by apply owns_ret].
  case_bool_decide as Hhash; [by apply owns_ret|].
  eapply owns_bind; [by apply (owns_ask _ _ _ (λ _ cs', cs' = []))|]. intros err cs ->.
  apply locked_owns. intros s cs Hinv. apply commit_bundle_locked_keeps; try done.
  by rewrite Hcont.
Qed.

Lemma verdict_owns {A} (m : option SqlError → VDb A) :
  (∀ err, keeps_inv (with_db (m err))) →
  vowns [] (λ _ cs', cs' = []) (err ← ask VVerdict; locked (m err)).
Proof.
  intros Hm. eapply owns_bind; [by apply (owns_ask _ _ _ (λ _ cs', cs' = []))|].
  intros err cs ->. by apply locked_owns.
Qed.

Lemma volume_call_owns call : call_ok call → vowns [] (λ _ _, True) (volume_call call).
Proof.
  assert (∀ A B (p : VolumeProg A) (f : A → B), vowns [] (λ _ _, True) p →
    vowns [] (λ _ _, True) (r ← p; mret (f r))) as Hret.
  { intros A B p f Hp. eapply owns_bind; [exact Hp|]. intros. by apply owns_ret. }
  assert (∀ A (p : VolumeProg A), vowns [] (λ _ cs', cs' = []) p → vowns [] (λ _ _, True) p) as Hweak.
  { intros A p Hp. by eapply owns_conseq. }
  destruct call as [id raw bytes|id|id|id|b chunks|b|b|limit|max| |]; intros Hok; cbn [volume_call]; apply Hret.
  - destruct Hok as [[? _] ?]. by apply put_chunk_owns.
  - apply Hweak, read_chunk_owns.
  - apply Hweak, locked_owns, with_db_same, load_chunk_same.
  - apply Hweak, verdict_owns. intros err. apply delete_chunk_keeps.
  - by apply Hweak, commit_bundle_owns.
  - apply Hweak. unfold list_bundle_chunks. eapply (owns_try _ _ _ (λ _ cs', cs' = [])).
    + eapply owns_conseq; [apply locked_owns, with_db_same, list_bundle_chunks_same|]. by intros [?|?] cs ->.
    + intros chunks cs ->. by apply owns_ret.
  - apply Hweak, verdict_owns. intros err s cs Hs. by apply delete_bundle_keeps.
  - apply Hweak, locked_owns, with_db_same, get_records_same.
  - apply Hweak, verdict_owns. intros err s cs Hs. by apply remove_records_keeps.
  - apply Hweak, locked_owns, with_db_same. done.
  - apply Hweak. eapply owns_bind; [by apply (owns_ask _ _ _ (λ _ cs', cs' = []))|]. intros now cs ->.
    eapply owns_bind; [by apply owns_stable; intros s cs|]. intros slots cs ->. apply close_idle_slots_owns.
Qed.

Definition volume_program (p : VolumeProg VolumeReturn) : Prop :=
  ∃ call, call_ok call ∧ p = volume_call call.

(** the steps of a volume's process *)
Definition volume_steps := rtc (pool_step (A := VolumeReturn) volume_answer_ok volume_program).

Lemma volume_steps_inv s s' pool : volume_inv s [] → volume_steps (s, []) (s', pool) →
  ∃ claims, volume_inv s' claims.
Proof.
  intros Hinv Hsteps.
  destruct (owns_reachable volume_answer_ok volume_inv volume_program s [] s' pool []) as (css & Hcss & _).
  - intros s0 cs cs' Hp Hs. by eapply volume_inv_perm.
  - intros p (call & Hok & ->). by apply volume_call_owns.
  - done.
  - constructor.
  - done.
  - by eexists.
Qed.
End Safety.
