(* ===== verification/VolumeSample.v ===== *)
(** * Concrete instances for the volume

    A digest function, an environment that moves half of what it is asked to at a
    time, and the chunks the witnesses store. *)

From S2P Require Import Prelude Types CentralDb VolumeDb Conc VolumeIo Volume.

(** a digest function (any will do): the byte sum, 32 times *)
Definition sum_blake3 : Blake3 := λ bytes,
  vreplicate 32 (default Byte.x00 (Byte.of_N (foldr N.add 0%N (map Byte.to_N bytes) mod 256))).

(** the clock stands still, every call succeeds, reads and writes are short *)
Definition half_oracle : Oracle VolumeQuery := λ _ B q,
  match q in VolumeQuery B return B with
  | VNow => 1000
  | VVerdict => None
  | VSyscall _ => None
  | VPread len => if bool_decide (1 ≤ len) then Ok ((len + 1) / 2) else Err "EINVAL"
  | VPwrite len => if bool_decide (1 ≤ len) then Ok ((len + 1) / 2) else Err "EINVAL"
  | VTryLock => true
  | VJoin => None
  end.

Lemma half_oracle_ok n B (q : VolumeQuery B) : volume_answer_ok B q (half_oracle n B q).
Proof.
  destruct q; simpl; try done.
  all: case_bool_decide; [|done]; Z.to_euclidean_division_equations; lia.
Qed.

Definition sample_bytes : list Byte.byte := [Byte.x01; Byte.x02; Byte.x03; Byte.x04; Byte.x05].
Definition sample_bytes2 : list Byte.byte := [Byte.x09; Byte.x08].
Definition sample_chunk : HashId := hash_repeat Byte.x0a.
Definition sample_chunk2 : HashId := hash_repeat Byte.x0b.
Definition sample_refs : list BundleChunkRef :=
  [mkBundleChunkRef 0 sample_chunk; mkBundleChunkRef 1 sample_chunk2].

(** a fresh volume of 4 GiB *)
Definition fresh_meta : VolumeMeta := mkVolumeMeta 7 1 VOLUME_DEFAULT_DATA_FILE_SIZE 0 500 600.
Definition fresh_db : VolumeDb := mkVolumeDb (Some fresh_meta) [] [] [] 0 fresh_meta.
Definition fresh_volume : VolumeState := mkVolumeState fresh_db [DataFileSlot_new] ∅.

(** calls one after another *)
Definition run_calls `{SqliteText, RowIds, Blake3} (calls : list VolumeCall) (s : VolumeState) : VolumeState :=
  foldl (λ s call, out_state (run half_oracle 0 (volume_call call) s)) s calls.

Definition sample_calls `{Blake3} : list VolumeCall :=
  [CallPutChunk sample_chunk 9 sample_bytes; CallPutChunk sample_chunk2 3 sample_bytes2;
   CallCommitBundle (bundle_hash_from_chunks sample_refs) sample_refs].
