(* ===== verification/VolumeLife.v ===== *)
(** * The life of a volume

    A volume's directory is initialised, given its id, opened, worked on by any
    number of concurrent calls until the process stops at any point, and opened
    again.  Whatever its history, its chunks are intact. *)

From S2P Require Import Prelude Types Paths CentralDb VolumeDb Conc VolumeIo Volume.
From S2P Require Import VolumeInv VolumeFacts VolumeBundles VolumeSafety VolumeSample.

Section Life.
Context `{SqliteText, RowIds, Blake3, ContentRule, !RowIdLaws}.

(** the database file and the data files a volume's directory can have *)
Inductive disk_reachable : VolumeDb → gmap Z DataFile → Prop :=
| disk_init root max_bytes now mkdir_err open_err insert_err db files :
    is_u64 max_bytes → is_u64 now →
    init_fs root max_bytes now mkdir_err open_err insert_err None = (Ok tt, Some db) →
    disk_reachable db files
| disk_assign root volume_id now err db files r db' :
    disk_reachable db files → is_u64 volume_id → is_u64 now →
    init_volume_id root volume_id now err (Some db) = (r, Some db') →
    disk_reachable db' files
| disk_run root db files s s' pool :
    disk_reachable db files → Volume_open root (Some db) files = Ok s →
    volume_steps (s, []) (s', pool) →
    disk_reachable (vl_db s') (vl_files s').

Definition opened (db : VolumeDb) (files : gmap Z DataFile) : VolumeState :=
  mkVolumeState db (with_capacity (u64_div_ceil (vm_max_bytes (vd_meta db)) VOLUME_DEFAULT_DATA_FILE_SIZE)) files.

Lemma with_capacity_ok db files : 0 ≤ vm_max_bytes (vd_meta db) → slots_ok (opened db files).
Proof.
  intros Hmax. split; simpl.
  - unfold with_capacity, u64_div_ceil. rewrite length_replicate. flia.
  - intros i slot Hslot. unfold with_capacity in Hslot. apply lookup_replicate in Hslot as [-> _]. done.
Qed.

Lemma stop_inv s claims : volume_inv s claims → volume_inv (opened (vl_db s) (vl_files s)) [].
Proof.
  intros Hinv. pose proof (drop_claim s claims [] ltac:(by rewrite app_nil_r)) as Hinv0.
  eapply volume_inv_keep_files; [exact Hinv0|done| |apply keeps_files_refl].
  apply with_capacity_ok. pose proof (vi_meta _ _ Hinv) as (_ & _ & _ & ? & _). lia.
Qed.

Lemma open_run db : meta_ok db → VolumeDb_open db = (Ok tt, db).
Proof.
  intros (Hrow & Hv & Hf & Ha & Hm & Hc & Hu). unfold is_i64_nonneg in *.
  unfold VolumeDb_open, load_meta_from_conn, vquery, mbind, ST_bind. rewrite Hrow.
  unfold st_lift, row_to_meta. rewrite !row_u64_fits by lia. unfold mbind, Result_bind, set_meta, set_vd_meta. simpl.
  destruct db as [row cs bs rs seq m]. simpl in *. subst row. by destruct m.
Qed.

Lemma Volume_open_run root db files : meta_ok db → Volume_open root (Some db) files = Ok (opened db files).
Proof. intros Hm. unfold Volume_open. by rewrite open_run. Qed.

Lemma init_inv root max_bytes now e1 e2 e3 db files :
  is_u64 max_bytes → is_u64 now → init_fs root max_bytes now e1 e2 e3 None = (Ok tt, Some db) →
  volume_inv (opened db files) [].
Proof.
  intros Hmax Hnow. unfold init_fs. case_bool_decide as Hsize; [done|].
  destruct e1; [done|]. destruct e2 as [[]|]; [done|].
  set (meta := mkVolumeMeta 0 VOLUME_FORMAT_VERSION max_bytes 0 now now).
  destruct (VolumeDb_create e3 meta) as [r db0] eqn:Hc. intros [= -> ->].
  unfold VolumeDb_create in Hc. minv.
  repeat match goal with Hr : u64_to_i64 _ _ = Ok _ |- _ => apply u64_to_i64_Ok in Hr as [-> ?] end.
  match goal with Hv : vexec _ _ _ = _ |- _ => unfold vexec in Hv; destruct e3; [done|]; injection Hv as Hv end.
  simpl in *. subst db. unfold is_u64 in *. rewrite data_file_size in Hsize.
  split; simpl; try done; try apply NoDup_nil_2.
  - unfold meta_ok, is_i64_nonneg, i64_max in *. simpl. unfold VOLUME_FORMAT_VERSION. split_and!; done || lia.
  - apply with_capacity_ok. simpl. lia.
  - split; simpl; [by left|done|done|]. split; simpl; [done|apply NoDup_nil_2|constructor|done].
Qed.

Lemma meta_ok_assign db v now : meta_ok db → 0 ≤ v ≤ i64_max → 0 ≤ now ≤ i64_max →
  let meta := mkVolumeMeta v (vm_format_version (vd_meta db)) (vm_max_bytes (vd_meta db))
                (vm_active_volume_offset (vd_meta db)) (vm_created_at_ms (vd_meta db)) now in
  meta_ok (set_vd_meta (set_vd_meta_row db (Some meta)) meta).
Proof. intros (_ & Hv & Hf & Ha & Hm & Hc & Hu) Hv' Hnow. unfold meta_ok. by simpl. Qed.

Lemma assign_run err v now db : meta_ok db →
  (VolumeDb_open;; assign_volume_id err v now) db =
  if bool_decide (vm_volume_id (vd_meta db) ≠ 0 ∧ vm_volume_id (vd_meta db) ≠ v) then
    (Err (InvalidData ("volume already has id " +:+ pretty (vm_volume_id (vd_meta db))
                       +:+ ", cannot assign " +:+ pretty v)), db)
  else match u64_to_i64 v "volume_id", u64_to_i64 now "updated_at_ms", err with
  | Err e, _, _ | Ok _, Err e, _ => (Err e, db)
  | Ok _, Ok _, Some e => (Err (from_sqlite e), db)
  | Ok _, Ok _, None =>
      let meta := mkVolumeMeta v (vm_format_version (vd_meta db)) (vm_max_bytes (vd_meta db))
                (vm_active_volume_offset (vd_meta db)) (vm_created_at_ms (vd_meta db)) now in
      (Ok meta, set_vd_meta (set_vd_meta_row db (Some meta)) meta)
  end.
Proof.
  intros Hmeta. unfold mbind at 1, ST_bind at 1. rewrite open_run by done.
  unfold assign_volume_id, vquery. unfold mbind at 1, ST_bind at 1.
  case_bool_decide; [done|]. unfold mbind, ST_bind, st_lift.
  destruct (u64_to_i64 v "volume_id") as [v'|e] eqn:Hv; [|done]. apply u64_to_i64_Ok in Hv as [-> Hv].
  destruct (u64_to_i64 now "updated_at_ms") as [now'|e] eqn:Hn; [|done]. apply u64_to_i64_Ok in Hn as [-> Hn].
  unfold vexec. destruct err; [done|]. unfold update_volume_id.
  destruct Hmeta as (Hrow & _). rewrite Hrow. done.
Qed.

Lemma assign_inv root v now err db files r db' :
  volume_inv (opened db files) [] → is_u64 v → is_u64 now →
  init_volume_id root v now err (Some db) = (r, Some db') → volume_inv (opened db' files) [].
Proof.
  intros Hinv [Hv0 _] [Hn0 _]. pose proof (vi_meta _ _ Hinv) as Hmeta. simpl in Hmeta.
  unfold init_volume_id. rewrite assign_run by done.
  case_bool_decide; [by intros [= _ <-]|].
  destruct (u64_to_i64 v "volume_id") as [v'|e] eqn:Hv; [|by intros [= _ <-]]. apply u64_to_i64_Ok in Hv as [_ Hv].
  destruct (u64_to_i64 now "updated_at_ms") as [now'|e] eqn:Hn; [|by intros [= _ <-]].
  apply u64_to_i64_Ok in Hn as [_ Hn]. destruct err; [by intros [= _ <-]|]. intros [= _ <-].
  pose proof (meta_ok_assign db v now Hmeta ltac:(done) ltac:(done)) as Hmeta'.
  destruct Hinv. split; try done. eapply bundles_ok_ext; [..|exact vi_bundles]; try done. apply vi_bundles.
Qed.

Lemma disk_reachable_inv db files : disk_reachable db files → volume_inv (opened db files) [].
Proof.
  induction 1 as [root max now e1 e2 e3 db files Hmax Hnow Hinit|root v now err db files r db' _ IH Hv Hn Ha
    |root db files s s' pool _ IH Hopen Hsteps].
  - exact (init_inv _ _ _ _ _ _ _ files Hmax Hnow Hinit).
  - exact (assign_inv _ _ _ _ _ _ _ _ IH Hv Hn Ha).
  - rewrite Volume_open_run in Hopen by apply IH. injection Hopen as <-.
    destruct (volume_steps_inv _ _ _ IH Hsteps) as (claims & Hinv). by eapply stop_inv.
Qed.

(** what a reader of the volume relies on *)
Definition volume_intact (db : VolumeDb) (files : gmap Z DataFile) : Prop :=
  let active := vm_active_volume_offset (vd_meta db) in
  (0 ≤ active ≤ vm_max_bytes (vd_meta db)) ∧
  (∀ c, c ∈ vd_chunks db →
     range_ok active (chunk_range c) ∧
     ∃ bytes, Z.of_nat (length bytes) = cm_compressed_len c ∧ blake3_hash bytes = cm_compressed_hash c ∧
       holds files (cm_volume_offset c) bytes ∧ content_ok (cm_chunk_id c) (cm_raw_len c) bytes) ∧
  pairwise_disjoint (map chunk_range (vd_chunks db)) ∧
  NoDup (map cm_chunk_id (vd_chunks db)) ∧
  (∀ bundle_id, bundle_ok db bundle_id) ∧
  (∀ row, row ∈ vd_bundle_chunks db → bcr_chunk_id row ∈ map cm_chunk_id (vd_chunks db)) ∧
  NoDup (map bch_bundle_id (vd_records db)) ∧
  (∀ r, r ∈ vd_records db → record_ok db r).

Lemma volume_inv_intact s claims : volume_inv s claims → volume_intact (vl_db s) (vl_files s).
Proof.
  intros [Hmeta _ Hch _ Hr Hids [Hbk Hfk Hrec Hob]].
  apply pairwise_disjoint_app in Hr as [Hr _].
  rewrite Forall_forall in Hch. rewrite Forall_forall in Hfk. rewrite Forall_forall in Hrec.
  pose proof Hmeta as (_ & _ & _ & Ha & _). split; [done|]. split; [|split_and!; try done; apply Hob].
  intros c Hc. destruct (Hch c Hc) as (Hrange & _ & Hb). by split.
Qed.

Lemma run_calls_steps calls s : Forall call_ok calls →
  ∃ pool, volume_steps (s, []) (run_calls calls s, pool).
Proof.
  intros Hok. apply (run_all_steps volume_answer_ok volume_program half_oracle volume_call); [apply half_oracle_ok|].
  eapply Forall_impl; [exact Hok|]. intros call Hcall. by exists call.
Qed.

(** C20. Whatever calls run concurrently on a volume, however they interleave, fail or are
    cut off by the process stopping, and however often the volume is opened again: the chunks
    recorded in its database are disjoint ranges within the reserved part of its
    capacity, none crosses the end of a data file, and the bytes found there have the
    recorded length and hash and keep the promise of those who put them; the rows of a bundle name stored chunks and spell the
    bundle's id; a bundle has at most one change waiting to be reported, and that change
    says whether the bundle is stored. *)
Theorem volume_integrity db files :
  disk_reachable db files →
  volume_intact db files.
Proof. intros Hdisk. apply (volume_inv_intact (opened db files) []). by apply disk_reachable_inv. Qed.
End Life.

#[local] Existing Instances plain_sqlite_text sequential_rowids sequential_rowid_laws sum_blake3 any_content.

Lemma fresh_reachable {hash : Blake3} {rule : ContentRule} files : disk_reachable fresh_db files.
Proof.
  eapply (disk_assign "" 7 600 None). 
  - eapply (disk_init "" VOLUME_DEFAULT_DATA_FILE_SIZE 500 None None None); [..|vm_compute; reflexivity];
      unfold is_u64; vm_compute; done.
  - unfold is_u64. vm_compute. done.
  - unfold is_u64. vm_compute. done.
  - vm_compute. reflexivity.
Qed.

Lemma fresh_volume_inv {hash : Blake3} {rule : ContentRule} : volume_inv fresh_volume [].
Proof. exact (disk_reachable_inv _ _ (fresh_reachable ∅)). Qed.

(** two chunks are put and committed as a bundle *)
Lemma volume_integrity_witness :
  let s := run_calls sample_calls fresh_volume in
  disk_reachable (vl_db s) (vl_files s) ∧ length (vd_chunks (vl_db s)) = 2%nat ∧
  length (vd_bundle_chunks (vl_db s)) = 2%nat ∧
  pairwise_disjoint (map chunk_range (vd_chunks (vl_db s))).
Proof.
  intros s. assert (disk_reachable (vl_db s) (vl_files s)) as Hs.
  { destruct (run_calls_steps sample_calls fresh_volume) as (pool & Hsteps).
    { repeat constructor; vm_compute; done. }
    eapply (disk_run "" fresh_db ∅ fresh_volume); [apply fresh_reachable|vm_compute; reflexivity|exact Hsteps]. }
  split; [exact Hs|]. split; [vm_compute; reflexivity|]. split; [vm_compute; reflexivity|].
  destruct (volume_integrity _ _ Hs) as (_ & _ & Hdisjoint & _). exact Hdisjoint.
Defined.
