(* ===== verification/VolumeRuns.v ===== *)
(** * What the calls of a volume answer

    Each call run alone, with the environment's answers a parameter: the functional
    behaviour on every branch, and that a chunk is read back as it was put, however
    short the single reads and writes are. *)

From S2P Require Import Prelude Types Paths CentralDb VolumeDb Conc VolumeIo Volume.
From S2P Require Import VolumeInv VolumeFacts VolumeBundles VolumeSafety VolumeSample VolumeLife.

(** every call succeeds, the clock fits SQLite's integers, no read or write is empty *)
Definition quiet (o : Oracle VolumeQuery) : Prop :=
  ∀ n B (q : VolumeQuery B),
    match q in VolumeQuery B return B → Prop with
    | VNow => λ now, is_i64_nonneg now
    | VVerdict => λ r, r = None
    | VSyscall _ => λ r, r = None
    | VPread len => λ r, 1 ≤ len → ∃ k, r = Ok k ∧ 1 ≤ k ≤ len
    | VPwrite len => λ r, 1 ≤ len → ∃ k, r = Ok k ∧ 1 ≤ k ≤ len
    | VTryLock => λ _, True
    | VJoin => λ r, r = None
    end (o n B q).

Definition answers_ok (o : Oracle VolumeQuery) : Prop := ∀ n B q, volume_answer_ok B q (o n B q).

Lemma half_oracle_quiet : quiet half_oracle.
Proof.
  intros n B q. destruct q; simpl; try done.
  - intros Hl. eexists. rewrite bool_decide_true by done. split; [done|]. Z.to_euclidean_division_equations; lia.
  - intros Hl. eexists. rewrite bool_decide_true by done. split; [done|]. Z.to_euclidean_division_equations; lia.
Qed.

Section Runs.
Context `{SqliteText, RowIds, Blake3, ContentRule, !RowIdLaws}.

(** ** The data files *)

Lemma holds_cons files i b bytes :
  holds files i (b :: bytes) ↔ volume_byte files i = Some b ∧ holds files (i + 1) bytes.
Proof.
  split.
  - intros Hh. split; [rewrite <-(Z.add_0_r i); by apply (Hh 0%nat)|]. intros j b' Hj.
    specialize (Hh (S j) b' Hj). by replace (i + 1 + Z.of_nat j) with (i + Z.of_nat (S j)) by lia.
  - intros [Hb Hh] [|j] b' Hj; [injection Hj as <-; by rewrite Z.add_0_r|].
    specialize (Hh j b' Hj). by replace (i + Z.of_nat (S j)) with (i + 1 + Z.of_nat j) by lia.
Qed.

(** what a single read gets is a part of the bytes that are there *)
Lemma file_pread_holds s index o bytes k :
  0 ≤ o → o + Z.of_nat (length bytes) ≤ VOLUME_DEFAULT_DATA_FILE_SIZE →
  holds (vl_files s) (index * F + o) bytes → 1 ≤ k ≤ Z.of_nat (length bytes) →
  (file_pread index o k s).1 = take (Z.to_nat k) bytes.
Proof.
  intros Ho Hend Hh Hk. unfold file_pread. simpl.
  assert (∀ j b, bytes !! j = Some b → ∃ file, vl_files s !! index = Some file ∧
    o + Z.of_nat j < df_len file ∧ df_byte file (o + Z.of_nat j) = b) as Hbyte.
  { intros j b Hj. pose proof (lookup_lt_Some _ _ _ Hj). specialize (Hh j b Hj).
    rewrite <-Z.add_assoc, volume_byte_div in Hh by lia. destruct (vl_files s !! index) as [file|]; [|done].
    case_bool_decide; [|done]. injection Hh as Hh. by exists file. }
  destruct (bytes !! (length bytes - 1)%nat) as [b0|] eqn:H0'; [|apply lookup_ge_None in H0'; lia].
  destruct (Hbyte _ _ H0') as (file & Hfile & Hlen & _). rewrite Hfile. unfold pread.
  rewrite Z.min_l by lia. apply list_eq. intros j. rewrite list_lookup_fmap.
  destruct (decide (j < Z.to_nat k)%nat) as [Hj|Hj].
  - rewrite lookup_take_lt, lookup_seqZ_lt by lia. simpl.
    destruct (bytes !! j) as [b|] eqn:Hb; [|apply lookup_ge_None in Hb; lia].
    destruct (Hbyte _ _ Hb) as (file' & Hfile' & _ & Hd). simplify_eq. done.
  - rewrite lookup_take_ge, lookup_seqZ_ge by lia. done.
Qed.

Lemma io_read_at_runs o s index bytes fuel offset :
  quiet o → 0 ≤ offset → offset + Z.of_nat (length bytes) ≤ VOLUME_DEFAULT_DATA_FILE_SIZE →
  (length bytes ≤ fuel)%nat → holds (vl_files s) (index * F + offset) bytes →
  runs o (io_read_at fuel index offset (Z.of_nat (length bytes))) s (Ok bytes) (λ s', s' = s).
Proof.
  intros Hq. revert offset bytes. induction fuel as [|fuel IH]; intros offset bytes Ho Hend Hfuel Hh;
    cbn [io_read_at].
  { destruct bytes; [by apply runs_ret|simpl in Hfuel; lia]. }
  case_bool_decide as Hz; [destruct bytes; [by apply runs_ret|simpl in Hz; lia]|].
  apply runs_ask. intros n. destruct (Hq n _ (VPread (Z.of_nat (length bytes)))) as (k & -> & Hk); [lia|].
  eapply runs_bind; [by apply (runs_atomic _ _ _ _ (λ s0, s0 = s))|]. intros s' ->.
  rewrite (file_pread_holds s index offset bytes k) by done.
  destruct (take (Z.to_nat k) bytes) as [|b got] eqn:Hgot.
  { apply (f_equal length) in Hgot. rewrite length_take in Hgot. simpl in Hgot. lia. }
  rewrite <-Hgot. assert (length (take (Z.to_nat k) bytes) = Z.to_nat k) as -> by (rewrite length_take; lia).
  rewrite Z2Nat.id by lia.
  specialize (IH (offset + k) (drop (Z.to_nat k) bytes)). rewrite length_drop in IH.
  rewrite Nat2Z.inj_sub, Z2Nat.id in IH by lia.
  eapply runs_try; [apply IH; [lia|lia|lia|]|].
  - intros j b' Hj. rewrite lookup_drop in Hj. specialize (Hh _ _ Hj).
    by replace (index * F + (offset + k) + Z.of_nat j) with (index * F + offset + Z.of_nat (Z.to_nat k + j)) by lia.
  - intros s' ->. rewrite take_drop. by apply runs_ret.
Qed.

Lemma io_write_at_runs o s index buf fuel offset : quiet o → (length buf ≤ fuel)%nat →
  runs o (io_write_at fuel index offset buf) s (Ok tt) (λ _, True).
Proof.
  intros Hq. revert s offset buf. induction fuel as [|fuel IH]; intros s offset buf Hfuel; cbn [io_write_at].
  { by apply runs_ret. }
  destruct buf as [|b buf]; [by apply runs_ret|]. set (all := b :: buf) in *.
  assert (1 ≤ Z.of_nat (length all)) as Hpos by (subst all; simpl; lia).
  apply runs_ask. intros n. destruct (Hq n _ (VPwrite (Z.of_nat (length all))) Hpos) as (k & -> & Hk).
  eapply runs_bind; [by apply (runs_atomic _ _ _ _ (λ _, True))|]. intros s' _.
  rewrite bool_decide_false by lia. apply IH. rewrite length_drop. lia.
Qed.

Lemma syscall_runs o s call : quiet o → runs o (syscall call) s (Ok tt) (λ s', s' = s).
Proof. intros Hq. apply runs_ask. intros n. rewrite (Hq n _ (VSyscall call)). by apply runs_ret. Qed.

Lemma join_task_runs {A} o s what (r : Result string A) : quiet o →
  runs o (join_task what r) s (map_err Io r) (λ s', s' = s).
Proof. intros Hq. apply runs_ask. intros n. rewrite (Hq n _ VJoin). by apply runs_ret. Qed.

Lemma open_slot_quiet s index create : slots_ok s → 0 ≤ index < Z.of_nat (length (vl_slots s)) →
  create = true ∨ is_Some (vl_files s !! index) →
  (open_slot index create None None None s).1 = Ok index.
Proof.
  intros [_ Hslots] Hindex Hex. unfold open_slot.
  destruct (vl_slots s !! Z.to_nat index) as [slot|] eqn:Hslot; [|apply lookup_ge_None in Hslot; lia].
  destruct (ds_file slot) as [file|] eqn:Hfile.
  { destruct (Hslots _ _ Hslot _ Hfile) as [-> _]. simpl. f_equal. lia. }
  destruct create; simpl; [by case_bool_decide|].
  destruct Hex as [|[file Hf]]; [done|]. by rewrite Hf.
Qed.

Lemma get_or_open_runs o s index create : quiet o → slots_ok s →
  0 ≤ index < Z.of_nat (length (vl_slots s)) → create = true ∨ is_Some (vl_files s !! index) →
  runs o (get_or_open index create) s (Ok index) (λ s', vl_db s' = vl_db s ∧
    (∀ lo hi, keeps_files lo hi (vl_files s) (vl_files s'))).
Proof.
  intros Hq Hslots Hindex Hex. unfold get_or_open.
  eapply runs_bind; [by apply (runs_atomic _ _ _ (Z.of_nat (length (vl_slots s))) (λ s0, s0 = s))|]. intros s0 ->.
  rewrite bool_decide_true by lia.
  apply runs_ask. intros n1. rewrite (Hq n1 _ (VSyscall "open")).
  apply runs_ask. intros n2. rewrite (Hq n2 _ (VSyscall "metadata")).
  apply runs_ask. intros n3. rewrite (Hq n3 _ (VSyscall "preallocate")).
  destruct (open_slot index create None None None s) as [r s'] eqn:Ho.
  pose proof (open_slot_quiet s index create Hslots Hindex Hex) as Hr. rewrite Ho in Hr. simpl in Hr. subst r.
  pose proof Ho as Hspec. apply open_slot_spec in Hspec as (Hdb & _ & Hkeep & _); [|done|lia].
  eapply runs_bind; [by apply (runs_atomic _ _ _ (Ok index) (λ s'', s'' = s')); rewrite Ho|].
  intros s'' ->. apply runs_ask. intros n4. rewrite (Hq n4 _ VJoin). by apply runs_ret.
Qed.

(** ** Writing and reading a range *)

Lemma open_slot_db index create e1 e2 e3 s : vl_db (open_slot index create e1 e2 e3 s).2 = vl_db s.
Proof. unfold open_slot. by repeat case_match. Qed.

(** what holds of the database, whatever happens to the files *)
Definition on_db (P : VolumeDb → Prop) (s : VolumeState) : Prop := P (vl_db s).

Lemma io_write_at_db P fuel index offset buf :
  keeps volume_answer_ok (on_db P) (io_write_at fuel index offset buf).
Proof.
  revert offset buf. induction fuel as [|fuel IH]; intros offset buf; cbn [io_write_at]; [done|].
  destruct buf as [|b buf]; [done|]. apply keeps_try; [done|]. intros w.
  apply keeps_bind; [by apply keeps_atomic|]. intros _. case_bool_decide; [done|]. apply IH.
Qed.

Lemma get_or_open_db P index create : keeps volume_answer_ok (on_db P) (get_or_open index create).
Proof.
  unfold get_or_open. apply keeps_bind; [by apply keeps_atomic|]. intros configured.
  case_bool_decide; [|done]. do 3 (apply keeps_bind; [done|intros ?]).
  apply keeps_bind; [|done]. apply keeps_atomic. intros s Hs. unfold on_db. by rewrite open_slot_db.
Qed.

Lemma write_compressed_db P offset bytes :
  keeps volume_answer_ok (on_db P) (write_compressed_bytes offset bytes).
Proof.
  unfold write_compressed_bytes, write_at. apply keeps_try; [apply get_or_open_db|]. intros file.
  apply keeps_bind; [done|]. intros now. apply keeps_bind; [by apply keeps_atomic|]. intros _.
  apply keeps_bind; [|by intros]. apply keeps_try; [apply io_write_at_db|]. by intros.
Qed.

Lemma io_read_at_db P fuel index offset len : keeps volume_answer_ok (on_db P) (io_read_at fuel index offset len).
Proof.
  revert offset len. induction fuel as [|fuel IH]; intros offset len; cbn [io_read_at]; [done|]. case_bool_decide; [done|].
  apply keeps_try; [done|]. intros k. apply keeps_bind; [by apply keeps_atomic|]. intros got.
  destruct got; [done|]. apply keeps_try; [apply IH|done].
Qed.

Lemma read_compressed_db P offset len : keeps volume_answer_ok (on_db P) (read_compressed_bytes offset len).
Proof.
  unfold read_compressed_bytes, read_at. apply keeps_try; [apply get_or_open_db|]. intros file.
  apply keeps_bind; [done|]. intros now. apply keeps_bind; [by apply keeps_atomic|]. intros _.
  apply keeps_bind; [apply io_read_at_db|]. by intros.
Qed.

Lemma data_file_in_range s claims offset len : volume_inv s claims →
  0 ≤ offset → 0 < len → offset + len ≤ vm_active_volume_offset (vd_meta (vl_db s)) →
  0 ≤ offset / F < Z.of_nat (length (vl_slots s)).
Proof.
  intros Hinv Hofs Hlen Hact. destruct (vi_slots _ _ Hinv) as [-> _].
  pose proof (vi_meta _ _ Hinv) as (_ & _ & _ & Ha & _). unfold u64_div_ceil. flia.
Qed.

(** a quiet write fills the claim *)
Lemma write_compressed_runs o s offset bytes claims :
  let len := Z.of_nat (length bytes) in
  volume_inv s (mkClaim offset len [] false :: claims) → quiet o → answers_ok o →
  runs o (write_compressed_bytes offset bytes) s (Ok tt) (λ s', vl_db s' = vl_db s ∧
    volume_inv s' (mkClaim offset len bytes true :: claims)).
Proof.
  intros len Hinv Hq Hok. pose proof (vi_claims _ _ Hinv) as Hcl.
  apply Forall_cons in Hcl as [[(Hofs & Hpos & Hact & _) _] _]. simpl in *.
  assert (runs o (write_compressed_bytes offset bytes) s (Ok tt) (λ _, True)) as Hval.
  { unfold write_compressed_bytes, write_at.
    eapply runs_try; [apply get_or_open_runs; [done|apply Hinv|by eapply data_file_in_range|by left]|].
    intros s1 _. apply runs_ask. intros n. eapply runs_bind; [by apply (runs_atomic _ _ _ tt (λ _, True))|].
    intros s2 _. eapply (runs_bind _ _ _ _ _ _ (λ _, True)).
    - eapply runs_try; [by apply (io_write_at_runs o s2)|]. intros s3 _.
      eapply runs_conseq; [by apply syscall_runs|done].
    - intros s3 _. eapply runs_conseq; [exact (join_task_runs o s3 "write" (Ok tt) Hq)|done]. }
  intros n. destruct (Hval n) as [Hv _]. split; [done|]. split.
  { by apply (keeps_run volume_answer_ok (on_db (λ db, db = vl_db s)) o n); [|apply write_compressed_db|]. }
  destruct (owns_run volume_answer_ok volume_inv _ claims _ o n _ s Hok
    (write_compressed_owns offset len bytes Hofs eq_refl) Hinv) as (cs' & Hinv' & Hcs).
  rewrite Hv in Hcs. by subst cs'.
Qed.

Lemma read_compressed_runs o s claims offset bytes :
  let len := Z.of_nat (length bytes) in
  volume_inv s claims → quiet o → range_ok (vm_active_volume_offset (vd_meta (vl_db s))) (offset, len) →
  holds (vl_files s) offset bytes →
  runs o (read_compressed_bytes offset len) s (Ok bytes) (λ s', vl_db s' = vl_db s).
Proof.
  intros len Hinv Hq (Hofs & Hpos & Hact & Hend) Hholds. simpl in *. unfold read_compressed_bytes, read_at.
  assert (offset / F * F + offset mod F = offset) as Habs by flia.
  assert (is_Some (vl_files s !! (offset / F))) as Hex.
  { destruct bytes as [|b bytes]; [simpl in *; lia|]. specialize (Hholds 0%nat b eq_refl).
    unfold volume_byte in Hholds. rewrite Z.add_0_r in Hholds. by destruct (vl_files s !! (offset / F)). }
  eapply runs_try; [apply get_or_open_runs; [done|apply Hinv|by eapply data_file_in_range|by right]|].
  intros s1 [Hdb Hkeep]. apply runs_ask. intros n.
  eapply runs_bind; [by apply (runs_atomic _ _ _ tt (λ s', vl_db s' = vl_db s1 ∧ vl_files s' = vl_files s1))|].
  intros s2 [Hdb2 Hfiles2]. subst len. rewrite Nat2Z.id. eapply runs_bind.
  - apply io_read_at_runs; [done|flia|lia|done|]. rewrite Habs, Hfiles2.
    eapply holds_keeps; [apply (Hkeep 0 0)| |done]. right. lia.
  - intros s3 ->. eapply runs_conseq; [exact (join_task_runs o s2 "read" (Ok bytes) Hq)|].
    intros s' ->. by rewrite Hdb2.
Qed.

Lemma locked_runs {A} o (m : VDb A) s r db :
  m (vl_db s) = (r, db) → runs o (locked m) s r (λ s', s' = set_vl_db s db).
Proof. intros Hm. apply runs_atomic; by rewrite (with_db_run m s r db Hm). Qed.

Lemma read_chunk_runs o s claims id c bytes :
  volume_inv s claims → quiet o → find_chunk (vl_db s) id = Some c →
  Z.of_nat (length bytes) = cm_compressed_len c → holds (vl_files s) (cm_volume_offset c) bytes →
  runs o (read_chunk id) s (Ok (c, bytes)) (λ s', vl_db s' = vl_db s).
Proof.
  intros Hinv Hq Hfind Hlen Hholds. unfold read_chunk.
  pose proof (load_chunk_run s claims id Hinv) as Hload. rewrite Hfind in Hload.
  eapply runs_try; [by apply locked_runs|]. intros s' ->. rewrite set_vl_db_id, <-Hlen.
  apply find_chunk_Some in Hfind as [Hc _].
  pose proof (proj1 (Forall_forall _ _) (vi_chunks _ _ Hinv) _ Hc) as [Hr _]. unfold chunk_range in Hr.
  rewrite <-Hlen in Hr. eapply runs_try; [by eapply read_compressed_runs|]. intros s' Hdb. by apply runs_ret.
Qed.

(** ** Putting a chunk *)

Lemma insert_load_run s claims c err bytes :
  volume_inv s (mkClaim (cm_volume_offset c) (cm_compressed_len c) bytes true :: claims) →
  Z.of_nat (length bytes) = cm_compressed_len c → blake3_hash bytes = cm_compressed_hash c →
  is_i64_nonneg (cm_raw_len c) → content_ok (cm_chunk_id c) (cm_raw_len c) bytes →
  find_chunk (vl_db s) (cm_chunk_id c) = None →
  (VolumeDb.insert_chunk err c;; load_chunk (cm_chunk_id c)) (vl_db s) =
  match err with
  | Some e => (Err (from_sqlite e), vl_db s)
  | None => (Ok c, set_vd_chunks (vl_db s) (vd_chunks (vl_db s) ++ [c]))
  end.
Proof.
  intros Hinv Hlen Hhash Hraw Hcontent Hfresh. apply find_chunk_None in Hfresh.
  pose proof (vi_claims _ _ Hinv) as Hall. apply Forall_cons in Hall as [[(Hofs & Hpos & Hact & _) _] _].
  pose proof (vi_meta _ _ Hinv) as (_ & _ & _ & Ha & Hmax & _). simpl in *.
  unfold mbind, ST_bind. rewrite insert_chunk_run by lia.
  rewrite u64_to_i64_fits by apply Hraw. destruct err; [done|]. rewrite bool_decide_false by done.
  pose proof (insert_keeps s claims c bytes Hinv Hlen Hhash Hraw Hcontent Hfresh) as Hinv'.
  rewrite (load_chunk_run _ _ _ Hinv'). simpl. unfold find_chunk.
  cbn [set_vd_chunks vd_chunks]. rewrite lfind_app. destruct (lfind _ (vd_chunks (vl_db s))) as [c'|] eqn:Hf.
  - exfalso. apply Hfresh. apply lfind_Some in Hf as [Hc Hid%bool_decide_eq_true]. rewrite <-Hid.
    by apply (list_elem_of_fmap_2 cm_chunk_id).
  - simpl. by rewrite bool_decide_true.
Qed.

(** the row [put_chunk] inserts *)
Definition placed_chunk (db : VolumeDb) (id : HashId) (raw_len : Z) (bytes : list Byte.byte) : ChunkMeta :=
  let len := Z.of_nat (length bytes) in
  mkChunkMeta id (blake3_hash bytes) (chunk_offset (vm_active_volume_offset (vd_meta db)) len) raw_len len.

(** [put_chunk] gets past its checks *)
Definition can_put (db : VolumeDb) (id : HashId) (raw_len : Z) (bytes : list Byte.byte) : Prop :=
  0 < raw_len ≤ i64_max ∧ bytes ≠ [] ∧ Z.of_nat (length bytes) ≤ VOLUME_DEFAULT_DATA_FILE_SIZE ∧
  content_ok id raw_len bytes ∧ find_chunk db id = None ∧
  cm_volume_offset (placed_chunk db id raw_len bytes) + Z.of_nat (length bytes) ≤ vm_max_bytes (vd_meta db).

Lemma put_chunk_runs o s claims id raw_len bytes :
  volume_inv s claims → quiet o → answers_ok o → can_put (vl_db s) id raw_len bytes →
  let c := placed_chunk (vl_db s) id raw_len bytes in
  runs o (put_chunk id raw_len bytes) s (Ok c) (λ s',
    volume_inv s' claims ∧ vd_chunks (vl_db s') = vd_chunks (vl_db s) ++ [c] ∧
    vm_active_volume_offset (vd_meta (vl_db s')) = cm_volume_offset c + cm_compressed_len c ∧
    vd_bundle_chunks (vl_db s') = vd_bundle_chunks (vl_db s) ∧ vd_records (vl_db s') = vd_records (vl_db s) ∧
    find_chunk (vl_db s') id = Some c ∧ holds (vl_files s') (cm_volume_offset c) bytes).
Proof.
  intros Hinv Hq Hok (Hraw & Hne & Hsize & Hcontent & Hfind & Hcap) c. unfold put_chunk.
  set (len := Z.of_nat (length bytes)) in *. simpl in Hcap. fold len in Hcap.
  assert (0 < len) as Hpos by (subst len; destruct bytes; [done|simpl; lia]).
  rewrite !bool_decide_false by (done || lia).
  apply runs_ask. intros n1. pose proof (Hq n1 _ VNow) as Hnow. simpl in Hnow.
  set (now := o n1 Z VNow) in *. apply runs_ask. intros n2. rewrite (Hq n2 _ VVerdict).
  assert (is_u64 now) as Hnow64 by (unfold is_u64, is_i64_nonneg, u64_max, i64_max in *; lia).
  pose proof (reserve_chunk_run s claims None now id (blake3_hash bytes) raw_len len Hinv ltac:(done) Hnow64) as Hrun.
  simpl in Hrun. rewrite Hfind, bool_decide_false, u64_to_i64_fits in Hrun by (apply Hnow || lia).
  set (offset := chunk_offset (vm_active_volume_offset (vd_meta (vl_db s))) len) in *.
  assert (c = mkChunkMeta id (blake3_hash bytes) offset raw_len len) as Hc by done.
  pose proof (reserve_keeps s claims len now Hinv ltac:(done) Hnow64 ltac:(apply Hnow) Hcap) as Hinv1.
  cbv zeta in Hinv1. fold offset in Hinv1.
  eapply runs_try; [by apply locked_runs|]. intros s1 Hs1. cbn beta in Hs1. cbn [cm_volume_offset].
  rewrite <-Hs1 in Hinv1.
  eapply runs_try; [by eapply write_compressed_runs|]. intros s2 [Hdb2 Hinv2].
  apply runs_ask. intros n3. rewrite (Hq n3 _ VVerdict).
  assert (vl_db s2 = raised (vl_db s) (offset + len) now) as Hdb by (rewrite Hdb2, Hs1; done).
  pose proof (insert_load_run s2 claims c None bytes Hinv2 eq_refl eq_refl) as Hins.
  specialize (Hins ltac:(split; simpl; lia) Hcontent). simpl in Hins.
  assert (find_chunk (vl_db s2) id = None) as Hfind2 by (rewrite Hdb; exact Hfind). specialize (Hins Hfind2).
  rewrite <-Hc. eapply runs_conseq; [by apply locked_runs|]. intros s3 ->. simpl.
  assert (volume_inv (set_vl_db s2 (set_vd_chunks (vl_db s2) (vd_chunks (vl_db s2) ++ [c]))) claims) as Hinv3.
  { eapply (insert_keeps s2 claims c bytes); [done..|split; simpl; lia|done|]. by apply find_chunk_None. }
  rewrite Hdb in *. split; [exact Hinv3|]. split_and!; try done.
  - apply (find_chunk_unique _ c); [apply (vi_ids _ _ Hinv3)|]. simpl. set_solver.
  - pose proof (vi_claims _ _ Hinv2) as Hall. by apply Forall_cons in Hall as [(_ & _ & Hh & _) _].
Qed.
End Runs.

Section Chunks.
Context `{SqliteText, RowIds, Blake3, ContentRule, !RowIdLaws}.

(** C29. A chunk that passes [put_chunk]'s checks is stored: when no call of the system fails,
    [put_chunk] returns the metadata of the chunk at the next free place, [read_chunk] then
    returns that and exactly the bytes put, the offset the volume has used is the end of the
    chunk, and the other chunks, the bundles and the outbox are as before. *)
Theorem put_read_roundtrip o n s claims id raw_len bytes :
  volume_inv s claims → quiet o → answers_ok o → can_put (vl_db s) id raw_len bytes →
  let c := placed_chunk (vl_db s) id raw_len bytes in
  let out := run o n (put_chunk id raw_len bytes) s in
  let s' := out_state out in
  out_value out = Ok c ∧
  vd_chunks (vl_db s') = vd_chunks (vl_db s) ++ [c] ∧
  vm_active_volume_offset (vd_meta (vl_db s')) = cm_volume_offset c + cm_compressed_len c ∧
  vd_bundle_chunks (vl_db s') = vd_bundle_chunks (vl_db s) ∧ vd_records (vl_db s') = vd_records (vl_db s) ∧
  ∀ o' n', quiet o' → out_value (run o' n' (read_chunk id) s') = Ok (c, bytes).
Proof.
  intros Hinv Hq Hok Hcan c out s'.
  destruct (put_chunk_runs o s claims id raw_len bytes Hinv Hq Hok Hcan n)
    as [Hv (Hinv' & Hch & Hact & Hbc & Hrec & Hfind & Hholds)].
  fold out s' in Hv, Hinv', Hch, Hact, Hbc, Hrec, Hfind, Hholds.
  split_and!; try done. intros o' n' Hq'. by eapply read_chunk_runs.
Qed.
(** C30. [put_chunk] on every input it does not store, whatever the system answers: an empty length, an empty or an
    oversized chunk and one that does not fit are refused with their errors; a chunk id that is stored
    already is returned with its metadata when lengths and hash agree and is a
    [HashMismatch] when they do not.  Nothing changes. *)
Theorem put_chunk_refuses o n s claims id raw_len bytes :
  volume_inv s claims → answers_ok o → 0 ≤ raw_len →
  let len := Z.of_nat (length bytes) in
  let db := vl_db s in
  let offset := chunk_offset (vm_active_volume_offset (vd_meta db)) len in
  let out := run o n (put_chunk id raw_len bytes) s in
  if bool_decide (raw_len = 0) then out_value out = Err (InvalidData "raw_len must be greater than zero") ∧ out_state out = s
  else if bool_decide (bytes = []) then out_value out = Err (InvalidData "compressed_bytes cannot be empty") ∧ out_state out = s
  else if bool_decide (VOLUME_DEFAULT_DATA_FILE_SIZE < len) then
    (∃ message, out_value out = Err (InvalidData message)) ∧ out_state out = s
  else match find_chunk db id with
  | Some c =>
      out_state out = s ∧
      out_value out =
        if bool_decide (cm_raw_len c = raw_len ∧ cm_compressed_len c = len ∧ cm_compressed_hash c = blake3_hash bytes)
        then Ok c else Err (HashMismatch (cm_volume_offset c))
  | None =>
      if bool_decide (vm_max_bytes (vd_meta db) < offset + len)
      then out_value out = Err (CapacityExceeded (offset + len) (vm_max_bytes (vd_meta db))) ∧ out_state out = s
      else True
  end.
Proof.
  intros Hinv Hok Hraw len db offset out. unfold out. clear out.
  case_bool_decide as Hz; [unfold put_chunk; by rewrite bool_decide_true|].
  case_bool_decide as Hne; [unfold put_chunk; by rewrite bool_decide_false, bool_decide_true|].
  case_bool_decide as Hsize.
  { unfold put_chunk. rewrite (bool_decide_false (raw_len = 0)), (bool_decide_false (bytes = [])) by done.
    fold len. rewrite bool_decide_true by done. split; [by eexists|done]. }
  assert (0 < len ≤ VOLUME_DEFAULT_DATA_FILE_SIZE) as Hlen by (subst len; destruct bytes; [done|simpl in *; lia]).
  assert (∀ v, (∀ err now, is_u64 now →
      reserve_chunk err now id (blake3_hash bytes) raw_len len db = (match v with Ok c => Ok (inl c) | Err e => Err e end, db)) →
    out_state (run o n (put_chunk id raw_len bytes) s) = s ∧
    out_value (run o n (put_chunk id raw_len bytes) s) = v) as Hput.
  { intros v Hv. cut (runs o (put_chunk id raw_len bytes) s v (λ s', s' = s)).
    { intros Hr. destruct (Hr n). done. }
    unfold put_chunk. rewrite !bool_decide_false by done. fold len.
    apply runs_ask. intros n1. apply runs_ask. intros n2.
    pose proof (Hv (o n2 _ VVerdict) (o n1 _ VNow) (Hok n1 _ VNow)) as Hr. destruct v as [c|e].
    - eapply runs_try; [by apply locked_runs|]. intros s' ->. rewrite set_vl_db_id. by apply runs_ret.
    - apply runs_try_Err. eapply runs_conseq; [by apply locked_runs|]. intros s' ->. apply set_vl_db_id. }
  destruct (find_chunk db id) as [c|] eqn:Hfind.
  - apply Hput. intros err now Hnow. unfold db. rewrite (reserve_chunk_run s claims) by done.
    fold db. rewrite Hfind. by case_bool_decide.
  - case_bool_decide as Hcap; [|done]. apply and_comm, Hput. intros err now Hnow.
    unfold db. rewrite (reserve_chunk_run s claims) by done. fold db. rewrite Hfind.
    fold offset. by rewrite bool_decide_true.
Qed.
End Chunks.

#[local] Existing Instances plain_sqlite_text sequential_rowids sequential_rowid_laws sum_blake3 any_content.

Lemma sample_can_put : can_put fresh_db sample_chunk 9 sample_bytes.
Proof. unfold can_put, i64_max. split_and!; try done; vm_compute; done. Qed.

(** five bytes in the empty volume, read back three and two at a time *)
Lemma put_read_roundtrip_witness :
  let s' := out_state (run half_oracle 0 (put_chunk sample_chunk 9 sample_bytes) fresh_volume) in
  vm_active_volume_offset (vd_meta (vl_db s')) = 5 ∧
  out_value (run half_oracle 0 (read_chunk sample_chunk) s') =
    Ok (placed_chunk fresh_db sample_chunk 9 sample_bytes, sample_bytes).
Proof.
  destruct (put_read_roundtrip half_oracle 0 fresh_volume [] sample_chunk 9 sample_bytes
    fresh_volume_inv half_oracle_quiet half_oracle_ok sample_can_put) as (_ & _ & Hact & _ & _ & Hread).
  split; [exact Hact|]. exact (Hread half_oracle 0%nat half_oracle_quiet).
Defined.

(** other bytes under the id of a stored chunk *)
Lemma put_chunk_refuses_witness :
  let s' := out_state (run half_oracle 0 (put_chunk sample_chunk 9 sample_bytes) fresh_volume) in
  out_state (run half_oracle 0 (put_chunk sample_chunk 9 sample_bytes2) s') = s' ∧
  out_value (run half_oracle 0 (put_chunk sample_chunk 9 sample_bytes2) s') = Err (HashMismatch 0).
Proof.
  intros s'. destruct (put_chunk_runs half_oracle fresh_volume [] sample_chunk 9 sample_bytes
    fresh_volume_inv half_oracle_quiet half_oracle_ok sample_can_put 0%nat) as [_ (Hinv & _ & _ & _ & _ & Hfind & _)].
  fold s' in Hinv, Hfind.
  pose proof (put_chunk_refuses half_oracle 0 s' [] sample_chunk 9 sample_bytes2 Hinv half_oracle_ok ltac:(done)) as Hr.
  cbv zeta in Hr. rewrite Hfind in Hr.
  rewrite (bool_decide_false (9 = 0)), (bool_decide_false (sample_bytes2 = [])) in Hr by done.
  rewrite bool_decide_false in Hr by done. destruct Hr as [Hs Hv]. split; [exact Hs|].
  rewrite Hv. rewrite bool_decide_false; [done|]. intros (_ & Hl & _). vm_compute in Hl. done.
Defined.
