(* ===== verification/VolumeCommits.v ===== *)
(** * Bundles of a volume: what the calls answer

    [commit_bundle], [delete_bundle], [list_bundle_chunks], [delete_chunk] and the outbox of
    changes, on every branch. *)

From S2P Require Import Prelude Types Paths CentralDb VolumeDb Conc VolumeIo Volume.
From S2P Require Import VolumeInv VolumeFacts VolumeBundles VolumeSafety VolumeSample VolumeLife VolumeRuns.

Section Commits.
Context `{SqliteText, RowIds, Blake3, ContentRule, !RowIdLaws}.

(** ** Helpers *)

Lemma verdict_runs {A} o n s (m : option SqlError → VDb A) :
  run o n (err ← ask VVerdict; locked (m err)) s =
  mkOutcome (with_db (m (o n _ VVerdict)) s).1 (with_db (m (o n _ VVerdict)) s).2 [existT _ VVerdict].
Proof. unfold locked, atomic. simpl. by destruct (with_db (m (o n _ VVerdict)) s). Qed.

Lemma locked_run {A} o n s (m : VDb A) :
  run (Q := VolumeQuery) o n (locked m) s = mkOutcome (with_db m s).1 (with_db m s).2 [].
Proof. apply run_atomic. Qed.

(** the new outbox has one record of the bundle and the others as they were *)
Lemma upsert_records kind b db db' :
  outbox_ok db → upsert_change_row (event_type_of kind) b db = Ok (tt, db') →
  (∃ r, r ∈ vd_records db' ∧ bch_bundle_id r = b ∧ bch_event_type r = event_type_of kind) ∧
  base.filter (λ r, bch_bundle_id r ≠ b) (vd_records db') =
  base.filter (λ r, bch_bundle_id r ≠ b) (vd_records db).
Proof.
  intros Hob. unfold upsert_change_row. case_bool_decide as Hin.
  - intros [= <-]. cbn [vd_records set_vd_records]. split.
    + apply list_elem_of_fmap in Hin as (r & -> & Hr).
      exists (mkBundleChangeRow (bch_event_id r) (event_type_of kind) (bch_bundle_id r)). split; [|done].
      apply list_elem_of_fmap. exists r. split; [|done]. by rewrite bool_decide_true.
    + clear. induction (vd_records db) as [|r l IH]; [done|]. cbn [map]. rewrite !filter_cons, IH.
      case_bool_decide as Hb; cbn [bch_bundle_id]; [|done]. by rewrite !decide_False by tauto.
  - destruct (autoincrement_rowid _ _) as [id|]; [|done]. intros [= <-]. cbn [vd_records set_vd_records]. split.
    + eexists. split; [apply elem_of_app; right; by apply list_elem_of_singleton|done].
    + rewrite filter_app. rewrite (proj2 (filter_nil_iff _ [_])); [by rewrite app_nil_r|].
      intros r ->%list_elem_of_singleton. simpl. tauto.
Qed.

Lemma upsert_error event_type b db e : upsert_change_row event_type b db = Err e → e = DatabaseFull.
Proof.
  unfold upsert_change_row. case_bool_decide; [done|]. destruct (autoincrement_rowid _ _); [done|]. by intros [= <-].
Qed.

Lemma upsert_tables event_type b db db' : upsert_change_row event_type b db = Ok (tt, db') →
  vd_chunks db' = vd_chunks db ∧ vd_bundle_chunks db' = vd_bundle_chunks db ∧ vd_meta db' = vd_meta db.
Proof.
  unfold upsert_change_row. case_bool_decide; [by intros [= <-]|].
  destruct (autoincrement_rowid _ _); [|done]. by intros [= <-].
Qed.

(** the change of one bundle, as its callers see it *)
Definition bundle_changed (kind : BundleReplicaEventKind) (b : HashId) (rows : list BundleChunkRow)
    (db db' : VolumeDb) : Prop :=
  bundle_rows db' b = rows ∧ (∀ b', b' ≠ b → bundle_rows db' b' = bundle_rows db b') ∧
  vd_chunks db' = vd_chunks db ∧ vd_meta db' = vd_meta db ∧
  (∃ r, r ∈ vd_records db' ∧ bch_bundle_id r = b ∧ bch_event_type r = event_type_of kind) ∧
  base.filter (λ r, bch_bundle_id r ≠ b) (vd_records db') =
  base.filter (λ r, bch_bundle_id r ≠ b) (vd_records db).

(** the bundle's rows are the same in both states *)
Definition bundle_kept (b : HashId) (s s' : VolumeState) : Prop :=
  bundle_rows (vl_db s') b = bundle_rows (vl_db s) b.

(** a chunk's row is gone, and nothing else *)
Definition chunk_forgotten (id : HashId) (s s' : VolumeState) : Prop :=
  vd_chunks (vl_db s') = base.filter (λ c, cm_chunk_id c ≠ id) (vd_chunks (vl_db s)) ∧
  vd_bundle_chunks (vl_db s') = vd_bundle_chunks (vl_db s) ∧
  vd_records (vl_db s') = vd_records (vl_db s) ∧ vl_files s' = vl_files s.

Lemma upsert_bundle_changed kind b rows db db' :
  outbox_ok db → upsert_change_row (event_type_of kind) b (set_vd_bundle_chunks db rows) = Ok (tt, db') →
  (∀ b', b' ≠ b → base.filter (λ row, bcr_bundle_id row = b') rows = bundle_rows db b') →
  bundle_changed kind b (base.filter (λ row, bcr_bundle_id row = b) rows) db db'.
Proof.
  intros Hob Hup Hother. assert (outbox_ok (set_vd_bundle_chunks db rows)) as Hob0 by (destruct Hob; by split).
  destruct (upsert_records _ _ _ _ Hob0 Hup) as [Hrec Hrest].
  destruct (upsert_tables _ _ _ _ Hup) as (Hch & Hbc & Hmeta). simpl in *.
  unfold bundle_changed, bundle_rows at 1 2. rewrite Hbc. by split_and!.
Qed.

(** ** Committing *)

(** [commit_bundle], branch by branch *)
Lemma commit_bundle_branches o n s claims b chunks :
  volume_inv s claims → Z.of_nat (length chunks) ≤ i64_max →
  let out := run o n (commit_bundle b chunks) s in
  let db := vl_db s in
  let db' := vl_db (out_state out) in
  if bool_decide (chunks = []) then
    out_value out = Err (InvalidData "bundle must contain at least one chunk") ∧ out_state out = s
  else if negb (contiguous_from 0 chunks) then
    out_value out = Err (InvalidData "bundle chunk indexes must be contiguous") ∧ out_state out = s
  else if bool_decide (bundle_hash_from_chunks chunks ≠ b) then
    out_value out = Err (InvalidData "bundle id does not match committed chunk ids") ∧ out_state out = s
  else if bool_decide (bundle_rows db b ≠ []) then
    out_value out = bundle_totals db b ∧ out_state out = s
  else match lfind (missing_chunk db) chunks with
  | Some c => out_value out = Err (ChunkNotFound (bc_chunk_id c)) ∧ out_state out = s
  | None =>
      (∃ e, out_value out = Err (from_sqlite e) ∧ out_state out = s ∧
            (e = DatabaseFull ∨ o n _ VVerdict = Some e)) ∨
      out_value out = bundle_totals db' b ∧ bundle_changed Stored b (rows_of b chunks) db db' ∧
      vl_files (out_state out) = vl_files s ∧ volume_inv (out_state out) claims
  end.
Proof.
  intros Hinv Hlen out db db'. subst db'. unfold out. clear out. unfold commit_bundle.
  case_bool_decide as Hne; [done|]. destruct (contiguous_from 0 chunks) eqn:Hcont; cbn [negb]; [|done].
  case_bool_decide as Hhash; [done|]. rewrite verdict_runs. cbn [out_value out_state].
  set (err := o n _ VVerdict).
  pose proof (commit_bundle_locked_run s claims err b chunks Hinv Hne ltac:(by rewrite Hcont) Hhash Hlen) as Hrun.
  cbv zeta in Hrun. fold db in Hrun.
  destruct (decide (bundle_rows db b = [])) as [Hnil|Hnil].
  2:{ rewrite bool_decide_true by done. rewrite bool_decide_false in Hrun by done.
      rewrite (with_db_run _ _ _ _ Hrun). by rewrite set_vl_db_id. }
  rewrite bool_decide_false by tauto. rewrite bool_decide_true in Hrun by done.
  destruct (lfind (missing_chunk db) chunks) as [c|] eqn:Hmiss.
  { rewrite (with_db_run _ _ _ _ Hrun). by rewrite set_vl_db_id. }
  destruct (upsert_change_row _ _ _) as [[[] db']|e] eqn:Hup.
  2:{ left. rewrite (with_db_run _ _ _ _ Hrun), set_vl_db_id. exists e. split_and!; [done..|]. left. by eapply upsert_error. }
  destruct err as [e|] eqn:Herr; rewrite (with_db_run _ _ _ _ Hrun).
  { left. rewrite set_vl_db_id. exists e. split_and!; [done..|]. by right. }
  right. simpl. split; [done|]. split; [|split; [done|]].
  - pose proof (upsert_bundle_changed Stored b _ db db' (bko_outbox _ (vi_bundles _ _ Hinv)) Hup) as Hch.
    pose proof (λ b', with_bundle_rows db b b' chunks Hnil) as Hrows. simpl in Hrows.
    rewrite Hrows, bool_decide_true in Hch by done. apply Hch. intros b' Hb'.
    by rewrite Hrows, bool_decide_false by congruence.
  - eapply with_bundle_keeps; try done. by rewrite Hcont.
Qed.

(** C31. [commit_bundle] on every branch: an empty list, indexes that are not 0, 1, 2, .. and an id that
    is not the hash of the chunk ids are refused; a bundle that is there is returned with
    its totals; a chunk that is not stored is named; otherwise either the engine fails and
    nothing changes, or the bundle has exactly these chunks, every other bundle and the
    chunks are as before, the outbox has the bundle as stored, and the answer is the totals. *)
Theorem commit_bundle_spec o n s claims b chunks :
  volume_inv s claims → Z.of_nat (length chunks) ≤ i64_max →
  let out := run o n (commit_bundle b chunks) s in
  let db := vl_db s in
  let db' := vl_db (out_state out) in
  if bool_decide (chunks = []) then
    out_value out = Err (InvalidData "bundle must contain at least one chunk") ∧ out_state out = s
  else if negb (contiguous_from 0 chunks) then
    out_value out = Err (InvalidData "bundle chunk indexes must be contiguous") ∧ out_state out = s
  else if bool_decide (bundle_hash_from_chunks chunks ≠ b) then
    out_value out = Err (InvalidData "bundle id does not match committed chunk ids") ∧ out_state out = s
  else if bool_decide (bundle_rows db b ≠ []) then
    out_value out = bundle_totals db b ∧ out_state out = s
  else match lfind (missing_chunk db) chunks with
  | Some c => out_value out = Err (ChunkNotFound (bc_chunk_id c)) ∧ out_state out = s
  | None =>
      (∃ e, out_value out = Err (from_sqlite e) ∧ out_state out = s ∧
            (e = DatabaseFull ∨ o n _ VVerdict = Some e)) ∨
      out_value out = bundle_totals db' b ∧ bundle_changed Stored b (rows_of b chunks) db db' ∧
      vl_files (out_state out) = vl_files s ∧ volume_inv (out_state out) claims
  end.
Proof. exact (commit_bundle_branches o n s claims b chunks). Qed.

Lemma list_bundle_chunks_run db b chunks :
  contiguous_from 0 chunks → bundle_rows db b = rows_of b chunks →
  VolumeDb.list_bundle_chunks b db = (Ok chunks, db).
Proof.
  intros Hcont Hrows. unfold VolumeDb.list_bundle_chunks, vquery, mbind, ST_bind, st_lift.
  fold (bundle_rows db b). rewrite Hrows.
  assert (StronglySorted (λ a b, bcr_chunk_index a < bcr_chunk_index b) (rows_of b chunks) ∧
    Forall (λ row, 0 ≤ bcr_chunk_index row) (rows_of b chunks)) as [Hsorted Hpos].
  { pose proof (contiguous_indexes 0 chunks Hcont) as Hidx. clear -Hcont. revert Hcont.
    assert (∀ i, 0 ≤ i → contiguous_from i chunks →
      StronglySorted (λ a b, bcr_chunk_index a < bcr_chunk_index b) (rows_of b chunks) ∧
      Forall (λ row, i ≤ bcr_chunk_index row) (rows_of b chunks)) as Hgen; [|by apply Hgen].
    induction chunks as [|c chunks IH]; intros i Hi; cbn [contiguous_from rows_of map]; [by repeat constructor|].
    intros [Hc Hcs]%andb_True. apply bool_decide_unpack in Hc. destruct (IH (i + 1) ltac:(lia) Hcs) as [Hs Hge].
    split; constructor; [done| |simpl; lia|].
    - eapply Forall_impl; [exact Hge|]. simpl. lia.
    - eapply Forall_impl; [exact Hge|]. simpl. lia. }
  assert (merge_sort chunk_index_le (rows_of b chunks) = rows_of b chunks) as ->.
  { symmetry. apply (sorted_perm_unique (λ a b, bcr_chunk_index a ≤ bcr_chunk_index b)).
    - eapply StronglySorted_impl; [|exact Hsorted]. simpl. lia.
    - apply StronglySorted_merge_sort; intros x *; unfold chunk_index_le; lia.
    - symmetry. apply merge_sort_Permutation.
    - intros x y Hx Hy Hxy Hyx. assert (bcr_chunk_index x = bcr_chunk_index y) as Heq by lia.
      eapply (NoDup_map_inj bcr_chunk_index); [|done..]. clear -Hsorted.
      induction Hsorted as [|r l _ IH Hr]; cbn [map]; constructor; [|done].
      intros (r' & Hr' & Hin)%list_elem_of_fmap. pose proof (proj1 (Forall_forall _ _) Hr _ Hin). simpl in *. lia. }
  rewrite (collect_map _ (λ row, mkBundleChunkRef (bcr_chunk_index row) (bcr_chunk_id row))).
  - unfold rows_of. rewrite map_map. do 2 f_equal. rewrite <-(map_id chunks) at 2. apply map_ext. by intros [].
  - eapply Forall_impl; [exact Hpos|]. intros row Hrow. unfold row_to_bundle_chunk. by rewrite row_u64_fits.
Qed.

(** What was committed is what is listed: after a [commit_bundle] that stored a new bundle,
    [list_bundle_chunks] answers exactly the chunks committed, in their order, also
    after whatever else runs as long as the bundle's rows are not deleted. *)
Theorem commit_list_roundtrip o n s claims b chunks meta o' n' s' claims' :
  volume_inv s claims → Z.of_nat (length chunks) ≤ i64_max → bundle_rows (vl_db s) b = [] →
  out_value (run o n (commit_bundle b chunks) s) = Ok meta →
  volume_inv s' claims' →
  bundle_kept b (out_state (run o n (commit_bundle b chunks) s)) s' →
  out_value (run o' n' (list_bundle_chunks b) s') = Ok chunks ∧
  bm_chunk_count meta = Z.of_nat (length chunks).
Proof.
  intros Hinv Hlen Hnil Hok Hinv' Hsame.
  pose proof (commit_bundle_branches o n s claims b chunks Hinv Hlen) as Hspec. cbv zeta in Hspec. rewrite Hok in Hspec.
  case_bool_decide as Hne; [by destruct Hspec|]. destruct (contiguous_from 0 chunks) eqn:Hcont; [|by destruct Hspec].
  cbn [negb] in Hspec. case_bool_decide; [by destruct Hspec|].
  rewrite bool_decide_false in Hspec by (rewrite Hnil; tauto).
  destruct (lfind _ chunks); [by destruct Hspec|].
  destruct Hspec as [(e & He & _)|(Ht & (Hrows & _) & _)]; [done|].
  unfold bundle_kept in Hsame. rewrite Hrows in Hsame. split.
  - unfold list_bundle_chunks, prog_try. rewrite run_bind. rewrite locked_run. cbn [out_value out_state].
    rewrite (with_db_run _ _ _ _ (list_bundle_chunks_run _ b chunks ltac:(by rewrite Hcont) Hsame)). simpl.
    by rewrite bool_decide_false.
  - unfold bundle_totals in Ht. rewrite Hrows in Ht. repeat case_bool_decide; try done.
    injection Ht as ->. simpl. unfold rows_of. by rewrite length_map.
Qed.

(** ** Deleting *)

(** [delete_bundle] either fails with the engine's error and changes nothing, or leaves
    no row of the bundle, every other bundle, all chunks and the data files as they were, and
    the outbox with the bundle as deleted, whether the bundle was there or not;
    [list_bundle_chunks] then answers that the bundle is not found. *)
Theorem delete_bundle_spec o n s claims b :
  volume_inv s claims →
  let out := run o n (delete_bundle b) s in
  let s' := out_state out in
  (∃ e, out_value out = Err (from_sqlite e) ∧ s' = s ∧ (e = DatabaseFull ∨ o n _ VVerdict = Some e)) ∨
  out_value out = Ok tt ∧ bundle_changed Deleted b [] (vl_db s) (vl_db s') ∧
  vl_files s' = vl_files s ∧ volume_inv s' claims ∧
  ∀ o' n', out_value (run o' n' (list_bundle_chunks b) s') = Err (BundleNotFound b).
Proof.
  intros Hinv out s'. subst out s'. unfold delete_bundle. rewrite verdict_runs. cbn [out_value out_state].
  pose proof (delete_bundle_run (o n _ VVerdict) b (vl_db s)) as Hrun.
  destruct (upsert_change_row _ _ _) as [[[] db']|e] eqn:Hup.
  2:{ left. rewrite (with_db_run _ _ _ _ Hrun), set_vl_db_id. exists e. split_and!; [done..|]. left. by eapply upsert_error. }
  destruct (o n _ VVerdict) as [e|] eqn:Herr; rewrite (with_db_run _ _ _ _ Hrun).
  { left. rewrite set_vl_db_id. exists e. split_and!; [done..|]. by right. }
  right. cbn [fst snd]. pose proof (upsert_bundle_changed Deleted b _ _ db' (bko_outbox _ (vi_bundles _ _ Hinv)) Hup) as Hch.
  rewrite bundle_rows_deleted in Hch.
  specialize (Hch (λ b', bundle_rows_other (vl_db s) b b')).
  split; [done|]. split; [done|]. split; [done|]. split; [by eapply without_bundle_keeps|].
  intros o' n'. unfold list_bundle_chunks, prog_try. rewrite run_bind, locked_run. cbn [out_value out_state].
  rewrite (with_db_run _ (set_vl_db s db') (Ok []) db' (list_bundle_chunks_run _ b [] I (proj1 Hch))). done.
Qed.

(** [delete_chunk] refuses a chunk that a bundle names (RESTRICT) and changes nothing; any
    other chunk it forgets, so that [read_chunk] does not find it, and leaves the bundles, the
    other chunks and the data files as they were; an unknown id is no error. *)
Theorem delete_chunk_spec o n s claims id :
  volume_inv s claims →
  let out := run o n (delete_chunk id) s in
  let db := vl_db s in
  let s' := out_state out in
  match o n _ VVerdict with
  | Some e => out_value out = Err (from_sqlite e) ∧ s' = s
  | None =>
      if bool_decide (id ∈ map bcr_chunk_id (vd_bundle_chunks db))
      then out_value out = Err (from_sqlite ConstraintForeignKey) ∧ s' = s
      else out_value out = Ok tt ∧ chunk_forgotten id s s' ∧
           ∀ o' n', out_value (run o' n' (read_chunk id) s') = Err (ChunkNotFound id)
  end.
Proof.
  intros Hinv out db s'. subst out s'. unfold delete_chunk. rewrite verdict_runs. cbn [out_value out_state].
  unfold with_db, VolumeDb.delete_chunk, vexec. destruct (o n _ VVerdict) as [e|]; [by rewrite set_vl_db_id|].
  unfold delete_chunk_row. fold db. case_bool_decide as Hin.
  - assert (id ∈ map cm_chunk_id (vd_chunks db)) as Hstored.
    { apply list_elem_of_fmap in Hin as (row & -> & Hrow).
      exact (proj1 (Forall_forall _ _) (bko_chunk _ (vi_bundles _ _ Hinv)) _ Hrow). }
    rewrite bool_decide_true by done. by rewrite set_vl_db_id.
  - rewrite bool_decide_false by tauto. cbn [fst snd]. split_and!; try done. intros o' n'.
    unfold read_chunk, prog_try at 1. rewrite run_bind, locked_run. cbn [out_value out_state].
    pose proof (delete_keeps s claims id Hinv (or_introl Hin)) as Hinv'.
    pose proof (load_chunk_run _ _ id Hinv') as Hload.
    assert (find_chunk (set_vd_chunks db (base.filter (λ c, cm_chunk_id c ≠ id) (vd_chunks db))) id = None) as Hnone.
    { apply find_chunk_None. simpl. by intros (c & Hid & [Hne _]%list_elem_of_filter)%list_elem_of_fmap. }
    cbn [vl_db set_vl_db] in Hload. fold db in Hload. rewrite Hnone in Hload.
    unfold with_db. cbn [vl_db set_vl_db]. rewrite Hload. done.
Qed.

(** ** The outbox *)

(** the event a record is reported as *)
Definition event_of (db : VolumeDb) (r : BundleChangeRow) : BundleReplicaEvent :=
  mkBundleReplicaEvent (bch_event_id r)
    (if bool_decide (bch_event_type r = "bundle_stored") then Stored else Deleted)
    (vm_volume_id (vd_meta db)) (bch_bundle_id r)
    (Some (zsum (map cm_raw_len (bundle_members db (bch_bundle_id r)))))
    (Some (zsum (map cm_compressed_len (bundle_members db (bch_bundle_id r))))).

(** the totals of every bundle that changed fit SQLite's integers *)
Definition totals_fit (db : VolumeDb) : Prop :=
  ∀ r, r ∈ vd_records db →
    zsum (map cm_raw_len (bundle_members db (bch_bundle_id r))) ≤ i64_max ∧
    zsum (map cm_compressed_len (bundle_members db (bch_bundle_id r))) ≤ i64_max.

Lemma row_to_replica_event_run s claims r : volume_inv s claims → totals_fit (vl_db s) →
  r ∈ vd_records (vl_db s) → row_to_replica_event (vl_db s) r = Ok (event_of (vl_db s) r).
Proof.
  intros Hinv Hfit Hr. destruct (Hfit r Hr) as [Hraw Hcomp].
  destruct (bundle_members_lens (vl_db s) (bch_bundle_id r) (volume_inv_lens _ _ Hinv)) as [Hraw0 Hcomp0].
  pose proof (vi_bundles _ _ Hinv) as [_ _ Hrec [Hids _ _ _]].
  pose proof (proj1 (Forall_forall _ _) Hids _ Hr) as Hid. simpl in Hid.
  unfold row_to_replica_event, sql_sum. rewrite (bool_decide_true _ Hraw), (bool_decide_true _ Hcomp).
  cbn [map_err]. rewrite !Ok_bind.
  assert ((if bool_decide (bch_event_type r = "bundle_stored") then Ok Stored
           else if bool_decide (bch_event_type r = "bundle_deleted") then Ok Deleted
           else Err (from_sqlite (FromSqlConversionFailure 1 SqlText
                  ("invalid bundle change record type: " +:+ bch_event_type r)))) =
          (Ok (if bool_decide (bch_event_type r = "bundle_stored") then Stored else Deleted)
            : Fs0Result BundleReplicaEventKind)) as ->.
  { pose proof (proj1 (Forall_forall _ _) Hrec _ Hr) as [[-> _]|[-> _]]; done. }
  rewrite Ok_bind, row_u64_fits by lia. rewrite Ok_bind. unfold row_optional_u64. by rewrite !row_u64_fits.
Qed.

Lemma get_records_run s claims limit : volume_inv s claims → totals_fit (vl_db s) → 0 ≤ limit ≤ i64_max →
  VolumeDb.get_bundle_change_records limit (vl_db s) =
  (Ok (map (event_of (vl_db s)) (take (Z.to_nat limit) (vd_records (vl_db s)))), vl_db s).
Proof.
  intros Hinv Hfit Hlimit. pose proof (vi_bundles _ _ Hinv) as [_ _ _ [_ _ Hsorted _]].
  unfold VolumeDb.get_bundle_change_records, vquery, mbind, ST_bind, st_lift. rewrite u64_to_i64_fits by lia. simpl.
  rewrite (merge_sort_key bch_event_id) by done.
  rewrite (collect_map _ (event_of (vl_db s))); [done|].
  apply Forall_forall. intros r Hr. eapply row_to_replica_event_run; [done..|].
  eapply elem_of_sublist; [exact Hr|]. apply sublist_take.
Qed.

Lemma drop_sorted_filter (l : list BundleChangeRow) k r :
  StronglySorted (λ a b, bch_event_id a < bch_event_id b) l → last (take k l) = Some r →
  base.filter (λ x, bch_event_id r < bch_event_id x) l = drop k l.
Proof.
  revert k. induction l as [|x l IH]; intros k Hs; [by rewrite take_nil|].
  apply StronglySorted_inv in Hs as [Hs Hx]. destruct k as [|k]; [done|]. cbn [take drop].
  intros Hlast. destruct (last (take k l)) as [r'|] eqn:Hl.
  - assert (r' = r) as -> by (rewrite last_cons, Hl in Hlast; congruence).
    rewrite filter_cons_False; [by apply IH|].
    assert (r ∈ l) as Hin.
    { eapply elem_of_sublist; [by apply last_Some_elem_of|]. apply sublist_take. }
    pose proof (proj1 (Forall_forall _ _) Hx _ Hin). simpl in *. lia.
  - rewrite last_cons, Hl in Hlast. injection Hlast as ->. apply last_None in Hl.
    rewrite filter_cons_False by lia. rewrite filter_all.
    + destruct k; [done|]. by destruct l.
    + intros y Hy. exact (proj1 (Forall_forall _ _) Hx _ Hy).
Qed.

(** removing up to the last of the oldest [k] changes leaves the others *)
Lemma remove_records_run s claims k r : volume_inv s claims → last (take k (vd_records (vl_db s))) = Some r →
  VolumeDb.remove_bundle_change_records None (bch_event_id r) (vl_db s) =
  (Ok tt, set_vd_records (vl_db s) (drop k (vd_records (vl_db s))) (vd_seq_records (vl_db s))).
Proof.
  intros Hinv Hlast. pose proof (vi_bundles _ _ Hinv) as [_ _ _ [Hids _ Hsorted Hseq]].
  assert (r ∈ vd_records (vl_db s)) as Hr.
  { eapply elem_of_sublist; [by apply last_Some_elem_of|apply sublist_take]. }
  pose proof (proj1 (Forall_forall _ _) Hids _ Hr) as Hid. simpl in Hid.
  unfold VolumeDb.remove_bundle_change_records, mbind, ST_bind, st_lift. rewrite u64_to_i64_fits by lia. simpl.
  unfold vexec, delete_change_rows. simpl. do 2 f_equal. rewrite <-(drop_sorted_filter _ k r Hsorted Hlast).
  by apply list_filter_iff.
Qed.

(** One round of the outbox: the events got are the oldest changes, at most [limit] of
    them, in the order of their ids, for each changed bundle one, saying what became of it with its totals;
    removing up to the last of them leaves exactly the changes that were not got. *)
Theorem outbox_round o n s claims limit :
  volume_inv s claims → totals_fit (vl_db s) → 0 < limit ≤ i64_max →
  let out := run o n (get_bundle_change_records limit) s in
  let records := vd_records (vl_db s) in
  ∃ events, out_value out = Ok events ∧ out_state out = s ∧
    length events = Nat.min (Z.to_nat limit) (length records) ∧
    StronglySorted (λ a b, bre_event_id a < bre_event_id b) events ∧
    NoDup (map bre_bundle_id events) ∧
    (∀ e, e ∈ events → bre_kind e = Stored ↔ bundle_rows (vl_db s) (bre_bundle_id e) ≠ []) ∧
    ∀ e (o' : Oracle VolumeQuery) n', last events = Some e → o' n' _ VVerdict = None →
      let out' := run o' n' (remove_bundle_change_records (bre_event_id e)) s in
      out_value out' = Ok tt ∧ vd_records (vl_db (out_state out')) = drop (length events) records.
Proof.
  intros Hinv Hfit Hlimit out records. subst out. unfold get_bundle_change_records. rewrite locked_run. cbn [out_value out_state].
  rewrite (with_db_run _ _ _ _ (get_records_run s claims limit Hinv Hfit ltac:(lia))). fold records.
  pose proof (vi_bundles _ _ Hinv) as [_ _ Hrec [_ Hnd Hsorted _]]. fold records in Hrec, Hnd, Hsorted.
  set (rs := take (Z.to_nat limit) records). assert (sublist rs records) as Hsub by apply sublist_take.
  exists (map (event_of (vl_db s)) rs). cbn [fst snd]. split; [done|]. split; [apply set_vl_db_id|].
  split; [by rewrite length_map; subst rs; rewrite length_take|].
  assert (StronglySorted (λ a b, bch_event_id a < bch_event_id b) rs) as Hrs.
  { rewrite <-(take_drop (Z.to_nat limit) records) in Hsorted. by apply StronglySorted_app in Hsorted as (_ & ? & _). }
  split; [|split; [|split]].
  - clear -Hrs. induction Hrs as [|r l _ IH Hr]; cbn [map]; constructor; [done|]. by apply Forall_map.
  - rewrite map_map. simpl. eapply sublist_NoDup; [exact Hnd|]. by apply (fmap_sublist bch_bundle_id).
  - intros e (r & -> & Hr)%list_elem_of_fmap. pose proof (elem_of_sublist _ _ _ Hr Hsub) as Hr'.
    destruct (proj1 (Forall_forall _ _) Hrec _ Hr') as [[Ht Hrows]|[Ht Hrows]]; simpl; rewrite Ht; simpl; naive_solver.
  - intros e o' n' Hlast Hv. unfold remove_bundle_change_records. rewrite verdict_runs, Hv.
    cbn [out_value out_state]. rewrite fmap_last in Hlast. destruct (last rs) as [r|] eqn:Hr; [|done].
    injection Hlast as <-. cbn [event_of bre_event_id].
    rewrite (with_db_run _ _ _ _ (remove_records_run s claims (Z.to_nat limit) r Hinv Hr)). simpl. split; [done|].
    rewrite length_map. subst rs. rewrite length_take. fold records.
    destruct (decide (Z.to_nat limit ≤ length records)%nat); [by rewrite Nat.min_l|].
    by rewrite !drop_ge by lia.
Qed.

End Commits.

#[local] Existing Instances plain_sqlite_text sequential_rowids sequential_rowid_laws sum_blake3 any_content.

(** ** The theorems on a concrete volume *)

Definition sample_put (id : HashId) (raw_len : Z) (bytes : list Byte.byte) (s : VolumeState) : VolumeState :=
  out_state (run half_oracle 0 (put_chunk id raw_len bytes) s).

(** two chunks stored *)
Definition stored_volume : VolumeState :=
  sample_put sample_chunk2 3 sample_bytes2 (sample_put sample_chunk 9 sample_bytes fresh_volume).

Lemma stored_volume_inv : volume_inv stored_volume [].
Proof.
  destruct (put_chunk_runs half_oracle fresh_volume [] sample_chunk 9 sample_bytes
    fresh_volume_inv half_oracle_quiet half_oracle_ok sample_can_put 0%nat) as [_ (Hinv & Hch & Hact & _)].
  fold (sample_put sample_chunk 9 sample_bytes fresh_volume) in Hinv, Hch, Hact.
  apply (put_chunk_runs half_oracle _ [] sample_chunk2 3 sample_bytes2 Hinv half_oracle_quiet half_oracle_ok).
  unfold can_put, i64_max. split_and!; try done; vm_compute; done.
Qed.

Definition sample_bundle : HashId := bundle_hash_from_chunks sample_refs.

Lemma sample_rows_absent : bundle_rows (vl_db stored_volume) sample_bundle = [].
Proof. vm_compute. reflexivity. Qed.

Definition committed_volume : VolumeState :=
  out_state (run half_oracle 0 (commit_bundle sample_bundle sample_refs) stored_volume).

Lemma sample_bundle_commits :
  out_value (run half_oracle 0 (commit_bundle sample_bundle sample_refs) stored_volume) =
  Ok (mkBundleMeta sample_bundle 12 7 2).
Proof. vm_compute. reflexivity. Qed.

(** the two chunks become a bundle with its totals *)
Lemma commit_bundle_spec_witness :
  out_value (run half_oracle 0 (commit_bundle sample_bundle sample_refs) stored_volume) =
    bundle_totals (vl_db committed_volume) sample_bundle ∧
  bundle_changed Stored sample_bundle (rows_of sample_bundle sample_refs) (vl_db stored_volume) (vl_db committed_volume) ∧
  volume_inv committed_volume [].
Proof.
  pose proof (commit_bundle_spec half_oracle 0 stored_volume [] sample_bundle sample_refs stored_volume_inv) as Hspec.
  specialize (Hspec ltac:(vm_compute; done)). cbv zeta in Hspec.
  fold committed_volume in Hspec.
  rewrite (bool_decide_false (sample_refs = [])) in Hspec by discriminate.
  change (negb (contiguous_from 0 sample_refs)) with false in Hspec.
  rewrite (bool_decide_false (bundle_hash_from_chunks sample_refs ≠ sample_bundle)) in Hspec by tauto.
  rewrite (bool_decide_false (bundle_rows (vl_db stored_volume) sample_bundle ≠ [])) in Hspec
    by (rewrite sample_rows_absent; tauto).
  assert (lfind (missing_chunk (vl_db stored_volume)) sample_refs = None) as Hmiss by (vm_compute; reflexivity).
  rewrite Hmiss in Hspec. destruct Hspec as [(e & He & _)|(Ht & Hch & _ & Hinv)]; [by rewrite sample_bundle_commits in He|].
  by split_and!.
Defined.

Lemma committed_volume_inv : volume_inv committed_volume [].
Proof.
  assert (∃ claims, volume_inv committed_volume claims) as (claims & Hinv).
  { apply (volume_steps_inv stored_volume _ ([] ++ Ret (RetBundle (Ok (mkBundleMeta sample_bundle 12 7 2))) :: []) stored_volume_inv).
    eapply rtc_l; [apply (step_start _ _ _ _ (volume_call (CallCommitBundle sample_bundle sample_refs)));
      eexists; split; [|reflexivity]; vm_compute; done|].
    pose proof (run_steps volume_answer_ok volume_program half_oracle 0
      (volume_call (CallCommitBundle sample_bundle sample_refs)) stored_volume [] [] half_oracle_ok) as Hsteps.
    cbn [volume_call] in Hsteps |- *. rewrite run_bind in Hsteps. cbn [out_state out_value] in Hsteps.
    rewrite sample_bundle_commits in Hsteps. exact Hsteps. }
  apply (drop_claim _ claims []). by rewrite app_nil_r.
Qed.

(** the bundle is listed as it was committed *)
Lemma commit_list_roundtrip_witness :
  out_value (run half_oracle 0 (list_bundle_chunks sample_bundle) committed_volume) = Ok sample_refs ∧
  bm_chunk_count (mkBundleMeta sample_bundle 12 7 2) = Z.of_nat (length sample_refs).
Proof.
  apply (commit_list_roundtrip half_oracle 0 stored_volume [] sample_bundle sample_refs _ half_oracle 0%nat committed_volume []).
  - exact stored_volume_inv.
  - vm_compute. done.
  - exact sample_rows_absent.
  - exact sample_bundle_commits.
  - exact committed_volume_inv.
  - reflexivity.
Defined.

Definition emptied_volume : VolumeState := out_state (run half_oracle 0 (delete_bundle sample_bundle) committed_volume).

Lemma sample_delete_ok : out_value (run half_oracle 0 (delete_bundle sample_bundle) committed_volume) = Ok tt.
Proof. vm_compute. reflexivity. Qed.

(** the bundle is deleted *)
Lemma delete_bundle_spec_witness :
  bundle_changed Deleted sample_bundle [] (vl_db committed_volume) (vl_db emptied_volume) ∧
  out_value (run half_oracle 0 (list_bundle_chunks sample_bundle) emptied_volume) = Err (BundleNotFound sample_bundle).
Proof.
  destruct (delete_bundle_spec half_oracle 0 committed_volume [] sample_bundle committed_volume_inv)
    as [(e & He & _)|(_ & Hch & _ & _ & Hlist)]; [by rewrite sample_delete_ok in He|].
  split; [exact Hch|]. exact (Hlist half_oracle 0%nat).
Defined.

(** a chunk of a bundle is not deleted *)
Lemma delete_chunk_spec_witness :
  out_value (run half_oracle 0 (delete_chunk sample_chunk) committed_volume) = Err (from_sqlite ConstraintForeignKey) ∧
  out_state (run half_oracle 0 (delete_chunk sample_chunk) committed_volume) = committed_volume.
Proof.
  pose proof (delete_chunk_spec half_oracle 0 committed_volume [] sample_chunk committed_volume_inv) as Hspec.
  cbv zeta in Hspec. change (half_oracle 0%nat _ VVerdict) with (@None SqlError) in Hspec. cbv iota in Hspec.
  rewrite bool_decide_true in Hspec; [exact Hspec|].
  apply (bool_decide_unpack _). vm_compute. exact I.
Defined.

Lemma committed_totals_fit : totals_fit (vl_db committed_volume).
Proof.
  assert (vd_records (vl_db committed_volume) = [mkBundleChangeRow 1 "bundle_stored" sample_bundle]) as Hrec
    by (vm_compute; reflexivity).
  intros r. rewrite Hrec. intros ->%list_elem_of_singleton. split; vm_compute; done.
Qed.

(** the outbox of one stored bundle is reported and emptied *)
Lemma outbox_round_witness :
  ∃ events, out_value (run half_oracle 0 (get_bundle_change_records 128) committed_volume) = Ok events ∧
    length events = 1%nat ∧ NoDup (map bre_bundle_id events).
Proof.
  destruct (outbox_round half_oracle 0 committed_volume [] 128 committed_volume_inv committed_totals_fit
    ltac:(vm_compute; done)) as (events & Hv & _ & Hlen & _ & Hnd & _).
  exists events. split; [exact Hv|]. split; [|exact Hnd]. rewrite Hlen. vm_compute. reflexivity.
Defined.


