(* ===== verification/VolumeCatalog.v ===== *)
(** * The bundles of a volume and the central server's table of replicas

    A volume is in step with a table of replicas when the table is right about every
    bundle without a change in the outbox ([in_step]).  Every block of every call but the
    removal of reported changes keeps a volume in step, so every interleaving of such
    calls does. *)

From S2P Require Import Prelude Types Paths CentralDb VolumeDb Conc VolumeIo Volume.
From S2P Require Import VolumeInv VolumeFacts VolumeBundles VolumeSafety VolumeRuns.

(** ** Predicates that a method keeps *)

Definition db_keeps {A} (P : VolumeDb → Prop) (m : VDb A) : Prop := ∀ db, P db → P (m db).2.

Lemma db_keeps_bind {A B} P (m : VDb A) (f : A → VDb B) :
  db_keeps P m → (∀ a, db_keeps P (f a)) → db_keeps P (m ≫= f).
Proof.
  intros Hm Hf db Hdb. unfold mbind, ST_bind. specialize (Hm db Hdb). destruct (m db) as [[a|e] db']; [by apply Hf|done].
Qed.

(** a method that writes nothing *)
Lemma db_keeps_same {A} P (m : VDb A) : (∀ db, (m db).2 = db) → db_keeps P m.
Proof. intros Hm db Hdb. by rewrite Hm. Qed.

Lemma db_keeps_try {A} P (m : VDb A) : db_keeps P m → db_keeps P (st_try m).
Proof. intros Hm db Hdb. specialize (Hm db Hdb). unfold st_try. by destruct (m db). Qed.

Section Methods.
Context `{SqliteText, RowIds, Blake3, ContentRule, !RowIdLaws}.

Lemma db_keeps_exec {A} P err (stmt : VStmt A) :
  (∀ db a db', P db → stmt db = Ok (a, db') → P db') → db_keeps P (vexec err stmt).
Proof.
  intros Hs db Hdb. unfold vexec. destruct err; [done|]. destruct (stmt db) as [[a db']|e] eqn:Hr; [|done].
  simpl. by eapply Hs.
Qed.

Lemma db_keeps_tx {A} P err (m : VDb A) :
  (∀ db a db', P db → m db = (Ok a, db') → P db') → db_keeps P (vtx err m).
Proof.
  intros Hm db Hdb. unfold vtx. destruct (m db) as [[a|e] db'] eqn:Hr; [|done]. destruct err; [done|]. by eapply Hm.
Qed.

Lemma locked_keeps {A} P (m : VDb A) : db_keeps P m → keeps volume_answer_ok (λ s, P (vl_db s)) (locked m).
Proof.
  intros Hm. apply keeps_atomic. intros s Hs. unfold with_db. specialize (Hm _ Hs). by destruct (m (vl_db s)).
Qed.

(** ** The replica the central server should have *)

Definition catalog_row (volume_id : Z) (db : VolumeDb) (b : HashId) : option BundleReplicaRow :=
  if bool_decide (bundle_rows db b = []) then None
  else Some (mkBundleReplicaRow b volume_id (zsum (map cm_raw_len (bundle_members db b)))
               (zsum (map cm_compressed_len (bundle_members db b)))).

Section InStep.
Context (volume_id : Z) (replicas : HashId → option BundleReplicaRow).

(** right about every bundle but those of [except] and those in the outbox *)
Definition in_step_but (except : HashId → Prop) (db : VolumeDb) : Prop :=
  Forall (λ row, bcr_chunk_id row ∈ map cm_chunk_id (vd_chunks db)) (vd_bundle_chunks db) ∧
  ∀ b, ¬ except b → b ∉ map bch_bundle_id (vd_records db) → replicas b = catalog_row volume_id db b.
Definition in_step : VolumeDb → Prop := in_step_but (λ _, False).

Lemma in_step_ext except db db' :
  vd_chunks db' = vd_chunks db → vd_bundle_chunks db' = vd_bundle_chunks db → vd_records db' = vd_records db →
  in_step_but except db → in_step_but except db'.
Proof.
  intros Hc Hb Hr [Hfk Hrep]. unfold in_step_but. rewrite Hc, Hb, Hr. split; [done|]. intros b Hb1 Hb2.
  rewrite Hrep by done. unfold catalog_row, bundle_rows, bundle_members, find_chunk. by rewrite Hc, Hb.
Qed.

(** the members of a bundle do not depend on the chunks that are in no bundle *)
Lemma catalog_row_chunks db chunks b :
  (∀ row, row ∈ vd_bundle_chunks db →
     find_chunk (set_vd_chunks db chunks) (bcr_chunk_id row) = find_chunk db (bcr_chunk_id row)) →
  catalog_row volume_id (set_vd_chunks db chunks) b = catalog_row volume_id db b.
Proof.
  intros Hsame. unfold catalog_row. fold (bundle_rows db b). change (bundle_rows (set_vd_chunks db chunks) b) with (bundle_rows db b).
  assert (bundle_members (set_vd_chunks db chunks) b = bundle_members db b) as ->; [|done].
  unfold bundle_members. cbn [vd_bundle_chunks set_vd_chunks].
  assert (∀ row, row ∈ bundle_rows db b → row ∈ vd_bundle_chunks db) as Hin by (by intros row [_ ?]%list_elem_of_filter).
  fold (bundle_rows db b). induction (bundle_rows db b) as [|row rows IH]; [done|]. cbn [omap list_omap].
  rewrite Hsame by (apply Hin; set_solver). rewrite IH; [done|]. intros; apply Hin; set_solver.
Qed.

Lemma in_step_chunks db chunks :
  (∀ row, row ∈ vd_bundle_chunks db →
     find_chunk (set_vd_chunks db chunks) (bcr_chunk_id row) = find_chunk db (bcr_chunk_id row)) →
  in_step db → in_step (set_vd_chunks db chunks).
Proof.
  intros Hsame [Hfk Hrep]. split; simpl.
  - apply Forall_forall. intros row Hrow. pose proof (proj1 (Forall_forall _ _) Hfk _ Hrow) as Hin. simpl in Hin.
    destruct (find_chunk db (bcr_chunk_id row)) as [c|] eqn:Hc; [|by apply find_chunk_None in Hc].
    specialize (Hsame _ Hrow). rewrite Hc in Hsame. apply find_chunk_Some in Hsame as [Hc' <-].
    by apply (list_elem_of_fmap_2 cm_chunk_id).
  - intros b Hb Hrec. by rewrite catalog_row_chunks, Hrep.
Qed.

(** ** The methods *)

Lemma meta_change_keeps m except : (∀ db, vd_chunks (m db).2 = vd_chunks db ∧
    vd_bundle_chunks (m db).2 = vd_bundle_chunks db ∧ vd_records (m db).2 = vd_records db) →
  db_keeps (A := VolumeMeta) (in_step_but except) m.
Proof. intros Hm db Hdb. destruct (Hm db) as (? & ? & ?). by eapply in_step_ext. Qed.

Lemma reserve_keeps_step err now id hash raw_len len : db_keeps in_step (reserve_chunk err now id hash raw_len len).
Proof.
  unfold reserve_chunk. apply db_keeps_bind; [apply db_keeps_try, db_keeps_same, load_chunk_same|].
  intros [c|[]]; try by apply db_keeps_same. { by case_bool_decide; apply db_keeps_same. }
  apply db_keeps_bind; [by apply db_keeps_same|]. intros meta. apply db_keeps_bind; [by apply db_keeps_same|]. intros next.
  case_bool_decide; [by apply db_keeps_same|]. apply db_keeps_bind; [|intros; by apply db_keeps_same].
  unfold reserve_active_volume_offset. do 2 (apply db_keeps_bind; [by apply db_keeps_same|intros ?]).
  apply db_keeps_bind; [|intros _; apply db_keeps_bind; [|intros m]].
  - apply db_keeps_exec. intros db a' db' Hdb [= _ <-]. by eapply in_step_ext.
  - apply db_keeps_same. intros db. unfold load_meta_from_conn, vquery, mbind, ST_bind. by destruct (vd_meta_row db).
  - apply meta_change_keeps. by intros db.
Qed.

Lemma insert_keeps_step err c id : db_keeps in_step (VolumeDb.insert_chunk err c;; load_chunk id).
Proof.
  apply db_keeps_bind; [|intros _; apply db_keeps_same, load_chunk_same].
  unfold VolumeDb.insert_chunk. do 3 (apply db_keeps_bind; [by apply db_keeps_same|intros ?]).
  apply db_keeps_exec. intros db u db' Hdb. unfold insert_chunk_row. case_bool_decide as Hin; intros [= _ <-]; [done|].
  apply in_step_chunks; [|done]. intros row Hrow. pose proof (proj1 (Forall_forall _ _) (proj1 Hdb) _ Hrow) as Hfk. simpl in Hfk.
  unfold find_chunk. cbn [vd_chunks set_vd_chunks]. rewrite lfind_app. fold (find_chunk db (bcr_chunk_id row)).
  destruct (find_chunk db (bcr_chunk_id row)) eqn:Hf; [done|]. by apply find_chunk_None in Hf.
Qed.

Lemma delete_chunk_keeps_step err id : db_keeps in_step (VolumeDb.delete_chunk err id).
Proof.
  apply db_keeps_exec. intros db u db' Hdb. unfold delete_chunk_row. case_bool_decide as Hno; [done|]. intros [= _ <-].
  apply in_step_chunks; [|done]. intros row Hrow. pose proof (proj1 (Forall_forall _ _) (proj1 Hdb) _ Hrow) as Hfk. simpl in Hfk.
  assert (bcr_chunk_id row ≠ id) as Hne.
  { intros <-. apply Hno. split; [|done]. by apply (list_elem_of_fmap_2 bcr_chunk_id). }
  unfold find_chunk. cbn [vd_chunks set_vd_chunks]. clear -Hne. induction (vd_chunks db) as [|c l IH]; [done|].
  rewrite filter_cons. simpl. case_decide as Hc; simpl; [by rewrite IH|]. rewrite IH.
  rewrite bool_decide_false; [done|]. congruence.
Qed.

(** inside the transactions the bundle itself may be out of step *)
Lemma in_step_rows b db rows :
  Forall (λ row, bcr_chunk_id row ∈ map cm_chunk_id (vd_chunks db)) rows →
  (∀ b', b' ≠ b → base.filter (λ row, bcr_bundle_id row = b') rows = bundle_rows db b') →
  in_step_but (λ b', b' = b) db → in_step_but (λ b', b' = b) (set_vd_bundle_chunks db rows).
Proof.
  intros Hfk Hrows [_ Hrep]. split; [done|]. intros b' Hb' Hrec. rewrite Hrep by done.
  assert (bundle_rows (set_vd_bundle_chunks db rows) b' = bundle_rows db b') as Hb by (by apply Hrows).
  unfold catalog_row, bundle_members, find_chunk. fold (bundle_rows (set_vd_bundle_chunks db rows) b') (bundle_rows db b').
  by rewrite Hb.
Qed.

Lemma delete_rows_keeps b except : (∀ b', except b' → b' = b) →
  ∀ db a db', in_step_but except db → delete_bundle_rows b db = Ok (a, db') → in_step_but (λ b', b' = b) db'.
Proof.
  intros Hex db a db' [Hfk Hrep] [= _ <-]. apply in_step_rows.
  - apply Forall_forall. intros row [_ Hrow]%list_elem_of_filter. exact (proj1 (Forall_forall _ _) Hfk _ Hrow).
  - intros b' Hb'. by apply bundle_rows_other.
  - split; [done|]. intros b' Hb'. apply Hrep. auto.
Qed.

Lemma insert_rows_keeps b chunks : db_keeps (in_step_but (λ b', b' = b)) (insert_bundle_chunks b chunks).
Proof.
  induction chunks as [|c chunks IH]; cbn [insert_bundle_chunks]; [by apply db_keeps_same|].
  apply db_keeps_bind; [by apply db_keeps_same|]. intros index. apply db_keeps_bind; [|done].
  apply db_keeps_exec. intros db a db' Hdb. unfold insert_bundle_chunk_row. case_bool_decide; [done|].
  case_bool_decide as Hin; [|done]. intros [= _ <-]. apply in_step_rows; [| |done].
  - apply Forall_app. split; [apply Hdb|]. by repeat constructor.
  - intros b' Hb'. rewrite filter_app, filter_cons_False by (simpl; congruence). by rewrite app_nil_r.
Qed.

(** with the record in the outbox nothing is said of the bundle any more *)
Lemma upsert_in_step event_type b db a db' :
  in_step_but (λ b', b' = b) db → upsert_change_row event_type b db = Ok (a, db') → in_step db'.
Proof.
  intros [Hfk Hrep]. unfold upsert_change_row.
  assert (∀ records seq, b ∈ map bch_bundle_id records →
    (∀ b', b' ∈ map bch_bundle_id (vd_records db) → b' ∈ map bch_bundle_id records) →
    in_step (set_vd_records db records seq)) as Hset.
  { intros records seq Hin Hold. split; [done|]. cbn [vd_records set_vd_records]. intros b' _ Hb'.
    apply (Hrep b'); [by intros ->|]. intros Hx. by apply Hb', Hold. }
  case_bool_decide as Hin.
  - intros [= _ <-].
    assert (map bch_bundle_id (map (λ r, if bool_decide (bch_bundle_id r = b)
        then mkBundleChangeRow (bch_event_id r) event_type b else r) (vd_records db)) = map bch_bundle_id (vd_records db)) as Hids.
    { rewrite map_map. apply map_ext. intros r. case_bool_decide; [by subst|done]. }
    apply Hset; by rewrite Hids.
  - destruct (autoincrement_rowid _ _); [|done]. intros [= _ <-].
    apply Hset; rewrite map_app; simpl; intros; set_solver.
Qed.

Lemma commit_rows_in_step err b chunks : db_keeps in_step (commit_bundle_rows err b chunks).
Proof.
  unfold commit_bundle_rows. apply db_keeps_bind; [|intros _; apply db_keeps_same; intros db;
    unfold load_bundle, vquery, mbind, ST_bind, st_lift, st_fail; by repeat case_match].
  apply db_keeps_tx. intros db a db' Hdb Hrun. apply ST_bind_Ok in Hrun as ([] & db1 & Hdel & Hrun).
  apply ST_bind_Ok in Hrun as ([] & db2 & Hins & Hup). unfold insert_bundle_change_record_tx, vexec in *.
  destruct (delete_bundle_rows b db) as [[[] db1']|e] eqn:Hd; [|done]. injection Hdel as <-.
  destruct (upsert_change_row _ b db2) as [[[] db2']|e] eqn:Hu; [|done]. injection Hup as _ <-.
  eapply upsert_in_step; [|exact Hu]. pose proof (insert_rows_keeps b chunks db1') as Hk. rewrite Hins in Hk. apply Hk.
  eapply (delete_rows_keeps b (λ _, False)); [done|exact Hdb|exact Hd].
Qed.

Lemma commit_locked_in_step err b chunks : db_keeps in_step (commit_bundle_locked err b chunks).
Proof.
  assert (∀ b db, (load_bundle b db).2 = db) as Hload.
  { intros b0 db. unfold load_bundle, vquery, mbind, ST_bind, st_lift, st_fail. by repeat case_match. }
  unfold commit_bundle_locked. apply db_keeps_bind; [apply db_keeps_try, db_keeps_same, Hload|].
  intros [m|[]]; try by apply db_keeps_same. apply db_keeps_bind.
  - apply db_keeps_same. intros db. unfold load_chunks_by_ids, vquery, mbind, ST_bind, st_lift. by repeat case_match.
  - intros metas. apply db_keeps_bind; [|intros _; apply commit_rows_in_step]. apply db_keeps_same.
    induction chunks as [|c chunks IH]; intros db; cbn [require_chunks]; [done|]. by destruct (metas !! _).
Qed.

Lemma delete_bundle_in_step err b : db_keeps in_step (VolumeDb.delete_bundle err b).
Proof.
  unfold VolumeDb.delete_bundle. apply db_keeps_tx. intros db a db' Hdb Hrun.
  apply ST_bind_Ok in Hrun as ([] & db1 & Hdel & Hup). unfold insert_bundle_change_record_tx, vexec in *.
  destruct (delete_bundle_rows b db) as [[[] db1']|e] eqn:Hd; [|done]. injection Hdel as <-.
  destruct (upsert_change_row _ b db1') as [[[] db2']|e] eqn:Hu; [|done]. injection Hup as _ <-.
  eapply upsert_in_step; [|exact Hu]. eapply (delete_rows_keeps b (λ _, False)); [done|exact Hdb|exact Hd].
Qed.

(** ** The calls *)

Definition reports (call : VolumeCall) : bool :=
  match call with CallRemoveBundleChangeRecords _ => true | _ => false end.

Lemma put_chunk_in_step id raw_len bytes : keeps volume_answer_ok (on_db in_step) (put_chunk id raw_len bytes).
Proof.
  unfold put_chunk. do 3 (case_bool_decide; [done|]).
  apply keeps_bind; [done|]. intros now. apply keeps_bind; [done|]. intros err.
  apply keeps_try; [apply locked_keeps, reserve_keeps_step|]. intros [c|c]; [done|].
  apply keeps_try; [apply write_compressed_db|]. intros _. apply keeps_bind; [done|]. intros err'.
  apply locked_keeps, insert_keeps_step.
Qed.

Lemma commit_bundle_in_step b chunks : keeps volume_answer_ok (on_db in_step) (commit_bundle b chunks).
Proof.
  unfold commit_bundle. case_bool_decide; [done|]. destruct (contiguous_from 0 chunks); cbn [negb]; [|done].
  case_bool_decide; [done|]. apply keeps_bind; [done|]. intros err. apply locked_keeps, commit_locked_in_step.
Qed.

Lemma close_idle_in_step P : keeps volume_answer_ok (on_db P) close_idle_data_files.
Proof.
  unfold close_idle_data_files, close_idle. apply keeps_bind; [done|]. intros now.
  apply keeps_bind; [by apply keeps_atomic|]. intros slots.
  induction slots as [|i slots IH]; cbn [close_idle_slots]; [done|].
  apply keeps_bind; [done|]. intros locked. apply keeps_bind; [|done]. apply keeps_atomic. intros s Hs.
  unfold close_idle_slot, on_db. by repeat case_match.
Qed.

Lemma call_in_step call : reports call = false → keeps volume_answer_ok (on_db in_step) (volume_call call).
Proof.
  intros Hcall. assert (∀ A B (p : VolumeProg A) (f : A → B), keeps volume_answer_ok (on_db in_step) p →
    keeps volume_answer_ok (on_db in_step) (r ← p; mret (f r))) as Hret by (intros; by apply keeps_bind).
  assert (∀ A (m : VDb A), (∀ db, (m db).2 = db) → keeps volume_answer_ok (on_db in_step) (locked m)) as Hsame
    by (intros; by apply locked_keeps, db_keeps_same).
  destruct call as [id raw bytes|id|id|id|b chunks|b|b|limit|max| |]; cbn [volume_call]; try done; apply Hret.
  - apply put_chunk_in_step.
  - unfold read_chunk. apply keeps_try; [apply Hsame, load_chunk_same|]. intros c.
    apply keeps_try; [apply read_compressed_db|done].
  - apply Hsame, load_chunk_same.
  - unfold delete_chunk. apply keeps_bind; [done|]. intros err. apply locked_keeps, delete_chunk_keeps_step.
  - apply commit_bundle_in_step.
  - unfold list_bundle_chunks. apply keeps_try; [by apply Hsame|done].
  - unfold delete_bundle. apply keeps_bind; [done|]. intros err. apply locked_keeps, delete_bundle_in_step.
  - apply Hsame, get_records_same.
  - apply close_idle_in_step.
Qed.

Definition changing_program (p : VolumeProg VolumeReturn) : Prop :=
  ∃ call, call_ok call ∧ reports call = false ∧ p = volume_call call.

(** the steps of a volume's process while nothing is reported *)
Definition changing_steps := rtc (pool_step (A := VolumeReturn) volume_answer_ok changing_program).

Lemma changing_in_step s s' pool : in_step (vl_db s) → changing_steps (s, []) (s', pool) → in_step (vl_db s').
Proof.
  intros Hs Hsteps. eapply (keeps_reachable volume_answer_ok (on_db in_step) changing_program s [] s' pool); [|exact Hs|constructor|exact Hsteps].
  intros p (call & _ & Hcall & ->). by apply call_in_step.
Qed.
End InStep.
End Methods.
