(* ===== verification/Storage.v ===== *)
(** * The storage server

    Models [fs0-storage/src]: the volumes a storage has open, the upload leases the
    central server granted, the connection to the central server with the identity got
    over it, the handlers of the data and the control requests, the authentication of a data
    connection and the bundle reporter.  The calls of a volume ([Volume.v]) run on the
    volume's part of the state ([on_volume]).

    The reporter's lock of a volume only delays a call.  Its loop runs on [fuel]: the theorems
    hold for any, and one more than the records that wait is enough when nothing
    interferes ([StorageSync.v]). *)

From S2P Require Import Prelude Types Paths CentralDb Link Conc.
From S2P Require Import VolumeDb VolumeIo Volume.

(** ** Configuration and state *)

Record StorageVolumeConfig := mkStorageVolumeConfig {
  svc_path : string; svc_name : string; svc_read_only : bool;
  svc_read_concurrency : Z; svc_write_concurrency : Z }.

Record StorageConfig := mkStorageConfig {
  sc_name : string; sc_token : string; sc_volumes : list StorageVolumeConfig;
  sc_check_hash_before_write : bool }.

Record UploadLeaseState := mkUploadLeaseState {
  uls_file_id : Z; uls_volume_id : Z; uls_expires_at_ms : Z }.

(** [Volume]: the directory it is in, and its state *)
Record OpenVolume := mkOpenVolume { ov_root : string; ov_volume : VolumeState }.

(** [CentralConnection] *)
Record CentralConnection := mkCentralConnection {
  cc_storage_id : Z; cc_connection : option Connection; cc_last_reported_endpoint : list Byte.byte }.
Definition CentralConnection_new : CentralConnection := mkCentralConnection 0 None [].

(** [StorageServer]; [ss_clients] is the client each open data connection authenticated as *)
Record StorageServer := mkStorageServer {
  ss_config : StorageConfig;
  ss_central : CentralConnection;
  ss_volumes : gmap Z OpenVolume;
  ss_upload_leases : gmap Z UploadLeaseState;
  ss_clients : gmap Z Z;
  ss_exit : bool }.

Definition set_ss_central (s : StorageServer) x : StorageServer :=
  mkStorageServer (ss_config s) x (ss_volumes s) (ss_upload_leases s) (ss_clients s) (ss_exit s).
Definition set_ss_volumes (s : StorageServer) x : StorageServer :=
  mkStorageServer (ss_config s) (ss_central s) x (ss_upload_leases s) (ss_clients s) (ss_exit s).
Definition set_ss_upload_leases (s : StorageServer) x : StorageServer :=
  mkStorageServer (ss_config s) (ss_central s) (ss_volumes s) x (ss_clients s) (ss_exit s).
Definition set_ss_clients (s : StorageServer) x : StorageServer :=
  mkStorageServer (ss_config s) (ss_central s) (ss_volumes s) (ss_upload_leases s) x (ss_exit s).
Definition set_ss_exit (s : StorageServer) x : StorageServer :=
  mkStorageServer (ss_config s) (ss_central s) (ss_volumes s) (ss_upload_leases s) (ss_clients s) x.

(** ** The environment *)

Inductive StorageQuery : Type → Type :=
| SVolume {B : Type} (volume_id : Z) (q : VolumeQuery B) : StorageQuery B
| SNow : StorageQuery Z
| SRpc (connection : Connection) (request : ProtocolRequest) : StorageQuery (Fs0Result ProtocolResponse)
| SConnect : StorageQuery (Fs0Result Connection)
| SEndpoint : StorageQuery (Result string (list Byte.byte))  (* postcard of the endpoint's address *)
| SClose (connection : Connection) : StorageQuery unit.

Definition storage_answer_ok (B : Type) (q : StorageQuery B) : B → Prop :=
  match q in StorageQuery B return B → Prop with
  | @SVolume B _ q => volume_answer_ok B q
  | SNow => λ now, is_u64 now
  | _ => λ _, True
  end.

Abbreviation StorageProg := (Prog StorageServer StorageQuery).

Section Storage.
Context `{SqliteText, RowIds, Blake3, Zstd, DebugResponse}.

(** ** Opening the volumes (server.rs) *)

(** the directories of the volumes: their database and their data files *)
Definition Disks : Type := string → option VolumeDb * gmap Z DataFile.

Fixpoint open_volumes_from (disks : Disks) (configs : list StorageVolumeConfig) (seen_names : gset string)
    (volumes : gmap Z OpenVolume) : Fs0Result (gmap Z OpenVolume) :=
  match configs with
  | [] => Ok volumes
  | config :: configs =>
      if bool_decide (svc_name config ∈ seen_names)
      then Err (InvalidConfig ("duplicate volume name " +:+ svc_name config))
      else
        volume ← Volume_open (svc_path config) (disks (svc_path config)).1 (disks (svc_path config)).2;
        let volume_id := vm_volume_id (vd_meta (vl_db volume)) in
        if bool_decide (volume_id = 0)
        then Err (InvalidConfig ("volume " +:+ svc_path config +:+ " has not been assigned a central volume id"))
        else if bool_decide (is_Some (volumes !! volume_id))
        then Err (InvalidConfig ("duplicate volume id " +:+ pretty volume_id))
        else open_volumes_from disks configs ({[svc_name config]} ∪ seen_names)
               (<[volume_id := mkOpenVolume (svc_path config) volume]> volumes)
  end.
Definition open_volumes (disks : Disks) (config : StorageConfig) : Fs0Result (gmap Z OpenVolume) :=
  open_volumes_from disks (sc_volumes config) ∅ ∅.

(** [StorageServer] before it is registered *)
Definition StorageServer_open (disks : Disks) (config : StorageConfig) : Fs0Result StorageServer :=
  volumes ← open_volumes disks config;
  Ok (mkStorageServer config CentralConnection_new volumes ∅ ∅ false).

Definition storage_volume_info (volumes : gmap Z OpenVolume) (config : StorageVolumeConfig)
  : Fs0Result StorageVolumeInfo :=
  volume ← ok_or (VolumeNotFound (svc_path config))
             (lfind (λ v, bool_decide (ov_root v = svc_path config)) (map snd (map_to_list volumes)));
  let meta := vd_meta (vl_db (ov_volume volume)) in
  Ok (mkStorageVolumeInfo (vm_volume_id meta) (svc_name config) (vm_max_bytes meta)
        (vm_active_volume_offset meta) (svc_read_only config)).
Definition storage_volume_infos (config : StorageConfig) (volumes : gmap Z OpenVolume)
  : Fs0Result (list StorageVolumeInfo) := collect (storage_volume_info volumes) (sc_volumes config).

(** [sort_by_key(|volume| volume.volume_id)] *)
Definition meta_le (a b : VolumeMeta) : Prop := vm_volume_id a ≤ vm_volume_id b.
#[export] Instance meta_le_dec : RelDecision meta_le.
Proof. intros a b. unfold meta_le. apply _. Defined.
Definition volumes_meta (s : StorageServer) : list VolumeMeta :=
  merge_sort meta_le (map (λ kv, vd_meta (vl_db (ov_volume kv.2))) (map_to_list (ss_volumes s))).

(** ** A volume's calls *)

Definition no_volume : VolumeState :=
  mkVolumeState (schema_volume_db (mkVolumeMeta 0 0 0 0 0 0)) [] ∅.  (* never asked for *)
Definition volume_part (volume_id : Z) (s : StorageServer) : VolumeState :=
  default no_volume (ov_volume <$> ss_volumes s !! volume_id).
Definition put_volume_part (volume_id : Z) (v : VolumeState) (s : StorageServer) : StorageServer :=
  set_ss_volumes s (alter (λ ov, mkOpenVolume (ov_root ov) v) volume_id (ss_volumes s)).

Definition on_volume {A} (volume_id : Z) (p : VolumeProg A) : StorageProg A :=
  lift_prog (volume_part volume_id) (put_volume_part volume_id) (λ B q, SVolume volume_id q) p.

(** [server.volume(volume_id)?] *)
Definition volume (volume_id : Z) : StorageProg (Fs0Result Z) :=
  atomic (λ s, (if bool_decide (is_Some (ss_volumes s !! volume_id)) then Ok volume_id else Err UnknownVolume, s)).

(** ** Upload leases (request_handlers/control.rs) *)

Definition grant_upload_lease (lease : GrantUploadLeaseRequest) (s : StorageServer)
  : Fs0Result ControlResponse * StorageServer :=
  if bool_decide (is_Some (ss_volumes s !! gul_volume_id lease)) then
    (Ok (GrantUploadLeaseRs (gul_lease_id lease)),
     set_ss_upload_leases s (<[gul_lease_id lease :=
       mkUploadLeaseState (gul_file_id lease) (gul_volume_id lease) (gul_expires_at_ms lease)]>
       (ss_upload_leases s)))
  else (Err UnknownVolume, s).

Definition revoke_upload_lease (lease_id : Z) (s : StorageServer)
  : Fs0Result ControlResponse * StorageServer :=
  (Ok RevokeUploadLeaseRs, set_ss_upload_leases s (delete lease_id (ss_upload_leases s))).

Definition handle_storage_control (request : ControlRequest) : StorageProg (Fs0Result ControlResponse) :=
  match request with
  | GrantUploadLeaseRq lease => atomic (grant_upload_lease lease)
  | RevokeUploadLeaseRq lease_id => atomic (revoke_upload_lease lease_id)
  | _ => mret (Err InvalidRequest)
  end.

(** the block with which the two uploading requests start *)
Definition check_upload_lease (lease_id file_id volume_id now : Z) (s : StorageServer)
  : Fs0Result unit * StorageServer :=
  let leases := base.filter (λ kv, now < uls_expires_at_ms kv.2) (ss_upload_leases s) in
  (match leases !! lease_id with
   | Some lease =>
       if bool_decide (uls_file_id lease = file_id ∧ uls_volume_id lease = volume_id)
       then Ok tt else Err Unauthorized
   | None => Err Unauthorized
   end, set_ss_upload_leases s leases).

(** ** Data requests (request_handlers/data.rs) *)

Definition has_chunk (volume_id : Z) (chunk_id : HashId) : StorageProg (Fs0Result DataResponse) :=
  volume_id ←? volume volume_id;
  meta ← on_volume volume_id (chunk_meta chunk_id);
  mret (match meta with
        | Ok meta => Ok (HasChunkRs true (Some (cm_raw_len meta)) (Some (cm_compressed_len meta)))
        | Err (ChunkNotFound _) => Ok (HasChunkRs false None None)
        | Err err => Err err
        end).

(** [if server.config.check_hash_before_write] *)
Definition check_chunk_hash (request : UploadChunkRequest) : Fs0Result unit :=
  raw ← zstd_decompress (ucr_compressed_bytes request) (ucr_raw_len request);
  if bool_decide (Z.of_nat (length raw) ≠ ucr_raw_len request)
  then Err (InvalidData ("decompressed chunk length " +:+ pretty (length raw)
                         +:+ " does not match raw_len " +:+ pretty (ucr_raw_len request)))
  else if bool_decide (blake3_hash raw ≠ ucr_chunk_id request) then Err (HashMismatch 0)
  else Ok tt.

Definition upload_chunk (request : UploadChunkRequest) : StorageProg (Fs0Result DataResponse) :=
  now ← ask SNow;
  atomic (check_upload_lease (ucr_lease_id request) (ucr_file_id request) (ucr_volume_id request) now);;?
  check_hash ← atomic (λ s, (sc_check_hash_before_write (ss_config s), s));
  mret (if (check_hash : bool) then check_chunk_hash request else Ok tt);;?
  volume_id ←? volume (ucr_volume_id request);
  meta ←? on_volume volume_id (put_chunk (ucr_chunk_id request) (ucr_raw_len request) (ucr_compressed_bytes request));
  mret (Ok (UploadChunkRs (mkUploadChunkResponse (ucr_chunk_id request) (cm_raw_len meta) (cm_compressed_len meta)))).

Definition download_chunk (request : DownloadChunkRequest) : StorageProg (Fs0Result DataResponse) :=
  volume_id ←? volume (dcr_volume_id request);
  read ←? on_volume volume_id (read_chunk (dcr_chunk_id request));
  mret (Ok (DownloadChunkRs read.2)).

Fixpoint sum_bundle_chunks (volume_id : Z) (chunks : list BundleChunkRef) (raw_len compressed_len : Z)
  : StorageProg (Fs0Result (Z * Z)) :=
  match chunks with
  | [] => mret (Ok (raw_len, compressed_len))
  | chunk :: chunks =>
      meta ←? on_volume volume_id (chunk_meta (bc_chunk_id chunk));
      raw_len ←? mret (ok_or (IntegerConversion "bundle raw_len overflow")
                        (u64_checked_add raw_len (cm_raw_len meta)));
      compressed_len ←? mret (ok_or (IntegerConversion "bundle compressed_len overflow")
                               (u64_checked_add compressed_len (cm_compressed_len meta)));
      sum_bundle_chunks volume_id chunks raw_len compressed_len
  end.

Definition has_bundle (volume_id : Z) (bundle_id : HashId) : StorageProg (Fs0Result DataResponse) :=
  volume_id ←? volume volume_id;
  chunks ← on_volume volume_id (list_bundle_chunks bundle_id);
  match chunks with
  | Ok chunks =>
      lens ←? sum_bundle_chunks volume_id chunks 0 0;
      mret (Ok (DataHasBundleRs true (Some lens.1) (Some lens.2)))
  | Err (BundleNotFound _) => mret (Ok (DataHasBundleRs false None None))
  | Err err => mret (Err err)
  end.

(** ** The central connection (server/central_connection.rs) *)

Definition central_connection : StorageProg (Fs0Result Connection) :=
  atomic (λ s, (ok_or CentralUnavailable (cc_connection (ss_central s)), s)).

(** [match connection.rpc(..).await? { expected => Ok, Error(err) => Err(err), _ => InvalidFrame }] *)
Definition expect_response {A} (what : string) (expected : ControlResponse → option A)
    (response : Fs0Result ProtocolResponse) : Fs0Result A :=
  match response with
  | Err err => Err err
  | Ok (RespControl r as response) =>
      ok_or (InvalidFrame ("unexpected " +:+ what +:+ " response: " +:+ debug_response response)) (expected r)
  | Ok (RespError err) => Err err
  | Ok response => Err (InvalidFrame ("unexpected " +:+ what +:+ " response: " +:+ debug_response response))
  end.

Definition encode_endpoint_addr : StorageProg (Fs0Result (list Byte.byte)) :=
  endpoint ← ask SEndpoint;
  mret (map_err (λ err, InvalidFrame ("failed to encode storage endpoint: " +:+ err)) endpoint).

Definition register_with_central (connection : Connection)
  : StorageProg (Fs0Result (Z * list StoragePeerInfo * list Byte.byte)) :=
  volumes ←? atomic (λ s, (storage_volume_infos (ss_config s) (ss_volumes s), s));
  data_endpoint ←? encode_endpoint_addr;
  config ← atomic (λ s, (ss_config s, s));
  response ← ask (SRpc connection (ReqControl (RegisterStorageRq (sc_name config) (sc_token config)
                    FS0_VERSION volumes data_endpoint)));
  mret (expect_response "storage registration" (λ r, match r with
          | RegisterStorageRs storage_id storages => Some (storage_id, storages, data_endpoint)
          | _ => None end) response).

(** the three cells of the connection, each with its own lock *)
Definition set_storage_id (storage_id : Z) : StorageProg unit := atomic (λ s, (tt,
  set_ss_central s (mkCentralConnection storage_id (cc_connection (ss_central s)) (cc_last_reported_endpoint (ss_central s))))).
Definition set_connection (connection : option Connection) : StorageProg unit := atomic (λ s, (tt,
  set_ss_central s (mkCentralConnection (cc_storage_id (ss_central s)) connection (cc_last_reported_endpoint (ss_central s))))).
Definition set_endpoint (endpoint : list Byte.byte) : StorageProg unit := atomic (λ s, (tt,
  set_ss_central s (mkCentralConnection (cc_storage_id (ss_central s)) (cc_connection (ss_central s)) endpoint))).

Definition connect_and_register : StorageProg (Fs0Result Connection) :=
  connection ←? ask SConnect;
  registered ← register_with_central connection;
  match registered with
  | Ok (storage_id, _, endpoint) =>
      _ ← set_storage_id storage_id;
      _ ← set_connection (Some connection);
      _ ← set_endpoint endpoint;
      mret (Ok connection)
  | Err err => _ ← ask (SClose connection); mret (Err err)
  end.

Definition is_exiting : StorageProg bool := atomic (λ s, (ss_exit s, s)).

(** [CentralConnection::close] *)
Definition close_central_connection : StorageProg unit :=
  connection ← atomic (λ s, (cc_connection (ss_central s),
    set_ss_central s (mkCentralConnection (cc_storage_id (ss_central s)) None (cc_last_reported_endpoint (ss_central s)))));
  _ ← match connection with Some connection => ask (SClose connection) | None => mret tt end;
  _ ← set_storage_id 0;
  set_endpoint [].

(** a turn of [spawn]'s loop up to the serving of the connection: [None] when the task ends,
    [Some None] when the connection failed (the loop sleeps and goes on) *)
Definition central_loop_connect (next_connection : option Connection) : StorageProg (option (option Connection)) :=
  exiting ← is_exiting;
  if (exiting : bool) then mret None else
  connection ← match next_connection with
               | Some connection => mret (Ok connection)
               | None => connect_and_register
               end;
  match connection with
  | Err _ => mret (Some None)
  | Ok connection => exiting ← is_exiting; mret (if (exiting : bool) then None else Some (Some connection))
  end.

(** the rest of the turn, when the connection has ended: whether the loop goes on *)
Definition central_loop_ended (connection : Connection) : StorageProg bool :=
  exiting ← is_exiting;
  if (exiting : bool) then _ ← close_central_connection; mret false
  else
    _ ← ask (SClose connection);
    _ ← set_connection None;
    _ ← set_storage_id 0;
    mret true.

Definition validate_client_auth (client_id : Z) (client_token : string) : StorageProg (Fs0Result unit) :=
  connection ←? central_connection;
  response ← ask (SRpc connection (ReqControl (ValidateClientAuthRq client_id client_token)));
  mret (expect_response "validate client auth" (λ r, match r with ValidateClientAuthRs _ => Some tt | _ => None end)
          response).

Definition update_storage_endpoint (iroh_endpoint : list Byte.byte) : StorageProg (Fs0Result unit) :=
  storage_id ← atomic (λ s, (cc_storage_id (ss_central s), s));
  if bool_decide (storage_id = 0) then mret (Err CentralUnavailable) else
  connection ←? central_connection;
  response ← ask (SRpc connection (ReqControl (UpdateStorageEndpointRq storage_id iroh_endpoint)));
  match expect_response "update storage endpoint" (λ r, match r with UpdateStorageEndpointRs => Some tt | _ => None end)
          response with
  | Ok _ =>
      _ ← set_endpoint iroh_endpoint;
      mret (Ok tt)
  | Err err => mret (Err err)
  end.

Definition report_bundle_replica (events : list BundleReplicaEvent) : StorageProg (Fs0Result unit) :=
  connection ←? central_connection;
  response ← ask (SRpc connection (ReqControl (ReportBundleReplicaRq events)));
  mret (expect_response "report bundle replica" (λ r, match r with ReportBundleReplicaRs => Some tt | _ => None end)
          response).

Definition update_storage_volume_offset (volume_id max_volume_offset : Z) : StorageProg (Fs0Result unit) :=
  connection ←? central_connection;
  response ← ask (SRpc connection (ReqControl (UpdateStorageVolumeOffsetRq volume_id max_volume_offset)));
  mret (expect_response "update storage volume offset"
          (λ r, match r with UpdateStorageVolumeOffsetRs => Some tt | _ => None end) response).

(** a turn of [spawn_endpoint_addr_watcher]'s loop, from the moment it looks at the address: the
    endpoint it last reported and whether a report is pending, or [None] when the task ends *)
Definition endpoint_watch_turn (last_reported : list Byte.byte) : StorageProg (option (list Byte.byte * bool)) :=
  endpoint ← encode_endpoint_addr;
  match endpoint with
  | Err _ => mret (Some (last_reported, false))
  | Ok endpoint =>
      if bool_decide (endpoint = last_reported) then mret (Some (last_reported, false))
      else
        exiting ← is_exiting;
        if (exiting : bool) then mret None else
        updated ← update_storage_endpoint endpoint;
        match updated with
        | Ok _ => mret (Some (endpoint, false))
        | Err _ =>
            exiting ← is_exiting;
            mret (if (exiting : bool) then None else Some (last_reported, true))
        end
  end.

(** ** The bundle reporter (server/bundle_reporter.rs) *)

(** [sort_by_key(|event| event.event_id)] *)
Definition event_id_le (a b : BundleReplicaEvent) : Prop := bre_event_id a ≤ bre_event_id b.
#[export] Instance event_id_le_dec : RelDecision event_id_le.
Proof. intros a b. unfold event_id_le. apply _. Defined.

Definition max_event_id_of (events : list BundleReplicaEvent) : Z :=
  match last events with Some event => bre_event_id event | None => 0 end.

Fixpoint sync_loop (fuel : nat) (volume_id : Z) : StorageProg (Fs0Result unit) :=
  match fuel with
  | O => mret (Err (Internal "out of fuel"))
  | S fuel =>
      events ←? on_volume volume_id (get_bundle_change_records 128);
      match events with
      | [] => mret (Ok tt)
      | _ =>
          let events := merge_sort event_id_le events in
          report_bundle_replica events;;?
          on_volume volume_id (remove_bundle_change_records (max_event_id_of events));;?
          sync_loop fuel volume_id
      end
  end.

(** [meta().volume_id] is the key the volume has in the server's map *)
Definition sync_volume (fuel : nat) (volume_id : Z) : StorageProg (Fs0Result unit) :=
  volume_id ←? volume volume_id;
  sync_loop fuel volume_id;;?
  meta ←? on_volume volume_id Volume_meta;
  update_storage_volume_offset volume_id (vm_active_volume_offset meta).

Fixpoint sync_volumes (fuel : nat) (volume_ids : list Z) : StorageProg (Fs0Result unit) :=
  match volume_ids with
  | [] => mret (Ok tt)
  | volume_id :: volume_ids => sync_volume fuel volume_id;;? sync_volumes fuel volume_ids
  end.

Definition sync_all (fuel : nat) : StorageProg (Fs0Result unit) :=
  volume_ids ← atomic (λ s, (merge_sort Z.le (map fst (map_to_list (ss_volumes s))), s));
  sync_volumes fuel volume_ids.

(** ** The remaining data requests, and the dispatch *)

Definition storage_commit_bundle (fuel : nat) (request : CommitBundleRequest) : StorageProg (Fs0Result DataResponse) :=
  now ← ask SNow;
  atomic (check_upload_lease (cbr_lease_id request) (cbr_file_id request) (cbr_volume_id request) now);;?
  let bundle_id := cbr_bundle_id request in
  volume_id ←? volume (cbr_volume_id request);
  bundle ←? on_volume volume_id (commit_bundle bundle_id (cbr_chunks request));
  sync_volume fuel volume_id;;?
  mret (Ok (CommitBundleRs (mkCommitBundleResponse bundle_id (bm_raw_len bundle) (bm_compressed_len bundle)))).

Definition storage_list_bundle_chunks (volume_id : Z) (bundle_id : HashId) : StorageProg (Fs0Result DataResponse) :=
  volume_id ←? volume volume_id;
  chunks ←? on_volume volume_id (list_bundle_chunks bundle_id);
  mret (Ok (ListBundleChunksRs chunks)).

Definition handle_data_request (fuel : nat) (request : DataRequest) : StorageProg (Fs0Result DataResponse) :=
  match request with
  | AuthenticateRq _ _ => mret (Err InvalidRequest)
  | HasChunkRq volume_id chunk_id => has_chunk volume_id chunk_id
  | UploadChunkRq request => upload_chunk request
  | DownloadChunkRq request => download_chunk request
  | DataHasBundleRq volume_id bundle_id => has_bundle volume_id bundle_id
  | CommitBundleRq request => storage_commit_bundle fuel request
  | ListBundleChunksRq volume_id bundle_id => storage_list_bundle_chunks volume_id bundle_id
  end.

(** ** Connections (server/tasks.rs) *)

(** a request on a data connection: before it is authenticated nothing but that is done *)
Definition handle_data_connection_request (fuel : nat) (connection : Connection) (request : ProtocolRequest)
  : StorageProg ProtocolResponse :=
  client ← atomic (λ s, (ss_clients s !! conn_id connection, s));
  response ← match client with
    | Some _ =>
        match request with
        | ReqData (AuthenticateRq _ _) => mret (Err InvalidRequest)
        | ReqData request => handle_data_request fuel request
        | _ => mret (Err InvalidRequest)
        end
    | None =>
        match request with
        | ReqData (AuthenticateRq client_id client_token) =>
            validate_client_auth client_id client_token;;?
            _ ← atomic (λ s, (tt, set_ss_clients s (<[conn_id connection := client_id]> (ss_clients s))));
            mret (Ok (AuthenticateRs client_id))
        | _ => mret (Err Unauthorized)
        end
    end;
  mret (match response with Ok response => RespData response | Err err => RespError err end).

(** a request of the central server *)
Definition handle_central_request (request : ProtocolRequest) : StorageProg ProtocolResponse :=
  match request with
  | ReqControl request =>
      response ← handle_storage_control request;
      mret (match response with Ok response => RespControl response | Err err => RespError err end)
  | _ => mret (RespError InvalidRequest)
  end.

Fixpoint close_idle_volumes (volume_ids : list Z) : StorageProg unit :=
  match volume_ids with
  | [] => mret tt
  | volume_id :: volume_ids =>
      _ ← on_volume volume_id close_idle_data_files;
      close_idle_volumes volume_ids
  end.
Definition storage_close_idle_data_files : StorageProg unit :=
  volume_ids ← atomic (λ s, (map fst (map_to_list (ss_volumes s)), s));
  close_idle_volumes volume_ids.

(** ** The life of the process (server.rs, server/tasks.rs) *)

(** a data connection is taken unless the server is exiting *)
Definition accept_data_connection (connection : Connection) : StorageProg bool :=
  exiting ← is_exiting;
  if (exiting : bool) then _ ← ask (SClose connection); mret false else mret true.

(** the ticks of the two loops: whether the loop goes on *)
Definition bundle_reporter_tick (fuel : nat) : StorageProg bool :=
  exiting ← is_exiting;
  if (exiting : bool) then mret false else _ ← sync_all fuel; mret true.
Definition idle_file_close_tick : StorageProg bool :=
  exiting ← is_exiting;
  if (exiting : bool) then mret false else _ ← storage_close_idle_data_files; mret true.

(** [run] after the volumes are opened: what it ends with before the tasks are spawned *)
Definition storage_start : StorageProg (Fs0Result unit) :=
  connect_and_register;;?
  connection ←? central_connection;
  mret (Ok tt).

(** [shutdown]; the tasks it aborts stop at the question they wait for *)
Definition shutdown : StorageProg unit :=
  exiting ← atomic (λ s, (ss_exit s, set_ss_exit s true));
  if (exiting : bool) then mret tt else close_central_connection.
End Storage.
