(* ===== verification/StorageSample.v ===== *)
(** * Concrete instances for the storage

    A compression that stores the bytes as they are, a central server that agrees to
    everything, and a storage with one volume. *)

From S2P Require Import Prelude Types CentralDb Link Conc.
From S2P Require Import VolumeDb VolumeIo Volume VolumeSample Storage.

(** "compressed" bytes are the bytes *)
Definition plain_zstd : Zstd := {|
  zstd_bulk_compress := λ bytes _, Ok bytes;
  zstd_bulk_decompress := λ bytes max, if bool_decide (Z.of_nat (length bytes) ≤ max) then Ok bytes else Err "destination too small" |}.

Definition plain_debug : DebugResponse := λ _, "..".

Definition sample_connection : Connection := mkConnection 1.
Definition sample_data_connection : Connection := mkConnection 2.

(** the central server agrees *)
Definition agree (request : ProtocolRequest) : Fs0Result ProtocolResponse :=
  match request with
  | ReqControl (RegisterStorageRq _ _ _ _ _) => Ok (RespControl (RegisterStorageRs 3 []))
  | ReqControl (ValidateClientAuthRq client_id _) => Ok (RespControl (ValidateClientAuthRs client_id))
  | ReqControl (UpdateStorageEndpointRq _ _) => Ok (RespControl UpdateStorageEndpointRs)
  | ReqControl (ReportBundleReplicaRq _) => Ok (RespControl ReportBundleReplicaRs)
  | ReqControl (UpdateStorageVolumeOffsetRq _ _) => Ok (RespControl UpdateStorageVolumeOffsetRs)
  | _ => Ok (RespError InvalidRequest)
  end.

Definition storage_oracle : Oracle StorageQuery := λ n B q,
  match q in StorageQuery B return B with
  | @SVolume B _ q => half_oracle n B q
  | SNow => 1000
  | SRpc _ request => agree request
  | SConnect => Ok sample_connection
  | SEndpoint => Ok [Byte.x07]
  | SClose _ => tt
  end.

Lemma storage_oracle_ok n B (q : StorageQuery B) : storage_answer_ok B q (storage_oracle n B q).
Proof. destruct q; simpl; try done. apply half_oracle_ok. Qed.

Definition sample_config : StorageConfig :=
  mkStorageConfig "store" "secret" [mkStorageVolumeConfig "/v" "v" false 4 4] true.

(** the storage as it is opened on the fresh volume *)
Definition sample_disks (volume : VolumeState) : Disks := λ path,
  if bool_decide (path = "/v") then (Some (vl_db volume), vl_files volume) else (None, ∅).
Definition sample_storage (volume : VolumeState) : StorageServer :=
  mkStorageServer sample_config CentralConnection_new {[7 := mkOpenVolume "/v" volume]} ∅ ∅ false.

Definition sample_lease : GrantUploadLeaseRequest := mkGrantUploadLeaseRequest 5 11 7 0 2000 None.
(** the chunk with these bytes under their hash *)
Definition sample_upload : UploadChunkRequest :=
  mkUploadChunkRequest 5 11 7 (@blake3_hash sum_blake3 sample_bytes) 5 sample_bytes.

#[local] Existing Instances plain_sqlite_text sequential_rowids sum_blake3 plain_zstd plain_debug.

Definition run_storage {A} (p : StorageProg A) (s : StorageServer) : StorageServer :=
  out_state (run storage_oracle 0 p s).

(** the storage registers, is granted a lease for a client, which authenticates *)
Definition granted (s : StorageServer) : StorageServer :=
  run_storage (handle_data_connection_request 9 sample_data_connection (ReqData (AuthenticateRq 21 "t")))
    (run_storage (handle_central_request (ReqControl (GrantUploadLeaseRq sample_lease)))
      (run_storage connect_and_register s)).

Lemma sample_upload_runs :
  out_value (run storage_oracle 0
    (handle_data_connection_request 9 sample_data_connection (ReqData (UploadChunkRq sample_upload)))
    (granted (sample_storage fresh_volume))) =
  RespData (UploadChunkRs (mkUploadChunkResponse (ucr_chunk_id sample_upload) 5 5)).
Proof. vm_compute. reflexivity. Qed.
