(* ===== verification/StorageSafety.v ===== *)
(** * The volumes of a storage in every interleaving

    Data requests, control requests, the reporter and the connection to the central server
    run concurrently on one storage.  A call of a volume owns its claims on that volume
    only ([on_volume_owns]), so the invariants of all volumes hold together; with
    [check_hash_before_write] every chunk decompresses to the content its id names. *)

From S2P Require Import Prelude Types Paths CentralDb Link Conc.
From S2P Require Import VolumeDb VolumeIo Volume VolumeInv VolumeFacts VolumeBundles VolumeSafety VolumeSample VolumeLife.
From S2P Require Import Storage StorageSample.

(** ** The rule for the content of chunks *)

(** with the check, what is stored under an id decompresses to bytes of the raw length
    whose hash is the id *)
Definition stored_content `{Blake3, Zstd} (check : bool) : ContentRule := λ id raw_len bytes,
  check = true → ∃ raw, zstd_decompress bytes raw_len = Ok raw ∧ Z.of_nat (length raw) = raw_len ∧
                        blake3_hash raw = id.

(** ** The invariant *)

Definition claims_of (volume_id : Z) (claims : list (Z * Claim)) : list Claim :=
  map snd (base.filter (λ kc, kc.1 = volume_id) claims).

Lemma claims_of_app volume_id cs cs' : claims_of volume_id (cs ++ cs') = claims_of volume_id cs ++ claims_of volume_id cs'.
Proof. unfold claims_of. by rewrite filter_app, map_app. Qed.

Lemma claims_of_own volume_id cs : claims_of volume_id (map (pair volume_id) cs) = cs.
Proof.
  induction cs as [|c cs IH]; [done|]. unfold claims_of in *. simpl. rewrite filter_cons_True by done. simpl. by rewrite IH.
Qed.

Lemma claims_of_other volume_id volume_id' cs : volume_id' ≠ volume_id →
  claims_of volume_id (map (pair volume_id') cs) = [].
Proof.
  intros Hne. induction cs as [|c cs IH]; [done|]. unfold claims_of in *. simpl. by rewrite filter_cons_False by done.
Qed.

Section StorageSafety.
Context `{SqliteText, RowIds, Blake3, Zstd, DebugResponse, !RowIdLaws}.
Context (K : gset Z) (check : bool).
#[local] Instance storage_content : ContentRule := stored_content check.

(** the volumes [K] are open and keep their invariants *)
Record storage_inv (s : StorageServer) (claims : list (Z * Claim)) : Prop := {
  si_dom : dom (ss_volumes s) = K;
  si_check : sc_check_hash_before_write (ss_config s) = check;
  si_volumes : ∀ volume_id ov, ss_volumes s !! volume_id = Some ov →
    volume_inv (ov_volume ov) (claims_of volume_id claims) }.

Abbreviation sowns := (owns storage_answer_ok storage_inv).

Lemma storage_inv_perm s cs cs' : cs ≡ₚ cs' → storage_inv s cs → storage_inv s cs'.
Proof.
  intros Hcs [Hd Hk Hv]. split; [done..|]. intros volume_id ov Hov. eapply volume_inv_perm; [|by apply Hv].
  unfold claims_of. by rewrite Hcs.
Qed.

(** a block that leaves the volumes and the configuration alone *)
Lemma sowns_block {A} cs (block : StorageServer → A * StorageServer) :
  (∀ s, ss_volumes (block s).2 = ss_volumes s ∧ ss_config (block s).2 = ss_config s) →
  sowns cs (λ _ cs', cs' = cs) (atomic block).
Proof.
  intros Hb. apply owns_atomic. intros s frame [Hd Hk Hv]. destruct (Hb s) as [Hvol Hcfg].
  exists cs. split; [|done]. split; by rewrite ?Hvol, ?Hcfg.
Qed.

Lemma sowns_ask {A} cs (q : StorageQuery A) : sowns cs (λ _ cs', cs' = cs) (ask q).
Proof. by apply owns_ask. Qed.

(** ** A volume's call on the volume's part *)

Lemma on_volume_owns {A} volume_id (Post : A → list Claim → Prop) (p : VolumeProg A) :
  volume_id ∈ K → owns volume_answer_ok volume_inv [] Post p →
  sowns [] (λ a cs', ∃ cs0, cs' = map (pair volume_id) cs0 ∧ Post a cs0) (on_volume volume_id p).
Proof.
  intros HK Hp. unfold on_volume.
  refine (lift_owns _ _ _ volume_answer_ok storage_answer_ok volume_inv storage_inv (pair volume_id) [] Post p _ _ Hp).
  - done.
  - intros s cs frame [Hd Hk Hv]. exists (claims_of volume_id frame).
    rewrite <-Hd in HK. apply elem_of_dom in HK as [ov Hov].
    pose proof (Hv _ _ Hov) as Hinv. rewrite claims_of_app, claims_of_own in Hinv.
    split; [unfold volume_part; by rewrite Hov|].
    intros part cs' Hpart. split; simpl; [by rewrite dom_alter_L|done|].
    intros volume_id' ov'. destruct (decide (volume_id' = volume_id)) as [->|Hne].
    + rewrite lookup_alter_eq, Hov. simpl. intros [= <-]. simpl. by rewrite claims_of_app, claims_of_own.
    + rewrite lookup_alter_ne by done. intros Hov'. specialize (Hv _ _ Hov').
      rewrite claims_of_app, claims_of_other in Hv |- * by done. done.
Qed.

Lemma on_volume_keeps {A} volume_id (p : VolumeProg A) :
  volume_id ∈ K → owns volume_answer_ok volume_inv [] (λ _ cs', cs' = []) p →
  sowns [] (λ _ cs', cs' = []) (on_volume volume_id p).
Proof.
  intros HK Hp. eapply owns_conseq; [by apply (on_volume_owns _ _ _ HK Hp)|]. by intros a cs' (cs0 & -> & ->).
Qed.

Lemma volume_owns volume_id :
  sowns [] (λ r cs', cs' = [] ∧ ∀ id, r = Ok id → id = volume_id ∧ volume_id ∈ K) (volume volume_id).
Proof.
  apply owns_atomic. intros s frame Hs. exists []. split; [done|]. split; [done|]. simpl.
  case_bool_decide as Hv; [|done]. intros id [= <-]. split; [done|]. rewrite <-(si_dom _ _ Hs). by apply elem_of_dom.
Qed.

(** ** Programs that leave no claim *)

Definition kept {A} (p : StorageProg A) : Prop := sowns [] (λ _ cs', cs' = []) p.

Lemma kept_ret {A} (a : A) : kept (mret a).
Proof. by apply owns_ret. Qed.

Lemma kept_ask {A} (q : StorageQuery A) : kept (ask q).
Proof. apply sowns_ask. Qed.

Lemma kept_block {A} (block : StorageServer → A * StorageServer) :
  (∀ s, ss_volumes (block s).2 = ss_volumes s ∧ ss_config (block s).2 = ss_config s) → kept (atomic block).
Proof. apply sowns_block. Qed.

Lemma kept_bind {A B} (p : StorageProg A) (f : A → StorageProg B) :
  kept p → (∀ a, kept (f a)) → kept (p ≫= f).
Proof. intros Hp Hf. eapply owns_bind; [exact Hp|]. intros a cs ->. apply Hf. Qed.

Lemma kept_try {E A B} (p : StorageProg (Result E A)) (f : A → StorageProg (Result E B)) :
  kept p → (∀ a, kept (f a)) → kept (prog_try f p).
Proof. intros Hp Hf. apply kept_bind; [done|]. intros [a|e]; [apply Hf|apply kept_ret]. Qed.

Lemma volume_try {A} volume_id (Post : Fs0Result A → list (Z * Claim) → Prop) (f : Z → StorageProg (Fs0Result A)) :
  (∀ e, Post (Err e) []) → (volume_id ∈ K → sowns [] Post (f volume_id)) → sowns [] Post (prog_try f (volume volume_id)).
Proof.
  intros He Hf. eapply (owns_try _ _ _ (λ id cs', cs' = [] ∧ id = volume_id ∧ volume_id ∈ K)).
  - eapply owns_conseq; [apply volume_owns|]. intros [id|e] cs' [-> Hid]; [by split; [|apply Hid]|done].
  - intros id cs (-> & -> & HK). by apply Hf.
Qed.

Lemma kept_volume {A} volume_id (f : Z → StorageProg (Fs0Result A)) :
  (volume_id ∈ K → kept (f volume_id)) → kept (prog_try f (volume volume_id)).
Proof. by apply volume_try. Qed.

Ltac kept_step :=
  lazymatch goal with
  | |- kept (mret _) => apply kept_ret
  | |- kept (ask _) => apply kept_ask
  | |- kept (prog_try _ (volume _)) => apply kept_volume; intros ?HK
  | |- kept (prog_try _ _) => apply kept_try; [|intros ?]
  | |- kept (_ ≫= _) => apply kept_bind; [|intros ?]
  | |- kept (on_volume _ _) => apply on_volume_keeps; [assumption|]
  | |- kept (atomic _) => apply kept_block; intros ?s; by repeat case_match
  | |- kept central_connection => by apply kept_block
  | |- kept is_exiting => by apply kept_block
  | |- kept (set_storage_id _) => by apply kept_block
  | |- kept (set_connection _) => by apply kept_block
  | |- kept (set_endpoint _) => by apply kept_block
  | |- kept match _ with _ => _ end => case_match
  end.
Ltac kept := repeat kept_step.

Lemma load_kept {A} (m : VDb A) : (∀ db, (m db).2 = db) → owns volume_answer_ok volume_inv [] (λ _ cs', cs' = []) (locked m).
Proof. intros Hm. by apply locked_owns, with_db_same. Qed.

Lemma chunk_meta_kept id : owns volume_answer_ok volume_inv [] (λ _ cs', cs' = []) (chunk_meta id).
Proof. apply load_kept, load_chunk_same. Qed.

Lemma list_bundle_chunks_kept b : owns volume_answer_ok volume_inv [] (λ _ cs', cs' = []) (list_bundle_chunks b).
Proof.
  unfold list_bundle_chunks. eapply (owns_try _ _ _ (λ _ cs', cs' = [])).
  - eapply owns_conseq; [apply load_kept, list_bundle_chunks_same|]. by intros [?|?] cs ->.
  - intros chunks cs ->. by apply owns_ret.
Qed.

Lemma has_chunk_kept volume_id id : kept (has_chunk volume_id id).
Proof. unfold has_chunk. kept. apply chunk_meta_kept. Qed.

Lemma download_chunk_kept request : kept (download_chunk request).
Proof. unfold download_chunk. kept. apply read_chunk_owns. Qed.

Lemma sum_bundle_chunks_kept volume_id chunks raw_len compressed_len : volume_id ∈ K →
  kept (sum_bundle_chunks volume_id chunks raw_len compressed_len).
Proof.
  intros HK. revert raw_len compressed_len. induction chunks as [|c chunks IH]; intros; cbn [sum_bundle_chunks]; kept; [|apply IH].
  apply chunk_meta_kept.
Qed.

Lemma has_bundle_kept volume_id b : kept (has_bundle volume_id b).
Proof.
  unfold has_bundle. apply kept_volume. intros HK. apply kept_bind; [by apply on_volume_keeps, list_bundle_chunks_kept|].
  intros [chunks|e]; [|kept]. apply kept_try; [by apply sum_bundle_chunks_kept|]. intros; kept.
Qed.

Lemma list_chunks_kept volume_id b : kept (storage_list_bundle_chunks volume_id b).
Proof. unfold storage_list_bundle_chunks. kept. apply list_bundle_chunks_kept. Qed.

(** ** Uploading *)

(** the check makes the content keep the rule *)
Lemma check_chunk_hash_content request : check_chunk_hash request = Ok tt →
  ∃ raw, zstd_decompress (ucr_compressed_bytes request) (ucr_raw_len request) = Ok raw ∧
         Z.of_nat (length raw) = ucr_raw_len request ∧ blake3_hash raw = ucr_chunk_id request.
Proof.
  unfold check_chunk_hash. destruct (zstd_decompress _ _) as [raw|e]; [|done]. simpl.
  case_bool_decide as Hlen; [done|]. case_bool_decide as Hhash; [done|]. intros _. exists raw.
  split_and!; [done|by destruct (decide (Z.of_nat (length raw) = ucr_raw_len request))|].
  by destruct (decide (blake3_hash raw = ucr_chunk_id request)).
Qed.

Lemma check_upload_lease_kept lease_id file_id volume_id now : kept (atomic (check_upload_lease lease_id file_id volume_id now)).
Proof. by apply kept_block. Qed.

Lemma upload_chunk_owns request : is_u64 (ucr_raw_len request) → sowns [] (λ _ _, True) (upload_chunk request).
Proof.
  intros Hraw. unfold upload_chunk.
  eapply owns_bind; [by apply sowns_ask|]. intros now cs ->.
  eapply (owns_try _ _ _ (λ _ cs', cs' = [])); [eapply owns_conseq; [apply check_upload_lease_kept|by intros [?|?] ? ->]|].
  intros _ cs ->.
  apply (owns_bind _ _ _ (λ b cs', cs' = [] ∧ b = check)).
  { apply owns_atomic. intros s frame Hs. exists []. split; [done|]. split; [done|apply Hs]. }
  intros b cs [-> ->].
  apply (owns_try _ _ _ (λ _ cs', cs' = [] ∧ content_ok (ucr_chunk_id request) (ucr_raw_len request) (ucr_compressed_bytes request))).
  { apply owns_ret. destruct (if check then _ else _) as [[]|e] eqn:Hc; [|done]. split; [done|].
    intros Hcheck. rewrite Hcheck in Hc. by apply check_chunk_hash_content. }
  intros _ cs [-> Hcontent]. apply volume_try; [done|]. intros HK.
  eapply (owns_try _ _ _ (λ _ _, True)).
  - eapply owns_conseq; [apply (on_volume_owns _ (λ _ _, True) _ HK), put_chunk_owns; [apply Hraw|exact Hcontent]|].
    by intros [?|?].
  - intros meta cs _. by apply owns_ret.
Qed.

(** ** The central server and the reporter *)

Lemma report_bundle_replica_kept events : kept (report_bundle_replica events).
Proof. unfold report_bundle_replica. kept. Qed.
Lemma update_storage_volume_offset_kept volume_id offset : kept (update_storage_volume_offset volume_id offset).
Proof. unfold update_storage_volume_offset. kept. Qed.
Lemma validate_client_auth_kept client_id token : kept (validate_client_auth client_id token).
Proof. unfold validate_client_auth. kept. Qed.

Lemma sync_loop_kept fuel volume_id : volume_id ∈ K → kept (sync_loop fuel volume_id).
Proof.
  intros HK. induction fuel as [|fuel IH]; cbn [sync_loop]; [kept|].
  apply kept_try; [by apply on_volume_keeps, load_kept, get_records_same|]. intros [|e es]; [kept|]. cbv zeta.
  apply kept_try; [apply report_bundle_replica_kept|]. intros _.
  apply kept_try; [|intros _; apply IH]. apply on_volume_keeps; [done|].
  apply verdict_owns. intros err s cs Hs. by apply remove_records_keeps.
Qed.

Lemma sync_volume_kept fuel volume_id : kept (sync_volume fuel volume_id).
Proof.
  unfold sync_volume. apply kept_volume. intros HK. apply kept_try; [by apply sync_loop_kept|]. intros _.
  apply kept_try; [|intros; apply update_storage_volume_offset_kept]. by apply on_volume_keeps, load_kept.
Qed.

Lemma sync_volumes_kept fuel volume_ids : kept (sync_volumes fuel volume_ids).
Proof. induction volume_ids as [|v vs IH]; cbn [sync_volumes]; kept; [apply sync_volume_kept|done]. Qed.

Lemma sync_all_kept fuel : kept (sync_all fuel).
Proof. unfold sync_all. kept. apply sync_volumes_kept. Qed.

Lemma encode_endpoint_addr_kept : kept encode_endpoint_addr.
Proof. unfold encode_endpoint_addr. kept. Qed.

Lemma close_central_connection_kept : kept close_central_connection.
Proof. unfold close_central_connection. kept. Qed.

Lemma connect_and_register_kept : kept connect_and_register.
Proof.
  unfold connect_and_register. apply kept_try; [apply kept_ask|]. intros connection.
  apply kept_bind; [unfold register_with_central; kept; apply encode_endpoint_addr_kept|].
  intros [[[storage_id ?] endpoint]|e]; kept.
Qed.

Lemma update_storage_endpoint_kept endpoint : kept (update_storage_endpoint endpoint).
Proof. unfold update_storage_endpoint. kept. Qed.

Lemma endpoint_watch_turn_kept last_reported : kept (endpoint_watch_turn last_reported).
Proof. unfold endpoint_watch_turn. kept; [apply encode_endpoint_addr_kept|apply update_storage_endpoint_kept]. Qed.

Lemma close_idle_volumes_owns volume_ids : Forall (.∈ K) volume_ids → kept (close_idle_volumes volume_ids).
Proof.
  induction 1 as [|v vs Hv Hvs IH]; cbn [close_idle_volumes]; [kept|]. apply kept_bind; [|done].
  apply on_volume_keeps; [done|]. unfold close_idle_data_files.
  eapply owns_bind; [by apply (owns_ask _ _ _ (λ _ cs', cs' = []))|]. intros now cs ->.
  eapply owns_bind; [by apply owns_stable; intros s cs|]. intros slots cs ->. apply close_idle_slots_owns.
Qed.

Lemma close_idle_data_files_kept : kept storage_close_idle_data_files.
Proof.
  eapply (owns_bind _ _ _ (λ volume_ids cs', cs' = [] ∧ Forall (.∈ K) volume_ids)).
  - apply owns_atomic. intros s frame Hs. exists []. split; [done|]. split; [done|]. simpl. apply Forall_forall.
    intros v ([v' ov] & -> & Hv)%list_elem_of_fmap. apply elem_of_map_to_list in Hv. rewrite <-(si_dom _ _ Hs).
    by apply elem_of_dom_2 in Hv.
  - intros volume_ids cs [-> Hall]. by apply close_idle_volumes_owns.
Qed.

Lemma storage_commit_kept fuel request : Z.of_nat (length (cbr_chunks request)) ≤ i64_max →
  kept (storage_commit_bundle fuel request).
Proof.
  intros Hlen. unfold storage_commit_bundle. kept; [by apply commit_bundle_owns|apply sync_volume_kept].
Qed.

(** ** Every request and every task *)

(** what the frame decoder gives: a [u64] length, and a list that fits in memory *)
Definition data_request_ok (request : ProtocolRequest) : Prop :=
  match request with
  | ReqData (UploadChunkRq request) => is_u64 (ucr_raw_len request)
  | ReqData (CommitBundleRq request) => Z.of_nat (length (cbr_chunks request)) ≤ i64_max
  | _ => True
  end.

Lemma weaken {A} (p : StorageProg A) : kept p → sowns [] (λ _ _, True) p.
Proof. intros Hp. by eapply owns_conseq. Qed.

Lemma handle_data_request_owns fuel request : data_request_ok (ReqData request) →
  sowns [] (λ _ _, True) (handle_data_request fuel request).
Proof.
  destruct request; cbn [handle_data_request data_request_ok]; intros Hok.
  - by apply owns_ret.
  - apply weaken, has_chunk_kept.
  - by apply upload_chunk_owns.
  - apply weaken, download_chunk_kept.
  - apply weaken, has_bundle_kept.
  - by apply weaken, storage_commit_kept.
  - apply weaken, list_chunks_kept.
Qed.

Lemma handle_data_connection_request_owns fuel connection request : data_request_ok request →
  sowns [] (λ _ _, True) (handle_data_connection_request fuel connection request).
Proof.
  intros Hok. unfold handle_data_connection_request.
  eapply owns_bind; [by apply kept_block|]. intros client cs ->.
  apply (owns_bind _ _ _ (λ _ _, True)); [|intros; by apply owns_ret].
  destruct client as [client|].
  - destruct request as [|request| | |]; [by apply owns_ret| |by apply owns_ret..].
    destruct request; [by apply owns_ret|by apply handle_data_request_owns..].
  - apply weaken. destruct request as [|request| | |]; [apply kept_ret| |apply kept_ret..].
    destruct request; [|apply kept_ret..]. kept. apply validate_client_auth_kept.
Qed.

Lemma handle_central_request_kept request : kept (handle_central_request request).
Proof.
  destruct request as [request| | | |]; unfold handle_central_request; kept.
  unfold handle_storage_control. destruct request; kept.
  apply kept_block. intros s. unfold grant_upload_lease. by case_bool_decide.
Qed.

(** what the tasks of the process do *)
Inductive StorageCall : Type :=
| CallData (fuel : nat) (connection : Connection) (request : ProtocolRequest)
| CallCentral (request : ProtocolRequest)
| CallSyncAll (fuel : nat)
| CallSyncVolume (fuel : nat) (volume_id : Z)
| CallIdleDataFiles
| CallStart
| CallConnect (next_connection : option Connection)
| CallConnectionEnded (connection : Connection)
| CallAccept (connection : Connection)
| CallShutdown
| CallEndpointWatch (last_reported : list Byte.byte).

Definition storage_call (call : StorageCall) : StorageProg unit :=
  match call with
  | CallData fuel connection request => _ ← handle_data_connection_request fuel connection request; mret tt
  | CallCentral request => _ ← handle_central_request request; mret tt
  | CallSyncAll fuel => _ ← bundle_reporter_tick fuel; mret tt
  | CallSyncVolume fuel volume_id => _ ← sync_volume fuel volume_id; mret tt
  | CallIdleDataFiles => _ ← idle_file_close_tick; mret tt
  | CallStart => _ ← storage_start; mret tt
  | CallConnect next_connection => _ ← central_loop_connect next_connection; mret tt
  | CallConnectionEnded connection => _ ← central_loop_ended connection; mret tt
  | CallAccept connection => _ ← accept_data_connection connection; mret tt
  | CallShutdown => shutdown
  | CallEndpointWatch last_reported => _ ← endpoint_watch_turn last_reported; mret tt
  end.

Definition storage_call_ok (call : StorageCall) : Prop :=
  match call with CallData _ _ request => data_request_ok request | _ => True end.

Definition storage_program (p : StorageProg unit) : Prop :=
  ∃ call, storage_call_ok call ∧ p = storage_call call.

(** the steps of the storage's process *)
Definition storage_steps := rtc (pool_step (A := unit) storage_answer_ok storage_program).

Lemma storage_call_owns p : storage_program p → sowns [] (λ _ _, True) p.
Proof.
  intros (call & Hok & ->).
  destruct call as [fuel connection request|request|fuel|fuel volume_id| | |next|connection|connection| |last];
    cbn [storage_call].
  - apply (owns_bind _ _ _ (λ _ _, True)); [by apply handle_data_connection_request_owns|]. intros; by apply owns_ret.
  - apply weaken. kept. apply handle_central_request_kept.
  - apply weaken. unfold bundle_reporter_tick. kept. apply sync_all_kept.
  - apply weaken. kept. apply sync_volume_kept.
  - apply weaken. unfold idle_file_close_tick. kept. apply close_idle_data_files_kept.
  - apply weaken. unfold storage_start. kept. apply connect_and_register_kept.
  - apply weaken. unfold central_loop_connect. kept. apply connect_and_register_kept.
  - apply weaken. unfold central_loop_ended. kept. apply close_central_connection_kept.
  - apply weaken. unfold accept_data_connection. kept.
  - apply weaken. unfold shutdown. kept. apply close_central_connection_kept.
  - apply weaken. kept. apply endpoint_watch_turn_kept.
Qed.

Lemma storage_steps_inv s s' pool : storage_inv s [] → storage_steps (s, []) (s', pool) →
  ∃ claims, storage_inv s' claims.
Proof.
  intros Hinv Hsteps.
  destruct (owns_reachable storage_answer_ok storage_inv storage_program s [] s' pool []) as (css & Hcss & _).
  - intros s0 cs cs' Hp Hs. by eapply storage_inv_perm.
  - apply storage_call_owns.
  - done.
  - constructor.
  - done.
  - by eexists.
Qed.
End StorageSafety.

(** ** From one run of the process to the next *)

Section StorageLife.
Context `{SqliteText, RowIds, Blake3, Zstd, DebugResponse, !RowIdLaws}.
Context (check : bool).
#[local] Instance life_content : ContentRule := stored_content check.

(** what a process leaves in the directories of its volumes *)
Definition left_by (s : StorageServer) (disks : Disks) : Disks := λ path,
  match lfind (λ ov, bool_decide (ov_root ov = path)) (map snd (map_to_list (ss_volumes s))) with
  | Some ov => (Some (vl_db (ov_volume ov)), vl_files (ov_volume ov))
  | None => disks path
  end.

(** the directories a host can have: volumes are initialised, or brought from another host
    that has them checked in the same way, and storages run on them until they stop at any point *)
Inductive storage_disks : Disks → Prop :=
| disks_none : storage_disks (λ _, (None, ∅))
| disks_volume path db files disks :
    storage_disks disks → disk_reachable db files →
    storage_disks (λ path', if bool_decide (path' = path) then (Some db, files) else disks path')
| disks_run config disks s s' pool :
    storage_disks disks → sc_check_hash_before_write config = check →
    StorageServer_open disks config = Ok s → storage_steps (s, []) (s', pool) →
    storage_disks (left_by s' disks).

Definition disks_inv (disks : Disks) : Prop :=
  ∀ path db files, disks path = (Some db, files) → volume_inv (opened db files) [].

Lemma open_volumes_from_inv disks configs seen volumes volumes' :
  disks_inv disks → open_volumes_from disks configs seen volumes = Ok volumes' →
  map_Forall (λ _ ov, volume_inv (ov_volume ov) []) volumes →
  map_Forall (λ _ ov, volume_inv (ov_volume ov) []) volumes'.
Proof.
  intros Hdisks. revert seen volumes. induction configs as [|config configs IH]; intros seen volumes; simpl.
  { by intros [= <-]. }
  case_bool_decide; [done|]. destruct (Volume_open _ _ _) as [volume|e] eqn:Hopen; [|done]. simpl.
  case_bool_decide; [done|]. case_bool_decide; [done|]. intros Hrest Hall. eapply IH; [exact Hrest|].
  apply map_Forall_insert_2; [|done]. simpl.
  destruct (disks (svc_path config)) as [db files] eqn:Hdisk. simpl in Hopen. destruct db as [db|]; [|done].
  pose proof (Hdisks _ _ _ Hdisk) as Hinv.
  rewrite Volume_open_run in Hopen by apply Hinv. by injection Hopen as <-.
Qed.

Lemma StorageServer_open_inv disks config s : disks_inv disks → sc_check_hash_before_write config = check →
  StorageServer_open disks config = Ok s → storage_inv (dom (ss_volumes s)) check s [].
Proof.
  intros Hdisks Hcheck. unfold StorageServer_open, open_volumes.
  destruct (open_volumes_from _ _ _ _) as [volumes|e] eqn:Hopen; [|done]. simpl. intros [= <-].
  split; simpl; [done|done|]. by apply (open_volumes_from_inv _ _ _ _ _ Hdisks Hopen).
Qed.

Lemma left_by_inv K s claims disks : storage_inv K check s claims → disks_inv disks → disks_inv (left_by s disks).
Proof.
  intros Hs Hdisks path db files. unfold left_by. destruct (lfind _ _) as [ov|] eqn:Hf; [|apply Hdisks].
  intros [= <- <-]. apply lfind_Some in Hf as [Hov _].
  apply list_elem_of_fmap in Hov as ([volume_id ov'] & -> & Hov). apply elem_of_map_to_list in Hov.
  eapply stop_inv. by apply (si_volumes _ _ _ _ Hs volume_id).
Qed.

Lemma storage_disks_inv disks : storage_disks disks → disks_inv disks.
Proof.
  induction 1 as [|path db files disks _ IH Hdisk|config disks s s' pool _ IH Hcheck Hopen Hsteps].
  - by intros path db files [=].
  - intros path' db' files'. case_bool_decide; [|apply IH]. intros [= <- <-]. by apply disk_reachable_inv.
  - pose proof (StorageServer_open_inv _ _ _ IH Hcheck Hopen) as Hs.
    destruct (storage_steps_inv _ _ _ _ _ Hs Hsteps) as (claims & Hs'). by eapply left_by_inv.
Qed.

(** C3. Whatever clients, the central server and the tasks of a storage do, however their blocks
    interleave over all volumes, fail or are cut off, over any number of runs of the process: every
    volume on the host is intact, and when uploads are checked ([check_hash_before_write]) the bytes of
    every chunk decompress to content of the recorded raw length whose hash is the chunk's id. *)
Theorem storage_integrity disks path db files :
  storage_disks disks → disks path = (Some db, files) → volume_intact db files.
Proof. intros Hdisks Hpath. apply (volume_inv_intact (opened db files) []). by eapply storage_disks_inv. Qed.
End StorageLife.

#[local] Existing Instances plain_sqlite_text sequential_rowids sequential_rowid_laws sum_blake3 plain_zstd plain_debug.

Definition sample_storage_calls : list StorageCall :=
  [CallStart; CallCentral (ReqControl (GrantUploadLeaseRq sample_lease));
   CallData 9 sample_data_connection (ReqData (AuthenticateRq 21 "t"));
   CallData 9 sample_data_connection (ReqData (UploadChunkRq sample_upload))].

(** a client uploads a chunk to the storage *)
Lemma storage_integrity_witness :
  let s := foldl (λ s call, out_state (run storage_oracle 0 (storage_call call) s))
             (sample_storage fresh_volume) sample_storage_calls in
  let disks := left_by s (λ path, if bool_decide (path = "/v") then (Some fresh_db, ∅) else (None, ∅)) in
  let volume := volume_part 7 s in
  disks "/v" = (Some (vl_db volume), vl_files volume) ∧ length (vd_chunks (vl_db volume)) = 1%nat ∧
  ∀ c, c ∈ vd_chunks (vl_db volume) → ∃ bytes,
    holds (vl_files volume) (cm_volume_offset c) bytes ∧ blake3_hash bytes = cm_compressed_hash c ∧
    ∃ raw, zstd_decompress bytes (cm_raw_len c) = Ok raw ∧ blake3_hash raw = cm_chunk_id c.
Proof.
  intros s disks volume. assert (disks "/v" = (Some (vl_db volume), vl_files volume)) as Hpath by (vm_compute; reflexivity).
  assert (storage_disks true disks) as Hdisks.
  { destruct (run_all_steps storage_answer_ok storage_program storage_oracle storage_call sample_storage_calls
      (sample_storage fresh_volume) storage_oracle_ok) as (pool & Hsteps).
    { apply (Forall_impl storage_call_ok); [repeat constructor; vm_compute; done|]. intros call Hcall. exact (ex_intro _ call (conj Hcall eq_refl)). }
    eapply (disks_run true sample_config); [|reflexivity| |exact Hsteps].
    - exact (disks_volume true "/v" fresh_db ∅ (λ _, (None, ∅)) (disks_none true)
               (fresh_reachable (rule := stored_content true) ∅)).
    - vm_compute. reflexivity. }
  split; [exact Hpath|]. split; [vm_compute; reflexivity|].
  destruct (storage_integrity true disks "/v" _ _ Hdisks Hpath) as (_ & Hchunks & _).
  intros c Hc. destruct (Hchunks c Hc) as (_ & bytes & _ & Hhash & Hholds & Hcontent).
  exists bytes. split; [exact Hholds|]. split; [exact Hhash|].
  destruct (Hcontent eq_refl) as (raw & Hraw & _ & Hid). exists raw. split; [exact Hraw|exact Hid].
Defined.
