(* ===== verification/StorageSync.v ===== *)
(** * The bundle reporter

    What [sync_volume] does alone when the central server answers: it reports every change of
    the outbox once, in order, and empties the outbox; with [fuel] above the number of
    changes it ends.  A volume that was in step with the central server's replicas up to its
    outbox is then in step without exception. *)

From S2P Require Import Prelude Types Paths DirCache CentralDb CentralInv CentralFacts CentralSafety CentralRegistry Link Conc.
From S2P Require Import VolumeDb VolumeIo Volume VolumeInv VolumeFacts VolumeBundles VolumeSafety VolumeSample VolumeLife.
From S2P Require Import VolumeRuns VolumeCommits VolumeCatalog Storage StorageSample StorageSafety.

(** the events of the reports among the questions a program asked *)
Definition reported_by (q : sigT StorageQuery) : list BundleReplicaEvent :=
  match q with
  | existT _ (SRpc _ (ReqControl (ReportBundleReplicaRq events))) => events
  | _ => []
  end.
Definition reported (asked : list (sigT StorageQuery)) : list BundleReplicaEvent :=
  concat (map reported_by asked).

Lemma reported_app l l' : reported (l ++ l') = reported l ++ reported l'.
Proof. unfold reported. by rewrite map_app, concat_app. Qed.

Section Sync.
Context `{SqliteText, RowIds, Blake3, Zstd, DebugResponse, ContentRule, !RowIdLaws}.

(** what the oracle answers to a volume *)
Definition volume_oracle (volume_id : Z) (o : Oracle StorageQuery) : Oracle VolumeQuery :=
  lift_oracle (λ B q, @SVolume B volume_id q) o.

(** the volumes' calls of the system succeed, the central server accepts reports *)
Record accepting (o : Oracle StorageQuery) : Prop := {
  acc_volume : ∀ volume_id, quiet (volume_oracle volume_id o);
  acc_report : ∀ n c events, o n _ (SRpc c (ReqControl (ReportBundleReplicaRq events))) =
                             Ok (RespControl ReportBundleReplicaRs);
  acc_offset : ∀ n c v offset, o n _ (SRpc c (ReqControl (UpdateStorageVolumeOffsetRq v offset))) =
                               Ok (RespControl UpdateStorageVolumeOffsetRs) }.

(** the volume is open and the storage is connected *)
Definition ready (s : StorageServer) (volume_id : Z) (c : Connection) (v : VolumeState) : Prop :=
  cc_connection (ss_central s) = Some c ∧ (∃ root, ss_volumes s !! volume_id = Some (mkOpenVolume root v)).

Lemma part_laws_volume s volume_id : is_Some (ss_volumes s !! volume_id) →
  part_laws (volume_part volume_id) (put_volume_part volume_id) s.
Proof.
  intros [[root v] Hov]. unfold part_laws, volume_part, put_volume_part. rewrite Hov. simpl. split; [|split].
  - destruct s. unfold set_ss_volumes. simpl in *. f_equal. apply map_eq. intros k.
    destruct (decide (k = volume_id)) as [->|]; [by rewrite lookup_alter_eq, Hov|by rewrite lookup_alter_ne].
  - intros x. by rewrite lookup_alter_eq, Hov.
  - intros x y. unfold set_ss_volumes. simpl. f_equal. apply map_eq. intros k.
    destruct (decide (k = volume_id)) as [->|]; [by rewrite !lookup_alter_eq, Hov|by rewrite !lookup_alter_ne].
Qed.

(** a call of the volume alone, its questions the volume's own *)
Lemma on_volume_asks {A} o s volume_id (p : VolumeProg A) a (P : VolumeState → Prop) :
  is_Some (ss_volumes s !! volume_id) →
  runs (volume_oracle volume_id o) p (volume_part volume_id s) a P →
  asks o (on_volume volume_id p) s a
    (λ s' l, reported l = [] ∧ ∃ v, s' = put_volume_part volume_id v s ∧ P v).
Proof.
  intros Hs Hp n. unfold on_volume. rewrite (lift_run _ _ _ o n p s) by (by apply part_laws_volume).
  cbn [out_value out_state out_asked]. destruct (Hp n) as [Ha HP]. split; [exact Ha|]. split; [|by eexists].
  match goal with |- reported (map _ ?l0) = _ => induction l0 as [|[B q] l IH]; [done|exact IH] end.
Qed.

Lemma volume_asks o s volume_id : is_Some (ss_volumes s !! volume_id) →
  asks o (volume volume_id) s (Ok volume_id) (λ s' l, s' = s ∧ l = []).
Proof. intros Hs n. unfold volume. rewrite run_atomic. simpl. by rewrite bool_decide_true. Qed.

Lemma central_connection_asks o s c : cc_connection (ss_central s) = Some c →
  asks o central_connection s (Ok c) (λ s' l, s' = s ∧ l = []).
Proof. intros Hc n. unfold central_connection. rewrite run_atomic. simpl. by rewrite Hc. Qed.

Lemma report_asks o s c events : accepting o → cc_connection (ss_central s) = Some c →
  asks o (report_bundle_replica events) s (Ok tt) (λ s' l, s' = s ∧ reported l = events).
Proof.
  intros Ho Hc. unfold report_bundle_replica. eapply asks_try; [by apply central_connection_asks|]. intros s' l [-> ->].
  eapply asks_bind; [apply asks_ask; intros n; apply (acc_report _ Ho)|]. intros s' l [-> ->].
  apply asks_ret. split; [done|]. unfold reported. simpl. by rewrite app_nil_r.
Qed.

(** ** The loop *)

(** the volume with these changes left in its outbox *)
Definition outbox_left (v : VolumeState) (records : list BundleChangeRow) : VolumeState :=
  set_vl_db v (set_vd_records (vl_db v) records (vd_seq_records (vl_db v))).

Lemma outbox_left_inv v claims k r : volume_inv v claims → last (take k (vd_records (vl_db v))) = Some r →
  volume_inv (outbox_left v (drop k (vd_records (vl_db v)))) claims.
Proof.
  intros Hinv Hlast. pose proof (remove_records_keeps v claims None (bch_event_id r) Hinv) as Hk.
  by rewrite (with_db_run _ _ _ _ (remove_records_run v claims k r Hinv Hlast)) in Hk.
Qed.

Lemma get_records_asks o s volume_id v claims : accepting o →
  (∃ root, ss_volumes s !! volume_id = Some (mkOpenVolume root v)) → volume_inv v claims → totals_fit (vl_db v) →
  asks o (on_volume volume_id (get_bundle_change_records 128)) s
    (Ok (map (event_of (vl_db v)) (take 128 (vd_records (vl_db v))))) (λ s' l, s' = s ∧ reported l = []).
Proof.
  intros Ho [root Hov] Hinv Hfit. assert (is_Some (ss_volumes s !! volume_id)) as Hs by by eexists.
  assert (volume_part volume_id s = v) as Hpart by (unfold volume_part; by rewrite Hov).
  eapply asks_conseq.
  - apply (on_volume_asks o s volume_id _ _ (λ v', v' = v) Hs). rewrite Hpart. unfold get_bundle_change_records.
    eapply runs_conseq; [apply locked_runs, (get_records_run v claims 128 Hinv Hfit); unfold i64_max; lia|].
    intros s' ->. apply set_vl_db_id.
  - intros s' l (Hl & v' & -> & ->). split; [|done]. rewrite <-Hpart. apply (part_laws_volume s volume_id Hs).
Qed.

Lemma remove_records_asks o s volume_id v claims k r : accepting o →
  (∃ root, ss_volumes s !! volume_id = Some (mkOpenVolume root v)) → volume_inv v claims →
  last (take k (vd_records (vl_db v))) = Some r →
  asks o (on_volume volume_id (remove_bundle_change_records (bch_event_id r))) s (Ok tt)
    (λ s' l, s' = put_volume_part volume_id (outbox_left v (drop k (vd_records (vl_db v)))) s ∧ reported l = []).
Proof.
  intros Ho [root Hov] Hinv Hlast. assert (is_Some (ss_volumes s !! volume_id)) as Hs by by eexists.
  assert (volume_part volume_id s = v) as Hpart by (unfold volume_part; by rewrite Hov).
  eapply asks_conseq.
  - apply (on_volume_asks o s volume_id _ _ (λ v', v' = outbox_left v (drop k (vd_records (vl_db v)))) Hs). rewrite Hpart.
    unfold remove_bundle_change_records. apply runs_ask. intros n. rewrite (acc_volume _ Ho volume_id n _ VVerdict).
    eapply runs_conseq; [apply locked_runs, (remove_records_run v claims k r Hinv Hlast)|]. done.
  - intros s' l (Hl & v' & -> & ->). done.
Qed.

Lemma sync_loop_asks o s volume_id c v claims fuel :
  accepting o → ready s volume_id c v → volume_inv v claims → totals_fit (vl_db v) →
  (length (vd_records (vl_db v)) < fuel)%nat →
  asks o (sync_loop fuel volume_id) s (Ok tt)
    (λ s' l, s' = put_volume_part volume_id (outbox_left v []) s ∧
             reported l = map (event_of (vl_db v)) (vd_records (vl_db v))).
Proof.
  intros Ho. revert s v. induction fuel as [|fuel IH]; intros s v [Hc [root Hov]] Hinv Hfit Hfuel; [lia|].
  cbn [sync_loop]. set (records := vd_records (vl_db v)) in *.
  eapply asks_try; [eapply get_records_asks; eauto|]. intros s' l [-> Hl]. fold records.
  destruct (decide (records = [])) as [Hnil|Hne].
  { rewrite Hnil. apply asks_ret. split; [|by rewrite reported_app, Hl].
    assert (outbox_left v [] = v) as ->.
    { unfold outbox_left. rewrite <-Hnil. subst records. destruct v as [[] ? ?]. done. }
    pose proof (part_laws_volume s volume_id ltac:(by eexists)) as [Hput _]. symmetry. unfold volume_part in Hput.
    by rewrite Hov in Hput. }
  set (events := map (event_of (vl_db v)) (take 128 records)).
  assert (∃ r, last (take 128 records) = Some r) as [r Hlast].
  { destruct (last (take 128 records)) as [r|] eqn:Hr; [by eexists|]. apply last_None in Hr. by destruct records. }
  assert (StronglySorted (λ a b, bre_event_id a < bre_event_id b) events) as Hsorted.
  { pose proof (vi_bundles _ _ Hinv) as [_ _ _ [_ _ Hs _]]. fold records in Hs. rewrite <-(take_drop 128 records) in Hs.
    apply StronglySorted_app in Hs as (_ & Hs & _). subst events. clear -Hs.
    induction Hs as [|x xs _ IH Hx]; cbn [map]; constructor; [done|]. by apply Forall_map. }
  assert (max_event_id_of events = bch_event_id r) as Hmax.
  { unfold max_event_id_of, events. by rewrite fmap_last, Hlast. }
  assert (merge_sort event_id_le events = events) as Hsort by (by apply (merge_sort_key bre_event_id)).
  destruct events as [|e es] eqn:Hevents.
  { unfold max_event_id_of in Hmax. apply (f_equal last) in Hevents. unfold events in Hevents. by rewrite fmap_last, Hlast in Hevents. }
  rewrite Hsort. rewrite <-Hevents in Hmax |- *. clear Hsort Hsorted.
  eapply asks_try; [by apply (report_asks _ _ c)|]. intros s1 l1 [-> Hl1]. rewrite Hmax.
  eapply asks_try; [by eapply remove_records_asks; [|by eexists|..]|]. intros s2 l2 [-> Hl2]. fold records.
  set (v' := outbox_left v (drop 128 records)).
  assert (vd_records (vl_db v') = drop 128 records) as Hrec' by done.
  eapply asks_conseq; [apply (IH _ v')|].
  - split; [done|]. exists root. unfold put_volume_part. simpl. by rewrite lookup_alter_eq, Hov.
  - by eapply outbox_left_inv.
  - intros x Hx. apply Hfit. eapply elem_of_sublist; [exact Hx|apply sublist_drop].
  - rewrite Hrec', length_drop. destruct records; [done|]. cbn [length] in *. lia.
  - intros s3 l3 [-> Hl3]. split.
    + destruct (part_laws_volume s volume_id ltac:(by eexists)) as (_ & _ & Hput). by rewrite Hput.
    + rewrite !reported_app, Hl, Hl1, Hl2, Hl3, Hrec'. subst events.
      change (event_of (vl_db v')) with (event_of (vl_db v)). by rewrite !app_nil_l, <-map_app, take_drop.
Qed.

Lemma sync_volume_asks o s volume_id c v claims fuel :
  accepting o → ready s volume_id c v → volume_inv v claims → totals_fit (vl_db v) →
  (length (vd_records (vl_db v)) < fuel)%nat →
  asks o (sync_volume fuel volume_id) s (Ok tt)
    (λ s' l, s' = put_volume_part volume_id (outbox_left v []) s ∧
             reported l = map (event_of (vl_db v)) (vd_records (vl_db v)) ∧
             last l = Some (existT _ (SRpc c (ReqControl (UpdateStorageVolumeOffsetRq volume_id
                              (vm_active_volume_offset (vd_meta (vl_db v)))))))).
Proof.
  intros Ho Hready Hinv Hfit Hfuel. pose proof Hready as [Hc [root Hov]]. unfold sync_volume.
  eapply asks_try; [apply volume_asks; by eexists|]. intros s0 l0 [-> ->].
  eapply asks_try; [by eapply sync_loop_asks|]. intros s1 l1 [Hs1 Hl1].
  assert (ss_volumes s1 !! volume_id = Some (mkOpenVolume root (outbox_left v []))) as Hov1.
  { rewrite Hs1. unfold put_volume_part. simpl. by rewrite lookup_alter_eq, Hov. }
  assert (volume_part volume_id s1 = outbox_left v []) as Hpart by (unfold volume_part; by rewrite Hov1).
  eapply asks_try.
  - apply (on_volume_asks o s1 volume_id _ _ (λ v', v' = outbox_left v [])); [by eexists|]. rewrite Hpart.
    unfold Volume_meta. eapply runs_conseq; [by apply locked_runs|]. intros v' ->. apply set_vl_db_id.
  - intros s2 l2 (Hl2 & v' & -> & ->).
    destruct (part_laws_volume s1 volume_id ltac:(by eexists)) as (Hput & _). rewrite Hpart in Hput. rewrite Hput.
    unfold update_storage_volume_offset. eapply asks_try; [apply (central_connection_asks _ _ c); by rewrite Hs1|].
    intros s3 l3 [-> ->]. eapply asks_bind; [apply asks_ask; intros n; apply (acc_offset _ Ho)|]. intros s4 l4 [-> ->].
    apply asks_ret. split; [done|]. rewrite !app_nil_l, app_nil_r. split.
    + by rewrite !reported_app, Hl1, Hl2, !app_nil_r.
    + rewrite !app_assoc, last_snoc. done.
Qed.

(** ** Convergence *)

(** replaying a volume's outbox on the central server's replicas *)
Lemma replay_outbox volume_id db (replicas : HashId → option BundleReplicaRow) b :
  in_step volume_id replicas db → vm_volume_id (vd_meta db) = volume_id →
  NoDup (map bch_bundle_id (vd_records db)) → Forall (record_ok db) (vd_records db) →
  foldl (apply_report b volume_id) (replicas b) (map (event_of db) (vd_records db)) = catalog_row volume_id db b.
Proof.
  intros [_ Hrep] Hid Hnd Hrec. specialize (Hrep b (λ f, f)).
  assert (∀ rs cur, b ∉ map bch_bundle_id rs → foldl (apply_report b volume_id) cur (map (event_of db) rs) = cur) as Hother.
  { intros rs. induction rs as [|r rs IH]; intros cur Hb; [done|]. cbn [map foldl] in *.
    apply not_elem_of_cons in Hb as [Hb Hrs]. rewrite IH by done.
    unfold apply_report. rewrite bool_decide_false; [done|]. by intros [? _]. }
  destruct (decide (b ∈ map bch_bundle_id (vd_records db))) as [Hin|Hin]; [|by rewrite Hother, Hrep].
  apply list_elem_of_fmap in Hin as (r & -> & Hr). apply list_elem_of_split in Hr as (l1 & l2 & Hsplit).
  rewrite Hsplit in Hnd, Hrec |- *. rewrite map_app in Hnd. cbn [map] in Hnd.
  apply NoDup_app in Hnd as (_ & _ & [Hb _]%NoDup_cons). apply Forall_app in Hrec as [_ [Hr _]%Forall_cons].
  rewrite map_app, foldl_app. cbn [map foldl]. rewrite Hother by done.
  unfold apply_report at 1. unfold catalog_row. cbn [event_of bre_kind bre_raw_len bre_compressed_len bre_bundle_id bre_volume_id].
  rewrite bool_decide_true by done. destruct Hr as [[-> Hrows]|[-> Hrows]];
    [rewrite (bool_decide_false (bundle_rows _ _ = [])) by done|rewrite (bool_decide_true (bundle_rows _ _ = [])) by done]; done.
Qed.

Lemma events_ok v claims : volume_inv v claims → totals_fit (vl_db v) →
  Forall report_event_ok (map (event_of (vl_db v)) (vd_records (vl_db v))).
Proof.
  intros Hinv Hfit. apply Forall_map, Forall_forall. intros r Hr. destruct (Hfit r Hr) as [Hraw Hcomp].
  destruct (bundle_members_lens (vl_db v) (bch_bundle_id r) (volume_inv_lens _ _ Hinv)) as [Hraw0 Hcomp0].
  unfold report_event_ok. simpl. by split.
Qed.

(** C2. Central server and volume agree after a synchronisation.  Start where the central server's
    replicas of the volume are right about every bundle without a change in the outbox; let any calls
    other than the reporter's own run on the volume, interleaved and cut off in any way; then
    [sync_volume], alone with a central server that accepts its requests and the totals of the bundles within [i64],
    ends ([fuel] above the number of changes is enough) with an empty outbox and the volume otherwise as it was, its last request reports the offset used, and the
    central server's transaction on the events it sent, when it succeeds, leaves for every bundle exactly the row
    the volume has: its totals if it is stored, none if it is not. *)
Theorem sync_converges o n s volume_id c v0 v pool fuel tx tx' :
  db_ok (tx_db tx) → in_step volume_id (λ b, find_replica (tx_db tx) b volume_id) (vl_db v0) →
  volume_inv v0 [] → changing_steps (v0, []) (v, pool) →
  totals_fit (vl_db v) → vm_volume_id (vd_meta (vl_db v)) = volume_id →
  accepting o → ready s volume_id c v → (length (vd_records (vl_db v)) < fuel)%nat →
  let out := run o n (sync_volume fuel volume_id) s in
  out_value out = Ok tt ∧ out_state out = put_volume_part volume_id (outbox_left v []) s ∧
  last (out_asked out) = Some (existT _ (SRpc c (ReqControl (UpdateStorageVolumeOffsetRq volume_id
                           (vm_active_volume_offset (vd_meta (vl_db v))))))) ∧
  (CentralHandlers.Storage.report_bundle_replica_tx (reported (out_asked out)) tx = (Ok tt, tx') →
   ∀ b, find_replica (tx_db tx') b volume_id = catalog_row volume_id (vl_db v) b).
Proof.
  intros Hok Hstep Hinv0 Hsteps Hfit Hid Ho Hready Hfuel out.
  pose proof (changing_in_step _ _ _ _ _ Hstep Hsteps) as Hin.
  assert (volume_steps (v0, []) (v, pool)) as Hsteps'.
  { eapply rtc_subrel; [|exact Hsteps]. intros st st' Hst. inversion Hst; subst.
    - apply step_start. match goal with Hp : changing_program _ |- _ => destruct Hp as (call & ? & _ & ->) end. by exists call.
    - by eapply step_atomic.
    - by eapply step_ask. }
  destruct (volume_steps_inv _ _ _ Hinv0 Hsteps') as (claims & Hinv).
  destruct (sync_volume_asks o s volume_id c v claims fuel Ho Hready Hinv Hfit Hfuel n) as (Hv & Hs & Hrep & Hlast).
  fold out in Hv, Hs, Hrep, Hlast. split; [done|]. split; [done|]. split; [done|].
  rewrite Hrep. intros Htx b. destruct (report_events_run _ _ _ Hok (events_ok v claims Hinv Hfit) Htx) as [_ ->].
  pose proof (vi_bundles _ _ Hinv) as [_ _ Hrec [_ Hnd _ _]].
  by apply (replay_outbox volume_id (vl_db v) (λ b, find_replica (tx_db tx) b volume_id)).
Qed.
End Sync.

#[local] Existing Instances plain_sqlite_text sequential_rowids sequential_rowid_laws sum_blake3 plain_zstd plain_debug any_content.

Lemma storage_oracle_accepting : accepting storage_oracle.
Proof. split; [|done|done]. intros volume_id n B q. exact (half_oracle_quiet n B q). Qed.

(** a central server that knows the volume 7 and nothing of its bundles *)
Definition catalog_db : CentralDb :=
  mkCentralDb [mkVolumeRow 7 "v" VOLUME_DEFAULT_DATA_FILE_SIZE 0] [root_dir_row] [] [] [] [] [] 7 0 0 0.

Lemma catalog_db_ok : db_ok catalog_db.
Proof.
  split; cbn [catalog_db db_volumes db_dirs db_files db_file_bundles
    db_bundle_replicas db_update_leases db_file_events seq_volumes seq_files seq_update_leases seq_file_events].
  all: repeat (apply Forall_cons_2 || apply Forall_nil_2 || constructor).
  all: try by (apply (bool_decide_unpack _); vm_compute).
  all: try (unfold is_i64_nonneg, i64_max; simpl; lia).
  all: unfold is_i64_nonneg, i64_max; simpl; split_and?; try lia; try set_solver; try done.
Qed.

Definition catalog_tx : CentralTx := mkCentralTx catalog_db DirCacheState_new.

(** two chunks are put and committed as a bundle, which the central server then has *)
Lemma sync_converges_witness :
  let v := run_calls sample_calls fresh_volume in
  let s := set_ss_central (sample_storage v) (mkCentralConnection 3 (Some sample_connection) []) in
  let out := run storage_oracle 0 (sync_volume 2 7) s in
  let b := bundle_hash_from_chunks sample_refs in
  out_value out = Ok tt ∧ vd_records (vl_db (volume_part 7 (out_state out))) = [] ∧
  ∃ tx', CentralHandlers.Storage.report_bundle_replica_tx (reported (out_asked out)) catalog_tx = (Ok tt, tx') ∧
    find_replica (tx_db tx') b 7 = Some (mkBundleReplicaRow b 7 12 7).
Proof.
  intros v s out b.
  destruct (run_all_steps volume_answer_ok changing_program half_oracle volume_call sample_calls fresh_volume half_oracle_ok)
    as (pool & Hsteps).
  { apply (Forall_impl (λ call, call_ok call ∧ reports call = false)); [repeat constructor; vm_compute; done|].
    intros call [Hok Hcall]. exact (ex_intro _ call (conj Hok (conj Hcall eq_refl))). }
  destruct (CentralHandlers.Storage.report_bundle_replica_tx (reported (out_asked out)) catalog_tx) as [r tx'] eqn:Htx.
  assert (r = Ok tt) as -> by (change r with (r, tx').1; rewrite <-Htx; vm_compute; reflexivity).
  destruct (sync_converges storage_oracle 0 s 7 sample_connection fresh_volume v pool 2 catalog_tx tx')
    as (Hv & Hs & _ & Hfinal).
  - apply catalog_db_ok.
  - split; [constructor|]. intros b' _ _. vm_compute. reflexivity.
  - apply fresh_volume_inv.
  - exact Hsteps.
  - assert (vd_records (vl_db v) = [mkBundleChangeRow 1 "bundle_stored" b]) as Hrec by (vm_compute; reflexivity).
    intros r. rewrite Hrec. intros ->%list_elem_of_singleton. split; vm_compute; done.
  - vm_compute. reflexivity.
  - apply storage_oracle_accepting.
  - split; [reflexivity|]. exists "/v". exact (lookup_singleton_eq 7 _).
  - vm_compute. lia.
  - split; [exact Hv|]. split; [vm_compute; reflexivity|]. exists tx'. split; [reflexivity|].
    etransitivity; [exact (Hfinal Htx b)|]. vm_compute. reflexivity.
Defined.
