(* ===== verification/StorageRequests.v ===== *)
(** * What a storage answers to data requests

    Who may do what (authentication and upload leases), and that a chunk uploaded is the chunk
    downloaded. *)

From S2P Require Import Prelude Types Paths CentralDb Link Conc.
From S2P Require Import VolumeDb VolumeIo Volume VolumeInv VolumeFacts VolumeBundles VolumeSafety VolumeSample VolumeLife.
From S2P Require Import VolumeRuns Storage StorageSample StorageSafety StorageSync.

Section Requests.
Context `{SqliteText, RowIds, Blake3, Zstd, DebugResponse, ContentRule, !RowIdLaws}.

(** ** Leases *)

(** the lease is there, has not expired, and is for the file on the volume *)
Definition live_lease (s : StorageServer) (lease_id file_id volume_id now : Z) : Prop :=
  ∃ lease, ss_upload_leases s !! lease_id = Some lease ∧ now < uls_expires_at_ms lease ∧
    uls_file_id lease = file_id ∧ uls_volume_id lease = volume_id.

Definition live_leases (s : StorageServer) (now : Z) : gmap Z UploadLeaseState :=
  base.filter (λ kv, now < uls_expires_at_ms kv.2) (ss_upload_leases s).

#[export] Instance live_lease_dec s lease_id file_id volume_id now : Decision (live_lease s lease_id file_id volume_id now).
Proof.
  unfold live_lease. destruct (ss_upload_leases s !! lease_id) as [lease|] eqn:Hl.
  - destruct (decide (now < uls_expires_at_ms lease ∧ uls_file_id lease = file_id ∧ uls_volume_id lease = volume_id)) as [Hd|Hd].
    + left. exists lease. tauto.
    + right. intros (lease' & [= <-] & Hd'). tauto.
  - right. by intros (lease' & [=] & _).
Defined.

Lemma check_upload_lease_run lease_id file_id volume_id now s :
  check_upload_lease lease_id file_id volume_id now s =
  (if bool_decide (live_lease s lease_id file_id volume_id now) then Ok tt else Err Unauthorized,
   set_ss_upload_leases s (live_leases s now)).
Proof.
  unfold check_upload_lease. fold (live_leases s now). f_equal.
  destruct (live_leases s now !! lease_id) as [lease|] eqn:Hl.
  - apply map_lookup_filter_Some in Hl as [Hl Hlive]. simpl in Hlive. case_bool_decide as Hm.
    + rewrite bool_decide_true; [done|]. exists lease. tauto.
    + rewrite bool_decide_false; [done|]. intros (lease' & Hl' & _ & Hm'). simplify_eq. tauto.
  - rewrite bool_decide_false; [done|]. intros (lease & Hl' & Hlive & _).
    apply map_lookup_filter_None in Hl as [Hl|Hl]; [congruence|]. by apply (Hl lease).
Qed.

(** the lease a request names, and the time it is checked at *)
Definition named_lease (request : DataRequest) : option (Z * Z * Z) :=
  match request with
  | UploadChunkRq request => Some (ucr_lease_id request, ucr_file_id request, ucr_volume_id request)
  | CommitBundleRq request => Some (cbr_lease_id request, cbr_file_id request, cbr_volume_id request)
  | _ => None
  end.

(** only the upload leases and the connection's client differ *)
Definition same_volumes (s s' : StorageServer) : Prop :=
  ss_volumes s' = ss_volumes s ∧ ss_central s' = ss_central s ∧ ss_config s' = ss_config s.

Lemma without_lease (o : Oracle StorageQuery) n fuel request s lease_id file_id volume_id :
  named_lease request = Some (lease_id, file_id, volume_id) →
  ¬ live_lease s lease_id file_id volume_id (o n _ SNow) →
  run o n (handle_data_request fuel request) s =
  mkOutcome (Err Unauthorized) (set_ss_upload_leases s (live_leases s (o n _ SNow))) [existT _ SNow].
Proof.
  intros Hname Hlease.
  assert (∀ A (f : unit → StorageProg (Fs0Result A)),
    run o n (now ← ask SNow; prog_try f (atomic (check_upload_lease lease_id file_id volume_id now))) s =
    mkOutcome (Err Unauthorized) (set_ss_upload_leases s (live_leases s (o n _ SNow))) [existT _ SNow]) as Hrun.
  { intros A f. cbn [ask mbind Prog_bind prog_bind run prog_try atomic]. rewrite check_upload_lease_run.
    rewrite bool_decide_false by done. done. }
  destruct request; try done; injection Hname as <- <- <-; apply Hrun.
Qed.

(** C5. Nothing is done for a data connection before it is authenticated: any other request is refused
    without a question or a change, and the connection becomes a client's only by a request to authenticate
    whose id and token the central server confirms.  Afterwards a chunk or a bundle is taken only under a
    live lease for the file on the volume: otherwise the request is refused before the volume is looked
    at, and nothing changes but that expired leases are dropped. *)
Theorem data_requests_guarded (o : Oracle StorageQuery) n fuel connection request s :
  let out := run o n (handle_data_connection_request fuel connection request) s in
  match ss_clients s !! conn_id connection, request with
  | None, ReqData (AuthenticateRq client_id token) =>
      same_volumes s (out_state out) ∧ ss_upload_leases (out_state out) = ss_upload_leases s ∧
      (out_value out = RespData (AuthenticateRs client_id) ∧
       ss_clients (out_state out) = <[conn_id connection := client_id]> (ss_clients s) ∧
       (∃ c response, cc_connection (ss_central s) = Some c ∧
          o n _ (SRpc c (ReqControl (ValidateClientAuthRq client_id token))) =
            Ok (RespControl (ValidateClientAuthRs response))) ∨
       (∃ e, out_value out = RespError e) ∧ out_state out = s)
  | None, _ => out_value out = RespError Unauthorized ∧ out_state out = s ∧ out_asked out = []
  | Some _, ReqData request =>
      match named_lease request with
      | Some (lease_id, file_id, volume_id) =>
          ¬ live_lease s lease_id file_id volume_id (o n _ SNow) →
          out_value out = RespError Unauthorized ∧
          out_state out = set_ss_upload_leases s (live_leases s (o n _ SNow))
      | None => True
      end
  | Some _, _ => out_value out = RespError InvalidRequest ∧ out_state out = s ∧ out_asked out = []
  end.
Proof.
  intros out. unfold handle_data_connection_request in out.
  destruct (ss_clients s !! conn_id connection) as [client|] eqn:Hclient.
  - destruct request as [request|request|event|request|request];
      try (subst out; cbn [atomic mbind Prog_bind prog_bind run]; rewrite Hclient; by cbn).
    destruct (named_lease request) as [[[lease_id file_id] volume_id]|] eqn:Hname; [|done]. intros Hlease.
    pose proof (without_lease o n fuel request s _ _ _ Hname Hlease) as Hrun.
    assert (out = run o n (response ← handle_data_request fuel request;
              mret (match response with Ok response => RespData response | Err err => RespError err end)) s) as ->.
    { subst out. cbn [atomic mbind Prog_bind prog_bind run]. rewrite Hclient. by destruct request. }
    rewrite run_bind, Hrun. done.
  - destruct request as [request|request|event|request|request];
      try (subst out; cbn [atomic mbind Prog_bind prog_bind run]; rewrite Hclient; by cbn).
    destruct request as [client_id token| | | | | |];
      try (subst out; cbn [atomic mbind Prog_bind prog_bind run]; rewrite Hclient; by cbn).
    subst out. unfold validate_client_auth, central_connection.
    cbn [atomic ask mret Prog_ret mbind Prog_bind prog_bind run prog_try]. rewrite Hclient.
    cbn [atomic ask mret Prog_ret mbind Prog_bind prog_bind run prog_try].
    destruct (cc_connection (ss_central s)) as [c|] eqn:Hc; cbn [ok_or prog_bind run mret Prog_ret].
    2:{ split; [done|]. split; [done|]. right. split; [by eexists|done]. }
    cbn. match goal with |- context [expect_response ?w ?f ?r] => destruct (expect_response w f r) as [[]|e] eqn:Hr end;
      (split; [done|]; split; [done|]); [left|by right; split; [eexists|]].
    split; [done|]. split; [done|]. exists c.
    destruct (o n _ (SRpc c (ReqControl (ValidateClientAuthRq client_id token)))) as [[e|r|r|r|r]|e]; try done.
    destruct r; try done. by eexists.
Qed.
(** ** Uploads *)

Abbreviation vol := volume_oracle.

Lemma on_volume_run {A} o n s volume_id root v (p : VolumeProg A) :
  ss_volumes s !! volume_id = Some (mkOpenVolume root v) →
  let out := run (vol volume_id o) n p v in
  out_value (run o n (on_volume volume_id p) s) = out_value out ∧
  out_state (run o n (on_volume volume_id p) s) = put_volume_part volume_id (out_state out) s.
Proof.
  intros Hov. unfold on_volume. rewrite (lift_run _ _ _ o n p s) by (apply part_laws_volume; by eexists).
  assert (volume_part volume_id s = v) as -> by (unfold volume_part; by rewrite Hov). done.
Qed.

(** a client's request goes to the handler *)
Lemma authenticated_run o n fuel connection client request s :
  ss_clients s !! conn_id connection = Some client → (∀ a b, request ≠ AuthenticateRq a b) →
  let out := run o n (handle_data_request fuel request) s in
  out_value (run o n (handle_data_connection_request fuel connection (ReqData request)) s) =
    match out_value out with Ok response => RespData response | Err err => RespError err end ∧
  out_state (run o n (handle_data_connection_request fuel connection (ReqData request)) s) = out_state out.
Proof.
  intros Hclient Hauth out.
  assert (run o n (handle_data_connection_request fuel connection (ReqData request)) s =
    run o n (response ← handle_data_request fuel request;
             mret (match response with Ok response => RespData response | Err err => RespError err end)) s) as ->.
  { unfold handle_data_connection_request. cbn [atomic mbind Prog_bind prog_bind run]. rewrite Hclient.
    destruct request; [by destruct (Hauth client_id client_token)|done..]. }
  by rewrite run_bind.
Qed.

Lemma find_volume_run o n s volume_id {A} (f : Z → StorageProg (Fs0Result A)) :
  is_Some (ss_volumes s !! volume_id) →
  run o n (prog_try f (volume volume_id)) s = run o n (f volume_id) s.
Proof.
  intros Hs. unfold volume. cbn [atomic prog_try mbind Prog_bind prog_bind run]. by rewrite bool_decide_true.
Qed.

(** past the lease and the content an upload is what [put_chunk] is *)
Lemma upload_chunk_run (o : Oracle StorageQuery) n s request root v :
  live_lease s (ucr_lease_id request) (ucr_file_id request) (ucr_volume_id request) (o n _ SNow) →
  (sc_check_hash_before_write (ss_config s) = true → check_chunk_hash request = Ok tt) →
  ss_volumes s !! ucr_volume_id request = Some (mkOpenVolume root v) →
  let out := run (vol (ucr_volume_id request) o) (S n)
               (put_chunk (ucr_chunk_id request) (ucr_raw_len request) (ucr_compressed_bytes request)) v in
  out_value (run o n (upload_chunk request) s) =
    (meta ← out_value out;
     Ok (UploadChunkRs (mkUploadChunkResponse (ucr_chunk_id request) (cm_raw_len meta) (cm_compressed_len meta)))) ∧
  out_state (run o n (upload_chunk request) s) =
    put_volume_part (ucr_volume_id request) (out_state out) (set_ss_upload_leases s (live_leases s (o n _ SNow))).
Proof.
  intros Hlease Hcheck Hov out. unfold upload_chunk.
  cbn [ask atomic prog_try mbind Prog_bind prog_bind run]. rewrite check_upload_lease_run, bool_decide_true by done.
  cbn [prog_bind run mret Prog_ret]. set (s1 := set_ss_upload_leases s (live_leases s (o n _ SNow))).
  assert ((if sc_check_hash_before_write (ss_config s1) then check_chunk_hash request else Ok tt) = Ok tt) as ->.
  { change (ss_config s1) with (ss_config s). destruct (sc_check_hash_before_write (ss_config s)); auto. }
  cbn [out_value out_state].
  match goal with |- context [run o (S n) ?p s1] => assert (run o (S n) p s1 = run o (S n)
    (meta ←? on_volume (ucr_volume_id request) (put_chunk (ucr_chunk_id request) (ucr_raw_len request) (ucr_compressed_bytes request));
     mret (Ok (UploadChunkRs (mkUploadChunkResponse (ucr_chunk_id request) (cm_raw_len meta) (cm_compressed_len meta))))) s1) as -> end.
  { apply (find_volume_run o (S n) s1 (ucr_volume_id request)). by eexists. }
  unfold prog_try. rewrite run_bind. cbv zeta. cbn [out_value out_state].
  destruct (on_volume_run o (S n) s1 (ucr_volume_id request) root v
    (put_chunk (ucr_chunk_id request) (ucr_raw_len request) (ucr_compressed_bytes request)) Hov) as [-> ->].
  fold out. by destruct (out_value out).
Qed.
(** the data files under the oracle of the storage: nothing fails, and what SQLite and the kernel promise *)
Definition volume_quiet (o : Oracle StorageQuery) (volume_id : Z) : Prop := quiet (vol volume_id o).

Lemma put_part_lookup volume_id root v v' s : ss_volumes s !! volume_id = Some (mkOpenVolume root v) →
  ss_volumes (put_volume_part volume_id v' s) !! volume_id = Some (mkOpenVolume root v').
Proof. intros Hov. unfold put_volume_part. simpl. by rewrite lookup_alter_eq, Hov. Qed.

(** C4. A chunk uploaded is the chunk downloaded.  An authenticated client's upload under a live lease,
    of content that passes the check when the storage checks it and that fits on the volume, is acknowledged with
    the chunk's lengths; any authenticated client that downloads the chunk from that volume then gets
    exactly the bytes uploaded, which (with the check) decompress to content whose hash is the id. *)
Theorem upload_download_roundtrip (o : Oracle StorageQuery) n fuel connection client s root v claims request :
  let volume_id := ucr_volume_id request in
  let bytes := ucr_compressed_bytes request in
  ss_clients s !! conn_id connection = Some client →
  live_lease s (ucr_lease_id request) (ucr_file_id request) volume_id (o n _ SNow) →
  ss_volumes s !! volume_id = Some (mkOpenVolume root v) → volume_inv v claims →
  volume_quiet o volume_id → answers_ok (vol volume_id o) →
  (sc_check_hash_before_write (ss_config s) = true → check_chunk_hash request = Ok tt) →
  can_put (vl_db v) (ucr_chunk_id request) (ucr_raw_len request) bytes →
  let out := run o n (handle_data_connection_request fuel connection (ReqData (UploadChunkRq request))) s in
  out_value out = RespData (UploadChunkRs (mkUploadChunkResponse (ucr_chunk_id request)
                    (ucr_raw_len request) (Z.of_nat (length bytes)))) ∧
  (∀ o' n' connection' client' s', volume_quiet o' volume_id →
     ss_volumes s' = ss_volumes (out_state out) → ss_clients s' !! conn_id connection' = Some client' →
     out_value (run o' n' (handle_data_connection_request fuel connection'
       (ReqData (DownloadChunkRq (mkDownloadChunkRequest volume_id (ucr_chunk_id request))))) s') =
     RespData (DownloadChunkRs bytes)) ∧
  (sc_check_hash_before_write (ss_config s) = true →
   ∃ raw, zstd_decompress bytes (ucr_raw_len request) = Ok raw ∧ blake3_hash raw = ucr_chunk_id request).
Proof.
  intros volume_id bytes Hclient Hlease Hov Hinv Hq Hok Hcheck Hput out.
  destruct (authenticated_run o n fuel connection client (UploadChunkRq request) s Hclient) as [Hv Hs]; [done|].
  cbn [handle_data_request] in Hv, Hs.
  destruct (upload_chunk_run o n s request root v Hlease Hcheck Hov) as [Hv' Hs']. fold volume_id bytes in Hv', Hs'.
  destruct (put_chunk_runs _ v claims _ _ _ Hinv Hq Hok Hput (S n)) as [Hc (Hinv' & _ & _ & _ & _ & Hfind & Hholds)].
  fold bytes in Hc. rewrite Hc in Hv'. subst out. rewrite Hv, Hv'. split; [done|]. split.
  - intros o' n' connection' client' s' Hq' Hvols Hclient'.
    destruct (authenticated_run o' n' fuel connection' client'
      (DownloadChunkRq (mkDownloadChunkRequest volume_id (ucr_chunk_id request))) s' Hclient') as [Hv2 _]; [done|].
    rewrite Hv2. cbn [handle_data_request]. unfold download_chunk. cbn [dcr_volume_id dcr_chunk_id].
    rewrite Hs, Hs' in Hvols.
    set (v' := out_state (run (vol volume_id o) (S n) (put_chunk (ucr_chunk_id request) (ucr_raw_len request) bytes) v)) in *.
    assert (ss_volumes s' !! volume_id = Some (mkOpenVolume root v')) as Hov'.
    { rewrite Hvols. by apply put_part_lookup with (v := v). }
    rewrite find_volume_run by by eexists. unfold prog_try. rewrite run_bind. cbv zeta. cbn [out_value].
    destruct (on_volume_run o' n' s' volume_id root v' (read_chunk (ucr_chunk_id request)) Hov') as [Hr _].
    destruct (read_chunk_runs _ v' claims (ucr_chunk_id request) _ bytes Hinv' Hq' Hfind eq_refl Hholds n') as [Hread _].
    by rewrite Hr, Hread.
  - intros Hchk. destruct (check_chunk_hash_content request (Hcheck Hchk)) as (raw & Hraw & _ & Hid). by exists raw.
Qed.
End Requests.

#[local] Existing Instances plain_sqlite_text sequential_rowids sequential_rowid_laws sum_blake3 plain_zstd plain_debug any_content.

(** an authenticated client whose lease has expired *)
Lemma data_requests_guarded_witness :
  let s := granted (sample_storage fresh_volume) in
  let expired : Oracle StorageQuery := λ n B q,
    match q in StorageQuery B return B with SNow => 2000 | q => storage_oracle n _ q end in
  let out := run expired 0 (handle_data_connection_request 9 sample_data_connection (ReqData (UploadChunkRq sample_upload))) s in
  out_value out = RespError Unauthorized ∧ ss_upload_leases (out_state out) = ∅.
Proof.
  intros s expired out.
  pose proof (data_requests_guarded expired 0 9 sample_data_connection (ReqData (UploadChunkRq sample_upload)) s) as Hg.
  cbv zeta in Hg. assert (ss_clients s !! conn_id sample_data_connection = Some 21) as Hc by (vm_compute; reflexivity).
  rewrite Hc in Hg. destruct Hg as [Hv Hs].
  - intros (lease & Hl & Hlive & _). assert (ss_upload_leases s !! ucr_lease_id sample_upload =
      Some (mkUploadLeaseState 11 7 2000)) as Hl' by (vm_compute; reflexivity).
    rewrite Hl' in Hl. injection Hl as <-. vm_compute in Hlive. discriminate.
  - split; [exact Hv|]. fold out in Hs. rewrite Hs. vm_compute. reflexivity.
Defined.

(** five bytes uploaded and downloaded *)
Lemma upload_download_roundtrip_witness :
  let s := granted (sample_storage fresh_volume) in
  let s' := out_state (run storage_oracle 0
    (handle_data_connection_request 9 sample_data_connection (ReqData (UploadChunkRq sample_upload))) s) in
  out_value (run storage_oracle 0 (handle_data_connection_request 9 sample_data_connection
    (ReqData (DownloadChunkRq (mkDownloadChunkRequest 7 (ucr_chunk_id sample_upload))))) s') =
  RespData (DownloadChunkRs sample_bytes).
Proof.
  intros s s'. assert (ss_clients s !! conn_id sample_data_connection = Some 21) as Hc by (vm_compute; reflexivity).
  assert (live_lease s 5 11 7 1000) as Hlease.
  { exists (mkUploadLeaseState 11 7 2000). split; [vm_compute; reflexivity|]. split; [simpl; lia|done]. }
  destruct (upload_download_roundtrip storage_oracle 0 9 sample_data_connection 21 s "/v" fresh_volume [] sample_upload)
    as (_ & Hdown & _).
  - exact Hc.
  - exact Hlease.
  - vm_compute. reflexivity.
  - apply fresh_volume_inv.
  - intros n B q. exact (half_oracle_quiet n B q).
  - intros n B q. exact (half_oracle_ok n B q).
  - intros _. vm_compute. reflexivity.
  - unfold can_put, i64_max. split_and!; try done; vm_compute; done.
  - apply (Hdown storage_oracle 0%nat sample_data_connection 21 s').
    + intros n B q. exact (half_oracle_quiet n B q).
    + reflexivity.
    + vm_compute. reflexivity.
Defined.
