(* ===== verification/ClientScheduler.v ===== *)
(** * The request scheduler of a client's storage session

    Models [fs0-client/src/storage_session/request_scheduler.rs]: requests for one hash that are
    under way share one execution, and at most as many executions run as there are permits.
    The tasks interleave at every [await] and every lock; a configuration is the shared state, the
    place of every call of [enqueue_blocking] (with the task it spawned), and a log of what
    happened, which only the theorems read. *)

From S2P Require Import Prelude Types.

Section Scheduler.
Context {Req Res : Type}.

(** ** State *)

(** [RequestSlot] with its state; [rs_hash] is the key it was inserted under *)
Record RequestSlot := mkRequestSlot {
  rs_hash : HashId; rs_result : option (Fs0Result Res); rs_callbacks : list nat }.

(** [HashRequestScheduler]; a slot is an [Arc], here an index of [sch_slots], and a callback the
    number of the call that passed it *)
Record Scheduler := mkScheduler {
  sch_permits : nat; sch_in_flight : gmap HashId nat; sch_slots : list RequestSlot }.
Definition Scheduler_new (concurrency : nat) : Scheduler := mkScheduler (Nat.max concurrency 1) ∅ [].

Definition RequestSlot_new (hash_id : HashId) : RequestSlot := mkRequestSlot hash_id None [].

(** ** The places of a call *)

(** what follows the completion of a slot: the spawned task ends, or the call fails *)
Inductive Mode := Spawned | Failing (callback : nat) (err : Fs0Error).

Inductive Thread :=
| TAddCallback (callback : nat) (hash_id : HashId) (request : Req) (slot : nat) (is_owner : bool)
| TCallOwn (callback : nat) (hash_id : HashId) (request : Req) (slot : nat) (is_owner : bool) (result : Fs0Result Res)
| TAcquire (callback : nat) (hash_id : HashId) (request : Req) (slot : nat)
| THandle (hash_id : HashId) (request : Req) (slot : nat)
| TComplete (hash_id : HashId) (slot : nat) (result : Fs0Result Res) (mode : Mode)
| TCallbacks (hash_id : HashId) (slot : nat) (result : Fs0Result Res) (callbacks : list nat) (mode : Mode)
| TRemove (hash_id : HashId) (slot : nat) (mode : Mode)
| TRelease
| TDone.

Inductive SchedulerEvent :=
| Handled (hash_id : HashId) (result : Fs0Result Res)
| NoPermit (hash_id : HashId) (err : Fs0Error)
| Called (callback : nat) (hash_id : HashId) (result : Fs0Result Res)
| Returned (callback : nat) (result : Fs0Result unit).

(** what a place waits for, besides its turn: the semaphore, and the handler *)
Inductive Answer := Turn | Permit (r : Result string unit) | HandlerReturns (r : Fs0Result Res).

(** [enqueue_blocking]: the block under the lock of [in_flight] *)
Definition find_or_insert_slot (hash_id : HashId) (s : Scheduler) : nat * bool * Scheduler :=
  match sch_in_flight s !! hash_id with
  | Some slot => (slot, false, s)
  | None =>
      let slot := length (sch_slots s) in
      (slot, true, mkScheduler (sch_permits s) (<[hash_id := slot]> (sch_in_flight s))
                     (sch_slots s ++ [RequestSlot_new hash_id]))
  end.

(** [add_callback]: the result that is there already, or the callback is kept *)
Definition add_callback (callback : nat) (slot : RequestSlot) : option (Fs0Result Res) * RequestSlot :=
  match rs_result slot with
  | Some result => (Some result, slot)
  | None => (None, mkRequestSlot (rs_hash slot) None (rs_callbacks slot ++ [callback]))
  end.

(** [complete]: the block under the lock of the slot *)
Definition complete (result : Fs0Result Res) (slot : RequestSlot) : list nat * RequestSlot :=
  (rs_callbacks slot, mkRequestSlot (rs_hash slot) (Some result) []).

Definition set_slot (s : Scheduler) (i : nat) (slot : RequestSlot) : Scheduler :=
  mkScheduler (sch_permits s) (sch_in_flight s) (<[i := slot]> (sch_slots s)).
Definition set_permits (s : Scheduler) (n : nat) : Scheduler :=
  mkScheduler n (sch_in_flight s) (sch_slots s).

(** after [add_callback]: only the owner goes on *)
Definition after_callback (callback : nat) (hash_id : HashId) (request : Req) (slot : nat) (is_owner : bool)
  : Thread * list SchedulerEvent :=
  if is_owner then (TAcquire callback hash_id request slot, []) else (TDone, [Returned callback (Ok tt)]).

(** one step of a call or of the task it spawned *)
Definition thread_step (s : Scheduler) (t : Thread) (answer : Answer)
  : option (Scheduler * Thread * list SchedulerEvent) :=
  match t, answer with
  | TAddCallback callback hash_id request i is_owner, Turn =>
      slot ← sch_slots s !! i;
      let '(result, slot) := add_callback callback slot in
      match result with
      | Some result => Some (set_slot s i slot, TCallOwn callback hash_id request i is_owner result, [])
      | None => let '(t, log) := after_callback callback hash_id request i is_owner in Some (set_slot s i slot, t, log)
      end
  | TCallOwn callback hash_id request i is_owner result, Turn =>
      let '(t, log) := after_callback callback hash_id request i is_owner in
      Some (s, t, Called callback hash_id result :: log)
  | TAcquire callback hash_id request i, Permit (Ok _) =>
      match sch_permits s with
      | O => None
      | S permits => Some (set_permits s permits, THandle hash_id request i, [Returned callback (Ok tt)])
      end
  | TAcquire callback hash_id request i, Permit (Err message) =>
      let err := Internal message in
      Some (s, TComplete hash_id i (Err err) (Failing callback err), [NoPermit hash_id err])
  | THandle hash_id request i, HandlerReturns result =>
      Some (s, TComplete hash_id i result Spawned, [Handled hash_id result])
  | TComplete hash_id i result mode, Turn =>
      slot ← sch_slots s !! i;
      let '(callbacks, slot) := complete result slot in
      Some (set_slot s i slot, TCallbacks hash_id i result callbacks mode, [])
  | TCallbacks hash_id i result (callback :: callbacks) mode, Turn =>
      Some (s, TCallbacks hash_id i result callbacks mode, [Called callback hash_id result])
  | TCallbacks hash_id i result [] mode, Turn => Some (s, TRemove hash_id i mode, [])
  | TRemove hash_id i mode, Turn =>
      let s := mkScheduler (sch_permits s) (delete hash_id (sch_in_flight s)) (sch_slots s) in
      match mode with
      | Spawned => Some (s, TRelease, [])
      | Failing callback err => Some (s, TDone, [Returned callback (Err err)])
      end
  | TRelease, Turn => Some (set_permits s (S (sch_permits s)), TDone, [])
  | _, _ => None
  end.

(** ** Configurations *)

Record Config := mkConfig {
  cf_sched : Scheduler; cf_threads : list Thread; cf_log : list SchedulerEvent;
  cf_enqueued : list HashId }.  (* the hash of each call, in the order of the calls *)

Definition Config_new (concurrency : nat) : Config := mkConfig (Scheduler_new concurrency) [] [] [].

Definition enqueue_blocking (hash_id : HashId) (request : Req) (c : Config) : Config :=
  let '(slot, is_owner, s) := find_or_insert_slot hash_id (cf_sched c) in
  mkConfig s (cf_threads c ++ [TAddCallback (length (cf_enqueued c)) hash_id request slot is_owner])
    (cf_log c) (cf_enqueued c ++ [hash_id]).

(** a task moves *)
Inductive task_step : Config → Config → Prop :=
| task_moves c i t answer s t' log :
    cf_threads c !! i = Some t → thread_step (cf_sched c) t answer = Some (s, t', log) →
    task_step c (mkConfig s (<[i := t']> (cf_threads c)) (cf_log c ++ log) (cf_enqueued c)).

(** ... or a new call is made *)
Inductive sched_step : Config → Config → Prop :=
| sched_enqueue c hash_id request : sched_step c (enqueue_blocking hash_id request c)
| sched_task c c' : task_step c c' → sched_step c c'.
End Scheduler.

Arguments RequestSlot : clear implicits.
Arguments Scheduler : clear implicits.
Arguments Thread : clear implicits.
Arguments SchedulerEvent : clear implicits.
Arguments Config : clear implicits.
