(* ===== verification/ClientSchedulerInv.v ===== *)
(** * The invariant of the request scheduler

    Counting: permits and tasks that hold one, owners of a slot, and for every call the places
    where its callback is.  Every step keeps the counts. *)

From S2P Require Import Prelude Types ClientScheduler.

(** ** Sums over lists *)

Lemma sum_insert {A} (f : A → nat) l i x y : l !! i = Some x →
  (sum_list_with f (<[i := y]> l) + f x = sum_list_with f l + f y)%nat.
Proof.
  revert i. induction l as [|z l IH]; intros [|i] Hi; simpl in *; [done|done|injection Hi as ->; lia|].
  specialize (IH i Hi). lia.
Qed.

Lemma sum_lookup_le {A} (f : A → nat) l i x : l !! i = Some x → (f x ≤ sum_list_with f l)%nat.
Proof. revert i. induction l as [|z l IH]; intros [|i] Hi; simpl in *; [done|done|injection Hi as ->; lia|]. specialize (IH i Hi). lia. Qed.

Lemma sum_zero {A} (f : A → nat) l : (∀ x, x ∈ l → f x = 0%nat) → sum_list_with f l = 0%nat.
Proof. intros Hf. induction l as [|x l IH]; simpl; [done|]. rewrite Hf by set_solver. rewrite IH; [done|]. intros; apply Hf; set_solver. Qed.

Lemma sum_pos {A} (f : A → nat) l : (0 < sum_list_with f l)%nat → ∃ i x, l !! i = Some x ∧ (0 < f x)%nat.
Proof.
  induction l as [|x l IH]; simpl; [lia|]. intros Hpos. destruct (decide (0 < f x)%nat) as [Hx|Hx]; [by exists 0%nat, x|].
  destruct IH as (i & y & Hi & Hy); [lia|]. by exists (S i), y.
Qed.

Lemma sum_le {A} (f g : A → nat) l : (∀ x, x ∈ l → (f x ≤ g x)%nat) → (sum_list_with f l ≤ sum_list_with g l)%nat.
Proof.
  intros Hfg. induction l as [|x l IH]; simpl; [done|]. assert (f x ≤ g x)%nat by (apply Hfg; set_solver).
  assert (sum_list_with f l ≤ sum_list_with g l)%nat by (apply IH; intros; apply Hfg; set_solver). lia.
Qed.

(** 1 when the proposition holds *)
Definition one (P : Prop) `{Decision P} : nat := if bool_decide P then 1 else 0.

Lemma one_true P `{Decision P} : P → one P = 1%nat.
Proof. intros HP. unfold one. by rewrite bool_decide_true. Qed.
Lemma one_false P `{Decision P} : ¬ P → one P = 0%nat.
Proof. intros HP. unfold one. by rewrite bool_decide_false. Qed.
Lemma one_le P `{Decision P} : (one P ≤ 1)%nat.
Proof. unfold one. case_bool_decide; lia. Qed.

Section Counts.
Context {Req Res : Type}.

Definition holds_permit (t : Thread Req Res) : nat :=
  match t with
  | THandle _ _ _ | TComplete _ _ _ Spawned | TCallbacks _ _ _ _ Spawned | TRemove _ _ Spawned | TRelease => 1
  | _ => 0
  end.

(** the slot a thread owns, until it has removed it from [in_flight] *)
Definition owned_slot (t : Thread Req Res) : option nat :=
  match t with
  | TAddCallback _ _ _ i true | TCallOwn _ _ _ i true _ | TAcquire _ _ _ i | THandle _ _ i
  | TComplete _ i _ _ | TCallbacks _ i _ _ _ | TRemove _ i _ => Some i
  | _ => None
  end.
Definition owns_slot (i : nat) (t : Thread Req Res) : nat := one (owned_slot t = Some i).

(** ... and has not completed *)
Definition opened_slot (t : Thread Req Res) : option nat :=
  match t with
  | TAddCallback _ _ _ i true | TCallOwn _ _ _ i true _ | TAcquire _ _ _ i | THandle _ _ i | TComplete _ i _ _ => Some i
  | _ => None
  end.
Definition opens_slot (i : nat) (t : Thread Req Res) : nat := one (opened_slot t = Some i).

(** the slot a thread refers to, and the hash it has it under *)
Definition thread_slot (t : Thread Req Res) : option (HashId * nat) :=
  match t with
  | TAddCallback _ h _ i _ | TCallOwn _ h _ i _ _ | TAcquire _ h _ i | THandle h _ i
  | TComplete h i _ _ | TCallbacks h i _ _ _ | TRemove h i _ => Some (h, i)
  | TRelease | TDone => None
  end.

(** the result a thread has in its hands *)
Definition thread_result (t : Thread Req Res) : option (Fs0Result Res) :=
  match t with
  | TCallOwn _ _ _ _ _ r | TComplete _ _ r _ | TCallbacks _ _ r _ _ => Some r
  | _ => None
  end.

Definition count (cb : nat) (l : list nat) : nat := sum_list_with (λ x, one (x = cb)) l.

(** how often a thread, a slot, the log has the callback [cb] for [h] *)
Definition thread_callbacks (cb : nat) (h : HashId) (t : Thread Req Res) : nat :=
  match t with
  | TAddCallback cb' h' _ _ _ | TCallOwn cb' h' _ _ _ _ => one (cb' = cb ∧ h' = h)
  | TCallbacks h' _ _ cbs _ => if bool_decide (h' = h) then count cb cbs else 0
  | _ => 0
  end.
Definition slot_callbacks (cb : nat) (h : HashId) (slot : RequestSlot Res) : nat :=
  if bool_decide (rs_hash slot = h) then count cb (rs_callbacks slot) else 0.
Definition event_calls (cb : nat) (h : HashId) (e : SchedulerEvent Res) : nat :=
  match e with Called cb' h' _ => one (cb' = cb ∧ h' = h) | _ => 0 end.

(** the result is what a handler returned for the hash, or there was no permit *)
Definition answered (h : HashId) (r : Fs0Result Res) (log : list (SchedulerEvent Res)) : Prop :=
  Handled h r ∈ log ∨ ∃ err, r = Err err ∧ NoPermit h err ∈ log.

Lemma answered_app h r log log' : answered h r log → answered h r (log ++ log').
Proof. unfold answered. setoid_rewrite elem_of_app. naive_solver. Qed.

(** 1 until the slot is completed *)
Definition waits (slot : RequestSlot Res) : nat := match rs_result slot with Some _ => 0 | None => 1 end.

Record sched_inv (concurrency : nat) (c : Config Req Res) : Prop := {
  si_permits : (sch_permits (cf_sched c) + sum_list_with holds_permit (cf_threads c) = Nat.max concurrency 1)%nat;
  si_owner : ∀ i slot, sch_slots (cf_sched c) !! i = Some slot →
    (sum_list_with (owns_slot i) (cf_threads c) ≤ 1)%nat ∧
    (sch_in_flight (cf_sched c) !! rs_hash slot = Some i ↔ sum_list_with (owns_slot i) (cf_threads c) = 1%nat);
  si_open : ∀ i slot, sch_slots (cf_sched c) !! i = Some slot →
    sum_list_with (opens_slot i) (cf_threads c) = waits slot ∧
    (rs_result slot ≠ None → rs_callbacks slot = []);
  si_in_flight : ∀ h i, sch_in_flight (cf_sched c) !! h = Some i →
    ∃ slot, sch_slots (cf_sched c) !! i = Some slot ∧ rs_hash slot = h;
  si_slots : ∀ j t h i, cf_threads c !! j = Some t → thread_slot t = Some (h, i) →
    ∃ slot, sch_slots (cf_sched c) !! i = Some slot ∧ rs_hash slot = h;
  si_results : ∀ j t h i r, cf_threads c !! j = Some t → thread_slot t = Some (h, i) → thread_result t = Some r →
    answered h r (cf_log c);
  si_slot_results : ∀ i slot r, sch_slots (cf_sched c) !! i = Some slot → rs_result slot = Some r →
    answered (rs_hash slot) r (cf_log c);
  si_called : ∀ cb h r, Called cb h r ∈ cf_log c → answered h r (cf_log c);
  si_count : ∀ cb h, one (cf_enqueued c !! cb = Some h) =
    (sum_list_with (thread_callbacks cb h) (cf_threads c) +
     sum_list_with (slot_callbacks cb h) (sch_slots (cf_sched c)) +
     sum_list_with (event_calls cb h) (cf_log c))%nat }.

Lemma sched_inv_new concurrency : sched_inv concurrency (Config_new concurrency).
Proof. split; simpl; try done; try lia. intros cb h r []%elem_of_nil. Qed.

Lemma owned_thread_slot t i : owned_slot t = Some i → ∃ h, thread_slot t = Some (h, i).
Proof. by destruct t as [? ? ? ? []|? ? ? ? []| | | | | | |]; simpl; intros [= ->]; eexists. Qed.

Lemma opened_owned t i : opened_slot t = Some i → owned_slot t = Some i.
Proof. by destruct t as [? ? ? ? []|? ? ? ? []| | | | | | |]. Qed.

(** no thread refers to a slot that is not there yet *)
Lemma fresh_slot_free concurrency c i : sched_inv concurrency c → (length (sch_slots (cf_sched c)) ≤ i)%nat →
  sum_list_with (owns_slot i) (cf_threads c) = 0%nat ∧ sum_list_with (opens_slot i) (cf_threads c) = 0%nat.
Proof.
  intros Hinv Hi. assert (∀ t, t ∈ cf_threads c → owned_slot t ≠ Some i) as Hfree.
  { intros t Ht Ho. apply list_elem_of_lookup in Ht as [j Hj]. destruct (owned_thread_slot t i Ho) as [h Hs].
    destruct (si_slots _ _ Hinv j t h i Hj Hs) as (slot & Hslot & _). apply lookup_lt_Some in Hslot. lia. }
  split; apply sum_zero; intros t Ht; apply one_false; [by apply Hfree|].
  intros Ho%opened_owned. by apply (Hfree t).
Qed.

(** a thread that owns a slot has it in [in_flight] under its hash *)
Lemma owner_in_flight concurrency c j t h i : sched_inv concurrency c → cf_threads c !! j = Some t →
  owned_slot t = Some i → thread_slot t = Some (h, i) → sch_in_flight (cf_sched c) !! h = Some i.
Proof.
  intros Hinv Hj Ho Hs. destruct (si_slots _ _ Hinv j t h i Hj Hs) as (slot & Hslot & <-).
  destruct (si_owner _ _ Hinv i slot Hslot) as [Hle Hiff]. apply Hiff.
  pose proof (sum_lookup_le (owns_slot i) _ _ _ Hj) as Hsum. unfold owns_slot in Hsum at 1. rewrite one_true in Hsum by done. lia.
Qed.

(** ** A step of one thread *)

(** what a step does to [in_flight]: nothing, or it removes the slot the thread owns *)
Definition flight_step (s s' : Scheduler Res) (t t' : Thread Req Res) : Prop :=
  sch_in_flight s' = sch_in_flight s ∧ owned_slot t' = owned_slot t ∨
  ∃ h i, thread_slot t = Some (h, i) ∧ owned_slot t = Some i ∧ owned_slot t' = None ∧
         sch_in_flight s' = delete h (sch_in_flight s).

(** ... and to the slots *)
Definition slots_step (s s' : Scheduler Res) (t t' : Thread Req Res) (log : list (SchedulerEvent Res)) : Prop :=
  length (sch_slots s') = length (sch_slots s) ∧
  ∀ i slot slot', sch_slots s !! i = Some slot → sch_slots s' !! i = Some slot' →
    rs_hash slot' = rs_hash slot ∧ (rs_result slot' ≠ None → rs_callbacks slot' = []) ∧
    (opens_slot i t' + waits slot = opens_slot i t + waits slot')%nat ∧
    (∀ r, rs_result slot' = Some r → answered (rs_hash slot) r log).

Lemma slots_step_lookup s s' t t' log i slot' : slots_step s s' t t' log → sch_slots s' !! i = Some slot' →
  ∃ slot, sch_slots s !! i = Some slot ∧ rs_hash slot' = rs_hash slot.
Proof.
  intros [Hlen Hslots] Hi. destruct (sch_slots s !! i) as [slot|] eqn:Hslot.
  - exists slot. split; [done|]. by apply (Hslots i).
  - apply lookup_ge_None in Hslot. apply lookup_lt_Some in Hi. lia.
Qed.

Lemma thread_keeps concurrency c j t s' t' log :
  sched_inv concurrency c → cf_threads c !! j = Some t →
  (sch_permits s' + holds_permit t' = sch_permits (cf_sched c) + holds_permit t)%nat →
  flight_step (cf_sched c) s' t t' → slots_step (cf_sched c) s' t t' (cf_log c ++ log) →
  (∀ h i, thread_slot t' = Some (h, i) → thread_slot t = Some (h, i)) →
  (∀ h i r, thread_slot t' = Some (h, i) → thread_result t' = Some r → answered h r (cf_log c ++ log)) →
  (∀ cb h r, Called cb h r ∈ log → answered h r (cf_log c ++ log)) →
  (∀ cb h, thread_callbacks cb h t + sum_list_with (slot_callbacks cb h) (sch_slots (cf_sched c)) =
           thread_callbacks cb h t' + sum_list_with (slot_callbacks cb h) (sch_slots s') +
           sum_list_with (event_calls cb h) log)%nat →
  sched_inv concurrency (mkConfig s' (<[j := t']> (cf_threads c)) (cf_log c ++ log) (cf_enqueued c)).
Proof.
  intros Hinv Hj Hpermits Hflight Hslots Hts Hres Hcalled Hcount. destruct Hinv eqn:Heq. clear Heq.
  split; cbn [cf_sched cf_threads cf_log cf_enqueued].
  - pose proof (sum_insert holds_permit _ _ _ t' Hj). lia.
  - intros i slot' Hslot'. destruct (slots_step_lookup _ _ _ _ _ _ _ Hslots Hslot') as (slot & Hslot & ->).
    destruct (si_owner0 i slot Hslot) as [Hle Hiff]. pose proof (sum_insert (owns_slot i) _ _ _ t' Hj) as Hsum.
    destruct Hflight as [[-> Ho]|(h & i0 & Hth & Ho & Ho' & ->)].
    + unfold owns_slot in Hsum at 2 4. rewrite Ho in Hsum. split; [lia|]. rewrite Hiff. lia.
    + unfold owns_slot in Hsum at 2 4. rewrite (one_false (owned_slot t' = _)) in Hsum by (by rewrite Ho').
      pose proof (owner_in_flight _ _ _ _ _ _ Hinv Hj Ho Hth) as Hin.
      split; [lia|]. destruct (decide (rs_hash slot = h)) as [<-|Hne].
      * rewrite lookup_delete_eq. split; [done|]. intros Hone. exfalso. rewrite Ho in Hsum.
        destruct (decide (i0 = i)) as [->|Hi]; [rewrite one_true in Hsum by done; lia|].
        rewrite one_false in Hsum by congruence. assert (sch_in_flight (cf_sched c) !! rs_hash slot = Some i) by (apply Hiff; lia). congruence.
      * rewrite lookup_delete_ne by done. rewrite Hiff, Ho in *.
        rewrite one_false in Hsum; [lia|]. intros [= ->]. destruct (si_slots0 _ _ _ _ Hj Hth) as (? & Hs & Hh). congruence.
  - intros i slot' Hslot'. destruct (slots_step_lookup _ _ _ _ _ _ _ Hslots Hslot') as (slot & Hslot & _).
    destruct (proj2 Hslots i slot slot' Hslot Hslot') as (_ & Hcb & Hopen & _). destruct (si_open0 i slot Hslot) as [Hsum _].
    pose proof (sum_insert (opens_slot i) _ _ _ t' Hj). split; [lia|done].
  - intros h i Hin. assert (sch_in_flight (cf_sched c) !! h = Some i) as Hin0.
    { destruct Hflight as [[Hf _]|(h0 & i0 & _ & _ & _ & Hf)]; rewrite Hf in Hin; [done|by apply lookup_delete_Some in Hin as [_ ?]]. }
    destruct (si_in_flight0 h i Hin0) as (slot & Hslot & Hh).
    destruct (lookup_lt_is_Some_2 (sch_slots s') i) as [slot' Hslot'].
    { apply lookup_lt_Some in Hslot. destruct Hslots as [-> _]. done. }
    exists slot'. split; [done|]. destruct (proj2 Hslots i slot slot' Hslot Hslot') as [-> _]. done.
  - intros k t0 h i Hk Hth.
    assert (∃ slot, sch_slots (cf_sched c) !! i = Some slot ∧ rs_hash slot = h) as (slot & Hslot & Hh).
    { apply list_lookup_insert_Some in Hk as [(-> & <- & _)|[_ Hk]]; [by apply (si_slots0 k t), Hts|by apply (si_slots0 k t0)]. }
    destruct (lookup_lt_is_Some_2 (sch_slots s') i) as [slot' Hslot'].
    { apply lookup_lt_Some in Hslot. destruct Hslots as [-> _]. done. }
    exists slot'. split; [done|]. destruct (proj2 Hslots i slot slot' Hslot Hslot') as [-> _]. done.
  - intros k t0 h i r Hk Hth Hr. apply list_lookup_insert_Some in Hk as [(-> & <- & _)|[_ Hk]]; [by apply (Hres h i)|].
    apply answered_app. by apply (si_results0 k t0 h i).
  - intros i slot' r Hslot' Hr. destruct (slots_step_lookup _ _ _ _ _ _ _ Hslots Hslot') as (slot & Hslot & Hh). rewrite Hh.
    by apply (proj2 Hslots i slot slot' Hslot Hslot').
  - intros cb h r [Hin|Hin]%elem_of_app; [by apply answered_app, (si_called0 cb)|by apply (Hcalled cb)].
  - intros cb h. rewrite si_count0, sum_list_with_app. pose proof (sum_insert (thread_callbacks cb h) _ _ _ t' Hj).
    specialize (Hcount cb h). lia.
Qed.

(** steps that leave the slots alone *)
Lemma slots_same concurrency c s' t t' log :
  sched_inv concurrency c → sch_slots s' = sch_slots (cf_sched c) → opened_slot t' = opened_slot t →
  slots_step (cf_sched c) s' t t' (cf_log c ++ log).
Proof.
  intros Hinv Hs Ho. split; [by rewrite Hs|]. rewrite Hs. intros i slot slot' Hi Hi'. simplify_eq.
  destruct (si_open _ _ Hinv i slot Hi) as [_ Hcb]. split_and!; [done|done|unfold opens_slot; rewrite Ho; lia|].
  intros r Hr. apply answered_app. by apply (si_slot_results _ _ Hinv i).
Qed.

(** steps that change one slot *)
Lemma slots_set concurrency c i slot0 slot1 t t' log :
  sched_inv concurrency c → sch_slots (cf_sched c) !! i = Some slot0 → rs_hash slot1 = rs_hash slot0 →
  (rs_result slot1 ≠ None → rs_callbacks slot1 = []) →
  (∀ k, opens_slot k t' + (if bool_decide (k = i) then waits slot0 else 0) =
        opens_slot k t + (if bool_decide (k = i) then waits slot1 else 0))%nat →
  (∀ r, rs_result slot1 = Some r → answered (rs_hash slot0) r (cf_log c ++ log)) →
  slots_step (cf_sched c) (set_slot (cf_sched c) i slot1) t t' (cf_log c ++ log).
Proof.
  intros Hinv H0' Hh Hcb Hopen Hr. split; [apply length_insert|]. intros k slot slot' Hk Hk'. simpl in Hk'.
  specialize (Hopen k). apply list_lookup_insert_Some in Hk' as [(-> & <- & _)|[Hne Hk']].
  - simplify_eq. rewrite bool_decide_true in Hopen by done. by split_and!.
  - simplify_eq. rewrite bool_decide_false in Hopen by done. destruct (si_open _ _ Hinv k slot Hk) as [_ Hcb'].
    split_and!; [done|done|lia|]. intros r Hr'. apply answered_app. by apply (si_slot_results _ _ Hinv k).
Qed.

Lemma slots_sum cb h (c : Config Req Res) i slot0 slot1 : sch_slots (cf_sched c) !! i = Some slot0 →
  (sum_list_with (slot_callbacks cb h) (sch_slots (set_slot (cf_sched c) i slot1)) + slot_callbacks cb h slot0 =
   sum_list_with (slot_callbacks cb h) (sch_slots (cf_sched c)) + slot_callbacks cb h slot1)%nat.
Proof. intros Hi. by apply sum_insert. Qed.

Lemma count_app cb l l' : count cb (l ++ l') = (count cb l + count cb l')%nat.
Proof. apply sum_list_with_app. Qed.


(** the callback moves from the thread to the slot *)
Lemma add_callback_count (c : Config Req Res) i slot h cb cb' h' :
  sch_slots (cf_sched c) !! i = Some slot → rs_hash slot = h →
  (one (cb = cb' ∧ h = h') + sum_list_with (slot_callbacks cb' h') (sch_slots (cf_sched c)) =
   sum_list_with (slot_callbacks cb' h')
     (sch_slots (set_slot (cf_sched c) i (mkRequestSlot (rs_hash slot) (rs_result slot) (rs_callbacks slot ++ [cb])))))%nat.
Proof.
  intros Hslot <-. pose proof (slots_sum cb' h' c i slot (mkRequestSlot (rs_hash slot) (rs_result slot) (rs_callbacks slot ++ [cb])) Hslot) as Hsum.
  unfold slot_callbacks at 2 4 in Hsum. cbn [rs_hash rs_callbacks] in Hsum. rewrite count_app in Hsum.
  unfold count at 3 in Hsum. cbn [sum_list_with foldr] in Hsum. unfold one in *.
  destruct (decide (rs_hash slot = h')) as [<-|Hne].
  - rewrite !(bool_decide_true (rs_hash slot = rs_hash slot)) in Hsum by done.
    destruct (decide (cb = cb')); [rewrite (bool_decide_true (cb = cb')) in Hsum by done; rewrite bool_decide_true by done
      |rewrite (bool_decide_false (cb = cb')) in Hsum by done; rewrite bool_decide_false by naive_solver]; lia.
  - rewrite !(bool_decide_false (rs_hash slot = h')) in Hsum by done. rewrite bool_decide_false by naive_solver. lia.
Qed.

(** completing moves the callbacks from the slot to the thread *)
Lemma complete_count (c : Config Req Res) i slot h r mode cb' h' :
  sch_slots (cf_sched c) !! i = Some slot → rs_hash slot = h →
  (sum_list_with (slot_callbacks cb' h') (sch_slots (cf_sched c)) =
   thread_callbacks cb' h' (TCallbacks h i r (rs_callbacks slot) mode) +
   sum_list_with (slot_callbacks cb' h') (sch_slots (set_slot (cf_sched c) i (mkRequestSlot (rs_hash slot) (Some r) []))))%nat.
Proof.
  intros Hslot <-. pose proof (slots_sum cb' h' c i slot (mkRequestSlot (rs_hash slot) (Some r) []) Hslot) as Hsum.
  unfold slot_callbacks at 2 4 in Hsum. cbn [rs_hash rs_callbacks] in Hsum.
  unfold thread_callbacks. change (count cb' []) with 0%nat in Hsum. case_bool_decide; lia.
Qed.

Ltac easy_case := intros *; simpl; first [done | set_solver | naive_solver].

(** a step that changes no slot, nor what the thread owns *)
Lemma same_keeps concurrency c j t s' t' log :
  sched_inv concurrency c → cf_threads c !! j = Some t →
  (sch_permits s' + holds_permit t' = sch_permits (cf_sched c) + holds_permit t)%nat →
  sch_in_flight s' = sch_in_flight (cf_sched c) → sch_slots s' = sch_slots (cf_sched c) →
  owned_slot t' = owned_slot t → opened_slot t' = opened_slot t →
  (∀ h i, thread_slot t' = Some (h, i) → thread_slot t = Some (h, i)) →
  (∀ h i r, thread_slot t' = Some (h, i) → thread_result t' = Some r → answered h r (cf_log c ++ log)) →
  (∀ cb h r, Called cb h r ∈ log → answered h r (cf_log c ++ log)) →
  (∀ cb h, thread_callbacks cb h t = thread_callbacks cb h t' + sum_list_with (event_calls cb h) log)%nat →
  sched_inv concurrency (mkConfig s' (<[j := t']> (cf_threads c)) (cf_log c ++ log) (cf_enqueued c)).
Proof.
  intros Hinv Hj Hp Hf Hs Hown Hopen Hts Hres Hcalled Hcount.
  apply (thread_keeps concurrency c j t s' t' log Hinv Hj); try done.
  - by left.
  - by apply (slots_same concurrency).
  - intros cb h. rewrite Hs, Hcount. lia.
Qed.

Lemma add_callback_keeps concurrency c j cb h req i owner s t' log :
  sched_inv concurrency c → cf_threads c !! j = Some (TAddCallback cb h req i owner) →
  thread_step (cf_sched c) (TAddCallback cb h req i owner) Turn = Some (s, t', log) →
  sched_inv concurrency (mkConfig s (<[j := t']> (cf_threads c)) (cf_log c ++ log) (cf_enqueued c)).
Proof.
  intros Hinv Hj Hstep. simpl in Hstep. destruct (si_slots _ _ Hinv j _ h i Hj eq_refl) as (slot & Hslot & Hh).
  rewrite Hslot in Hstep. simpl in Hstep. unfold add_callback in Hstep. destruct (rs_result slot) as [r|] eqn:Hr.
  - injection Hstep as <- <- <-.
    assert (set_slot (cf_sched c) i slot = cf_sched c) as ->.
    { unfold set_slot. rewrite list_insert_id by done. by destruct (cf_sched c). }
    apply (same_keeps concurrency c j _ _ _ _ Hinv Hj); try easy_case.
    intros h' i' r' [= <- <-] [= <-]. rewrite app_nil_r, <-Hh. by apply (si_slot_results _ _ Hinv i).
  - destruct (after_callback cb h req i owner) as [t1 log1] eqn:Hafter. injection Hstep as <- <- <-.
    pose proof (λ cb' h', add_callback_count c i slot h cb cb' h' Hslot Hh) as Hcount. rewrite Hr in Hcount.
    destruct owner; injection Hafter as <- <-; apply (thread_keeps concurrency c j _ _ _ _ Hinv Hj); try easy_case.
    all: try (left; split; done).
    all: try (apply (slots_set concurrency c i slot _ _ _ _ Hinv Hslot); try done; intros k; unfold waits; rewrite Hr; simpl; case_bool_decide; done).
    all: intros cb' h'; specialize (Hcount cb' h'); simpl in *; lia.
Qed.

Lemma complete_keeps concurrency c j h i r mode s t' log :
  sched_inv concurrency c → cf_threads c !! j = Some (TComplete h i r mode) →
  thread_step (cf_sched c) (TComplete h i r mode) Turn = Some (s, t', log) →
  sched_inv concurrency (mkConfig s (<[j := t']> (cf_threads c)) (cf_log c ++ log) (cf_enqueued c)).
Proof.
  intros Hinv Hj Hstep. simpl in Hstep. destruct (si_slots _ _ Hinv j _ h i Hj eq_refl) as (slot & Hslot & Hh).
  rewrite Hslot in Hstep. injection Hstep as <- <- <-.
  assert (answered h r (cf_log c)) as Hans by (by apply (si_results _ _ Hinv j _ h i r Hj)).
  apply (thread_keeps concurrency c j _ _ _ _ Hinv Hj); try easy_case.
  - by left.
  - apply (slots_set concurrency c i slot _ _ _ _ Hinv Hslot); try done.
    + intros k. destruct (si_open _ _ Hinv i slot Hslot) as [Hsum _].
      pose proof (sum_lookup_le (opens_slot i) _ _ _ Hj) as Hle.
      assert (opens_slot k (TCallbacks h i r (rs_callbacks slot) mode) = 0%nat) as -> by (by apply one_false).
      assert (opens_slot k (TComplete h i r mode) = one (Some i = Some k)) as -> by done.
      assert (opens_slot i (TComplete h i r mode) = 1%nat) as Hone by (by apply one_true).
      unfold waits in *. destruct (rs_result slot); [lia|]. cbn [rs_result].
      case_bool_decide; [rewrite one_true by congruence|rewrite one_false by congruence]; lia.
    + intros r' [= <-]. rewrite app_nil_r, Hh. done.
  - intros h' i' r' [= <- <-] [= <-]. by rewrite app_nil_r.
  - intros cb' h'. rewrite (complete_count c i slot h r mode cb' h' Hslot Hh). simpl. lia.
Qed.

Lemma sched_inv_task concurrency c c' : sched_inv concurrency c → task_step c c' → sched_inv concurrency c'.
Proof.
  intros Hinv Hstep. destruct Hstep as [c j t answer s t' log Hj Hstep].
  pose proof (si_results _ _ Hinv j t) as Hresults.
  destruct t as [cb h req i owner|cb h req i owner r|cb h req i|h req i|h i r mode|h i r [|cb cbs] mode|h i mode| |];
    destruct answer as [|[[]|err]|hr]; try done.
  - by eapply add_callback_keeps.
  - simpl in Hstep. assert (answered h r (cf_log c)) as Hans by (by apply (Hresults h i)).
    destruct owner; injection Hstep as <- <- <-; apply (same_keeps concurrency c j _ _ _ _ Hinv Hj); try easy_case.
    all: try (intros cb' h'; simpl; lia).
    all: intros cb' h' r' Hin; apply answered_app; set_solver.
  - simpl in Hstep. destruct (sch_permits (cf_sched c)) as [|n] eqn:Hn; [done|]. injection Hstep as <- <- <-.
    apply (same_keeps concurrency c j _ _ _ _ Hinv Hj); try easy_case. simpl. lia.
  - injection Hstep as <- <- <-. apply (same_keeps concurrency c j _ _ _ _ Hinv Hj); try easy_case.
    intros h' i' r' [= <- <-] [= <-]. right. exists (Internal err). set_solver.
  - injection Hstep as <- <- <-. apply (same_keeps concurrency c j _ _ _ _ Hinv Hj); try easy_case.
    intros h' i' r' [= <- <-] [= <-]. left. set_solver.
  - by eapply complete_keeps.
  - injection Hstep as <- <- <-. apply (same_keeps concurrency c j _ _ _ _ Hinv Hj); try easy_case.
    intros cb' h'. simpl. by case_bool_decide.
  - injection Hstep as <- <- <-. assert (answered h r (cf_log c)) as Hans by (by apply (Hresults h i)).
    apply (same_keeps concurrency c j _ _ _ _ Hinv Hj); try easy_case.
    + intros h' i' r' [= <- <-] [= <-]. by apply answered_app.
    + intros cb' h' r' Hin. apply answered_app. set_solver.
    + intros cb' h'. unfold thread_callbacks, event_calls, count, one. simpl.
      destruct (decide (h = h')); [rewrite !(bool_decide_true (h = h')) by done|rewrite !(bool_decide_false (h = h')) by done].
      * destruct (decide (cb = cb')); [rewrite !bool_decide_true by done|rewrite !bool_decide_false by naive_solver]; lia.
      * rewrite bool_decide_false by naive_solver. lia.
  - destruct mode as [|cb err]; injection Hstep as <- <- <-; apply (thread_keeps concurrency c j _ _ _ _ Hinv Hj); try easy_case.
    all: try (right; by exists h, i).
    all: by apply (slots_same concurrency).
  - injection Hstep as <- <- <-. apply (same_keeps concurrency c j _ _ _ _ Hinv Hj); try easy_case.
Qed.

(** ** A new call *)

Lemma enqueued_count (l : list HashId) h cb h' :
  one ((l ++ [h]) !! cb = Some h') = (one (l !! cb = Some h') + one (length l = cb ∧ h = h'))%nat.
Proof.
  destruct (decide (cb < length l)%nat) as [Hlt|Hge].
  - rewrite lookup_app_l by done. rewrite (one_false (length l = cb ∧ _)) by (intros [? _]; lia). lia.
  - rewrite (lookup_ge_None_2 l) by lia. rewrite (one_false (None = Some h')) by done.
    destruct (decide (cb = length l)) as [->|Hne].
    + rewrite lookup_app_r, Nat.sub_diag by lia. simpl. destruct (decide (h = h')) as [->|Hne].
      * by rewrite !one_true.
      * rewrite !one_false by (congruence || tauto). done.
    + rewrite lookup_ge_None_2 by (rewrite length_app; simpl; lia). rewrite !one_false by (done || (intros [? _]; lia)). done.
Qed.

Lemma sched_inv_join concurrency c h req i : sched_inv concurrency c →
  sch_in_flight (cf_sched c) !! h = Some i →
  sched_inv concurrency (mkConfig (cf_sched c) (cf_threads c ++ [TAddCallback (length (cf_enqueued c)) h req i false])
    (cf_log c) (cf_enqueued c ++ [h])).
Proof.
  intros Hinv Hi. pose proof Hinv as []. destruct (si_in_flight0 h i Hi) as (slot0 & Hslot0 & Hh0).
  split; cbn [cf_sched cf_threads cf_log cf_enqueued]; try done.
  - rewrite sum_list_with_app. simpl. lia.
  - intros k slot Hk. rewrite !sum_list_with_app. cbn [sum_list_with foldr].
    change (owns_slot k (TAddCallback _ h req i false)) with 0%nat. rewrite !Nat.add_0_r. by apply si_owner0.
  - intros k slot Hk. rewrite sum_list_with_app. cbn [sum_list_with foldr].
    change (opens_slot k (TAddCallback _ h req i false)) with 0%nat. rewrite !Nat.add_0_r. by apply si_open0.
  - intros j t h' i' Hj Ht. apply lookup_app_Some in Hj as [Hj|[_ Hj]]; [by apply (si_slots0 j t)|].
    apply list_lookup_singleton_Some in Hj as [_ <-]. injection Ht as <- <-. by exists slot0.
  - intros j t h' i' r Hj Ht Hr. apply lookup_app_Some in Hj as [Hj|[_ Hj]]; [by apply (si_results0 j t h' i')|].
    by apply list_lookup_singleton_Some in Hj as [_ <-].
  - intros cb h'. rewrite enqueued_count, si_count0, sum_list_with_app. simpl. lia.
Qed.

Lemma sched_inv_own concurrency c h req : sched_inv concurrency c → sch_in_flight (cf_sched c) !! h = None →
  let i := length (sch_slots (cf_sched c)) in
  sched_inv concurrency (mkConfig
    (mkScheduler (sch_permits (cf_sched c)) (<[h := i]> (sch_in_flight (cf_sched c))) (sch_slots (cf_sched c) ++ [RequestSlot_new h]))
    (cf_threads c ++ [TAddCallback (length (cf_enqueued c)) h req i true]) (cf_log c) (cf_enqueued c ++ [h])).
Proof.
  intros Hinv Hnone i. pose proof Hinv as []. destruct (fresh_slot_free concurrency c i Hinv (le_n _)) as [Hfree1 Hfree2].
  set (t0 := TAddCallback (length (cf_enqueued c)) h req i true).
  assert (∀ k slot, (sch_slots (cf_sched c) ++ [RequestSlot_new h]) !! k = Some slot →
    k ≠ i ∧ sch_slots (cf_sched c) !! k = Some slot ∨ k = i ∧ slot = RequestSlot_new h) as Hcases.
  { intros k slot [Hk|[Hge Hk]]%lookup_app_Some; [left|right].
    - split; [|done]. apply lookup_lt_Some in Hk. subst i. lia.
    - apply list_lookup_singleton_Some in Hk as [Hk <-]. subst i. split; [lia|done]. }
  assert (∀ k, owns_slot k t0 = one (i = k) ∧ opens_slot k t0 = one (i = k)) as Ht0.
  { intros k. unfold owns_slot, opens_slot. simpl. destruct (decide (i = k)) as [->|]; [by rewrite !one_true|by rewrite !one_false by congruence]. }
  split; cbn [cf_sched cf_threads cf_log cf_enqueued sch_permits sch_in_flight sch_slots].
  - rewrite sum_list_with_app. simpl. lia.
  - intros k slot Hk. rewrite !sum_list_with_app. cbn [sum_list_with foldr]. destruct (Ht0 k) as [-> _].
    apply Hcases in Hk as [[Hne Hk]|[-> ->]].
    + rewrite one_false by done. destruct (si_owner0 k slot Hk) as [Hle Hiff]. rewrite Nat.add_0_r. split; [done|].
      rewrite <-Hiff. destruct (decide (rs_hash slot = h)) as [Heq|]; [|by rewrite lookup_insert_ne].
      rewrite Heq, lookup_insert_eq, Hnone. naive_solver.
    + rewrite Hfree1, one_true by done. simpl. by rewrite lookup_insert_eq.
  - intros k slot Hk. rewrite !sum_list_with_app. cbn [sum_list_with foldr]. destruct (Ht0 k) as [_ ->].
    apply Hcases in Hk as [[Hne Hk]|[-> ->]].
    + rewrite one_false by done. rewrite Nat.add_0_r. by apply si_open0.
    + by rewrite Hfree2, one_true.
  - intros h' k. destruct (decide (h' = h)) as [->|Hne].
    + rewrite lookup_insert_eq. intros [= <-]. exists (RequestSlot_new h). split; [|done].
      by rewrite lookup_app_r, Nat.sub_diag by (subst i; lia).
    + rewrite lookup_insert_ne by done. intros Hk. destruct (si_in_flight0 h' k Hk) as (slot & Hs & Hh).
      exists slot. split; [|done]. by apply lookup_app_l_Some.
  - intros j t h' k Hj Ht. apply lookup_app_Some in Hj as [Hj|[_ Hj]].
    + destruct (si_slots0 j t h' k Hj Ht) as (slot & Hs & Hh). exists slot. split; [|done]. by apply lookup_app_l_Some.
    + apply list_lookup_singleton_Some in Hj as [_ <-]. injection Ht as <- <-. exists (RequestSlot_new h). split; [|done].
      by rewrite lookup_app_r, Nat.sub_diag by (subst i; lia).
  - intros j t h' k r Hj Ht Hr. apply lookup_app_Some in Hj as [Hj|[_ Hj]]; [by apply (si_results0 j t h' k)|].
    by apply list_lookup_singleton_Some in Hj as [_ <-].
  - intros k slot r Hk Hr. apply Hcases in Hk as [[Hne Hk]|[-> ->]]; [by apply (si_slot_results0 k)|done].
  - intros cb h' r Hin. by apply (si_called0 cb).
  - intros cb h'. rewrite enqueued_count, si_count0, !sum_list_with_app. simpl.
    assert (slot_callbacks cb h' (RequestSlot_new h) = 0%nat) as -> by (unfold slot_callbacks; simpl; by case_bool_decide). lia.
Qed.

Lemma sched_inv_step concurrency c c' : sched_inv concurrency c → sched_step c c' → sched_inv concurrency c'.
Proof.
  intros Hinv Hs. destruct Hs as [c0 h req|c0 c1 Hstep]; [|by eapply sched_inv_task]. unfold enqueue_blocking, find_or_insert_slot.
  destruct (sch_in_flight (cf_sched c0) !! h) as [i|] eqn:Hi; [by apply sched_inv_join|by apply sched_inv_own].
Qed.

Lemma sched_inv_reachable concurrency c : rtc sched_step (Config_new concurrency) c → sched_inv concurrency c.
Proof.
  assert (∀ c0 c, rtc sched_step c0 c → sched_inv concurrency c0 → sched_inv concurrency c) as Hgen.
  { clear c. intros c0 c Hrtc. induction Hrtc as [|c0 c1 c Hstep _ IH]; [done|]. intros Hc0. by eapply IH, sched_inv_step. }
  intros Hsteps. by apply (Hgen _ _ Hsteps), sched_inv_new.
Qed.
End Counts.
