(* ===== verification/ClientSchedulerFacts.v ===== *)
(** * What the request scheduler promises

    Safety in every reachable configuration, and that the calls already made come to an end
    with every callback called once, whatever the order in which the tasks move. *)

From S2P Require Import Prelude Types ClientScheduler ClientSchedulerInv.

Section Facts.
Context {Req Res : Type}.

Definition handles (t : Thread Req Res) : nat := match t with THandle _ _ _ => 1 | _ => 0 end.
Definition handles_hash (h : HashId) (t : Thread Req Res) : nat :=
  match t with THandle h' _ _ => one (h' = h) | _ => 0 end.

(** C13. Whatever calls are made and however the tasks interleave: no more handlers run at a time than
    the scheduler has permits (at least one), and no two for one hash; a callback is called at most once, with
    the result a handler returned for the hash of its call, or the error of the semaphore; and the callback of
    every call made is called, or still held by exactly one of the tasks and slots. *)
Theorem scheduler_safe concurrency (c : Config Req Res) :
  rtc sched_step (Config_new concurrency) c →
  (sum_list_with handles (cf_threads c) ≤ Nat.max concurrency 1)%nat ∧
  (∀ h, sum_list_with (handles_hash h) (cf_threads c) ≤ 1)%nat ∧
  (∀ cb h r, Called cb h r ∈ cf_log c →
     cf_enqueued c !! cb = Some h ∧ sum_list_with (event_calls cb h) (cf_log c) = 1%nat ∧
     answered h r (cf_log c)) ∧
  (∀ cb h, cf_enqueued c !! cb = Some h →
     sum_list_with (event_calls cb h) (cf_log c) = 1%nat ∨
     (sum_list_with (thread_callbacks cb h) (cf_threads c) +
      sum_list_with (slot_callbacks cb h) (sch_slots (cf_sched c)))%nat = 1%nat).
Proof.
  intros Hc%sched_inv_reachable. split; [|split; [|split]].
  - pose proof (si_permits _ _ Hc). assert (sum_list_with handles (cf_threads c) ≤ sum_list_with holds_permit (cf_threads c))%nat; [|lia].
    apply sum_le. intros t _. by destruct t as [| | | |? ? ? []|? ? ? ? []|? ? []| |]; simpl; lia.
  - intros h. destruct (decide (0 < sum_list_with (handles_hash h) (cf_threads c))%nat) as [Hpos|]; [|lia].
    apply sum_pos in Hpos as (j & t & Hj & Ht).
    destruct t as [| | |h' req i| | | | |]; simpl in Ht; try lia.
    assert (h' = h) as -> by (destruct (decide (h' = h)); [done|rewrite one_false in Ht by done; lia]).
    pose proof (owner_in_flight _ _ _ _ _ _ Hc Hj eq_refl eq_refl) as Hin.
    destruct (si_slots _ _ Hc j _ h i Hj eq_refl) as (slot & Hslot & _).
    destruct (si_owner _ _ Hc i slot Hslot) as [Hle _]. etrans; [|exact Hle]. apply sum_le. intros t Ht'.
    apply list_elem_of_lookup in Ht' as [j' Hj'].
    destruct t as [| | |h' req' i'| | | | |]; simpl; try lia.
    unfold one at 1. case_bool_decide as Hh; [|lia]. subst h'.
    pose proof (owner_in_flight _ _ _ _ _ _ Hc Hj' eq_refl eq_refl) as Hin'. simplify_eq. unfold owns_slot. by rewrite one_true.
  - intros cb h r Hin. assert (0 < sum_list_with (event_calls cb h) (cf_log c))%nat as Hpos.
    { apply list_elem_of_lookup in Hin as [k Hk]. pose proof (sum_lookup_le (event_calls cb h) _ _ _ Hk) as Hle.
      simpl in Hle. rewrite one_true in Hle by done. lia. }
    pose proof (si_count _ _ Hc cb h) as Hcount. pose proof (one_le (cf_enqueued c !! cb = Some h)).
    split; [|split; [lia|by apply (si_called _ _ Hc cb)]].
    destruct (decide (cf_enqueued c !! cb = Some h)); [done|]. rewrite one_false in Hcount by done. lia.
  - intros cb h Hcb. pose proof (si_count _ _ Hc cb h) as Hcount. rewrite one_true in Hcount by done. lia.
Qed.

(** ** Termination *)

(** the steps a place has still to make, the callbacks of its slot apart *)
Definition thread_work (t : Thread Req Res) : nat :=
  match t with
  | TAddCallback _ _ _ _ _ => 9
  | TCallOwn _ _ _ _ _ _ => 7
  | TAcquire _ _ _ _ => 6
  | THandle _ _ _ => 5
  | TComplete _ _ _ _ => 4
  | TCallbacks _ _ _ callbacks _ => 3 + length callbacks
  | TRemove _ _ _ => 2
  | TRelease => 1
  | TDone => 0
  end.
Definition slot_work (slot : RequestSlot Res) : nat := length (rs_callbacks slot).
Definition work (c : Config Req Res) : nat :=
  (sum_list_with thread_work (cf_threads c) + sum_list_with slot_work (sch_slots (cf_sched c)))%nat.

Lemma task_step_work (c c' : Config Req Res) : task_step c c' → (work c' < work c)%nat.
Proof.
  intros Hstep. destruct Hstep as [c j t answer s t' log Hj Hstep]. unfold work. cbn [cf_threads cf_sched].
  pose proof (sum_insert thread_work _ _ _ t' Hj) as Hsum.
  assert (thread_work t' + sum_list_with slot_work (sch_slots s) <
          thread_work t + sum_list_with slot_work (sch_slots (cf_sched c)))%nat; [|lia].
  assert (∀ i slot slot', sch_slots (cf_sched c) !! i = Some slot →
    (sum_list_with slot_work (sch_slots (set_slot (cf_sched c) i slot')) + slot_work slot =
     sum_list_with slot_work (sch_slots (cf_sched c)) + slot_work slot')%nat) as Hset by (intros; by apply sum_insert).
  destruct t as [cb h req i owner|cb h req i owner r|cb h req i|h req i|h i r mode|h i r [|cb cbs] mode|h i mode| |];
    destruct answer as [|[[]|err]|hr]; try done; simpl in Hstep.
  - destruct (sch_slots (cf_sched c) !! i) as [slot|] eqn:Hslot; [|done]. simpl in Hstep. unfold add_callback in Hstep.
    destruct (rs_result slot) as [r|].
    + injection Hstep as <- <- <-. specialize (Hset i slot slot Hslot). cbn [thread_work]. lia.
    + destruct (after_callback cb h req i owner) as [t1 log1] eqn:Hafter. injection Hstep as <- <- <-.
      pose proof (Hset i slot (mkRequestSlot (rs_hash slot) None (rs_callbacks slot ++ [cb])) Hslot) as Hs.
      unfold slot_work at 2 4 in Hs. cbn [rs_callbacks] in Hs. rewrite length_app in Hs. cbn [length] in Hs.
      destruct owner; injection Hafter as <- <-; cbn [thread_work]; lia.
  - destruct owner; injection Hstep as <- <- <-; simpl; lia.
  - destruct (sch_permits (cf_sched c)); [done|]. injection Hstep as <- <- <-. simpl. lia.
  - injection Hstep as <- <- <-. simpl. lia.
  - injection Hstep as <- <- <-. simpl. lia.
  - destruct (sch_slots (cf_sched c) !! i) as [slot|] eqn:Hslot; [|done]. injection Hstep as <- <- <-.
    pose proof (Hset i slot (mkRequestSlot (rs_hash slot) (Some r) []) Hslot) as Hs.
    unfold slot_work at 2 4 in Hs. cbn [rs_callbacks length] in Hs. cbn [thread_work]. lia.
  - injection Hstep as <- <- <-. simpl. lia.
  - injection Hstep as <- <- <-. simpl. lia.
  - destruct mode; injection Hstep as <- <- <-; simpl; lia.
  - injection Hstep as <- <- <-. simpl. lia.
Qed.

Lemma after_task_step (c : Config Req Res) : ∀ n c', nsteps task_step n c c' → (n + work c' ≤ work c)%nat.
Proof.
  intros n c' Hsteps. induction Hsteps as [|n c c1 c' Hstep _ IH]; [lia|]. apply task_step_work in Hstep. lia.
Qed.

(** a place that waits for nothing but its turn, or for its handler, can move *)
Lemma thread_can_move concurrency (c : Config Req Res) j t (r0 : Fs0Result Res) : sched_inv concurrency c → cf_threads c !! j = Some t →
  t ≠ TDone → (match t with TAcquire _ _ _ _ => sch_permits (cf_sched c) ≠ 0%nat | _ => True end) →
  ∃ c', task_step c c'.
Proof.
  intros Hinv Hj Hdone Hacq.
  assert (∃ answer s t' log, thread_step (cf_sched c) t answer = Some (s, t', log)) as (answer & s & t' & log & Hs);
    [|eexists; by eapply task_moves].
  pose proof (si_slots _ _ Hinv j t) as Hslots.
  destruct t as [cb h req i owner|cb h req i owner r|cb h req i|h req i|h i r mode|h i r [|cb cbs] mode|h i mode| |]; [| | | | | | | | |done].
  - destruct (Hslots h i Hj eq_refl) as (slot & Hslot & _). exists Turn. simpl. rewrite Hslot. simpl. unfold add_callback.
    destruct (rs_result slot); [by repeat eexists|]. destruct owner; by repeat eexists.
  - exists Turn. simpl. destruct owner; by repeat eexists.
  - exists (Permit (Ok tt)). simpl. destruct (sch_permits (cf_sched c)); [done|]. by repeat eexists.
  - exists (HandlerReturns r0). by repeat eexists.
  - destruct (Hslots h i Hj eq_refl) as (slot & Hslot & _). exists Turn. simpl. rewrite Hslot. by repeat eexists.
  - exists Turn. by repeat eexists.
  - exists Turn. by repeat eexists.
  - exists Turn. simpl. destruct mode; by repeat eexists.
  - exists Turn. by repeat eexists.
Qed.

(** no deadlock: when nothing can move every task is done *)
Lemma stuck_done concurrency (c : Config Req Res) (r0 : Fs0Result Res) : sched_inv concurrency c → (∀ c', ¬ task_step c c') →
  ∀ t, t ∈ cf_threads c → t = TDone.
Proof.
  intros Hinv Hstuck.
  assert (∀ j t, cf_threads c !! j = Some t → t = TDone ∨
    sch_permits (cf_sched c) = 0%nat ∧ ∃ cb h req i, t = TAcquire cb h req i) as Hall.
  { intros j t Hj. destruct t as [| |cb h req i| | | | | |]; [| | | | | | | |by left].
    all: try (exfalso; destruct (thread_can_move concurrency c j _ r0 Hinv Hj) as [c' Hc']; [done|done|by apply (Hstuck c')]).
    right. destruct (decide (sch_permits (cf_sched c) = 0%nat)) as [Hz|Hz]; [split; [done|by repeat eexists]|].
    exfalso. destruct (thread_can_move concurrency c j _ r0 Hinv Hj) as [c' Hc']; [done|done|by apply (Hstuck c')]. }
  intros t Ht. apply list_elem_of_lookup in Ht as [j Hj]. destruct (Hall j t Hj) as [|[Hz _]]; [done|exfalso].
  pose proof (si_permits _ _ Hinv) as Hp. rewrite Hz in Hp. simpl in Hp.
  assert (sum_list_with holds_permit (cf_threads c) = 0%nat) as H0'; [|lia].
  apply sum_zero. intros t0 Ht0. apply list_elem_of_lookup in Ht0 as [k Hk].
  destruct (Hall k t0 Hk) as [->|(_ & cb & h & req & i & ->)]; done.
Qed.

(** when every task is done, every callback has been called *)
Lemma done_called concurrency (c : Config Req Res) : sched_inv concurrency c → (∀ t, t ∈ cf_threads c → t = TDone) →
  ∀ cb h, cf_enqueued c !! cb = Some h → sum_list_with (event_calls cb h) (cf_log c) = 1%nat.
Proof.
  intros Hinv Hdone cb h Hcb.
  assert (∀ f : Thread Req Res → nat, f TDone = 0%nat → sum_list_with f (cf_threads c) = 0%nat) as Hzero.
  { intros f Hf. apply sum_zero. intros t Ht. by rewrite (Hdone t Ht). }
  pose proof (si_count _ _ Hinv cb h) as Hcount. rewrite one_true, Hzero in Hcount by done.
  assert (sum_list_with (slot_callbacks cb h) (sch_slots (cf_sched c)) = 0%nat) as Hslots; [|lia].
  apply sum_zero. intros slot Hs. apply list_elem_of_lookup in Hs as [i Hi]. destruct (si_open _ _ Hinv i slot Hi) as [Hopen Hcb'].
  rewrite Hzero in Hopen by (by apply one_false). unfold waits in Hopen. destruct (rs_result slot); [|done].
  unfold slot_callbacks. rewrite Hcb' by done. by case_bool_decide.
Qed.

(** C14. The calls made come to an end.  From any configuration the scheduler can reach, the tasks
    make no more than a bounded number of steps before a new call is made ([work]), in whatever order; they
    are never stuck before all are done, as long as handlers return; and then every callback has been called
    exactly once, nothing is in flight any more and every permit is free. *)
Theorem scheduler_completes concurrency (c : Config Req Res) (r0 : Fs0Result Res) :
  rtc sched_step (Config_new concurrency) c →
  (∀ n c', nsteps task_step n c c' → n ≤ work c)%nat ∧
  ∀ c', rtc task_step c c' → (∀ c'', ¬ task_step c' c'') →
    (∀ cb h, cf_enqueued c !! cb = Some h → sum_list_with (event_calls cb h) (cf_log c') = 1%nat) ∧
    sch_in_flight (cf_sched c') = ∅ ∧ sch_permits (cf_sched c') = Nat.max concurrency 1.
Proof.
  intros Hc. split; [intros n c' Hn; apply after_task_step in Hn; lia|].
  intros c' Hsteps Hstuck.
  assert (cf_enqueued c' = cf_enqueued c) as Henq by (clear -Hsteps; induction Hsteps as [|? ? ? Hs _ IH]; [done|rewrite IH; by destruct Hs]).
  assert (sched_inv concurrency c') as Hinv.
  { apply sched_inv_reachable. etrans; [exact Hc|]. eapply rtc_subrel; [|exact Hsteps]. intros x y. apply sched_task. }
  pose proof (stuck_done concurrency c' r0 Hinv Hstuck) as Hdone.
  assert (∀ f : Thread Req Res → nat, f TDone = 0%nat → sum_list_with f (cf_threads c') = 0%nat) as Hzero.
  { intros f Hf. apply sum_zero. intros t Ht. by rewrite (Hdone t Ht). }
  split; [|split].
  - intros cb h Hcb. rewrite <-Henq in Hcb. by eapply done_called.
  - apply map_eq. intros h. rewrite lookup_empty. destruct (sch_in_flight (cf_sched c') !! h) as [i|] eqn:Hi; [|done].
    destruct (si_in_flight _ _ Hinv h i Hi) as (slot & Hslot & Hh). destruct (si_owner _ _ Hinv i slot Hslot) as [_ Hiff].
    rewrite Hh in Hiff. apply Hiff in Hi. rewrite Hzero in Hi by (by apply one_false). done.
  - pose proof (si_permits _ _ Hinv) as Hp. rewrite Hzero in Hp by done. lia.
Qed.
End Facts.

(** ** A run of two calls for one hash *)

(** the tasks [l] names move in that order, with those answers *)
Fixpoint run_tasks {Req Res} (l : list (nat * Answer)) (c : Config Req Res) : option (Config Req Res) :=
  match l with
  | [] => Some c
  | (i, answer) :: l =>
      t ← cf_threads c !! i;
      '(s, t', log) ← thread_step (cf_sched c) t answer;
      run_tasks l (mkConfig s (<[i := t']> (cf_threads c)) (cf_log c ++ log) (cf_enqueued c))
  end.

Lemma run_tasks_steps {Req Res} l : ∀ c c' : Config Req Res, run_tasks l c = Some c' → rtc task_step c c'.
Proof.
  induction l as [|[i answer] l IH]; intros c c' Hrun; simpl in Hrun; [by injection Hrun as ->|].
  destruct (cf_threads c !! i) as [t|] eqn:Ht; [|done]. simpl in Hrun.
  destruct (thread_step (cf_sched c) t answer) as [[[s t'] log]|] eqn:Hs; [|done].
  eapply rtc_l; [by eapply task_moves|by apply IH].
Qed.

Definition some_hash : HashId := hash_repeat Byte.x07.
Definition two_calls : Config nat nat :=
  enqueue_blocking (some_hash) 20%nat (enqueue_blocking (some_hash) 10%nat (Config_new 1)).
Definition two_calls_tasks : list (nat * @Answer nat) :=
  [(0, Turn); (0, Permit (Ok tt)); (1, Turn); (0, HandlerReturns (Ok 11)); (0, Turn); (0, Turn); (0, Turn); (0, Turn);
   (0, Turn); (0, Turn)]%nat.
Definition two_calls_done : Config nat nat := default two_calls (run_tasks two_calls_tasks two_calls).

Lemma two_calls_reached : rtc sched_step (Config_new 1) two_calls.
Proof. eapply rtc_l; [apply sched_enqueue|]. eapply rtc_l; [apply sched_enqueue|]. apply rtc_refl. Qed.
Lemma two_calls_run : rtc task_step two_calls two_calls_done.
Proof.
  apply (run_tasks_steps two_calls_tasks). unfold two_calls_done.
  assert (bool_decide (is_Some (run_tasks two_calls_tasks two_calls)) = true) as Hsome by (vm_compute; reflexivity).
  apply bool_decide_eq_true in Hsome as [c Hc]. by rewrite Hc.
Qed.

Definition is_done {Req Res} (t : Thread Req Res) : bool := match t with TDone => true | _ => false end.
Lemma all_done_stuck {Req Res} (c c' : Config Req Res) : forallb is_done (cf_threads c) = true → ¬ task_step c c'.
Proof.
  intros Hdone Hstep. destruct Hstep as [c i t answer s t' log Hi Hs]. rewrite forallb_forall in Hdone.
  assert (is_done t = true) as Ht; [|by destruct t, answer].
  apply Hdone, list_elem_of_In. by eapply list_elem_of_lookup_2.
Qed.
Lemma two_calls_stuck c : ¬ task_step two_calls_done c.
Proof. apply all_done_stuck. vm_compute. reflexivity. Qed.

(** both callbacks have the one result of the one execution *)
Lemma scheduler_safe_witness :
  cf_log two_calls_done = [Returned 0 (Ok ()); Returned 1 (Ok ()); Handled some_hash (Ok 11%nat);
    Called 0 some_hash (Ok 11%nat); Called 1 some_hash (Ok 11%nat)] ∧
  ∀ cb h, cf_enqueued two_calls_done !! cb = Some h →
    sum_list_with (event_calls cb h) (cf_log two_calls_done) = 1%nat ∨
    (sum_list_with (thread_callbacks cb h) (cf_threads two_calls_done) +
     sum_list_with (slot_callbacks cb h) (sch_slots (cf_sched two_calls_done)))%nat = 1%nat.
Proof.
  split; [vm_compute; reflexivity|]. apply (scheduler_safe 1).
  etransitivity; [exact two_calls_reached|]. eapply rtc_subrel; [|exact two_calls_run]. intros x y. apply sched_task.
Defined.

Lemma scheduler_completes_witness :
  cf_enqueued two_calls = [some_hash; some_hash] ∧
  ∀ cb h, cf_enqueued two_calls !! cb = Some h → sum_list_with (event_calls cb h) (cf_log two_calls_done) = 1%nat.
Proof.
  split; [reflexivity|].
  destruct (scheduler_completes 1 two_calls (Ok 0%nat) two_calls_reached) as [_ Hend].
  destruct (Hend two_calls_done two_calls_run two_calls_stuck) as [Hall _]. exact Hall.
Defined.
