(* ===== verification/ClientSession.v ===== *)
(** * The client's sessions

    Models [fs0-client/src/{central_session,storage_session}.rs] with their [control.rs] and
    [data.rs], and the parts of [client.rs] that are one request each: the connection to the central
    server with the list of storages it keeps up to date, a session for each storage, the requests
    over them, and the two jobs that move one chunk.

    A session's connection is under a lock that [ensure_connected] holds to its end: the
    other callers of the session wait, and no step of theirs falls between its steps. *)

From S2P Require Import Prelude Types Link Conc.

(** ** State *)

(** [ClientConfig]; the endpoint and the relay only go to the transport *)
Record ClientConfig := mkClientConfig {
  clc_name : option string; clc_token : string;
  clc_upload_concurrency : Z; clc_download_concurrency : Z }.

(** [CentralSession]; [ces_listeners] are the connections an event listener was spawned for *)
Record CentralSession := mkCentralSession {
  ces_client_id : Z; ces_event_listener_stopping : bool; ces_connection : option Connection;
  ces_storages : list StoragePeerInfo; ces_listeners : list Connection }.
Definition CentralSession_new : CentralSession := mkCentralSession 0 false None [] [].

(** [StorageSessionInner] *)
Record StorageSessionInner := mkStorageSessionInner {
  ssi_client_id : Z; ssi_storage_id : Z; ssi_connection : option Connection }.
Definition StorageSession_new (client_id storage_id : Z) : StorageSessionInner :=
  mkStorageSessionInner client_id storage_id None.

(** [Fs0Client]; a session is an [Arc], here an index of [cl_sessions] *)
Record Fs0Client := mkFs0Client {
  cl_config : ClientConfig; cl_central : CentralSession;
  cl_storage_sessions : gmap Z nat; cl_sessions : list StorageSessionInner }.

Definition set_cl_central (s : Fs0Client) x : Fs0Client :=
  mkFs0Client (cl_config s) x (cl_storage_sessions s) (cl_sessions s).
Definition set_cl_storage_sessions (s : Fs0Client) x : Fs0Client :=
  mkFs0Client (cl_config s) (cl_central s) x (cl_sessions s).
Definition set_cl_sessions (s : Fs0Client) x : Fs0Client :=
  mkFs0Client (cl_config s) (cl_central s) (cl_storage_sessions s) x.
Definition on_central (f : CentralSession → CentralSession) (s : Fs0Client) : unit * Fs0Client :=
  (tt, set_cl_central s (f (cl_central s))).
Definition on_session (i : nat) (f : StorageSessionInner → StorageSessionInner) (s : Fs0Client) : unit * Fs0Client :=
  (tt, set_cl_sessions s (alter f i (cl_sessions s))).

Definition set_client_id (x : Z) (c : CentralSession) : CentralSession :=
  mkCentralSession x (ces_event_listener_stopping c) (ces_connection c) (ces_storages c) (ces_listeners c).
Definition set_stopping (x : bool) (c : CentralSession) : CentralSession :=
  mkCentralSession (ces_client_id c) x (ces_connection c) (ces_storages c) (ces_listeners c).
Definition set_central_connection (x : option Connection) (c : CentralSession) : CentralSession :=
  mkCentralSession (ces_client_id c) (ces_event_listener_stopping c) x (ces_storages c) (ces_listeners c).
Definition set_storages (x : list StoragePeerInfo) (c : CentralSession) : CentralSession :=
  mkCentralSession (ces_client_id c) (ces_event_listener_stopping c) (ces_connection c) x (ces_listeners c).
Definition add_listener (x : Connection) (c : CentralSession) : CentralSession :=
  mkCentralSession (ces_client_id c) (ces_event_listener_stopping c) (ces_connection c) (ces_storages c) (ces_listeners c ++ [x]).
Definition set_session_connection (x : option Connection) (c : StorageSessionInner) : StorageSessionInner :=
  mkStorageSessionInner (ssi_client_id c) (ssi_storage_id c) x.

(** ** The environment *)

(** [{response:?}] of a control or data response, and the error of [postcard::from_bytes] on
    an endpoint's address *)
Class ClientTexts := {
  debug_control : ControlResponse → string;
  debug_data : DataResponse → string;
  endpoint_decode_error : list Byte.byte → option string }.

Inductive ClientQuery : Type → Type :=
| CIsClosed (connection : Connection) : ClientQuery bool
| CClose (connection : Connection) : ClientQuery unit
| CConnectCentral : ClientQuery (Fs0Result Connection)
| CConnectStorage (iroh_endpoint : list Byte.byte) : ClientQuery (Fs0Result Connection)
| CRpc (connection : Connection) (request : ProtocolRequest) (chunk_timeout : bool) : ClientQuery (Fs0Result ProtocolResponse)
| CJoin : ClientQuery (option string)                             (* a JoinError *)
| CFileCall (call path : string) : ClientQuery (option string)    (* a call's failure *)
| CFileLen (path : string) : ClientQuery (Result string Z)           (* metadata(..).len() *)
| CFileRead (path : string) (offset len : Z) : ClientQuery (Result string (list Byte.byte)).  (* read_exact *)

(** [read_exact] fills its buffer or fails *)
Definition client_answer_ok (B : Type) (q : ClientQuery B) : B → Prop :=
  match q in ClientQuery B return B → Prop with
  | CFileLen _ => λ r, match r with Ok len => is_u64 len | Err _ => True end
  | CFileRead _ _ len => λ r, match r with Ok bytes => Z.of_nat (length bytes) = len | Err _ => True end
  | _ => λ _, True
  end.

Abbreviation ClientProg := (Prog Fs0Client ClientQuery).

(** ** The list of storages *)

Definition storage_peer (storage_id : Z) (s : Fs0Client) : option StoragePeerInfo :=
  lfind (λ storage, bool_decide (spi_storage_id storage = storage_id)) (ces_storages (cl_central s)).

(** [sort_by_key(|storage| storage.storage_id)] *)
Definition peer_le (a b : StoragePeerInfo) : Prop := spi_storage_id a ≤ spi_storage_id b.
#[export] Instance peer_le_dec : RelDecision peer_le.
Proof. intros a b. unfold peer_le. apply _. Defined.

(** [find(..)] and [*storage = peer] or [push] *)
Fixpoint replace_or_push (peer : StoragePeerInfo) (storages : list StoragePeerInfo) : list StoragePeerInfo :=
  match storages with
  | [] => [peer]
  | storage :: storages =>
      if bool_decide (spi_storage_id storage = spi_storage_id peer) then peer :: storages
      else storage :: replace_or_push peer storages
  end.

(** the handler of [spawn_event_listener] *)
Definition listener_handler (request : ProtocolRequest) (c : CentralSession)
  : Fs0Result (option ProtocolResponse) * CentralSession :=
  match request with
  | ReqEvent (StorageChanged peer) =>
      (Ok None, set_storages (merge_sort peer_le (replace_or_push peer (ces_storages c))) c)
  | ReqEvent (StorageRemoved storage_id) =>
      (Ok None, set_storages (base.filter (λ storage, spi_storage_id storage ≠ storage_id) (ces_storages c)) c)
  | _ => (Err InvalidRequest, c)
  end.
Definition event_listener (request : ProtocolRequest) : ClientProg (Fs0Result (option ProtocolResponse)) :=
  atomic (λ s, let '(r, c) := listener_handler request (cl_central s) in (r, set_cl_central s c)).

Section Client.
Context `{DebugResponse, ClientTexts, Blake3, Zstd}.

(** ** The central session (central_session.rs) *)

(** the connection, if there is one and it is open *)
Definition open_connection (connection : option Connection) : ClientProg (option Connection) :=
  match connection with
  | None => mret None
  | Some connection => closed ← ask (CIsClosed connection); mret (if (closed : bool) then None else Some connection)
  end.
Definition close_taken (connection : option Connection) : ClientProg unit :=
  match connection with None => mret tt | Some connection => ask (CClose connection) end.

(** [close] and the error *)
Definition close_with {A} (connection : Connection) (err : Fs0Error) : ClientProg (Fs0Result A) :=
  _ ← ask (CClose connection); mret (Err err).

Definition central_ensure_connected : ClientProg (Fs0Result Connection) :=
  current ← atomic (λ s, (ces_connection (cl_central s), s));
  existing ← open_connection current;
  match existing with
  | Some existing => mret (Ok existing)
  | None =>
      _ ← atomic (on_central (set_central_connection None));
      _ ← close_taken current;
      _ ← atomic (on_central (set_stopping false));
      new_connection ←? ask CConnectCentral;
      config ← atomic (λ s, (cl_config s, s));
      response ←? ask (CRpc new_connection
                   (ReqControl (RegisterClientRq (clc_name config) (clc_token config) FS0_VERSION)) false);
      match response with
      | RespError err => close_with new_connection err
      | RespControl (RegisterClientRs client_id storages) =>
          _ ← atomic (on_central (set_client_id client_id));
          _ ← atomic (on_central (set_storages storages));
          _ ← atomic (on_central (add_listener new_connection));
          _ ← atomic (on_central (set_central_connection (Some new_connection)));
          mret (Ok new_connection)
      | RespControl response =>
          close_with new_connection (InvalidFrame ("unexpected control response: " +:+ debug_control response))
      | response =>
          close_with new_connection (InvalidFrame ("unexpected control response: " +:+ debug_response response))
      end
  end.

Definition central_request (request : ControlRequest) : ClientProg (Fs0Result ControlResponse) :=
  connection ←? central_ensure_connected;
  response ←? ask (CRpc connection (ReqControl request) false);
  mret (match response with
        | RespError err => Err err
        | RespControl response => Ok response
        | response => Err (InvalidFrame ("unexpected control response: " +:+ debug_response response))
        end).

Definition central_close : ClientProg unit :=
  _ ← atomic (on_central (set_stopping true));
  current ← atomic (λ s, (ces_connection (cl_central s), (on_central (set_central_connection None) s).2));
  _ ← close_taken current;
  atomic (on_central (set_client_id 0)).

(** ** Control requests (central_session/control.rs) *)

Definition control_call {A} (request : ControlRequest) (expected : ControlResponse → option A) : ClientProg (Fs0Result A) :=
  response ←? central_request request;
  mret (ok_or (InvalidFrame ("unexpected control response: " +:+ debug_control response)) (expected response)).

Record CentralStatus := mkCentralStatus { cst_clients_count : Z; cst_storages : list StoragePeerInfo }.
Definition central_status : ClientProg (Fs0Result CentralStatus) :=
  status ←? control_call CentralStatusRq (λ r, match r with
    | CentralStatusRs clients_count storages => Some (mkCentralStatus clients_count storages) | _ => None end);
  _ ← atomic (on_central (set_storages (cst_storages status)));
  mret (Ok status).
Definition create_volume (name : string) (max_bytes : Z) : ClientProg (Fs0Result Z) :=
  control_call (CreateVolumeRq name max_bytes) (λ r, match r with CreateVolumeRs volume_id => Some volume_id | _ => None end).
Definition list_directory (dir : string) (limit : Z) (cursor : option Z) : ClientProg (Fs0Result DirectoryEntries) :=
  control_call (ListDirectoryRq dir limit cursor) (λ r, match r with ListDirectoryRs entries => Some entries | _ => None end).
Definition get_file_read_plan (path : string) : ClientProg (Fs0Result FileReadPlan) :=
  control_call (GetFileReadPlanRq path) (λ r, match r with
    | GetFileReadPlanRs plan | GetFileReadPlanByIdRs plan => Some plan | _ => None end).
Definition central_has_bundle (bundle_id : HashId) (volume_id : option Z) : ClientProg (Fs0Result bool) :=
  control_call (HasBundleRq bundle_id volume_id) (λ r, match r with HasBundleRs exists_ => Some exists_ | _ => None end).
Definition delete_file (path : string) : ClientProg (Fs0Result unit) :=
  control_call (DeleteFileRq path) (λ r, match r with DeleteFileRs | DeleteFileByIdRs => Some tt | _ => None end).
Definition delete_file_by_id (file_id : Z) : ClientProg (Fs0Result unit) :=
  control_call (DeleteFileByIdRq file_id) (λ r, match r with DeleteFileByIdRs => Some tt | _ => None end).
Definition copy_file (source_path target_path : string) : ClientProg (Fs0Result FileRecord) :=
  control_call (CopyFileRq source_path target_path) (λ r, match r with
    | CopyFileRs file | CopyFileByIdRs file => Some file | _ => None end).
Definition copy_file_by_id (source_file_id : Z) (target_path : string) : ClientProg (Fs0Result FileRecord) :=
  control_call (CopyFileByIdRq source_file_id target_path) (λ r, match r with CopyFileByIdRs file => Some file | _ => None end).
Definition rename_file (source_path target_path : string) : ClientProg (Fs0Result FileRecord) :=
  control_call (RenameFileRq source_path target_path) (λ r, match r with
    | RenameFileRs file | RenameFileByIdRs file => Some file | _ => None end).
Definition rename_file_by_id (file_id : Z) (target_path : string) : ClientProg (Fs0Result FileRecord) :=
  control_call (RenameFileByIdRq file_id target_path) (λ r, match r with RenameFileByIdRs file => Some file | _ => None end).
Definition begin_update (request : BeginUpdateRequest) : ClientProg (Fs0Result UpdateLease) :=
  control_call (BeginUpdateRq request) (λ r, match r with BeginUpdateRs lease => Some lease | _ => None end).
Definition commit_update (request : CommitUpdateRequest) : ClientProg (Fs0Result FileRecord) :=
  control_call (CommitUpdateRq request) (λ r, match r with CommitUpdateRs file => Some file | _ => None end).
Definition abort_update (lease_id file_id : Z) : ClientProg (Fs0Result unit) :=
  control_call (AbortUpdateRq lease_id file_id) (λ r, match r with AbortUpdateRs => Some tt | _ => None end).
Definition get_file_change_logs (after_event_id limit : Z) : ClientProg (Fs0Result FileChangeLogs) :=
  control_call (GetFileChangeLogsRq after_event_id limit) (λ r, match r with GetFileChangeLogsRs logs => Some logs | _ => None end).

(** ** A storage session (storage_session.rs); [i] is the session *)

Definition session (i : nat) (s : Fs0Client) : StorageSessionInner :=
  default (StorageSession_new 0 0) (cl_sessions s !! i).

Definition authenticate (i : nat) (connection : Connection) : ClientProg (Fs0Result unit) :=
  client_id ← atomic (λ s, (ssi_client_id (session i s), s));
  config ← atomic (λ s, (cl_config s, s));
  response ← ask (CRpc connection (ReqData (AuthenticateRq client_id (clc_token config))) false);
  match response with
  | Ok (RespData (AuthenticateRs authenticated_client_id) as response) =>
      if bool_decide (authenticated_client_id = client_id) then mret (Ok tt)
      else close_with connection (InvalidFrame ("unexpected data response: " +:+ debug_response response))
  | Ok (RespError err) => close_with connection err
  | Ok response => close_with connection (InvalidFrame ("unexpected data response: " +:+ debug_response response))
  | Err err => close_with connection err
  end.

Definition ensure_connected (i : nat) : ClientProg (Fs0Result Connection) :=
  current ← atomic (λ s, (ssi_connection (session i s), s));
  existing ← open_connection current;
  match existing with
  | Some existing => mret (Ok existing)
  | None =>
      _ ← atomic (on_session i (set_session_connection None));
      _ ← close_taken current;
      storage ←? atomic (λ s, (ok_or NotFound (storage_peer (ssi_storage_id (session i s)) s), s));
      mret (match endpoint_decode_error (spi_iroh_endpoint storage) with
            | Some message => Err (Postcard message) | None => Ok tt end);;?
      connection ←? ask (CConnectStorage (spi_iroh_endpoint storage));
      authenticate i connection;;?
      _ ← atomic (on_session i (set_session_connection (Some connection)));
      mret (Ok connection)
  end.

(** [CLIENT_CHUNK_RPC_TIMEOUT] for the two requests that carry a chunk *)
Definition chunk_timeout (request : DataRequest) : bool :=
  match request with UploadChunkRq _ | DownloadChunkRq _ => true | _ => false end.

Definition request (i : nat) (rq : DataRequest) : ClientProg (Fs0Result DataResponse) :=
  connection ←? ensure_connected i;
  response ←? ask (CRpc connection (ReqData rq) (chunk_timeout rq));
  match response with
  | RespData response => mret (Ok response)
  | response =>
      closed ← ask (CIsClosed connection);
      _ ← (if (closed : bool) then atomic (on_session i (set_session_connection None)) else mret tt);
      mret (Err (match response with
                 | RespError err => err
                 | response => InvalidFrame ("unexpected data response: " +:+ debug_response response)
                 end))
  end.

Definition storage_session_close (i : nat) : ClientProg unit :=
  current ← atomic (λ s, (ssi_connection (session i s), (on_session i (set_session_connection None) s).2));
  close_taken current.

(** ** Data requests (storage_session/data.rs) *)

Definition data_call {A} (i : nat) (rq : DataRequest) (expected : DataResponse → option A) : ClientProg (Fs0Result A) :=
  response ←? request i rq;
  mret (ok_or (InvalidFrame ("unexpected data response: " +:+ debug_data response)) (expected response)).

Definition has_bundle (i : nat) (volume_id : Z) (bundle_id : HashId) : ClientProg (Fs0Result (option (Z * Z))) :=
  data_call i (DataHasBundleRq volume_id bundle_id) (λ r, match r with
    | DataHasBundleRs true (Some raw_len) (Some compressed_len) => Some (Some (raw_len, compressed_len))
    | DataHasBundleRs false _ _ => Some None
    | _ => None end).
Definition has_chunk (i : nat) (volume_id : Z) (chunk_id : HashId) : ClientProg (Fs0Result (option (Z * Z))) :=
  data_call i (HasChunkRq volume_id chunk_id) (λ r, match r with
    | HasChunkRs true (Some raw_len) (Some compressed_len) => Some (Some (raw_len, compressed_len))
    | HasChunkRs false _ _ => Some None
    | _ => None end).
Definition upload_chunk (i : nat) (rq : UploadChunkRequest) : ClientProg (Fs0Result UploadChunkResponse) :=
  data_call i (UploadChunkRq rq) (λ r, match r with UploadChunkRs response => Some response | _ => None end).
Definition commit_bundle (i : nat) (rq : CommitBundleRequest) : ClientProg (Fs0Result CommittedBundle) :=
  data_call i (CommitBundleRq rq) (λ r, match r with
    | CommitBundleRs response =>
        Some (mkCommittedBundle (cbr_bundle_id rq) (cbs_raw_len response) (cbs_compressed_len response))
    | _ => None end).
Definition download_chunk (i : nat) (rq : DownloadChunkRequest) : ClientProg (Fs0Result (list Byte.byte)) :=
  data_call i (DownloadChunkRq rq) (λ r, match r with DownloadChunkRs compressed_bytes => Some compressed_bytes | _ => None end).
Definition list_bundle_chunks (i : nat) (volume_id : Z) (bundle_id : HashId) : ClientProg (Fs0Result (list BundleChunkRef)) :=
  data_call i (ListBundleChunksRq volume_id bundle_id) (λ r, match r with ListBundleChunksRs chunks => Some chunks | _ => None end).

(** ** The jobs of the schedulers *)

Record UploadChunkJob := mkUploadChunkJob {
  ucj_lease_id : Z; ucj_file_id : Z; ucj_volume_id : Z; ucj_chunk_id : HashId; ucj_raw_len : Z;
  ucj_source_path : string; ucj_source_offset : Z }.
Record DownloadChunkResult := mkDownloadChunkResult { dcs_chunk_id : HashId; dcs_raw_bytes : list Byte.byte }.

Definition file_call (call path : string) : ClientProg (Fs0Result unit) :=
  failure ← ask (CFileCall call path);
  mret (match failure with Some message => Err (Io message) | None => Ok tt end).

Definition read_chunk_from_file (path : string) (offset raw_len : Z) : ClientProg (Fs0Result (list Byte.byte)) :=
  if bool_decide (VOLUME_RAW_CHUNK_SIZE < raw_len)
  then mret (Err (InvalidData ("chunk raw_len " +:+ pretty raw_len +:+ " exceeds maximum")))
  else
    file_call "open" path;;?
    file_call "seek" path;;?
    bytes ← ask (CFileRead path offset raw_len);
    mret (map_err Io bytes).

Definition upload_chunk_job (i : nat) (job : UploadChunkJob) : ClientProg (Fs0Result UploadChunkResponse) :=
  existing ←? has_chunk i (ucj_volume_id job) (ucj_chunk_id job);
  match existing with
  | Some (existing_raw_len, compressed_len) =>
      mret (if bool_decide (existing_raw_len ≠ ucj_raw_len job)
            then Err (InvalidData "existing chunk raw_len does not match upload job")
            else Ok (mkUploadChunkResponse (ucj_chunk_id job) (ucj_raw_len job) compressed_len))
  | None =>
      raw_bytes ←? read_chunk_from_file (ucj_source_path job) (ucj_source_offset job) (ucj_raw_len job);
      if bool_decide (blake3_hash raw_bytes ≠ ucj_chunk_id job) then mret (Err (HashMismatch (ucj_source_offset job)))
      else
        joined ← ask CJoin;
        mret (match joined with Some message => Err (Internal message) | None => Ok tt end);;?
        compressed_bytes ←? mret (zstd_compress raw_bytes DEFAULT_ZSTD_LEVEL);
        upload_chunk i (mkUploadChunkRequest (ucj_lease_id job) (ucj_file_id job) (ucj_volume_id job) (ucj_chunk_id job)
                         (ucj_raw_len job) compressed_bytes)
  end.

Definition decompress_chunk (chunk_id : HashId) (compressed_bytes : list Byte.byte) : Fs0Result (list Byte.byte) :=
  raw ← zstd_decompress compressed_bytes VOLUME_RAW_CHUNK_SIZE;
  if bool_decide (VOLUME_RAW_CHUNK_SIZE < Z.of_nat (length raw) ∨ blake3_hash raw ≠ chunk_id)
  then Err (HashMismatch 0) else Ok raw.

Definition download_chunk_job (i : nat) (rq : DownloadChunkRequest) : ClientProg (Fs0Result DownloadChunkResult) :=
  compressed_bytes ←? download_chunk i rq;
  raw_bytes ←? mret (decompress_chunk (dcr_chunk_id rq) compressed_bytes);
  mret (Ok (mkDownloadChunkResult (dcr_chunk_id rq) raw_bytes)).

(** ** The client (client.rs) *)

(** [Fs0Client::storage_session]: the block under the lock of the map *)
Definition get_storage_session (storage_id : Z) (s : Fs0Client) : nat * Fs0Client :=
  match cl_storage_sessions s !! storage_id with
  | Some i => (i, s)
  | None =>
      let i := length (cl_sessions s) in
      (i, mkFs0Client (cl_config s) (cl_central s) (<[storage_id := i]> (cl_storage_sessions s))
            (cl_sessions s ++ [StorageSession_new (ces_client_id (cl_central s)) storage_id]))
  end.
Definition storage_session (storage : StoragePeerInfo) : ClientProg nat :=
  atomic (get_storage_session (spi_storage_id storage)).

Fixpoint close_all (sessions : list nat) : ClientProg unit :=
  match sessions with
  | [] => mret tt
  | i :: sessions => _ ← storage_session_close i; close_all sessions
  end.
Definition close_storage_sessions : ClientProg unit :=
  sessions ← atomic (λ s, (map snd (map_to_list (cl_storage_sessions s)), set_cl_storage_sessions s ∅));
  close_all sessions.

Definition Fs0Client_new (config : ClientConfig) : Fs0Client := mkFs0Client config CentralSession_new ∅ [].
(** [Fs0Client::connect] after the transport is bound *)
Definition connect : ClientProg (Fs0Result unit) := central_ensure_connected;;? mret (Ok tt).
Definition shutdown : ClientProg (Fs0Result unit) :=
  _ ← central_close;
  _ ← close_storage_sessions;
  mret (Ok tt).
End Client.
