(* ===== verification/ClientSessionFacts.v ===== *)
(** * The client's view of the storages

    The list a client keeps is the map of the storages the central server's events describe. *)

From S2P Require Import Prelude Types Link Conc ClientSession.

(** ** The abstract view *)

Abbreviation Peers := (gmap Z StoragePeerInfo).
Definition peer_map (storages : list StoragePeerInfo) : Peers := list_to_map (map (λ p, (spi_storage_id p, p)) storages).
Definition apply_event (m : Peers) (e : ProtocolEvent) : Peers :=
  match e with
  | StorageChanged peer => <[spi_storage_id peer := peer]> m
  | StorageRemoved storage_id => delete storage_id m
  end.

Definition peer_ids (storages : list StoragePeerInfo) : list Z := map spi_storage_id storages.

Lemma peer_map_fst storages : (map (λ p, (spi_storage_id p, p)) storages).*1 = peer_ids storages.
Proof. induction storages as [|p storages IH]; [done|]. cbn. by f_equal. Qed.

Lemma peer_map_perm storages storages' : NoDup (peer_ids storages) → storages ≡ₚ storages' → peer_map storages = peer_map storages'.
Proof.
  intros Hnd Hperm. unfold peer_map. apply list_to_map_proper; [by rewrite peer_map_fst|]. by apply fmap_Permutation.
Qed.

Lemma replace_or_push_ids peer storages : NoDup (peer_ids storages) →
  NoDup (peer_ids (replace_or_push peer storages)) ∧
  ∀ id, id ∈ peer_ids (replace_or_push peer storages) → id = spi_storage_id peer ∨ id ∈ peer_ids storages.
Proof.
  unfold peer_ids. induction storages as [|p storages IH]; cbn [replace_or_push map]; intros Hnd.
  - split; [apply NoDup_singleton|]. intros id Hid. left. by apply list_elem_of_singleton in Hid.
  - apply NoDup_cons in Hnd as [Hp Hnd]. destruct (IH Hnd) as [IH1 IH2]. case_bool_decide as Heq; cbn [map].
    + rewrite <-Heq. split; [by constructor|]. intros id Hid. by right.
    + split.
      * constructor; [|done]. intros Hin. by destruct (IH2 _ Hin).
      * intros id [->|Hid]%elem_of_cons; [right; by left|]. destruct (IH2 _ Hid); [by left|right; by right].
Qed.

Lemma replace_or_push_map peer storages : NoDup (peer_ids storages) →
  peer_map (replace_or_push peer storages) = <[spi_storage_id peer := peer]> (peer_map storages).
Proof.
  unfold peer_map, peer_ids. induction storages as [|p storages IH]; cbn [replace_or_push map]; intros Hnd; [done|].
  apply NoDup_cons in Hnd as [Hp Hnd]. case_bool_decide as Heq; cbn [map list_to_map foldr].
  - rewrite Heq. cbn. by rewrite insert_insert_eq.
  - cbn. change (foldr (λ p, <[p.1:=p.2]>) ∅) with (list_to_map (K := Z) (M := Peers)). rewrite IH by done. by rewrite insert_insert_ne by done.
Qed.

Lemma filter_map_delete storage_id storages : NoDup (peer_ids storages) →
  peer_map (base.filter (λ p, spi_storage_id p ≠ storage_id) storages) = delete storage_id (peer_map storages) ∧
  NoDup (peer_ids (base.filter (λ p, spi_storage_id p ≠ storage_id) storages)).
Proof.
  unfold peer_map, peer_ids. induction storages as [|p storages IH]; intros Hnd.
  - split; [|done]. cbn. by rewrite delete_empty.
  - cbn [map] in Hnd. apply NoDup_cons in Hnd as [Hp Hnd]. destruct (IH Hnd) as [IH1 IH2]. rewrite filter_cons. case_decide as Hne.
    + cbn [map list_to_map foldr]. split.
      * cbn. change (foldr (λ p, <[p.1:=p.2]>) ∅) with (list_to_map (K := Z) (M := Peers)). rewrite IH1. by rewrite delete_insert_ne by done.
      * constructor; [|done]. intros (q & Hq & [_ Hin]%list_elem_of_filter)%list_elem_of_fmap. apply Hp, list_elem_of_fmap. by exists q.
    + assert (spi_storage_id p = storage_id) as <- by (destruct (decide (spi_storage_id p = storage_id)); tauto).
      split; [|done]. rewrite IH1. cbn. change (foldr (λ p, <[p.1:=p.2]>) ∅) with (list_to_map (K := Z) (M := Peers)).
      rewrite delete_insert_eq. reflexivity.
Qed.

Lemma peer_lookup storages id : NoDup (peer_ids storages) →
  lfind (λ storage, bool_decide (spi_storage_id storage = id)) storages = peer_map storages !! id.
Proof.
  unfold peer_map, peer_ids. induction storages as [|p storages IH]; intros Hnd; [done|]. cbn [map] in Hnd. apply NoDup_cons in Hnd as [Hp Hnd].
  cbn [lfind map]. cbn. case_bool_decide as Heq.
  - subst id. by rewrite lookup_insert_eq.
  - rewrite lookup_insert_ne by done. by apply IH.
Qed.

Definition listen (c : CentralSession) (e : ProtocolEvent) : CentralSession := (listener_handler (ReqEvent e) c).2.

Lemma listen_refines c e : NoDup (peer_ids (ces_storages c)) →
  NoDup (peer_ids (ces_storages (listen c e))) ∧
  peer_map (ces_storages (listen c e)) = apply_event (peer_map (ces_storages c)) e.
Proof.
  intros Hnd. destruct e as [peer|storage_id]; cbn [listen listener_handler snd set_storages ces_storages apply_event].
  - assert (merge_sort peer_le (replace_or_push peer (ces_storages c)) ≡ₚ replace_or_push peer (ces_storages c)) as Hperm by apply merge_sort_Permutation.
    destruct (replace_or_push_ids peer _ Hnd) as [Hnd' _]. split.
    + by rewrite (fmap_Permutation spi_storage_id _ _ Hperm).
    + rewrite <-replace_or_push_map by done. symmetry. apply peer_map_perm; [done|]. by symmetry.
  - destruct (filter_map_delete storage_id _ Hnd) as [Hmap Hnd']. by split.
Qed.

(** C33. The client's list of storages implements a map.  From a list without a storage twice (what the central
    server sends at registration), whatever storage events arrive: no storage is in the list twice, the list has for each
    storage what the last event about it said, and [storage_peer] finds exactly that. *)
Theorem storages_follow_events (s : Fs0Client) (events : list ProtocolEvent) :
  NoDup (peer_ids (ces_storages (cl_central s))) →
  let s' := set_cl_central s (foldl listen (cl_central s) events) in
  NoDup (peer_ids (ces_storages (cl_central s'))) ∧
  peer_map (ces_storages (cl_central s')) = foldl apply_event (peer_map (ces_storages (cl_central s))) events ∧
  ∀ storage_id, storage_peer storage_id s' = foldl apply_event (peer_map (ces_storages (cl_central s))) events !! storage_id.
Proof.
  intros Hnd s'.
  assert (NoDup (peer_ids (ces_storages (cl_central s'))) ∧
    peer_map (ces_storages (cl_central s')) = foldl apply_event (peer_map (ces_storages (cl_central s))) events) as [Hnd' Hmap].
  { subst s'. cbn [cl_central set_cl_central]. induction events as [|e events IH] using rev_ind; [done|].
    rewrite !foldl_app. cbn [foldl]. destruct IH as [IH1 IH2]. destruct (listen_refines _ e IH1) as (? & ->). by rewrite IH2. }
  split; [done|]. split; [done|]. intros storage_id. rewrite <-Hmap. by apply peer_lookup.
Qed.

Lemma storages_follow_events_witness :
  let peer id name := mkStoragePeerInfo id name [] [] in
  let c := mkCentralSession 9 false None [peer 2 "b"; peer 5 "e"] [] in
  storage_peer 3 (set_cl_central (mkFs0Client (mkClientConfig None "t" 4 4) c ∅ [])
    (foldl listen c [StorageChanged (peer 3 "c"); StorageRemoved 2; StorageChanged (peer 3 "c2")])) = Some (peer 3 "c2").
Proof.
  intros peer c. destruct (storages_follow_events (mkFs0Client (mkClientConfig None "t" 4 4) c ∅ [])
    [StorageChanged (peer 3 "c"); StorageRemoved 2; StorageChanged (peer 3 "c2")]) as (_ & _ & Hfind).
  - apply (bool_decide_unpack _). vm_compute. exact I.
  - etransitivity; [exact (Hfind 3)|]. vm_compute. reflexivity.
Defined.
