(* ===== verification/ClientTransfer.v ===== *)
(** * Transfers of whole files

    Models the transfers of [fs0-client/src/client.rs] ([upload_file_inner], [download_file] and
    [download_file_chunks]): the loop that schedules the chunks, the callbacks that count them
    ([InternalUploadState], [InternalDownloadState], which have the same fields and the same updates),
    the end of the scheduling and the wait for the last callback.

    What the loop does is its script, a list of jobs and of the error it ends with, computed from
    what the reads of the file (or the lists of chunks the storages send) were.  [transfer_step] runs a script
    over the schedulers of the sessions, with the tasks of [ClientScheduler.v] and the callbacks
    they call interleaved in every way. *)

From S2P Require Import Prelude Types Conc ClientScheduler ClientSession.

(** ** The shared state of the callbacks *)

(** [InternalUploadState], [InternalDownloadState]; [mo_done_tx] is [done_tx.is_some()], [mo_sent]
    what was sent over it *)
Record Monitor := mkMonitor {
  mo_remain_chunks : Z; mo_total_chunks : Z; mo_scheduling_done : bool; mo_first_error : option Fs0Error;
  mo_done_tx : bool; mo_sent : option (Fs0Result unit) }.
Definition Monitor_new : Monitor := mkMonitor 0 0 false None true None.

(** before a chunk is enqueued *)
Definition chunk_scheduled (m : Monitor) : Monitor :=
  mkMonitor (u64_wrapping_add (mo_remain_chunks m) 1) (u64_wrapping_add (mo_total_chunks m) 1)
    (mo_scheduling_done m) (mo_first_error m) (mo_done_tx m) (mo_sent m).

(** [if let Some(done_tx) = state.done_tx.take() { .. done_tx.send(result) }] *)
Definition send_result (m : Monitor) : Monitor :=
  if mo_done_tx m
  then mkMonitor (mo_remain_chunks m) (mo_total_chunks m) (mo_scheduling_done m) None false
         (Some (match mo_first_error m with Some err => Err err | None => Ok tt end))
  else m.

(** the end of a callback, with the error it found, if any *)
Definition chunk_completed (failure : option Fs0Error) (m : Monitor) : Monitor :=
  let first_error := match mo_first_error m with Some err => Some err | None => failure end in
  let m := mkMonitor (u64_saturating_sub (mo_remain_chunks m) 1) (mo_total_chunks m) (mo_scheduling_done m)
             first_error (mo_done_tx m) (mo_sent m) in
  if mo_scheduling_done m && bool_decide (mo_remain_chunks m = 0) then send_result m else m.

(** the block after the loop: whether to wait *)
Definition finish_scheduling (m : Monitor) : bool * Monitor :=
  let m := mkMonitor (mo_remain_chunks m) (mo_total_chunks m) true (mo_first_error m) (mo_done_tx m) (mo_sent m) in
  if bool_decide (mo_remain_chunks m = 0) then (false, send_result m) else (true, m).

(** ** What differs between the two directions *)

(** a job's key and request, and what its callback does with the result: what it hands to the
    writer ([bool]: whether the writer still receives), and the error it found *)
Class TransferKind (J Req Res W : Type) := {
  job_hash : J → HashId;
  job_request : J → Req;
  job_callback : J → Fs0Result Res → bool → list W * option Fs0Error }.

#[export] Instance upload_kind : TransferKind UploadChunkJob UploadChunkJob UploadChunkResponse Empty_set := {
  job_hash := ucj_chunk_id;
  job_request := id;
  job_callback job result _ :=
    match result with
    | Ok response =>
        ([], if bool_decide (ucs_chunk_id response ≠ ucj_chunk_id job ∨ ucs_raw_len response ≠ ucj_raw_len job)
             then Some (InvalidData "uploaded chunk metadata does not match request") else None)
    | Err err => ([], Some err)
    end }.

(** what the callback of a download captures, and the session it goes to *)
Record DownloadJob := mkDownloadJob { dj_request : DownloadChunkRequest; dj_raw_offset : Z; dj_raw_len : Z }.
Record DownloadWriteJob := mkDownloadWriteJob { dwj_raw_offset : Z; dwj_raw_bytes : list Byte.byte }.

#[export] Instance download_kind : TransferKind DownloadJob DownloadChunkRequest DownloadChunkResult DownloadWriteJob := {
  job_hash job := dcr_chunk_id (dj_request job);
  job_request := dj_request;
  job_callback job result receives :=
    match result with
    | Ok response =>
        if bool_decide (dcs_chunk_id response ≠ dcr_chunk_id (dj_request job) ∨
                        Z.of_nat (length (dcs_raw_bytes response)) ≠ dj_raw_len job)
        then ([], Some (InvalidData "downloaded chunk metadata does not match request"))
        else if (receives : bool) then ([mkDownloadWriteJob (dj_raw_offset job) (dcs_raw_bytes response)], None)
        else ([], Some (Internal "download writer task closed"))
    | Err err => ([], Some err)
    end }.

(** ** The transfer as steps *)

(** one turn of the scheduling loop: a job for the session [k], or the error it ends with *)
Inductive Item (J : Type) := IJob (k : nat) (job : J) | IFail (err : Fs0Error).
Arguments IJob {J} k job.
Arguments IFail {J} err.

Section Transfer.
Context `{TransferKind J Req Res W}.

Inductive Phase :=
| Scheduling (todo : list (Item J))
| Counted (k : nat) (job : J) (todo : list (Item J))       (* counted, not yet enqueued *)
| Enqueuing (k callback : nat) (todo : list (Item J))      (* in [enqueue_blocking] *)
| Waiting
| Ended (result : Fs0Result unit).

(** [tr_jobs] has the session, the callback's number and the job of what was enqueued; [tr_outcomes] what
    the callbacks found, in their order *)
Record Transfer := mkTransfer {
  tr_scheds : list (Config Req Res); tr_monitor : Monitor; tr_writes : list W;
  tr_jobs : list (nat * nat * J); tr_outcomes : list (J * option Fs0Error); tr_phase : Phase }.

Definition Transfer_new (scheds : list (Config Req Res)) (script : list (Item J)) : Transfer :=
  mkTransfer scheds Monitor_new [] [] [] (Scheduling script).

Definition set_tr_phase (t : Transfer) (phase : Phase) : Transfer :=
  mkTransfer (tr_scheds t) (tr_monitor t) (tr_writes t) (tr_jobs t) (tr_outcomes t) phase.
Definition set_tr_monitor (t : Transfer) (m : Monitor) : Transfer :=
  mkTransfer (tr_scheds t) m (tr_writes t) (tr_jobs t) (tr_outcomes t) (tr_phase t).
Definition set_tr_scheds (t : Transfer) (scheds : list (Config Req Res)) : Transfer :=
  mkTransfer scheds (tr_monitor t) (tr_writes t) (tr_jobs t) (tr_outcomes t) (tr_phase t).

(** the job of the call [callback] of the session [k], when it is this transfer's *)
Definition find_job (k callback : nat) (jobs : list (nat * nat * J)) : option J :=
  lfind_map (λ '(k', callback', job), if bool_decide (k' = k ∧ callback' = callback) then Some job else None) jobs.

(** the callback that is called, if one of this transfer is *)
Definition call_back (k : nat) (receives : bool) (t : Transfer) (e : SchedulerEvent Res) : Transfer :=
  match e with
  | Called callback _ result =>
      match find_job k callback (tr_jobs t) with
      | Some job =>
          let '(writes, failure) := job_callback job result receives in
          mkTransfer (tr_scheds t) (chunk_completed failure (tr_monitor t)) (tr_writes t ++ writes) (tr_jobs t)
            (tr_outcomes t ++ [(job, failure)]) (tr_phase t)
      | None => t
      end
  | _ => t
  end.

Inductive transfer_step : Transfer → Transfer → Prop :=
| ts_count t k job todo :
    tr_phase t = Scheduling (IJob k job :: todo) →
    transfer_step t (set_tr_phase (set_tr_monitor t (chunk_scheduled (tr_monitor t))) (Counted k job todo))
| ts_enqueue t k job todo c :
    tr_phase t = Counted k job todo → tr_scheds t !! k = Some c →
    transfer_step t (mkTransfer (<[k := enqueue_blocking (job_hash job) (job_request job) c]> (tr_scheds t)) (tr_monitor t)
      (tr_writes t) (tr_jobs t ++ [(k, length (cf_enqueued c), job)]) (tr_outcomes t) (Enqueuing k (length (cf_enqueued c)) todo))
| ts_enqueued t k callback todo c r :
    tr_phase t = Enqueuing k callback todo → tr_scheds t !! k = Some c → Returned callback r ∈ cf_log c →
    transfer_step t (set_tr_phase t (match r with Ok _ => Scheduling todo | Err err => Ended (Err err) end))
| ts_fail t err todo :
    tr_phase t = Scheduling (IFail err :: todo) → transfer_step t (set_tr_phase t (Ended (Err err)))
| ts_finish t wait m :
    tr_phase t = Scheduling [] → finish_scheduling (tr_monitor t) = (wait, m) →
    transfer_step t (set_tr_phase (set_tr_monitor t m) (if wait then Waiting else Ended (Ok tt)))
| ts_done t r :
    tr_phase t = Waiting → mo_sent (tr_monitor t) = Some r → transfer_step t (set_tr_phase t (Ended r))
| ts_task t k c c' log receives :
    tr_scheds t !! k = Some c → task_step c c' → cf_log c' = cf_log c ++ log →
    transfer_step t (foldl (call_back k receives) (set_tr_scheds t (<[k := c']> (tr_scheds t))) log).

(** others use the sessions too *)
Inductive shared_step : Transfer → Transfer → Prop :=
| shared_own t t' : transfer_step t t' → shared_step t t'
| shared_other t k c hash_id request :
    tr_scheds t !! k = Some c →
    shared_step t (set_tr_scheds t (<[k := enqueue_blocking hash_id request c]> (tr_scheds t))).
End Transfer.

Arguments Phase : clear implicits.
Arguments Transfer : clear implicits.

(** ** The loop of an upload (upload_file_inner) *)

Record UploadBundle := mkUploadBundle { ub_bundle_id : HashId; ub_raw_len : Z; ub_chunks : list BundleChunkRef }.

(** the variables of the two loops; [ulp_raw_len] and [ulp_chunks] are the inner one's *)
Record UploadLoop := mkUploadLoop {
  ulp_new_size : Z; ulp_raw_len : Z; ulp_chunks : list BundleChunkRef; ulp_bundles : list UploadBundle }.
Definition UploadLoop_new : UploadLoop := mkUploadLoop 0 0 [] [].

(** what the whole loop produces: the script, the size and the bundles when it got to its end *)
Definition UploadScript : Type := list (Item UploadChunkJob) * option (Z * list UploadBundle).

Section Upload.
Context `{Blake3}.
Context (lease : UpdateLease) (volume_id : Z) (local_path : string) (k : nat).

(** after the inner loop *)
Definition upload_bundle (u : UploadLoop) : Fs0Result UploadLoop :=
  new_size ← ok_or (IntegerConversion "uploaded file size overflow") (u64_checked_add (ulp_new_size u) (ulp_raw_len u));
  Ok (mkUploadLoop new_size 0 [] (ulp_bundles u ++ [mkUploadBundle (bundle_hash_from_chunks (ulp_chunks u)) (ulp_raw_len u) (ulp_chunks u)])).

(** the inner loop's test, at the top of a turn *)
Definition upload_turn (u : UploadLoop) : Fs0Result UploadLoop :=
  if bool_decide (ulp_raw_len u < VOLUME_BUNDLE_RAW_SIZE) then Ok u else upload_bundle u.

(** [buffer.len().min(remaining)] *)
Definition upload_read_limit (u : UploadLoop) : Z := Z.min VOLUME_RAW_CHUNK_SIZE (VOLUME_BUNDLE_RAW_SIZE - ulp_raw_len u).

Definition upload_job (chunk_id : HashId) (raw_len chunk_offset : Z) : UploadChunkJob :=
  mkUploadChunkJob (ul_lease_id lease) (ul_file_id lease) volume_id chunk_id raw_len local_path chunk_offset.

(** both loops, a read at a time: [reads] is what [reader.read] gave *)
Fixpoint upload_loop (reads : list (Result string (list Byte.byte))) (u : UploadLoop) : UploadScript :=
  match reads with
  | [] => ([], None)
  | read :: reads =>
      match upload_turn u with
      | Err err => ([IFail err], None)
      | Ok u =>
          match read with
          | Err message => ([IFail (Io message)], None)
          | Ok [] =>
              match ulp_chunks u with
              | [] => ([], Some (ulp_new_size u, ulp_bundles u))
              | _ =>
                  match upload_bundle u with
                  | Err err => ([IFail err], None)
                  | Ok u => upload_loop reads u
                  end
              end
          | Ok raw =>
              match u64_checked_add (ulp_new_size u) (ulp_raw_len u) with
              | None => ([IFail (IntegerConversion "uploaded chunk offset overflow")], None)
              | Some chunk_offset =>
                  let chunk_id := blake3_hash raw in
                  let read := Z.of_nat (length raw) in
                  let chunk := mkBundleChunkRef (Z.of_nat (length (ulp_chunks u))) chunk_id in
                  let u := mkUploadLoop (ulp_new_size u) (ulp_raw_len u + read) (ulp_chunks u ++ [chunk]) (ulp_bundles u) in
                  let '(script, ended) := upload_loop reads u in
                  (IJob k (upload_job chunk_id read chunk_offset) :: script, ended)
              end
          end
      end
  end.

(** a read gives at most what there is room for *)
Fixpoint reads_ok (reads : list (Result string (list Byte.byte))) (u : UploadLoop) : Prop :=
  match reads with
  | [] => True
  | read :: reads =>
      match upload_turn u, read with
      | Ok u, Ok [] => match upload_bundle u with Ok u => reads_ok reads u | Err _ => True end
      | Ok u, Ok raw =>
          Z.of_nat (length raw) ≤ upload_read_limit u ∧
          reads_ok reads (mkUploadLoop (ulp_new_size u) (ulp_raw_len u + Z.of_nat (length raw))
            (ulp_chunks u ++ [mkBundleChunkRef (Z.of_nat (length (ulp_chunks u))) (blake3_hash raw)]) (ulp_bundles u))
      | _, _ => True
      end
  end.
End Upload.

(** ** The loop of a download (download_file_chunks) *)

Section Download.
Context (plan : FileReadPlan).

(** [sort_by_key(|chunk| chunk.chunk_index)] *)
Definition chunk_ref_le (a b : BundleChunkRef) : Prop := bc_chunk_index a ≤ bc_chunk_index b.
#[export] Instance chunk_ref_le_dec : RelDecision chunk_ref_le.
Proof. intros a b. unfold chunk_ref_le. apply _. Defined.

(** the body of the inner loop up to the counting of the chunk *)
Definition download_chunk_item (k : nat) (bundle : FileBundleRef) (volume_id bundle_offset : Z) (chunk : BundleChunkRef)
  : Fs0Result (Item DownloadJob) :=
  chunk_offset ← ok_or (IntegerConversion "download chunk offset overflow") (u64_checked_mul (bc_chunk_index chunk) VOLUME_RAW_CHUNK_SIZE);
  if bool_decide (fbr_raw_len bundle ≤ chunk_offset)
  then Err (InvalidData "download chunk offset exceeds bundle raw_len")
  else
    let raw_len := Z.min VOLUME_RAW_CHUNK_SIZE (fbr_raw_len bundle - chunk_offset) in
    raw_offset ← ok_or (IntegerConversion "download file offset overflow") (u64_checked_add bundle_offset chunk_offset);
    match u64_checked_add raw_offset raw_len with
    | Some end_ =>
        if bool_decide (plan_size plan < end_) then Err (InvalidData "download chunk exceeds file size")
        else Ok (IJob k (mkDownloadJob (mkDownloadChunkRequest volume_id (bc_chunk_id chunk)) raw_offset raw_len))
    | None => Err (InvalidData "download chunk exceeds file size")
    end.

(** a loop whose body may end it: the items up to the first error *)
Fixpoint script_of {A} (body : A → Fs0Result (list (Item DownloadJob))) (xs : list A) : list (Item DownloadJob) * bool :=
  match xs with
  | [] => ([], true)
  | x :: xs =>
      match body x with
      | Err err => ([IFail err], false)
      | Ok items => let '(script, ended) := script_of body xs in (items ++ script, ended)
      end
  end.

(** the replica that is read from, and the session it is read through: the first with a known storage *)
Definition pick_replica (storages : list StoragePeerInfo) (bundle : FileBundleRef) : option (ReplicaLocation * StoragePeerInfo) :=
  lfind_map (λ replica,
    storage ← lfind (λ storage, bool_decide (spi_storage_id storage = rl_storage_id replica)) storages;
    Some (replica, storage)) (fbr_replicas bundle).

(** one turn of the outer loop; [listed] is what the storage answered to [list_bundle_chunks] *)
Definition download_bundle_script (storages : list StoragePeerInfo) (session_of : StoragePeerInfo → nat)
    (listed : FileBundleRef → Fs0Result (list BundleChunkRef)) (bundle : FileBundleRef)
  : Fs0Result (Z * nat * Z * list BundleChunkRef) :=
  bundle_offset ← ok_or (IntegerConversion "download bundle offset overflow")
                    (u64_checked_mul (fbr_bundle_index bundle) VOLUME_BUNDLE_RAW_SIZE);
  '(replica, storage) ← ok_or NotFound (pick_replica storages bundle);
  chunks ← listed bundle;
  Ok (bundle_offset, session_of storage, rl_volume_id replica, merge_sort chunk_ref_le chunks).

Fixpoint download_script (storages : list StoragePeerInfo) (session_of : StoragePeerInfo → nat)
    (listed : FileBundleRef → Fs0Result (list BundleChunkRef)) (bundles : list FileBundleRef) : list (Item DownloadJob) :=
  match bundles with
  | [] => []
  | bundle :: bundles =>
      match download_bundle_script storages session_of listed bundle with
      | Err err => [IFail err]
      | Ok (bundle_offset, k, volume_id, chunks) =>
          let '(script, ended) :=
            script_of (λ chunk, item ← download_chunk_item k bundle volume_id bundle_offset chunk; Ok [item]) chunks in
          script ++ (if ended then download_script storages session_of listed bundles else [])
      end
  end.
End Download.

(** ** The file a download writes *)

(** [seek] and [write_all]: past the end the file grows, with zeros in between *)
Definition write_at (offset : Z) (bytes : list Byte.byte) (file : list Byte.byte) : list Byte.byte :=
  let file := file ++ replicate (Z.to_nat offset + length bytes - length file) Byte.x00 in
  list_inserts (Z.to_nat offset) bytes file.

(** the writer task's loop, after [set_len] *)
Definition written_file (size : Z) (writes : list DownloadWriteJob) : list Byte.byte :=
  foldl (λ file job, write_at (dwj_raw_offset job) (dwj_raw_bytes job) file) (replicate (Z.to_nat size) Byte.x00) writes.
