(* ===== verification/ClientTransferInv.v ===== *)
(** * The invariant of a transfer

    The counter of the callbacks' state is the number of chunks counted whose callback has not
    been called; nothing is sent before the last callback after the end of the scheduling, and
    what is sent is the first failure. *)

From S2P Require Import Prelude Types Conc ClientScheduler ClientSchedulerInv ClientSession ClientTransfer.

(** ** The shared state of the callbacks *)

Definition first_failure (failures : list Fs0Error) : Fs0Result unit :=
  match failures with [] => Ok tt | err :: _ => Err err end.

(** [pending] callbacks are to come *)
Record monitor_ok (pending : Z) (failures : list Fs0Error) (m : Monitor) : Prop := {
  mok_remain : mo_remain_chunks m = pending;
  mok_open : mo_done_tx m = true → mo_sent m = None ∧ mo_first_error m = head failures ∧
    (mo_scheduling_done m = true → pending ≠ 0);
  mok_sent : mo_done_tx m = false → mo_scheduling_done m = true ∧ pending = 0 ∧ mo_sent m = Some (first_failure failures) }.

Lemma monitor_new_ok : monitor_ok 0 [] Monitor_new.
Proof. by split. Qed.

Lemma send_result_ok failures m : mo_remain_chunks m = 0 → mo_scheduling_done m = true → mo_done_tx m = true →
  mo_first_error m = head failures → monitor_ok 0 failures (send_result m).
Proof.
  intros Hr Hd Htx He. unfold send_result. rewrite Htx. split; simpl; [done|done|intros _].
  split; [done|]. split; [done|]. rewrite He. by destruct failures.
Qed.

Lemma chunk_scheduled_ok pending failures m : monitor_ok pending failures m → 0 ≤ pending < u64_max →
  mo_scheduling_done m = false → monitor_ok (pending + 1) failures (chunk_scheduled m).
Proof.
  intros [Hr Ho Hs] Hp Hd. split; simpl.
  - rewrite Hr. unfold u64_wrapping_add. apply Z.mod_small. unfold u64_max in Hp. lia.
  - intros Htx. destruct (Ho Htx) as (? & ? & _). split; [done|]. split; [done|]. by rewrite Hd.
  - intros Htx. destruct (Hs Htx) as (Hd' & _). by rewrite Hd in Hd'.
Qed.

Lemma head_option_list (failures : list Fs0Error) (failure : option Fs0Error) :
  match head failures with Some err => Some err | None => failure end = head (failures ++ option_list failure).
Proof. by destruct failures, failure. Qed.

Lemma chunk_completed_ok pending failures failure m : monitor_ok pending failures m → 1 ≤ pending →
  monitor_ok (pending - 1) (failures ++ option_list failure) (chunk_completed failure m).
Proof.
  intros [Hr Ho Hs] Hp. unfold chunk_completed. rewrite Hr. destruct (mo_done_tx m) eqn:Htx; [|destruct (Hs eq_refl) as (_ & ? & _); lia].
  destruct (Ho eq_refl) as (Hsent & He & Hd). assert (u64_saturating_sub pending 1 = pending - 1) as -> by (unfold u64_saturating_sub; lia).
  cbn [mo_scheduling_done mo_remain_chunks]. rewrite He, head_option_list. destruct (mo_scheduling_done m); cbn [andb].
  - case_bool_decide as Hz.
    + rewrite Hz. by apply send_result_ok.
    + by split.
  - by split.
Qed.

Lemma chunk_completed_done failure m : mo_scheduling_done (chunk_completed failure m) = mo_scheduling_done m.
Proof.
  unfold chunk_completed, send_result. cbn [mo_scheduling_done mo_remain_chunks mo_done_tx].
  by destruct (mo_scheduling_done m) eqn:Hd; cbn [andb]; [case_bool_decide; [destruct (mo_done_tx m)|]|].
Qed.

Lemma finish_scheduling_ok pending failures m wait m' : monitor_ok pending failures m → mo_scheduling_done m = false →
  finish_scheduling m = (wait, m') →
  monitor_ok pending failures m' ∧ mo_scheduling_done m' = true ∧ (if wait then pending ≠ 0 else pending = 0).
Proof.
  intros [Hr Ho Hs] Hd. unfold finish_scheduling. cbn [mo_remain_chunks]. rewrite Hr.
  destruct (mo_done_tx m) eqn:Htx; [|destruct (Hs eq_refl) as [Hd' _]; congruence]. destruct (Ho eq_refl) as (Hsent & He & _).
  case_bool_decide as Hz; intros [= <- <-].
  - rewrite Hz. split; [|done]. by apply send_result_ok.
  - split; [|done]. split; simpl; try done.
Qed.

Lemma monitor_ended pending failures m : monitor_ok pending failures m → mo_scheduling_done m = true →
  pending = 0 → mo_sent m = Some (first_failure failures).
Proof.
  intros [Hr Ho Hs] Hd Hp. destruct (mo_done_tx m); [|by destruct (Hs eq_refl) as (_ & _ & ?)].
  by destruct (Ho eq_refl) as (_ & _ & Hn); destruct (Hn Hd).
Qed.

Lemma monitor_sent pending failures m r : monitor_ok pending failures m → mo_sent m = Some r →
  pending = 0 ∧ r = first_failure failures.
Proof.
  intros [Hr Ho Hs] Hsent. destruct (mo_done_tx m); [by destruct (Ho eq_refl) as (? & _); congruence|].
  destruct (Hs eq_refl) as (_ & ? & ?). split; [done|congruence].
Qed.

(** ** One move of a task calls at most one callback *)

Lemma filter_same {A} (P P' : A → Prop) `{!∀ x, Decision (P x), !∀ x, Decision (P' x)} (l : list A) :
  (∀ x, x ∈ l → (P x ↔ P' x)) → base.filter P' l = base.filter P l.
Proof.
  intros Hiff. induction l as [|x l IH]; [done|]. rewrite !filter_cons, IH by (intros y Hy; apply Hiff; by right).
  pose proof (Hiff x (list_elem_of_here _ _)). by case_decide; case_decide; try tauto.
Qed.

Lemma filter_one_more {A B} (P P' : A * B → Prop) `{!∀ x, Decision (P x), !∀ x, Decision (P' x)} (l : list (A * B)) x :
  NoDup (map fst l) → x ∈ l → ¬ P x → P' x → (∀ y, y ∈ l → fst y ≠ fst x → (P y ↔ P' y)) →
  base.filter P' l ≡ₚ x :: base.filter P l.
Proof.
  intros Hnd Hx HP HP' Hother. induction l as [|y l IH]; [by apply elem_of_nil in Hx|].
  simpl in Hnd. apply NoDup_cons in Hnd as [Hy Hnd]. rewrite !filter_cons.
  apply elem_of_cons in Hx as [<-|Hx].
  - rewrite decide_True, decide_False by done. f_equiv. rewrite (filter_same P P'); [done|]. intros z Hz.
    apply Hother; [by right|]. intros Heq. apply Hy. rewrite <-Heq. by apply list_elem_of_fmap_2.
  - assert (fst y ≠ fst x) as Hne by (intros Heq; apply Hy; rewrite Heq; by apply list_elem_of_fmap_2).
    specialize (IH Hnd Hx (λ z Hz, Hother z (list_elem_of_further _ _ _ Hz))).
    pose proof (Hother y (list_elem_of_here _ _) Hne). destruct (decide (P' y)), (decide (P y)); try tauto.
    rewrite IH. apply Permutation_swap.
Qed.

(** the callbacks of a list of events *)
Definition is_called {Res} (e : SchedulerEvent Res) : bool := match e with Called _ _ _ => true | _ => false end.

Lemma task_log {Req Res} (c c' : Config Req Res) log : task_step c c' → cf_log c' = cf_log c ++ log →
  forallb (λ e, negb (is_called e)) log = true ∨
  ∃ cb h r rest, log = Called cb h r :: rest ∧ forallb (λ e, negb (is_called e)) rest = true.
Proof.
  intros Hstep Hlog. destruct Hstep as [c j t answer s t' log' Hj Hstep]. cbn [cf_log] in Hlog. apply app_inv_head in Hlog as ->.
  destruct t as [cb h req i owner|cb h req i owner r|cb h req i|h req i|h i r mode|h i r [|cb cbs] mode|h i mode| |];
    destruct answer as [|[[]|err]|hr]; try done; simpl in Hstep.
  all: repeat match type of Hstep with
    | ?l !! ?k ≫= _ = Some _ => destruct (l !! k) as [slot|]; [|done]; simpl in Hstep; unfold add_callback in Hstep
    | context [match rs_result ?slot with _ => _ end] => destruct (rs_result slot)
    | context [match sch_permits ?s with _ => _ end] => destruct (sch_permits s); [done|]
    | context [match ?mode with Spawned => _ | Failing _ _ => _ end] => destruct mode
    | context [after_callback _ _ _ _ ?owner] => destruct owner; simpl in Hstep
    end; injection Hstep as <- <- <-; first [by left | right; by repeat eexists].
Qed.

Lemma uncalled_sum {Res} cb h (log : list (SchedulerEvent Res)) :
  forallb (λ e, negb (is_called e)) log = true → sum_list_with (event_calls cb h) log = 0%nat.
Proof. intros Hl. apply sum_zero. intros e He. rewrite forallb_forall in Hl. specialize (Hl e). by destruct e; [| |specialize (Hl (proj1 (list_elem_of_In _ _) He))|]. Qed.

Lemma task_enqueued {Req Res} (c c' : Config Req Res) : task_step c c' → cf_enqueued c' = cf_enqueued c.
Proof. by intros []. Qed.

Lemma task_sched_inv {Req Res} concurrency (c c' : Config Req Res) : sched_inv concurrency c → task_step c c' → sched_inv concurrency c'.
Proof. apply sched_inv_task. Qed.

Lemma enqueue_sched_inv {Req Res} concurrency (c : Config Req Res) h req : sched_inv concurrency c →
  sched_inv concurrency (enqueue_blocking h req c).
Proof. intros Hc. eapply sched_inv_step; [exact Hc|]. apply sched_enqueue. Qed.

Lemma enqueue_fields {Req Res} h req (c : Config Req Res) :
  cf_log (enqueue_blocking h req c) = cf_log c ∧ cf_enqueued (enqueue_blocking h req c) = cf_enqueued c ++ [h].
Proof. unfold enqueue_blocking. by destruct (find_or_insert_slot h (cf_sched c)) as [[slot owner] s]. Qed.

(** a call that is logged was made; a call is logged once at most *)
Lemma called_enqueued {Req Res} concurrency (c : Config Req Res) cb h : sched_inv concurrency c →
  (sum_list_with (event_calls cb h) (cf_log c) ≤ 1)%nat ∧
  (sum_list_with (event_calls cb h) (cf_log c) ≠ 0%nat → cf_enqueued c !! cb = Some h).
Proof.
  intros Hc. pose proof (si_count _ _ Hc cb h) as Hcount. pose proof (one_le (cf_enqueued c !! cb = Some h)). split; [lia|].
  intros Hne. destruct (decide (cf_enqueued c !! cb = Some h)); [done|]. rewrite one_false in Hcount by done. lia.
Qed.

(** ** The transfer *)

Section TransferInv.
Context `{TransferKind J Req Res W}.

Abbreviation Key := (nat * nat * J)%type.

Definition job_item (x : Key) : Item J := IJob x.1.1 x.2.
Definition failures (t : Transfer J Req Res W) : list Fs0Error := omap snd (tr_outcomes t).

(** how often the callback of a job has been called *)
Definition job_calls (scheds : list (Config Req Res)) (x : Key) : nat :=
  match scheds !! x.1.1 with
  | Some c => sum_list_with (event_calls x.1.2 (job_hash x.2)) (cf_log c)
  | None => 0
  end.
Definition called_jobs (scheds : list (Config Req Res)) (jobs : list Key) : list J :=
  map snd (base.filter (λ x, job_calls scheds x = 1%nat) jobs).

Definition counted (phase : Phase J) : Z := match phase with Counted _ _ _ => 1 | _ => 0 end.
(** the callbacks to come *)
Definition pending (t : Transfer J Req Res W) : Z :=
  Z.of_nat (length (tr_jobs t)) + counted (tr_phase t) - Z.of_nat (length (tr_outcomes t)).

(** an enqueuing of this transfer failed *)
Definition enqueue_failed (t : Transfer J Req Res W) (err : Fs0Error) : Prop :=
  ∃ k cb j c, (k, cb, j) ∈ tr_jobs t ∧ tr_scheds t !! k = Some c ∧ Returned cb (Err err) ∈ cf_log c.

(** what was done of the script, and the phase of the rest *)
Definition phase_ok (script : list (Item J)) (t : Transfer J Req Res W) : Prop :=
  let done := map job_item (tr_jobs t) in
  match tr_phase t with
  | Scheduling todo => script = done ++ todo ∧ mo_scheduling_done (tr_monitor t) = false
  | Counted k job todo => script = done ++ IJob k job :: todo ∧ mo_scheduling_done (tr_monitor t) = false
  | Enqueuing k cb todo => script = done ++ todo ∧ mo_scheduling_done (tr_monitor t) = false ∧ ∃ job, (k, cb, job) ∈ tr_jobs t
  | Waiting => script = done ∧ mo_scheduling_done (tr_monitor t) = true
  | Ended (Ok _) => script = done ∧ mo_sent (tr_monitor t) ≠ None
  | Ended (Err err) => (∃ todo, script = done ++ IFail err :: todo) ∨ enqueue_failed t err ∨
      script = done ∧ mo_sent (tr_monitor t) = Some (Err err)
  end.

Record transfer_inv (concs : list nat) (script : list (Item J)) (t : Transfer J Req Res W) : Prop := {
  ti_scheds : Forall2 sched_inv concs (tr_scheds t);
  ti_jobs : ∀ k cb job, (k, cb, job) ∈ tr_jobs t → ∃ c, tr_scheds t !! k = Some c ∧ cf_enqueued c !! cb = Some (job_hash job);
  ti_keys : NoDup (map fst (tr_jobs t));
  ti_outcomes : map fst (tr_outcomes t) ≡ₚ called_jobs (tr_scheds t) (tr_jobs t);
  ti_monitor : monitor_ok (pending t) (failures t) (tr_monitor t);
  ti_phase : phase_ok script t }.

Lemma transfer_inv_new concs scheds script : Forall2 sched_inv concs scheds → transfer_inv concs script (Transfer_new scheds script).
Proof.
  intros Hs. split; simpl; try done; [by intros k cb job []%elem_of_nil|apply NoDup_nil_2].
Qed.

Lemma inv_sched concs script t k c : transfer_inv concs script t → tr_scheds t !! k = Some c → ∃ n, concs !! k = Some n ∧ sched_inv n c.
Proof. intros Hinv Hk. destruct (Forall2_lookup_r _ _ _ _ _ (ti_scheds _ _ _ Hinv) Hk) as (n & Hn & Hc). by exists n. Qed.

(** the calls after a scheduler moved: the others' are the same *)
Lemma job_calls_insert scheds k c c' (x : Key) : scheds !! k = Some c →
  (x.1.1 = k → sum_list_with (event_calls x.1.2 (job_hash x.2)) (cf_log c') =
               sum_list_with (event_calls x.1.2 (job_hash x.2)) (cf_log c)) →
  job_calls (<[k := c']> scheds) x = job_calls scheds x.
Proof.
  intros Hk Hsame. unfold job_calls. destruct (decide (x.1.1 = k)) as [Heq|Hne].
  - rewrite Heq, list_lookup_insert_eq, Hk by (by eapply lookup_lt_Some). by apply Hsame.
  - by rewrite list_lookup_insert_ne.
Qed.

Lemma job_calls_same scheds k c c' (x : Key) : scheds !! k = Some c → cf_log c' = cf_log c →
  job_calls (<[k := c']> scheds) x = job_calls scheds x.
Proof. intros Hk Hlog. apply (job_calls_insert _ _ c); [done|]. by rewrite Hlog. Qed.

Lemma called_jobs_same scheds scheds' jobs : (∀ x, x ∈ jobs → job_calls scheds' x = job_calls scheds x) →
  called_jobs scheds' jobs = called_jobs scheds jobs.
Proof. intros Hsame. unfold called_jobs. f_equal. apply filter_same. intros x Hx. by rewrite Hsame. Qed.

(** at most as many outcomes as jobs, and all of them when as many *)
Lemma outcomes_le concs script t : transfer_inv concs script t → (length (tr_outcomes t) ≤ length (tr_jobs t))%nat.
Proof.
  intros Hinv. pose proof (Permutation_length (ti_outcomes _ _ _ Hinv)) as Hlen. unfold called_jobs in Hlen.
  rewrite !length_map in Hlen. rewrite Hlen. apply length_filter.
Qed.

Lemma filter_whole {A} (P : A → Prop) `{!∀ x, Decision (P x)} (l : list A) :
  length (base.filter P l) = length l → base.filter P l = l.
Proof.
  induction l as [|x l IH]; [done|]. rewrite filter_cons. pose proof (length_filter P l). case_decide; simpl; intros Hlen; [f_equal; apply IH|]; lia.
Qed.

Lemma outcomes_all concs script t : transfer_inv concs script t → length (tr_outcomes t) = length (tr_jobs t) →
  map fst (tr_outcomes t) ≡ₚ map snd (tr_jobs t).
Proof.
  intros Hinv Heq. rewrite (ti_outcomes _ _ _ Hinv). unfold called_jobs. rewrite filter_whole; [done|].
  pose proof (Permutation_length (ti_outcomes _ _ _ Hinv)) as Hlen. unfold called_jobs in Hlen. rewrite !length_map in Hlen. lia.
Qed.

Lemma ended_outcomes concs script t : transfer_inv concs script t → pending t = 0 → counted (tr_phase t) = 0 →
  map fst (tr_outcomes t) ≡ₚ map snd (tr_jobs t).
Proof. intros Hinv Hp Hc. eapply outcomes_all; [done|]. unfold pending in Hp. lia. Qed.

(** *** The callbacks of a move *)

Lemma find_job_Some k cb (jobs : list Key) job : find_job k cb jobs = Some job → (k, cb, job) ∈ jobs.
Proof.
  unfold find_job. induction jobs as [|[[k' cb'] job'] jobs IH]; simpl; [done|]. case_bool_decide as Hkey.
  - intros [= ->]. destruct Hkey as [-> ->]. by left.
  - intros Hf. right. by apply IH.
Qed.
Lemma find_job_None k cb (jobs : list Key) job : find_job k cb jobs = None → (k, cb, job) ∉ jobs.
Proof.
  unfold find_job. induction jobs as [|[[k' cb'] job'] jobs IH]; simpl; [intros _ []%elem_of_nil|]. case_bool_decide as Hkey; [done|].
  intros Hf [[= -> -> ->]|Hin]%elem_of_cons; [by apply Hkey|by apply IH].
Qed.

Lemma call_back_uncalled k receives (t : Transfer J Req Res W) log : forallb (λ e, negb (is_called e)) log = true →
  foldl (call_back k receives) t log = t.
Proof. revert t. induction log as [|[] log IH]; intros t; simpl; try done; apply IH. Qed.

(** the fields the callbacks leave alone *)
Lemma call_back_fields k receives (t : Transfer J Req Res W) e :
  tr_scheds (call_back k receives t e) = tr_scheds t ∧ tr_jobs (call_back k receives t e) = tr_jobs t ∧
  tr_phase (call_back k receives t e) = tr_phase t ∧
  mo_scheduling_done (tr_monitor (call_back k receives t e)) = mo_scheduling_done (tr_monitor t).
Proof.
  destruct e as [| |cb h r|]; try done. simpl. destruct (find_job k cb (tr_jobs t)); [|done].
  destruct (job_callback j r receives). split_and!; try done. apply chunk_completed_done.
Qed.
End TransferInv.
