(* ===== verification/ClientTransferRuns.v ===== *)
(** * Every step of a transfer keeps its invariant *)

From S2P Require Import Prelude Types Conc ClientScheduler ClientSchedulerInv ClientSession ClientTransfer ClientTransferInv.

Section TransferRuns.
Context `{TransferKind J Req Res W}.
Context (concs : list nat) (script : list (Item J)).

Implicit Types t : Transfer J Req Res W.

(** steps that only change the phase and the shared state of the callbacks *)
Lemma inv_phase t m phase :
  transfer_inv concs script t →
  monitor_ok (pending t - counted (tr_phase t) + counted phase) (failures t) m →
  phase_ok script (set_tr_phase (set_tr_monitor t m) phase) →
  transfer_inv concs script (set_tr_phase (set_tr_monitor t m) phase).
Proof.
  intros [] Hm Hphase. split; try done. unfold pending in *.
  replace (Z.of_nat (length (tr_jobs (set_tr_phase (set_tr_monitor t m) phase))) + counted (tr_phase (set_tr_phase (set_tr_monitor t m) phase))
    - Z.of_nat (length (tr_outcomes (set_tr_phase (set_tr_monitor t m) phase)))) with
    (Z.of_nat (length (tr_jobs t)) + counted (tr_phase t) - Z.of_nat (length (tr_outcomes t)) - counted (tr_phase t) + counted phase)
    by (simpl; lia). done.
Qed.

(** steps that only change the phase *)
Lemma inv_phase_only t phase :
  transfer_inv concs script t → counted (tr_phase t) = counted phase →
  phase_ok script (set_tr_phase t phase) → transfer_inv concs script (set_tr_phase t phase).
Proof.
  intros Hinv Hc Hphase.
  assert (set_tr_phase t phase = set_tr_phase (set_tr_monitor t (tr_monitor t)) phase) as Heq by by destruct t.
  rewrite Heq in *. apply inv_phase; [done| |done]. rewrite <-Hc. pose proof (ti_monitor _ _ _ Hinv) as Hm.
  by replace (pending t - counted (tr_phase t) + counted (tr_phase t)) with (pending t) by lia.
Qed.

Lemma inv_count t k job todo : Z.of_nat (length script) ≤ u64_max →
  transfer_inv concs script t → tr_phase t = Scheduling (IJob k job :: todo) →
  transfer_inv concs script (set_tr_phase (set_tr_monitor t (chunk_scheduled (tr_monitor t))) (Counted k job todo)).
Proof.
  intros Hlen Hinv Hphase. pose proof (ti_phase _ _ _ Hinv) as Hp. unfold phase_ok in Hp. rewrite Hphase in Hp. destruct Hp as [Hscript Hd].
  apply inv_phase; [done| |done]. rewrite Hphase. simpl.
  replace (pending t - 0 + 1) with (pending t + 1) by lia. apply chunk_scheduled_ok; [by apply (ti_monitor _ _ _ Hinv)| |done].
  pose proof (outcomes_le _ _ _ Hinv). unfold pending. rewrite Hphase. simpl.
  assert (length script = (length (tr_jobs t) + S (length todo))%nat) by (rewrite Hscript, length_app, length_map; done). lia.
Qed.

(** what a call of the scheduler [k] leaves as it was *)
Lemma inv_enqueue_scheds t k c h req : transfer_inv concs script t → tr_scheds t !! k = Some c →
  let scheds := <[k := enqueue_blocking h req c]> (tr_scheds t) in
  Forall2 sched_inv concs scheds ∧
  (∀ k' cb c0, tr_scheds t !! k' = Some c0 → ∃ c', scheds !! k' = Some c' ∧ cf_log c' = cf_log c0 ∧
     ∀ h', cf_enqueued c0 !! cb = Some h' → cf_enqueued c' !! cb = Some h') ∧
  (∀ x : nat * nat * J, job_calls scheds x = job_calls (tr_scheds t) x).
Proof.
  intros Hinv Hk scheds. destruct (enqueue_fields h req c) as [Hlog Henq]. split; [|split].
  - destruct (inv_sched _ _ _ _ _ Hinv Hk) as (n & Hn & Hc). unfold scheds. rewrite <-(list_insert_id concs k n) by done.
    apply Forall2_insert; [by apply Hinv|by apply enqueue_sched_inv].
  - intros k' cb c0 Hk'. unfold scheds. destruct (decide (k' = k)) as [->|Hne].
    + simplify_eq. exists (enqueue_blocking h req c). split; [apply list_lookup_insert_eq; by eapply lookup_lt_Some|].
      split; [done|]. intros h' Hh. rewrite Henq. by apply lookup_app_l_Some.
    + exists c0. rewrite list_lookup_insert_ne by done. done.
  - intros x. by apply (job_calls_same _ _ c).
Qed.

(** the log of a scheduler only grows *)
Lemma enqueue_failed_mono t t' err : tr_jobs t' = tr_jobs t →
  (∀ k c, tr_scheds t !! k = Some c → ∃ c', tr_scheds t' !! k = Some c' ∧ ∀ e, e ∈ cf_log c → e ∈ cf_log c') →
  enqueue_failed t err → enqueue_failed t' err.
Proof.
  intros Hj Hlog (k & cb & j & c & Hin & Hk & He). destruct (Hlog k c Hk) as (c' & Hc' & Hsub).
  exists k, cb, j, c'. rewrite Hj. auto.
Qed.

Lemma phase_ok_mono t t' : tr_jobs t' = tr_jobs t → tr_phase t' = tr_phase t →
  mo_scheduling_done (tr_monitor t') = mo_scheduling_done (tr_monitor t) →
  (∀ r, mo_sent (tr_monitor t) = Some r → mo_sent (tr_monitor t') = Some r) →
  (∀ k c, tr_scheds t !! k = Some c → ∃ c', tr_scheds t' !! k = Some c' ∧ ∀ e, e ∈ cf_log c → e ∈ cf_log c') →
  phase_ok script t → phase_ok script t'.
Proof.
  intros Hj Hph Hd Hs Hlog. unfold phase_ok. rewrite Hj, Hph, Hd. destruct (tr_phase t) as [| | | |[[]|err]]; try done.
  - intros [Hscript Hsent]. split; [done|]. destruct (mo_sent (tr_monitor t)) as [r|] eqn:Hr; [|done]. by rewrite (Hs r).
  - intros [Htodo|[Hf|[Hscript Hsent]]]; [by left| |].
    + right; left. by eapply enqueue_failed_mono.
    + right; right. split; [done|]. by apply Hs.
Qed.

Lemma inv_other t k c h req : transfer_inv concs script t → tr_scheds t !! k = Some c →
  transfer_inv concs script (set_tr_scheds t (<[k := enqueue_blocking h req c]> (tr_scheds t))).
Proof.
  intros Hinv Hk. destruct (inv_enqueue_scheds t k c h req Hinv Hk) as (Hscheds & Hold & Hcalls). pose proof Hinv as [Hi_scheds Hi_jobs Hi_keys Hi_out Hi_mon Hi_phase].
  split; simpl; try done.
  - intros k' cb job Hin. destruct (Hi_jobs k' cb job Hin) as (c0 & Hk' & Hh).
    destruct (Hold k' cb c0 Hk') as (c' & Hc' & _ & Henq). exists c'. split; [done|]. by apply Henq.
  - rewrite Hi_out. by erewrite called_jobs_same.
  - eapply phase_ok_mono; [| | | | |exact Hi_phase]; try done. intros k' c0 Hk'.
    destruct (Hold k' 0%nat c0 Hk') as (c' & Hc' & Hlog & _). exists c'. rewrite Hlog. by split.
Qed.

Lemma inv_enqueue t k job todo c : transfer_inv concs script t →
  tr_phase t = Counted k job todo → tr_scheds t !! k = Some c →
  transfer_inv concs script
    (mkTransfer (<[k := enqueue_blocking (job_hash job) (job_request job) c]> (tr_scheds t)) (tr_monitor t) (tr_writes t)
       (tr_jobs t ++ [(k, length (cf_enqueued c), job)]) (tr_outcomes t) (Enqueuing k (length (cf_enqueued c)) todo)).
Proof.
  intros Hinv Hphase Hk. destruct (inv_enqueue_scheds t k c (job_hash job) (job_request job) Hinv Hk) as (Hscheds & Hold & Hcalls).
  destruct (inv_sched _ _ _ _ _ Hinv Hk) as (n & _ & Hc). pose proof Hinv as [Hi_scheds Hi_jobs Hi_keys Hi_out Hi_mon Hi_phase]. set (cb := length (cf_enqueued c)).
  assert (cf_enqueued c !! cb = None) as Hfresh by (apply lookup_ge_None; subst cb; lia).
  split; cbn [tr_scheds tr_monitor tr_writes tr_jobs tr_outcomes tr_phase]; try done.
  - intros k' cb' job' [Hin|Hin]%elem_of_app.
    + destruct (Hi_jobs k' cb' job' Hin) as (c0 & Hk' & Hh). destruct (Hold k' cb' c0 Hk') as (c' & Hc' & _ & Henq).
      exists c'. split; [done|]. by apply Henq.
    + apply list_elem_of_singleton in Hin. injection Hin as -> -> ->. exists (enqueue_blocking (job_hash job) (job_request job) c).
      split; [apply list_lookup_insert_eq; by eapply lookup_lt_Some|]. destruct (enqueue_fields (job_hash job) (job_request job) c) as [_ ->].
      by rewrite lookup_app_r, Nat.sub_diag by (subst cb; lia).
  - rewrite map_app. apply NoDup_app. split; [done|]. split; [|apply NoDup_singleton].
    intros key Hin Hkey. apply list_elem_of_singleton in Hkey as ->. apply list_elem_of_fmap in Hin as ([[k' cb'] job'] & [= -> ->] & Hin).
    destruct (Hi_jobs _ _ _ Hin) as (c0 & Hk' & Hh). simplify_eq.
  - rewrite Hi_out. unfold called_jobs. rewrite filter_app, map_app.
    assert (base.filter (λ x, job_calls (<[k := enqueue_blocking (job_hash job) (job_request job) c]> (tr_scheds t)) x = 1%nat) [(k, cb, job)] = []) as ->.
    { rewrite filter_cons_False; [done|]. rewrite Hcalls. unfold job_calls. cbn [fst snd]. rewrite Hk.
      destruct (called_enqueued n c cb (job_hash job) Hc) as [_ Hmade]. intros H1. rewrite Hmade in Hfresh by lia. done. }
    simpl. rewrite app_nil_r. change (called_jobs (tr_scheds t) (tr_jobs t) ≡ₚ called_jobs (<[k := enqueue_blocking (job_hash job) (job_request job) c]> (tr_scheds t)) (tr_jobs t)).
    by erewrite <-(called_jobs_same (tr_scheds t)).
  - unfold pending in *. cbn [tr_jobs tr_outcomes tr_phase counted]. rewrite Hphase in Hi_mon. cbn [counted] in Hi_mon. rewrite length_app. simpl.
    replace (Z.of_nat (length (tr_jobs t) + 1) + 0) with (Z.of_nat (length (tr_jobs t)) + 1) by lia. done.
  - unfold phase_ok in *. cbn [tr_jobs tr_outcomes tr_phase tr_monitor]. rewrite Hphase in Hi_phase. destruct Hi_phase as [Hscript Hd].
    rewrite map_app, <-app_assoc. split; [done|]. split; [done|]. exists job. set_solver.
Qed.

Lemma inv_enqueued t k cb todo c r : transfer_inv concs script t →
  tr_phase t = Enqueuing k cb todo → tr_scheds t !! k = Some c → Returned cb r ∈ cf_log c →
  transfer_inv concs script (set_tr_phase t (match r with Ok _ => Scheduling todo | Err err => Ended (Err err) end)).
Proof.
  intros Hinv Hphase Hk Hr. pose proof (ti_phase _ _ _ Hinv) as Hp. unfold phase_ok in Hp. rewrite Hphase in Hp.
  destruct Hp as (Hscript & Hd & job & Hjob). apply inv_phase_only; [done|rewrite Hphase; by destruct r|].
  unfold phase_ok. destruct r as [[]|err]; cbn [tr_phase set_tr_phase]; [done|]. right; left. by exists k, cb, job, c.
Qed.

Lemma inv_fail t err todo : transfer_inv concs script t → tr_phase t = Scheduling (IFail err :: todo) →
  transfer_inv concs script (set_tr_phase t (Ended (Err err))).
Proof.
  intros Hinv Hphase. pose proof (ti_phase _ _ _ Hinv) as Hp. unfold phase_ok in Hp. rewrite Hphase in Hp. destruct Hp as (Hscript & Hd).
  apply inv_phase_only; [done|by rewrite Hphase|]. left. by exists todo.
Qed.

Lemma inv_finish t wait m : transfer_inv concs script t → tr_phase t = Scheduling [] →
  finish_scheduling (tr_monitor t) = (wait, m) →
  transfer_inv concs script (set_tr_phase (set_tr_monitor t m) (if wait then Waiting else Ended (Ok tt))).
Proof.
  intros Hinv Hphase Hfin. pose proof (ti_phase _ _ _ Hinv) as Hp. unfold phase_ok in Hp. rewrite Hphase, app_nil_r in Hp. destruct Hp as (Hscript & Hd).
  destruct (finish_scheduling_ok _ _ _ _ _ (ti_monitor _ _ _ Hinv) Hd Hfin) as (Hm & Hd' & Hwait).
  apply inv_phase; [done| |].
  - rewrite Hphase. by replace (pending t - counted (Scheduling []) + counted (if wait then Waiting else Ended (Ok ()))) with (pending t) by (destruct wait; simpl; lia).
  - unfold phase_ok. destruct wait; cbn [tr_phase set_tr_phase tr_monitor set_tr_monitor tr_jobs]; [done|].
    split; [done|]. by rewrite (monitor_ended _ _ _ Hm).
Qed.

Lemma inv_done t r : transfer_inv concs script t → tr_phase t = Waiting → mo_sent (tr_monitor t) = Some r →
  transfer_inv concs script (set_tr_phase t (Ended r)).
Proof.
  intros Hinv Hphase Hs. pose proof (ti_phase _ _ _ Hinv) as Hp. unfold phase_ok in Hp. rewrite Hphase in Hp. destruct Hp as (Hscript & Hd).
  apply inv_phase_only; [done|by rewrite Hphase|]. unfold phase_ok. destruct r as [[]|err]; cbn [tr_phase set_tr_phase]; [|by do 2 right].
  split; [done|]. cbn. by rewrite Hs.
Qed.

(** what a move of a task of the scheduler [k] leaves as it was *)
Lemma inv_task_scheds t k c c' log : transfer_inv concs script t → tr_scheds t !! k = Some c → task_step c c' →
  cf_log c' = cf_log c ++ log →
  let scheds := <[k := c']> (tr_scheds t) in
  Forall2 sched_inv concs scheds ∧
  (∀ k' cb job, (k', cb, job) ∈ tr_jobs t → ∃ c0, scheds !! k' = Some c0 ∧ cf_enqueued c0 !! cb = Some (job_hash job)) ∧
  (∀ k' c0, tr_scheds t !! k' = Some c0 → ∃ c1, scheds !! k' = Some c1 ∧ ∀ e, e ∈ cf_log c0 → e ∈ cf_log c1).
Proof.
  intros Hinv Hk Hstep Hlog scheds. assert (scheds !! k = Some c') as Hk' by (apply list_lookup_insert_eq; by eapply lookup_lt_Some).
  split; [|split].
  - destruct (inv_sched _ _ _ _ _ Hinv Hk) as (n & Hn & Hc). unfold scheds. rewrite <-(list_insert_id concs k n) by done.
    apply Forall2_insert; [by apply Hinv|by eapply task_sched_inv].
  - intros k1 cb job Hin. destruct (ti_jobs _ _ _ Hinv _ _ _ Hin) as (c0 & Hc0 & Henq). destruct (decide (k1 = k)) as [->|Hne].
    + simplify_eq. exists c'. split; [done|]. by rewrite (task_enqueued _ _ Hstep).
    + exists c0. unfold scheds. by rewrite list_lookup_insert_ne.
  - intros k1 c0 Hc0. destruct (decide (k1 = k)) as [->|Hne].
    + simplify_eq. exists c'. split; [done|]. rewrite Hlog. set_solver.
    + exists c0. unfold scheds. by rewrite list_lookup_insert_ne.
Qed.

(** a move without a callback of this transfer *)
Lemma inv_task_other t k c c' log : transfer_inv concs script t → tr_scheds t !! k = Some c → task_step c c' →
  cf_log c' = cf_log c ++ log →
  (∀ cb job, (k, cb, job) ∈ tr_jobs t → sum_list_with (event_calls cb (job_hash job)) log = 0%nat) →
  transfer_inv concs script (set_tr_scheds t (<[k := c']> (tr_scheds t))).
Proof.
  intros Hinv Hk Hstep Hlog Hnone. destruct (inv_task_scheds t k c c' log Hinv Hk Hstep Hlog) as (Hs & Hj & Hl).
  pose proof Hinv as [Hi_scheds Hi_jobs Hi_keys Hi_out Hi_mon Hi_phase]. split; simpl; try done.
  - rewrite Hi_out. erewrite <-(called_jobs_same (tr_scheds t)); [done|]. intros [[k' cb] job] Hin.
    apply (job_calls_insert _ _ c); [done|]. cbn [fst snd]. intros ->. rewrite Hlog, sum_list_with_app, (Hnone cb job Hin). lia.
  - by eapply phase_ok_mono; [| | | | |exact Hi_phase].
Qed.

(** a move with one *)
Lemma inv_task_own t k c c' cb h r rest job receives : transfer_inv concs script t → tr_scheds t !! k = Some c →
  task_step c c' → cf_log c' = cf_log c ++ Called cb h r :: rest → forallb (λ e, negb (is_called e)) rest = true →
  find_job k cb (tr_jobs t) = Some job →
  transfer_inv concs script (call_back k receives (set_tr_scheds t (<[k := c']> (tr_scheds t))) (Called cb h r)).
Proof.
  intros Hinv Hk Hstep Hlog Hrest Hfind. pose proof (find_job_Some _ _ _ _ Hfind) as Hin.
  destruct (inv_task_scheds t k c c' _ Hinv Hk Hstep Hlog) as (Hs & Hj & Hl).
  pose proof Hinv as [Hi_scheds Hi_jobs Hi_keys Hi_out Hi_mon Hi_phase].
  destruct (inv_sched _ _ _ _ _ Hinv Hk) as (n & _ & Hc).
  assert (∀ cb' h', sum_list_with (event_calls cb' h') (cf_log c') = (sum_list_with (event_calls cb' h') (cf_log c) + one (cb = cb' ∧ h = h'))%nat) as Hsum.
  { intros cb' h'. rewrite Hlog, sum_list_with_app. simpl. rewrite (uncalled_sum cb' h' rest Hrest). lia. }
  destruct (called_enqueued n c' cb h (task_sched_inv _ _ _ Hc Hstep)) as [Hle Hmade].
  rewrite (Hsum cb h), one_true in Hle, Hmade by done.
  assert (cf_enqueued c !! cb = Some h) as Henq by (rewrite <-(task_enqueued _ _ Hstep); apply Hmade; lia).
  destruct (Hi_jobs _ _ _ Hin) as (c0 & Hk0 & Hh). simplify_eq.
  assert (called_jobs (<[k := c']> (tr_scheds t)) (tr_jobs t) ≡ₚ job :: called_jobs (tr_scheds t) (tr_jobs t)) as Hcalled.
  { unfold called_jobs.
    apply (fmap_Permutation snd _ ((k, cb, job) :: base.filter (λ x, job_calls (tr_scheds t) x = 1%nat) (tr_jobs t))).
    apply filter_one_more; try done.
    - unfold job_calls. cbn [fst snd]. rewrite Hk. lia.
    - unfold job_calls. cbn [fst snd]. rewrite list_lookup_insert_eq, Hsum, one_true by (done || by eapply lookup_lt_Some). lia.
    - intros [[k' cb'] job'] Hin' Hne. rewrite (job_calls_insert _ _ c); [done|done|]. cbn [fst snd]. intros ->.
      rewrite Hsum, one_false; [lia|]. intros [-> _]. by apply Hne. }
  cbn [call_back tr_jobs set_tr_scheds]. rewrite Hfind. destruct (job_callback job r receives) as [ws failure].
  assert (map fst (tr_outcomes t ++ [(job, failure)]) ≡ₚ called_jobs (<[k := c']> (tr_scheds t)) (tr_jobs t)) as Hout.
  { rewrite map_app, Hcalled, Hi_out. simpl. symmetry. apply Permutation_cons_append. }
  assert (1 ≤ pending t) as Hpend.
  { apply Permutation_length in Hout. unfold called_jobs in Hout. rewrite !length_map, length_app in Hout. simpl in Hout.
    pose proof (length_filter (λ x, job_calls (<[k := c']> (tr_scheds t)) x = 1%nat) (tr_jobs t)).
    unfold pending. assert (0 ≤ counted (tr_phase t)) by (by destruct (tr_phase t)). lia. }
  split; cbn [tr_scheds tr_jobs tr_outcomes tr_monitor tr_phase]; try done.
  - unfold pending, failures. cbn [tr_scheds tr_jobs tr_outcomes tr_monitor tr_phase set_tr_scheds]. rewrite omap_app.
    replace (omap snd [(job, failure)]) with (option_list failure) by by destruct failure.
    replace (Z.of_nat (length (tr_jobs t)) + counted (tr_phase t) - Z.of_nat (length (tr_outcomes t ++ [(job, failure)]))) with (pending t - 1)
      by (unfold pending; rewrite length_app; simpl; lia).
    by apply chunk_completed_ok.
  - eapply phase_ok_mono; [| | | | |exact Hi_phase]; try done.
    + apply chunk_completed_done.
    + intros r' Hr'. destruct (monitor_sent _ _ _ _ Hi_mon Hr') as [? _]. lia.
Qed.

Lemma inv_task t k c c' log receives : transfer_inv concs script t → tr_scheds t !! k = Some c →
  task_step c c' → cf_log c' = cf_log c ++ log →
  transfer_inv concs script (foldl (call_back k receives) (set_tr_scheds t (<[k := c']> (tr_scheds t))) log).
Proof.
  intros Hinv Hk Hstep Hlog. destruct (task_log c c' log Hstep Hlog) as [Hnone|(cb & h & r & rest & -> & Hrest)].
  - rewrite call_back_uncalled by done. eapply inv_task_other; try done. intros cb job _. by apply uncalled_sum.
  - cbn [foldl]. rewrite call_back_uncalled by done. destruct (find_job k cb (tr_jobs t)) as [job|] eqn:Hfind.
    + by eapply inv_task_own.
    + cbn [call_back tr_jobs set_tr_scheds]. rewrite Hfind. eapply inv_task_other; try done. intros cb' job Hin.
      simpl. rewrite uncalled_sum, one_false; [done| |done]. intros [-> _]. by apply (find_job_None _ _ _ job) in Hfind.
Qed.

Lemma transfer_inv_step t t' : Z.of_nat (length script) ≤ u64_max →
  transfer_inv concs script t → shared_step t t' → transfer_inv concs script t'.
Proof.
  intros Hlen Hinv Hstep. destruct Hstep as [t t' Hstep|t k c h req Hk]; [|by apply inv_other]. destruct Hstep.
  - by apply inv_count.
  - by apply inv_enqueue.
  - by eapply inv_enqueued.
  - by eapply inv_fail.
  - by apply inv_finish.
  - by apply inv_done.
  - by eapply inv_task.
Qed.

Lemma transfer_inv_steps t t' : Z.of_nat (length script) ≤ u64_max →
  transfer_inv concs script t → rtc shared_step t t' → transfer_inv concs script t'.
Proof. intros Hlen Hinv Hsteps. induction Hsteps as [|t t1 t' Hstep _ IH]; [done|]. by eapply IH, transfer_inv_step. Qed.
End TransferRuns.
