(* ===== verification/ClientTransferFacts.v ===== *)
(** * What a transfer reports, and that it ends

    For every script, any state of the schedulers and every interleaving. *)

From S2P Require Import Prelude Types Conc ClientScheduler ClientSchedulerInv ClientSchedulerFacts.
From S2P Require Import ClientSession ClientTransfer ClientTransferInv ClientTransferRuns.

(** ** The calls of a scheduler return *)

Section Returns.
Context {Req Res : Type}.

Definition mode_call (mode : Mode) : option nat := match mode with Failing cb _ => Some cb | Spawned => None end.
(** the call a thread has still to return from *)
Definition thread_call (t : Thread Req Res) : option nat :=
  match t with
  | TAddCallback cb _ _ _ _ | TCallOwn cb _ _ _ _ _ | TAcquire cb _ _ _ => Some cb
  | TComplete _ _ _ mode | TCallbacks _ _ _ _ mode | TRemove _ _ mode => mode_call mode
  | _ => None
  end.

Definition returns_inv (c : Config Req Res) : Prop := ∀ cb, (cb < length (cf_enqueued c))%nat →
  (∃ r, Returned cb r ∈ cf_log c) ∨ ∃ j t, cf_threads c !! j = Some t ∧ thread_call t = Some cb.

Lemma thread_step_call s t answer s' t' log cb : thread_step s t answer = Some (s', t', log) → thread_call t = Some cb →
  thread_call t' = Some cb ∨ ∃ r, Returned cb r ∈ log.
Proof.
  intros Hstep. destruct t as [cb0 h req i owner|cb0 h req i owner r|cb0 h req i|h req i|h i r mode|h i r [|cb0 cbs] mode|h i mode| |];
    destruct answer as [|[[]|err]|hr]; try done; simpl in Hstep.
  all: repeat match type of Hstep with
    | ?l !! ?k ≫= _ = Some _ => destruct (l !! k) as [slot|]; [|done]; simpl in Hstep; unfold add_callback in Hstep
    | context [match rs_result ?slot with _ => _ end] => destruct (rs_result slot)
    | context [match sch_permits ?s with _ => _ end] => destruct (sch_permits s); [done|]
    | context [match ?mode with Spawned => _ | Failing _ _ => _ end] => destruct mode
    | context [after_callback _ _ _ _ ?owner] => destruct owner; simpl in Hstep
    end; injection Hstep as <- <- <-; simpl; intros Hcb; try (by left); simplify_eq; right; eexists; first [apply list_elem_of_here | apply list_elem_of_further, list_elem_of_here].
Qed.

Lemma returns_step (c c' : Config Req Res) : returns_inv c → sched_step c c' → returns_inv c'.
Proof.
  intros Hinv Hstep. destruct Hstep as [c h req|c c' Hstep].
  - intros cb Hcb. unfold enqueue_blocking in *. destruct (find_or_insert_slot h (cf_sched c)) as [[slot owner] s].
    cbn [cf_enqueued cf_log cf_threads] in *. rewrite length_app in Hcb. simpl in Hcb.
    destruct (decide (cb < length (cf_enqueued c))%nat) as [Hlt|Hge].
    + destruct (Hinv cb Hlt) as [Hr|(j & t & Hj & Ht)]; [by left|]. right. exists j, t. split; [by apply lookup_app_l_Some|done].
    + right. exists (length (cf_threads c)), (TAddCallback (length (cf_enqueued c)) h req slot owner).
      split; [by rewrite lookup_app_r, Nat.sub_diag|]. simpl. f_equal. lia.
  - destruct Hstep as [c i t answer s t' log Hi Hs]. intros cb Hcb. cbn [cf_enqueued cf_log cf_threads] in *.
    destruct (Hinv cb Hcb) as [[r Hr]|(j & t0 & Hj & Ht)]; [left; exists r; set_solver|].
    destruct (decide (j = i)) as [->|Hne].
    + rewrite Hi in Hj. injection Hj as <-. destruct (thread_step_call _ _ _ _ _ _ _ Hs Ht) as [Ht'|[r Hr]].
      * right. exists i, t'. split; [apply list_lookup_insert_eq; by eapply lookup_lt_Some|done].
      * left. exists r. set_solver.
    + right. exists j, t0. by rewrite list_lookup_insert_ne.
Qed.

Lemma returns_new concurrency : returns_inv (Config_new (Req := Req) (Res := Res) concurrency).
Proof. intros cb Hcb. simpl in Hcb. lia. Qed.
End Returns.

Section TransferFacts.
Context `{TransferKind J Req Res W}.
Implicit Types t : Transfer J Req Res W.

(** ** What is reported *)

(** once something was sent, that stays *)
Lemma call_back_sent k receives t e r : mo_done_tx (tr_monitor t) = false → mo_sent (tr_monitor t) = Some r →
  mo_done_tx (tr_monitor (call_back k receives t e)) = false ∧ mo_sent (tr_monitor (call_back k receives t e)) = Some r.
Proof.
  intros Htx Hs. destruct e as [| |cb h r'|]; try done. cbn [call_back]. destruct (find_job k cb (tr_jobs t)) as [job|]; [|done].
  destruct (job_callback job r' receives) as [ws failure]. cbn [tr_monitor]. unfold chunk_completed, send_result.
  cbn [mo_scheduling_done mo_remain_chunks mo_done_tx mo_sent]. rewrite Htx, Hs.
  by destruct (mo_scheduling_done (tr_monitor t)); cbn [andb]; [case_bool_decide|].
Qed.

Lemma call_backs_sent k receives t log r : mo_done_tx (tr_monitor t) = false → mo_sent (tr_monitor t) = Some r →
  mo_sent (tr_monitor (foldl (call_back k receives) t log)) = Some r.
Proof.
  revert t. induction log as [|e log IH]; intros t Htx Hs; [done|]. cbn [foldl].
  destruct (call_back_sent k receives t e r Htx Hs). by apply IH.
Qed.

Lemma call_backs_phase k receives t log : tr_phase (foldl (call_back k receives) t log) = tr_phase t.
Proof.
  revert t. induction log as [|e log IH]; intros t; [done|]. cbn [foldl]. rewrite IH. apply call_back_fields.
Qed.

(** a transfer that waits ends with what is sent *)
Definition waited t : Prop := tr_phase t = Waiting ∨ ∃ r, tr_phase t = Ended r ∧ mo_sent (tr_monitor t) = Some r.

Lemma waited_step concs script t t' : transfer_inv concs script t → waited t → shared_step t t' → waited t'.
Proof.
  intros Hinv Hw Hstep. destruct Hstep as [t t' Hstep|]; [|done]. destruct Hstep as [| | | | | |t k c c' log receives Hk Hstep Hlog].
  all: try (exfalso; destruct Hw as [Hw|(? & Hw & _)]; congruence).
  - right. eexists. by split.
  - unfold waited. rewrite call_backs_phase. destruct Hw as [Hw|(r & Hw & Hs)]; [by left|]. right. exists r. split; [done|].
    apply call_backs_sent; [|done]. simpl. destruct (mo_done_tx (tr_monitor t)) eqn:Htx; [|done].
    destruct (mok_open _ _ _ (ti_monitor _ _ _ Hinv) Htx) as (Hn & _). congruence.
Qed.

Lemma waited_steps concs script t t' : Z.of_nat (length script) ≤ u64_max →
  transfer_inv concs script t → waited t → rtc shared_step t t' → waited t'.
Proof.
  intros Hlen Hinv Hw Hsteps. induction Hsteps as [|t t1 t' Hstep _ IH]; [done|].
  apply IH; [by eapply transfer_inv_step|by eapply waited_step].
Qed.

Lemma reachable_inv concs scheds script t : Z.of_nat (length script) ≤ u64_max →
  Forall2 (λ n c, rtc sched_step (Config_new n) c) concs scheds →
  rtc shared_step (Transfer_new scheds script) t → transfer_inv concs script t.
Proof.
  intros Hlen Hscheds Hsteps. eapply transfer_inv_steps; [done| |exact Hsteps]. apply transfer_inv_new.
  eapply Forall2_impl; [exact Hscheds|]. apply sched_inv_reachable.
Qed.

(** what is sent at the end, when everything was scheduled *)
Lemma sent_complete concs script t r : transfer_inv concs script t → tr_phase t = Ended r →
  ∀ r', mo_sent (tr_monitor t) = Some r' → r' = first_failure (failures t) ∧ map fst (tr_outcomes t) ≡ₚ map snd (tr_jobs t).
Proof.
  intros Hinv Hphase r' Hs. destruct (monitor_sent _ _ _ _ (ti_monitor _ _ _ Hinv) Hs) as [Hz ->]. split; [done|].
  eapply ended_outcomes; [done|done|by rewrite Hphase].
Qed.

Lemma ended_ok concs script t : transfer_inv concs script t → tr_phase t = Ended (Ok tt) →
  script = map job_item (tr_jobs t) ∧ map fst (tr_outcomes t) ≡ₚ map snd (tr_jobs t) ∧
  mo_sent (tr_monitor t) = Some (first_failure (failures t)).
Proof.
  intros Hinv Hphase. pose proof (ti_phase _ _ _ Hinv) as Hp. unfold phase_ok in Hp. rewrite Hphase in Hp. destruct Hp as [Hscript Hne].
  destruct (mo_sent (tr_monitor t)) as [r'|] eqn:Hs; [|done]. destruct (sent_complete _ _ _ _ Hinv Hphase r' Hs) as [-> ?]. done.
Qed.

(** C11. What a transfer reports.  However the tasks, the callbacks and the users of the same sessions interleave:
    a transfer that ends with [Ok] has enqueued every chunk of its loop and has had the callback of
    each exactly once; one that ends with an error has it from its loop, from the scheduler, or from the
    first callback that failed.  A transfer that had to wait for a callback ends with the first
    failure of all its callbacks, and with [Ok] when there was none. *)
Theorem transfer_result concs scheds script t r :
  Z.of_nat (length script) ≤ u64_max →
  Forall2 (λ n c, rtc sched_step (Config_new n) c) concs scheds →
  rtc shared_step (Transfer_new scheds script) t → tr_phase t = Ended r →
  match r with
  | Ok _ => script = map job_item (tr_jobs t) ∧ map fst (tr_outcomes t) ≡ₚ map snd (tr_jobs t) ∧
            mo_sent (tr_monitor t) = Some (first_failure (failures t))
  | Err err => IFail err ∈ script ∨ enqueue_failed t err ∨ head (failures t) = Some err
  end ∧
  ∀ t0, rtc shared_step (Transfer_new scheds script) t0 → tr_phase t0 = Waiting → rtc shared_step t0 t →
    r = first_failure (failures t) ∧ map fst (tr_outcomes t) ≡ₚ map snd (tr_jobs t).
Proof.
  intros Hlen Hscheds Hsteps Hphase. pose proof (reachable_inv _ _ _ _ Hlen Hscheds Hsteps) as Hinv.
  pose proof (sent_complete _ _ _ _ Hinv Hphase) as Hsent. split.
  - destruct r as [[]|err]; [by eapply ended_ok|].
    pose proof (ti_phase _ _ _ Hinv) as Hp. unfold phase_ok in Hp. rewrite Hphase in Hp.
    destruct Hp as [[todo ->]|[Hf|[_ Hs]]]; [left; set_solver|by right; left|right; right].
    destruct (Hsent _ Hs) as [Hfail _]. destruct (failures t); [done|]. by injection Hfail as ->.
  - intros t0 Ht0 Hw Hrest. destruct (waited_steps concs script t0 t Hlen) as [?|(r' & Hph & Hs)]; [by eapply reachable_inv|by left|done|congruence|].
    rewrite Hphase in Hph. injection Hph as <-. by apply Hsent.
Qed.

(** ** It ends *)

(** the steps still to make *)
Definition phase_work (phase : Phase J) : nat :=
  match phase with
  | Scheduling todo => 12 * length todo + 2
  | Counted _ _ todo => 12 * length todo + 13
  | Enqueuing _ _ todo => 12 * length todo + 3
  | Waiting => 1
  | Ended _ => 0
  end.
Definition transfer_work t : nat := (phase_work (tr_phase t) + sum_list_with work (tr_scheds t))%nat.

Lemma enqueue_work h req (c : Config Req Res) : work (enqueue_blocking h req c) = (work c + 9)%nat.
Proof.
  unfold enqueue_blocking, find_or_insert_slot, work.
  destruct (sch_in_flight (cf_sched c) !! h); cbn [cf_threads cf_sched sch_slots]; rewrite !sum_list_with_app; simpl; lia.
Qed.

Lemma call_backs_scheds k receives t log : tr_scheds (foldl (call_back k receives) t log) = tr_scheds t.
Proof.
  revert t. induction log as [|e log IH]; intros t; [done|]. cbn [foldl]. rewrite IH. apply call_back_fields.
Qed.

Lemma transfer_step_work t t' : transfer_step t t' → (transfer_work t' < transfer_work t)%nat.
Proof.
  unfold transfer_work. intros Hstep. destruct Hstep as [t k job todo Hph|t k job todo c Hph Hk|t k cb todo c r Hph Hk Hr
    |t err todo Hph|t wait m Hph Hf|t r Hph Hs|t k c c' log receives Hk Hstep Hlog];
    cbn [tr_phase tr_scheds set_tr_phase set_tr_monitor]; try rewrite Hph; cbn [phase_work length]; try lia.
  - pose proof (sum_insert work _ _ _ (enqueue_blocking (job_hash job) (job_request job) c) Hk) as Hsum. rewrite enqueue_work in Hsum. lia.
  - destruct r; cbn [phase_work]; lia.
  - destruct wait; cbn [phase_work]; lia.
  - rewrite call_backs_phase, call_backs_scheds. cbn [tr_phase tr_scheds set_tr_scheds].
    pose proof (sum_insert work _ _ _ c' Hk). apply task_step_work in Hstep. lia.
Qed.

Lemma transfer_steps_work n t t' : nsteps transfer_step n t t' → (n + transfer_work t' ≤ transfer_work t)%nat.
Proof. intros Hs. induction Hs as [|n t t1 t' Hstep _ IH]; [lia|]. apply transfer_step_work in Hstep. lia. Qed.

(** the jobs of the rest of the script have a session *)
Definition in_range (t : Transfer J Req Res W) (item : Item J) : Prop :=
  match item with IJob k _ => (k < length (tr_scheds t))%nat | IFail _ => True end.

Lemma scheds_length t t' : shared_step t t' → length (tr_scheds t') = length (tr_scheds t).
Proof.
  intros [t1 t2 []|]; cbn; try rewrite call_backs_scheds; cbn; by rewrite ?length_insert.
Qed.

Lemma returns_steps scheds script t : Forall returns_inv scheds →
  rtc shared_step (Transfer_new scheds script) t → Forall returns_inv (tr_scheds t).
Proof.
  intros Hs Hsteps.
  assert (∀ t0 t, rtc shared_step t0 t → Forall returns_inv (tr_scheds t0) → Forall returns_inv (tr_scheds t)) as Hgen; [|by eapply Hgen].
  clear. intros t0 t Hsteps. induction Hsteps as [|t t1 t' Hstep _ IH]; [done|]. intros Hall. apply IH.
  assert (∀ k c c', tr_scheds t !! k = Some c → sched_step c c' → Forall returns_inv (<[k:=c']> (tr_scheds t))) as Hins.
  { intros k c c' Hk Hc. apply Forall_insert; [done|]. eapply returns_step; [|exact Hc]. by eapply Forall_lookup_1. }
  destruct Hstep as [? ? []|]; cbn; try done.
  - eapply Hins; [done|apply sched_enqueue].
  - rewrite call_backs_scheds. cbn. eapply Hins; [done|by apply sched_task].
  - eapply Hins; [done|apply sched_enqueue].
Qed.

(** a transfer that cannot move has no task left, in any of its sessions *)
Lemma stuck_scheds concs script t (r0 : Fs0Result Res) k c : transfer_inv concs script t → (∀ t', ¬ transfer_step t t') →
  tr_scheds t !! k = Some c → ∀ th, th ∈ cf_threads c → th = TDone.
Proof.
  intros Hinv Hstuck Hk. destruct (inv_sched _ _ _ _ _ Hinv Hk) as (n & _ & Hc). apply (stuck_done n c r0 Hc).
  intros c' Hstep. assert (∃ log, cf_log c' = cf_log c ++ log) as [log Hlog] by (destruct Hstep; by eexists).
  by eapply Hstuck, (ts_task t k c c' log true).
Qed.

(** ... and the callback of every job has been called *)
Lemma stuck_called concs script t (r0 : Fs0Result Res) : transfer_inv concs script t → (∀ t', ¬ transfer_step t t') →
  map fst (tr_outcomes t) ≡ₚ map snd (tr_jobs t).
Proof.
  intros Hinv Hstuck. rewrite (ti_outcomes _ _ _ Hinv). unfold called_jobs.
  rewrite filter_all; [done|]. intros [[k cb] job] Hin. destruct (ti_jobs _ _ _ Hinv k cb job Hin) as (c & Hk & Henq). unfold job_calls. cbn [fst snd]. rewrite Hk.
  destruct (inv_sched _ _ _ _ _ Hinv Hk) as (n & _ & Hc). pose proof (stuck_scheds _ _ _ r0 k c Hinv Hstuck Hk) as Hdone.
  exact (done_called n c Hc Hdone cb (job_hash job) Henq).
Qed.

Lemma stuck_ended concs script t (r0 : Fs0Result Res) : transfer_inv concs script t → (∀ t', ¬ transfer_step t t') →
  Forall returns_inv (tr_scheds t) → Forall (in_range t) script → ∃ r, tr_phase t = Ended r.
Proof.
  intros Hinv Hstuck Hret Hrange. pose proof (ti_phase _ _ _ Hinv) as Hp. unfold phase_ok in Hp.
  destruct (tr_phase t) as [[|[k job|err] todo]|k job todo|k cb todo| |r] eqn:Hph; [| | | | | |by eexists]; exfalso.
  - destruct (finish_scheduling (tr_monitor t)) as [wait m] eqn:Hf. by eapply Hstuck, ts_finish.
  - by eapply Hstuck, ts_count.
  - by eapply Hstuck, ts_fail.
  - destruct Hp as [-> _]. apply Forall_app in Hrange as [_ [Hr _]%Forall_cons]. simpl in Hr.
    apply lookup_lt_is_Some_2 in Hr as [c Hk]. by eapply Hstuck, ts_enqueue.
  - destruct Hp as (_ & _ & job & Hjob). destruct (ti_jobs _ _ _ Hinv k cb job Hjob) as (c & Hk & Henq).
    pose proof (proj1 (Forall_lookup _ _) Hret k c Hk cb (lookup_lt_Some _ _ _ Henq)) as [[r Hr]|(j & th & Hj & Hth)].
    + by eapply Hstuck, ts_enqueued.
    + rewrite (stuck_scheds _ _ _ r0 k c Hinv Hstuck Hk th) in Hth; [done|]. by eapply list_elem_of_lookup_2.
  - destruct Hp as [_ Hd]. pose proof (Permutation_length (stuck_called _ _ _ r0 Hinv Hstuck)) as Hlen. rewrite !length_map in Hlen.
    assert (pending t = 0) as Hz by (unfold pending; rewrite Hph; simpl; lia).
    pose proof (monitor_ended _ _ _ (ti_monitor _ _ _ Hinv) Hd Hz) as Hs. by eapply Hstuck, ts_done.
Qed.

(** C12. A transfer ends.  From whatever point it reached, in whatever order things happen: it makes no
    more than a bounded number of steps, as long as nobody else makes new requests; while handlers return it is
    not stuck before its end; and then the callback of every chunk it enqueued has been called. *)
Theorem transfer_completes concs scheds script t (r0 : Fs0Result Res) :
  Z.of_nat (length script) ≤ u64_max →
  Forall2 (λ n c, rtc sched_step (Config_new n) c) concs scheds →
  Forall (λ item, match item with IJob k _ => (k < length scheds)%nat | IFail _ => True end) script →
  rtc shared_step (Transfer_new scheds script) t →
  (∀ n t', nsteps transfer_step n t t' → n ≤ transfer_work t)%nat ∧
  ∀ t', rtc transfer_step t t' → (∀ t'', ¬ transfer_step t' t'') →
    (∃ r, tr_phase t' = Ended r) ∧ map fst (tr_outcomes t') ≡ₚ map snd (tr_jobs t').
Proof.
  intros Hlen Hscheds Hrange Ht. split; [intros n t' Hn; apply transfer_steps_work in Hn; lia|].
  intros t' Hsteps Hstuck.
  assert (rtc shared_step (Transfer_new scheds script) t') as Ht'.
  { etrans; [exact Ht|]. eapply rtc_subrel; [|exact Hsteps]. intros x y. apply shared_own. }
  pose proof (reachable_inv _ _ _ _ Hlen Hscheds Ht') as Hinv. split; [|by eapply stuck_called].
  eapply stuck_ended; [exact r0|exact Hinv|exact Hstuck| |].
  - eapply returns_steps; [|exact Ht']. apply Forall_lookup. intros k c Hk.
    destruct (Forall2_lookup_r _ _ _ _ _ Hscheds Hk) as (n & _ & Hc). revert Hc. generalize (returns_new (Req := Req) (Res := Res) n).
    clear. intros H0 Hc. induction Hc as [|c c1 c' Hs _ IH]; [done|]. by apply IH, (returns_step c).
  - eapply Forall_impl; [exact Hrange|]. intros [k job|err]; [|done]. simpl.
    assert (length (tr_scheds t') = length scheds) as ->; [|done].
    assert (∀ t0 t1, rtc shared_step t0 t1 → length (tr_scheds t1) = length (tr_scheds t0)) as Hgen; [|by rewrite (Hgen _ _ Ht')].
    clear. intros t0 t1 Hs. induction Hs as [|? ? ? Hs _ IH]; [done|]. rewrite IH. by apply scheds_length.
Qed.
(** ** What is lost *)

Lemma call_backs_more k receives t log : (length (tr_outcomes t) ≤ length (tr_outcomes (foldl (call_back k receives) t log)))%nat.
Proof.
  revert t. induction log as [|e log IH]; intros t; [done|]. cbn [foldl]. etrans; [|apply IH].
  destruct e as [| |cb h r|]; try done. cbn [call_back]. destruct (find_job k cb (tr_jobs t)) as [job|]; [|done].
  destruct (job_callback job r receives). cbn [tr_outcomes]. rewrite length_app. lia.
Qed.

(** callbacks that leave no outcome are not this transfer's *)
Lemma call_backs_quiet k receives t log :
  length (tr_outcomes (foldl (call_back k receives) t log)) = length (tr_outcomes t) → foldl (call_back k receives) t log = t.
Proof.
  revert t. induction log as [|e log IH]; intros t Hlen; [done|]. cbn [foldl] in *.
  assert (call_back k receives t e = t) as He; [|rewrite He in *; by apply IH].
  pose proof (call_backs_more k receives (call_back k receives t e) log) as Hmore.
  destruct e as [| |cb h r|]; try done. cbn [call_back] in *. destruct (find_job k cb (tr_jobs t)) as [job|]; [|done].
  destruct (job_callback job r receives). cbn [tr_outcomes] in Hmore. rewrite length_app in Hmore. simpl in Hmore. lia.
Qed.

(** nothing is left to do but to end: every callback has come *)
Definition all_called t : Prop :=
  (tr_phase t = Scheduling [] ∨ tr_phase t = Ended (Ok tt)) ∧ length (tr_outcomes t) = length (tr_jobs t).

Lemma all_called_finish concs script t wait m : transfer_inv concs script t → all_called t → tr_phase t = Scheduling [] →
  finish_scheduling (tr_monitor t) = (wait, m) → wait = false.
Proof.
  intros Hinv [_ Hlen] Hph Hf. pose proof (ti_phase _ _ _ Hinv) as Hp. unfold phase_ok in Hp. rewrite Hph in Hp. destruct Hp as [_ Hd].
  destruct (finish_scheduling_ok _ _ _ _ _ (ti_monitor _ _ _ Hinv) Hd Hf) as (_ & _ & Hwait). destruct wait; [|done].
  destruct Hwait. unfold pending. rewrite Hph. simpl. lia.
Qed.

Lemma all_called_step concs script t t' : Z.of_nat (length script) ≤ u64_max → transfer_inv concs script t → all_called t →
  shared_step t t' → all_called t' ∧ tr_outcomes t' = tr_outcomes t ∧ tr_writes t' = tr_writes t.
Proof.
  intros Hlen Hinv Hall Hstep. pose proof (transfer_inv_step concs script t t' Hlen Hinv Hstep) as Hinv'.
  pose proof Hall as [Hph Hout]. destruct Hstep as [t t' Hstep|]; [|done].
  destruct Hstep as [| | | |t wait m Hph' Hf| |t k c c' log receives Hk Hstep Hlog].
  all: try (exfalso; destruct Hph; congruence).
  - rewrite (all_called_finish _ _ _ _ _ Hinv Hall Hph' Hf). split; [split; [by right|done]|done].
  - pose proof (outcomes_le _ _ _ Hinv') as Hle. rewrite call_backs_quiet; [done|].
    pose proof (call_backs_more k receives (set_tr_scheds t (<[k := c']> (tr_scheds t))) log) as Hmore.
    assert (tr_jobs (foldl (call_back k receives) (set_tr_scheds t (<[k:=c']> (tr_scheds t))) log) = tr_jobs t) as Hjobs.
    { clear. generalize (set_tr_scheds t (<[k:=c']> (tr_scheds t))) as u, (eq_refl : tr_jobs (set_tr_scheds t (<[k:=c']> (tr_scheds t))) = tr_jobs t).
      induction log as [|e log IH]; intros u Hu; [done|]. cbn [foldl]. apply IH. rewrite <- Hu. apply call_back_fields. }
    rewrite Hjobs in Hle. cbn [tr_outcomes set_tr_scheds] in *. lia.
Qed.

(** C34. A failure is lost when the callbacks are early.  Whatever transfer, with the session's other users and in
    whatever order things happen: when the callback of every chunk has come before the scheduling ends (the loop is
    over, the block after it has not run), the transfer can only end with [Ok], whatever errors the chunks met, and it
    can take that step; the first of them goes to a channel nobody reads, and nothing more is written. *)
Theorem transfer_loses_failure concs scheds script t :
  Z.of_nat (length script) ≤ u64_max →
  Forall2 (λ n c, rtc sched_step (Config_new n) c) concs scheds →
  rtc shared_step (Transfer_new scheds script) t →
  tr_phase t = Scheduling [] → map fst (tr_outcomes t) ≡ₚ map snd (tr_jobs t) →
  (∃ t', transfer_step t t' ∧ tr_phase t' = Ended (Ok tt)) ∧
  ∀ t', rtc shared_step t t' →
    (tr_phase t' = Scheduling [] ∨ tr_phase t' = Ended (Ok tt) ∧ mo_sent (tr_monitor t') = Some (first_failure (failures t))) ∧
    tr_outcomes t' = tr_outcomes t ∧ tr_writes t' = tr_writes t.
Proof.
  intros Hlen Hscheds Hsteps Hph Hout%Permutation_length. rewrite !length_map in Hout.
  pose proof (reachable_inv _ _ _ _ Hlen Hscheds Hsteps) as Hinv. assert (all_called t) as Hall by (split; [by left|done]). split.
  - destruct (finish_scheduling (tr_monitor t)) as [wait m] eqn:Hf. eexists. split; [by apply ts_finish|].
    by rewrite (all_called_finish _ _ _ _ _ Hinv Hall Hph Hf).
  - assert (∀ t t', rtc shared_step t t' → transfer_inv concs script t → all_called t →
      transfer_inv concs script t' ∧ all_called t' ∧ tr_outcomes t' = tr_outcomes t ∧ tr_writes t' = tr_writes t) as Hgen.
    { clear -Hlen. intros t t' Hsteps. induction Hsteps as [|t t1 t' Hstep _ IH]; [done|]. intros Hinv Hall.
      destruct (all_called_step _ _ _ _ Hlen Hinv Hall Hstep) as (Hall1 & Ho & Hw).
      destruct (IH (transfer_inv_step _ _ _ _ Hlen Hinv Hstep) Hall1) as (? & ? & Ho' & Hw'). by rewrite Ho', Hw'. }
    intros t' Hrest. destruct (Hgen t t' Hrest Hinv Hall) as (Hinv' & [Hph' _] & Ho & Hw). split; [|done].
    destruct Hph' as [?|Hend]; [by left|right]. split; [done|].
    destruct (ended_ok _ _ _ Hinv' Hend) as (_ & _ & ->). unfold failures. by rewrite Ho.
Qed.
End TransferFacts.

(** ** Runs with chosen moves *)

Inductive Move (Res : Type) :=
| MCount | MEnqueue | MEnqueued | MFail | MFinish | MDone
| MTask (k i : nat) (answer : @Answer Res) (receives : bool).
Arguments MCount {Res}.
Arguments MEnqueue {Res}.
Arguments MEnqueued {Res}.
Arguments MFail {Res}.
Arguments MFinish {Res}.
Arguments MDone {Res}.
Arguments MTask {Res} k i answer receives.

Section Moves.
Context `{TransferKind J Req Res W}.

Definition find_returned (cb : nat) (log : list (SchedulerEvent Res)) : option (Fs0Result unit) :=
  lfind_map (λ e, match e with Returned cb' r => if bool_decide (cb' = cb) then Some r else None | _ => None end) log.

Definition exec_task (k i : nat) (answer : @Answer Res) (receives : bool) (t : Transfer J Req Res W) : option (Transfer J Req Res W) :=
  c ← tr_scheds t !! k;
  th ← cf_threads c !! i;
  '(s, th', log) ← thread_step (cf_sched c) th answer;
  Some (foldl (call_back k receives)
          (set_tr_scheds t (<[k := mkConfig s (<[i := th']> (cf_threads c)) (cf_log c ++ log) (cf_enqueued c)]> (tr_scheds t))) log).

Definition exec_move (m : Move Res) (t : Transfer J Req Res W) : option (Transfer J Req Res W) :=
  match m, tr_phase t with
  | MCount, Scheduling (IJob k job :: todo) =>
      Some (set_tr_phase (set_tr_monitor t (chunk_scheduled (tr_monitor t))) (Counted k job todo))
  | MEnqueue, Counted k job todo =>
      c ← tr_scheds t !! k;
      Some (mkTransfer (<[k := enqueue_blocking (job_hash job) (job_request job) c]> (tr_scheds t)) (tr_monitor t)
        (tr_writes t) (tr_jobs t ++ [(k, length (cf_enqueued c), job)]) (tr_outcomes t) (Enqueuing k (length (cf_enqueued c)) todo))
  | MEnqueued, Enqueuing k cb todo =>
      c ← tr_scheds t !! k;
      r ← find_returned cb (cf_log c);
      Some (set_tr_phase t (match r with Ok _ => Scheduling todo | Err err => Ended (Err err) end))
  | MFail, Scheduling (IFail err :: todo) => Some (set_tr_phase t (Ended (Err err)))
  | MFinish, Scheduling [] =>
      let '(wait, m) := finish_scheduling (tr_monitor t) in
      Some (set_tr_phase (set_tr_monitor t m) (if wait then Waiting else Ended (Ok tt)))
  | MDone, Waiting => r ← mo_sent (tr_monitor t); Some (set_tr_phase t (Ended r))
  | MTask k i answer receives, _ => exec_task k i answer receives t
  | _, _ => None
  end.

Fixpoint exec_moves (ms : list (Move Res)) (t : Transfer J Req Res W) : option (Transfer J Req Res W) :=
  match ms with [] => Some t | m :: ms => t ← exec_move m t; exec_moves ms t end.

Lemma find_returned_Some cb log r : find_returned cb log = Some r → Returned cb r ∈ log.
Proof.
  unfold find_returned. induction log as [|e log IH]; simpl; [done|]. destruct e as [| | |cb' r']; try (intros Hf; right; by apply IH).
  case_bool_decide as Hcb; [intros [= ->]; subst; by left|intros Hf; right; by apply IH].
Qed.

Lemma exec_task_step k i answer receives t t' : exec_task k i answer receives t = Some t' → transfer_step t t'.
Proof.
  unfold exec_task. destruct (tr_scheds t !! k) as [c|] eqn:Hk; [|done]. simpl. destruct (cf_threads c !! i) as [th|] eqn:Hi; [|done]. simpl.
  destruct (thread_step (cf_sched c) th answer) as [[[s th'] log]|] eqn:Hs; [|done]. simpl. intros [= <-].
  eapply ts_task; [done|by eapply task_moves|done].
Qed.

Lemma exec_move_step m t t' : exec_move m t = Some t' → transfer_step t t'.
Proof.
  destruct m as [| | | | | |k i answer receives]; unfold exec_move.
  7: { intros He. apply (exec_task_step k i answer receives). by destruct (tr_phase t). }
  all: destruct (tr_phase t) as [[|[k job|err] todo]|k job todo|k cb todo| |r] eqn:Hph; try done.
  - intros [= <-]. by apply ts_count.
  - destruct (tr_scheds t !! k) as [c|] eqn:Hk; [|done]. intros [= <-]. by apply ts_enqueue.
  - destruct (tr_scheds t !! k) as [c|] eqn:Hk; [|done]. simpl. destruct (find_returned cb (cf_log c)) as [r|] eqn:Hr; [|done].
    intros [= <-]. eapply ts_enqueued; [done|done|by apply find_returned_Some].
  - intros [= <-]. by eapply ts_fail.
  - destruct (finish_scheduling (tr_monitor t)) as [wait m] eqn:Hf. intros [= <-]. by apply ts_finish.
  - destruct (mo_sent (tr_monitor t)) as [r|] eqn:Hs; [|done]. intros [= <-]. by apply ts_done.
Qed.

Lemma exec_moves_steps ms : ∀ t t', exec_moves ms t = Some t' → rtc transfer_step t t'.
Proof.
  induction ms as [|m ms IH]; intros t t' He; simpl in He; [injection He as ->; apply rtc_refl|].
  destruct (exec_move m t) as [t1|] eqn:Hm; [|done]. eapply rtc_l; [by eapply exec_move_step|by apply IH].
Qed.

Lemma own_shared t t' : rtc transfer_step t t' → rtc shared_step t t'.
Proof. intros Hs. eapply rtc_subrel; [|exact Hs]. intros x y. apply shared_own. Qed.

(** with its phase ended and its tasks done it cannot move *)
Definition at_rest (t : Transfer J Req Res W) : bool :=
  match tr_phase t with Ended _ => forallb (λ c, forallb is_done (cf_threads c)) (tr_scheds t) | _ => false end.
Lemma at_rest_stuck t t' : at_rest t = true → ¬ transfer_step t t'.
Proof.
  unfold at_rest. intros Hr Hs. destruct Hs as [| | | | | |t k c c' log receives Hk Hs Hlog].
  all: try (match goal with Hp : tr_phase _ = _ |- _ => rewrite Hp in Hr; done end).
  destruct (tr_phase t); try done. apply (all_done_stuck c c'); [|done].
  rewrite forallb_forall in Hr. apply Hr, list_elem_of_In. by eapply list_elem_of_lookup_2.
Qed.
End Moves.

(** ** A download of one chunk *)

Section OneChunk.
Definition one_job : DownloadJob := mkDownloadJob (mkDownloadChunkRequest 2 some_hash) 0 3.
Definition one_chunk : Transfer DownloadJob DownloadChunkRequest DownloadChunkResult DownloadWriteJob :=
  Transfer_new [Config_new 1] [IJob 0 one_job].
Definition one_result : DownloadChunkResult := mkDownloadChunkResult some_hash [Byte.x61; Byte.x62; Byte.x63].
Definition task (answer : @Answer DownloadChunkResult) : Move DownloadChunkResult := MTask 0 0 answer true.

(** the callback comes after the loop *)
Definition late_callback : list (Move DownloadChunkResult) :=
  [MCount; MEnqueue; task Turn; task (Permit (Ok tt)); MEnqueued; MFinish; task (HandlerReturns (Ok one_result)); task Turn; task Turn;
   task Turn; task Turn; task Turn; MDone].
(** the callback comes before the call that enqueued the chunk has returned, with the error [err] *)
Definition early_callback (err : Fs0Error) : list (Move DownloadChunkResult) :=
  [MCount; MEnqueue; task Turn; task (Permit (Ok tt)); task (HandlerReturns (Err err)); task Turn; task Turn; MEnqueued].

Definition one_chunk_done : Transfer DownloadJob DownloadChunkRequest DownloadChunkResult DownloadWriteJob :=
  default one_chunk (exec_moves late_callback one_chunk).

Lemma one_chunk_run : rtc transfer_step one_chunk one_chunk_done.
Proof.
  apply (exec_moves_steps late_callback). unfold one_chunk_done.
  assert (bool_decide (is_Some (exec_moves late_callback one_chunk)) = true) as Hsome by (vm_compute; reflexivity).
  apply bool_decide_eq_true in Hsome as [c Hc]. by rewrite Hc.
Qed.

(** the chunk fails, and nothing was written: the downloaded file has zeros where the chunk belongs *)
Definition early_failure : Transfer DownloadJob DownloadChunkRequest DownloadChunkResult DownloadWriteJob :=
  default one_chunk (exec_moves (early_callback NotFound) one_chunk).
Definition early_ended : Transfer DownloadJob DownloadChunkRequest DownloadChunkResult DownloadWriteJob :=
  default one_chunk (exec_move MFinish early_failure).

Lemma early_failure_run : rtc transfer_step one_chunk early_failure ∧ rtc transfer_step early_failure early_ended.
Proof.
  assert (∀ ms t, bool_decide (is_Some (exec_moves ms t)) = true → rtc transfer_step t (default one_chunk (exec_moves ms t))) as Hrun.
  { intros ms t Hsome. apply exec_moves_steps with ms. apply bool_decide_eq_true in Hsome as [c Hc]. by rewrite Hc. }
  split; [apply (Hrun (early_callback NotFound) one_chunk)|apply (Hrun [MFinish] early_failure)]; vm_compute; reflexivity.
Qed.

Lemma transfer_loses_failure_witness :
  failures early_failure = [NotFound] ∧ tr_phase early_ended = Ended (Ok tt) ∧ mo_sent (tr_monitor early_ended) = Some (Err NotFound) ∧
  written_file 3 (tr_writes early_ended) = [Byte.x00; Byte.x00; Byte.x00].
Proof.
  destruct early_failure_run as [Hbefore Hafter].
  destruct (transfer_loses_failure [1%nat] [Config_new 1] [IJob 0 one_job] early_failure) as [_ Hend].
  - vm_compute. intros Hle. discriminate Hle.
  - apply Forall2_cons. split; [apply rtc_refl|apply Forall2_nil_2].
  - apply own_shared. exact Hbefore.
  - vm_compute. reflexivity.
  - vm_compute. reflexivity.
  - destruct (Hend early_ended (own_shared _ _ Hafter)) as ([Hph|[Hph Hs]] & _ & Hw); [vm_compute in Hph; discriminate Hph|].
    split; [vm_compute; reflexivity|]. split; [exact Hph|]. split; [rewrite Hs; vm_compute; reflexivity|].
    rewrite Hw. vm_compute. reflexivity.
Defined.

Lemma transfer_result_witness :
  tr_phase one_chunk_done = Ended (Ok tt) ∧ mo_sent (tr_monitor one_chunk_done) = Some (first_failure (failures one_chunk_done)) ∧
  written_file 3 (tr_writes one_chunk_done) = [Byte.x61; Byte.x62; Byte.x63].
Proof.
  assert (tr_phase one_chunk_done = Ended (Ok tt)) as Hph by (vm_compute; reflexivity).
  split; [exact Hph|]. split; [|vm_compute; reflexivity].
  destruct (transfer_result [1%nat] [Config_new 1] [IJob 0 one_job] one_chunk_done (Ok tt)) as [(_ & _ & Hs) _].
  - vm_compute. intros Hle. discriminate Hle.
  - apply Forall2_cons. split; [apply rtc_refl|apply Forall2_nil_2].
  - apply own_shared. exact one_chunk_run.
  - exact Hph.
  - exact Hs.
Defined.

Lemma transfer_completes_witness :
  transfer_work one_chunk = 14%nat ∧
  (∃ r, tr_phase one_chunk_done = Ended r) ∧ map fst (tr_outcomes one_chunk_done) ≡ₚ map snd (tr_jobs one_chunk_done).
Proof.
  split; [vm_compute; reflexivity|].
  destruct (transfer_completes [1%nat] [Config_new 1] [IJob 0 one_job] one_chunk (Err NotFound)) as [_ Hend].
  - vm_compute. intros Hle. discriminate Hle.
  - apply Forall2_cons. split; [apply rtc_refl|apply Forall2_nil_2].
  - apply Forall_cons. split; [apply (Nat.lt_0_succ 0)|apply Forall_nil_2].
  - apply rtc_refl.
  - apply Hend; [exact one_chunk_run|]. intros t. apply at_rest_stuck. vm_compute. reflexivity.
Defined.
End OneChunk.
