(* ===== verification/ClientLayout.v ===== *)
(** * The layout of a file in chunks and bundles

    The loop of an upload over full reads: chunks of [VOLUME_RAW_CHUNK_SIZE], in bundles of
    [VOLUME_BUNDLE_RAW_SIZE], each chunk's job at its place in the file.  The loop of a download
    over the bundles of such an upload: a job for every chunk, at the same place.  What its writes leave
    in the file. *)

From S2P Require Import Prelude Types Conc ClientSession ClientTransfer.

Definition CHUNK : nat := Z.to_nat VOLUME_RAW_CHUNK_SIZE.
Definition BUNDLE : nat := 128.  (* chunks in a bundle *)

Lemma CHUNK_eq : Z.of_nat CHUNK = VOLUME_RAW_CHUNK_SIZE.
Proof. unfold CHUNK. by rewrite Z2Nat.id. Qed.
Lemma BUNDLE_eq : Z.of_nat BUNDLE * VOLUME_RAW_CHUNK_SIZE = VOLUME_BUNDLE_RAW_SIZE.
Proof. reflexivity. Qed.
Lemma CHUNK_pos : (0 < CHUNK)%nat.
Proof. pose proof CHUNK_eq as Heq. unfold VOLUME_RAW_CHUNK_SIZE in Heq. lia. Qed.
#[global] Opaque CHUNK.

Lemma u64_checked_add_fits a b : a + b ≤ u64_max → u64_checked_add a b = Some (a + b).
Proof. intros. unfold u64_checked_add. by rewrite bool_decide_true. Qed.
Lemma u64_checked_mul_fits a b : a * b ≤ u64_max → u64_checked_mul a b = Some (a * b).
Proof. intros. unfold u64_checked_mul. by rewrite bool_decide_true. Qed.

(** ** [chunks] *)

Lemma chunks_fuel_enough {A} n (l : list A) fuel fuel' : (0 < n)%nat → (length l ≤ fuel)%nat → (length l ≤ fuel')%nat →
  chunks_fuel fuel n l = chunks_fuel fuel' n l.
Proof.
  intros Hn. revert fuel' l. induction fuel as [|fuel IH]; intros fuel' l Hl Hl'.
  - destruct l; [by destruct fuel'|simpl in Hl; lia].
  - destruct l as [|x l]; [by destruct fuel'|]. destruct fuel' as [|fuel']; [simpl in Hl'; lia|].
    cbn [chunks_fuel]. f_equal. apply IH; rewrite length_drop; simpl in *; lia.
Qed.

Lemma chunks_nil {A} n : chunks n ([] : list A) = [].
Proof. done. Qed.

Lemma chunks_step {A} n (l : list A) : (0 < n)%nat → l ≠ [] → chunks n l = take n l :: chunks n (drop n l).
Proof.
  intros Hn Hl. unfold chunks. destruct l as [|x l]; [done|]. cbn [length chunks_fuel]. f_equal.
  apply chunks_fuel_enough; [done| |done]. rewrite length_drop. simpl. lia.
Qed.

Lemma chunks_app {A} n (l k : list A) : (0 < n)%nat → length l = n → chunks n (l ++ k) = l :: chunks n k.
Proof.
  intros Hn Hl. rewrite chunks_step; [|done|by destruct l; [simpl in Hl; lia|]].
  rewrite take_app_length' by done. by rewrite drop_app_length'.
Qed.

Lemma chunks_small {A} n (l : list A) : (0 < length l ≤ n)%nat → chunks n l = [l].
Proof.
  intros Hl. rewrite chunks_step; [|lia|by destruct l; [simpl in Hl; lia|]].
  rewrite take_ge, drop_ge by lia. done.
Qed.

Lemma chunks_fuel_length {A} fuel n (l : list A) : (length (chunks_fuel fuel n l) ≤ fuel)%nat.
Proof. revert l. induction fuel as [|fuel IH]; intros [|x l]; simpl; try lia. specialize (IH (drop n (x :: l))). lia. Qed.

(** what the [i]-th chunk is *)
Lemma chunks_lookup {A} n (l : list A) i c : (0 < n)%nat → chunks n l !! i = Some c →
  c = take n (drop (i * n) l) ∧ (i * n < length l)%nat.
Proof.
  intros Hn. revert l. induction i as [|i IH]; intros l Hc.
  - destruct l as [|x l]; [done|]. rewrite chunks_step in Hc by done. injection Hc as <-. simpl. split; [done|lia].
  - destruct l as [|x l]; [done|]. rewrite chunks_step in Hc by done. cbn [lookup list_lookup] in Hc.
    apply IH in Hc as [-> Hlt]. rewrite drop_drop, length_drop in *. split; [f_equal; f_equal; lia|lia].
Qed.

Lemma chunks_lookup_Some {A} n (l : list A) i : (0 < n)%nat → (i * n < length l)%nat → is_Some (chunks n l !! i).
Proof.
  intros Hn. revert l. induction i as [|i IH]; intros l Hi.
  - destruct l as [|x l]; [simpl in Hi; lia|]. by rewrite chunks_step.
  - destruct l as [|x l]; [simpl in Hi; lia|]. rewrite chunks_step by done. cbn [lookup list_lookup]. apply IH. rewrite length_drop. simpl in *. lia.
Qed.

Lemma chunks_concat {A} n (l : list A) : (0 < n)%nat → concat (chunks n l) = l.
Proof.
  intros Hn. assert (∀ m (l : list A), (length l ≤ m)%nat → concat (chunks n l) = l) as Hall; [|by apply (Hall (length l))].
  clear l. induction m as [|m IH]; intros [|x l] Hl; [done|simpl in Hl; lia|done|]. rewrite chunks_step by done. cbn [concat].
  rewrite IH; [apply take_drop|]. rewrite length_drop. simpl in *. lia.
Qed.

(** ** The loop of an upload *)

Section UploadLayout.
Context `{Blake3}.
Abbreviation Bytes := (list Byte.byte).

Definition lens (cs : list Bytes) : Z := zsum (map (λ c, Z.of_nat (length c)) cs).
(** the references of a bundle's chunks *)
Definition refs (cs : list Bytes) : list BundleChunkRef := imap (λ i c, mkBundleChunkRef (Z.of_nat i) (blake3_hash c)) cs.
Definition bundle_of (cs : list Bytes) : UploadBundle := mkUploadBundle (bundle_hash_from_chunks (refs cs)) (lens cs) (refs cs).

(** every chunk but the last is full *)
Definition full (cs : list Bytes) : Prop := ∀ i c, cs !! i = Some c →
  (0 < length c ≤ CHUNK)%nat ∧ (S i < length cs → length c = CHUNK)%nat.

Lemma lens_app cs cs' : lens (cs ++ cs') = lens cs + lens cs'.
Proof. unfold lens, zsum. induction cs as [|c cs IH]; simpl in *; [done|]. rewrite IH. lia. Qed.
Lemma lens_nonneg cs : 0 ≤ lens cs.
Proof. unfold lens, zsum. induction cs as [|c cs IH]; simpl in *; lia. Qed.

Lemma lens_snoc cs c : lens (cs ++ [c]) = lens cs + Z.of_nat (length c).
Proof. rewrite lens_app. unfold lens at 2, zsum. simpl. lia. Qed.

(** followed by more, all are full *)
Lemma lens_full cs cs' : full (cs ++ cs') → cs' ≠ [] → lens cs = Z.of_nat (length cs) * VOLUME_RAW_CHUNK_SIZE.
Proof.
  intros Hf Hne. assert (∀ c, c ∈ cs → length c = CHUNK) as Hall.
  { intros c [i Hi]%list_elem_of_lookup. destruct (Hf i c) as [_ Hc]; [by apply lookup_app_l_Some|]. apply Hc.
    apply lookup_lt_Some in Hi. rewrite length_app. destruct cs'; [done|]. simpl. lia. }
  clear Hf. induction cs as [|c cs IH]; [done|]. change (lens (c :: cs)) with (Z.of_nat (length c) + lens cs).
  rewrite IH by (intros; apply Hall; by right). rewrite Hall by (by left). rewrite CHUNK_eq. simpl length. lia.
Qed.
Lemma lens_le cs : full cs → lens cs ≤ Z.of_nat (length cs) * VOLUME_RAW_CHUNK_SIZE.
Proof.
  intros Hf. assert (∀ c, c ∈ cs → (length c ≤ CHUNK)%nat) as Hall.
  { intros c [i Hi]%list_elem_of_lookup. by destruct (Hf i c Hi) as [[_ ?] _]. }
  clear Hf. induction cs as [|c cs IH]; [done|]. change (lens (c :: cs)) with (Z.of_nat (length c) + lens cs).
  assert (length c ≤ CHUNK)%nat by (apply Hall; by left). pose proof CHUNK_eq. specialize (IH (λ c Hc, Hall c (list_elem_of_further _ _ _ Hc))).
  simpl length. lia.
Qed.

Lemma refs_snoc cs c : refs (cs ++ [c]) = refs cs ++ [mkBundleChunkRef (Z.of_nat (length (refs cs))) (blake3_hash c)].
Proof. unfold refs. rewrite imap_app, length_imap. simpl. by rewrite Nat.add_0_r. Qed.

Context (lease : UpdateLease) (volume_id : Z) (local_path : string) (k : nat).

(** the jobs of the chunks from [offset] on *)
Fixpoint jobs_from (offset : Z) (cs : list Bytes) : list (Item UploadChunkJob) :=
  match cs with
  | [] => []
  | c :: cs =>
      IJob k (upload_job lease volume_id local_path (blake3_hash c) (Z.of_nat (length c)) offset) ::
      jobs_from (offset + Z.of_nat (length c)) cs
  end.

Definition reads_of (cs : list Bytes) : list (Result string Bytes) := map Ok cs ++ [Ok []; Ok []].

Lemma upload_bundle_fits new_size g bundles : new_size + lens g ≤ u64_max →
  upload_bundle (mkUploadLoop new_size (lens g) (refs g) bundles) = Ok (mkUploadLoop (new_size + lens g) 0 [] (bundles ++ [bundle_of g])).
Proof. intros Hmax. unfold upload_bundle. cbn [ulp_new_size ulp_raw_len]. by rewrite u64_checked_add_fits. Qed.

Lemma refs_nil_inv g : refs g = [] → g = [].
Proof. by destruct g. Qed.

(** with [g] in the open bundle, the loop makes the jobs and the bundles of [cs] *)
Definition lays_out (cs : list Bytes) (new_size : Z) (g : list Bytes) (bundles : list UploadBundle) : Prop :=
  upload_loop lease volume_id local_path k (reads_of cs) (mkUploadLoop new_size (lens g) (refs g) bundles) =
  (jobs_from (new_size + lens g) cs, Some (new_size + lens (g ++ cs), bundles ++ map bundle_of (chunks BUNDLE (g ++ cs)))).
Definition lays_out_from (cs : list Bytes) : Prop := ∀ new_size g bundles,
  full (g ++ cs) → (length g ≤ BUNDLE)%nat → 0 ≤ new_size → new_size + lens (g ++ cs) ≤ u64_max → lays_out cs new_size g bundles.

(** a chunk that goes into the open bundle *)
Lemma upload_loop_read c cs new_size g bundles : lays_out_from cs → c ≠ [] →
  full (g ++ c :: cs) → (length g < BUNDLE)%nat → 0 ≤ new_size → new_size + lens (g ++ c :: cs) ≤ u64_max →
  lays_out (c :: cs) new_size g bundles.
Proof.
  intros IH Hc Hfull Hlen Hnew Hmax. unfold lays_out.
  assert (lens g = Z.of_nat (length g) * VOLUME_RAW_CHUNK_SIZE) as Hg by (by eapply lens_full).
  unfold reads_of. cbn [map app upload_loop]. unfold upload_turn at 1. cbn [ulp_raw_len].
  assert (lens g < VOLUME_BUNDLE_RAW_SIZE) as Hlt by (rewrite Hg; unfold BUNDLE, VOLUME_RAW_CHUNK_SIZE, VOLUME_BUNDLE_RAW_SIZE in *; lia).
  rewrite bool_decide_true by done. cbn [ulp_new_size ulp_raw_len ulp_chunks ulp_bundles].
  pose proof (lens_app g (c :: cs)). pose proof (lens_nonneg (c :: cs)).
  destruct c as [|b c]; [done|]. rewrite u64_checked_add_fits by lia. set (d := b :: c) in *.
  assert (lens g + Z.of_nat (length d) = lens (g ++ [d])) as -> by (by rewrite lens_snoc).
  rewrite <-refs_snoc. fold (reads_of cs). replace (g ++ d :: cs) with ((g ++ [d]) ++ cs) in * by (by rewrite <-app_assoc).
  rewrite (IH _ (g ++ [d])); [|done|rewrite length_app; simpl; lia|done|done]. cbn [jobs_from].
  by replace (new_size + lens g + Z.of_nat (length d)) with (new_size + lens (g ++ [d])) by (rewrite lens_snoc; lia).
Qed.

Lemma upload_loop_from cs : lays_out_from cs.
Proof.
  induction cs as [|c cs IH]; intros new_size g bundles Hfull Hlen Hnew Hmax; unfold lays_out.
  - rewrite app_nil_r in *. unfold reads_of. cbn [map app upload_loop jobs_from]. unfold upload_turn at 1. cbn [ulp_raw_len].
    case_bool_decide as Hlt; cbn [ulp_chunks].
    + destruct (refs g) eqn:Hg.
      * apply refs_nil_inv in Hg as ->. cbn. by rewrite app_nil_r, !Z.add_0_r.
      * rewrite <-Hg, upload_bundle_fits by done. unfold upload_turn. cbn. rewrite chunks_small; [done|].
        split; [|done]. destruct g; [done|simpl; lia].
    + rewrite upload_bundle_fits by done. cbn. rewrite chunks_small; [done|]. split; [|done]. destruct g; [|simpl; lia].
      unfold lens, VOLUME_BUNDLE_RAW_SIZE in Hlt. simpl in Hlt. lia.
  - assert (c ≠ []) as Hc. { destruct (Hfull (length g) c) as [[? _] _]; [by rewrite lookup_app_r, Nat.sub_diag|]. destruct c; [simpl in *; lia|done]. }
    destruct (decide (length g < BUNDLE)%nat) as [Hlt|Hge]; [by apply upload_loop_read|].
    assert (length g = BUNDLE) as Hg by lia.
    assert (lens g = VOLUME_BUNDLE_RAW_SIZE) as Hl by (rewrite (lens_full g (c :: cs)) by done; by rewrite Hg).
    pose proof (lens_app g (c :: cs)). pose proof (lens_nonneg (c :: cs)). pose proof (lens_nonneg g).
    unfold reads_of. cbn [map app upload_loop]. unfold upload_turn at 1. cbn [ulp_raw_len]. rewrite bool_decide_false by lia.
    rewrite upload_bundle_fits by lia. pose proof (upload_loop_read c cs (new_size + lens g) [] (bundles ++ [bundle_of g]) IH Hc) as Hread.
    assert (full ([] ++ c :: cs)) as Hfull'.
    { intros i c' Hi. destruct (Hfull (length g + i)%nat c') as [? Hlast]; [by rewrite lookup_app_r, Nat.add_sub' by lia|].
      split; [done|]. intros Hi'. apply Hlast. rewrite length_app. simpl in *. lia. }
    specialize (Hread Hfull'). unfold lays_out in Hread. rewrite !app_nil_l in Hread. unfold reads_of in Hread. cbn [map app upload_loop] in Hread. unfold upload_turn at 1 in Hread.
    cbn [ulp_raw_len] in Hread. rewrite (bool_decide_true (lens [] < _)) in Hread by done. change (lens []) with 0 in Hread. change (refs []) with (@nil BundleChunkRef) in Hread.
    rewrite Hread; [|unfold BUNDLE; simpl; lia|lia|lia]. rewrite chunks_app by (done || (unfold BUNDLE; lia)).
    by rewrite Z.add_0_r, lens_app, Z.add_assoc, map_cons, <-app_assoc.
Qed.
End UploadLayout.

(** ** The loop of a download *)

Section DownloadLayout.
Context `{Blake3}.
Abbreviation Bytes := (list Byte.byte).

(** the jobs of the chunks from [offset] on, each at its place, of its length and hash *)
Fixpoint covers (offset : Z) (cs : list Bytes) (script : list (Item DownloadJob)) : Prop :=
  match cs, script with
  | [], [] => True
  | c :: cs, IJob _ job :: script =>
      dcr_chunk_id (dj_request job) = blake3_hash c ∧ dj_raw_offset job = offset ∧ dj_raw_len job = Z.of_nat (length c) ∧
      covers (offset + Z.of_nat (length c)) cs script
  | _, _ => False
  end.

Lemma covers_app offset cs cs' script script' :
  covers offset cs script → covers (offset + lens cs) cs' script' → covers offset (cs ++ cs') (script ++ script').
Proof.
  revert offset script. induction cs as [|c cs IH]; intros offset [|[k job|err] script]; simpl; try done.
  - by rewrite Z.add_0_r.
  - intros (Hid & Ho & Hl & Hc) Hc'. split_and!; try done. apply IH; [done|].
    change (lens (c :: cs)) with (Z.of_nat (length c) + lens cs) in Hc'. by rewrite <-Z.add_assoc.
Qed.

Lemma full_app_r cs cs' : full (cs ++ cs') → full cs'.
Proof.
  intros Hf i c Hi. destruct (Hf (length cs + i)%nat c) as [? Hlast]; [by rewrite lookup_app_r, Nat.add_sub' by lia|].
  split; [done|]. intros Hi'. apply Hlast. rewrite length_app. lia.
Qed.
Lemma full_app_l cs cs' : full (cs ++ cs') → full cs.
Proof.
  intros Hf i c Hi. destruct (Hf i c) as [? Hlast]; [by apply lookup_app_l_Some|].
  split; [done|]. intros Hi'. apply Hlast. rewrite length_app. lia.
Qed.

(** the references from the [n]-th on *)
Definition refs_from (n : nat) (cs : list Bytes) : list BundleChunkRef :=
  imap (λ i c, mkBundleChunkRef (Z.of_nat (n + i)) (blake3_hash c)) cs.
Lemma refs_from_cons n c cs : refs_from n (c :: cs) = mkBundleChunkRef (Z.of_nat n) (blake3_hash c) :: refs_from (S n) cs.
Proof. unfold refs_from. simpl. rewrite Nat.add_0_r. f_equal. apply imap_ext. intros i x _. simpl. do 2 f_equal. lia. Qed.

Lemma refs_from_sorted n cs : StronglySorted (λ a b, bc_chunk_index a < bc_chunk_index b) (refs_from n cs).
Proof.
  revert n. induction cs as [|c cs IH]; intros n; [constructor|]. rewrite refs_from_cons. constructor; [apply IH|].
  apply Forall_forall. intros r Hr. apply list_elem_of_lookup in Hr as [i Hi]. unfold refs_from in Hi. rewrite list_lookup_imap in Hi.
  apply fmap_Some in Hi as (c' & _ & ->). simpl. lia.
Qed.

Context (plan : FileReadPlan) (storages : list StoragePeerInfo) (session_of : StoragePeerInfo → nat)
  (listed : FileBundleRef → Fs0Result (list BundleChunkRef)).

(** the plan's bundle is the uploaded one: at its index, of its length, with a replica on a known
    storage, which lists its chunks (in any order) *)
Definition bundle_listed (index : Z) (fb : FileBundleRef) (ub : UploadBundle) : Prop :=
  fbr_bundle_index fb = index ∧ fbr_raw_len fb = ub_raw_len ub ∧ is_Some (pick_replica storages fb) ∧
  ∃ chunks, listed fb = Ok chunks ∧ chunks ≡ₚ ub_chunks ub.
Fixpoint bundles_listed (index : Z) (fbs : list FileBundleRef) (ubs : list UploadBundle) : Prop :=
  match fbs, ubs with
  | [], [] => True
  | fb :: fbs, ub :: ubs => bundle_listed index fb ub ∧ bundles_listed (index + 1) fbs ubs
  | _, _ => False
  end.

(** the chunks of one bundle *)
Lemma chunk_scripts k fb volume_id offset g2 : ∀ g1,
  full (g1 ++ g2) → fbr_raw_len fb = lens (g1 ++ g2) → 0 ≤ offset → offset + lens (g1 ++ g2) ≤ plan_size plan → plan_size plan ≤ u64_max →
  ∃ script, script_of (λ chunk, item ← download_chunk_item plan k fb volume_id offset chunk; Ok [item]) (refs_from (length g1) g2) = (script, true) ∧
    covers (offset + lens g1) g2 script.
Proof.
  induction g2 as [|c g2 IH]; intros g1 Hfull Hlen Hoff Hsize Hmax; [by exists []|].
  assert (lens g1 = Z.of_nat (length g1) * VOLUME_RAW_CHUNK_SIZE) as Hg1 by (by eapply lens_full).
  assert (g1 ++ c :: g2 = (g1 ++ [c]) ++ g2) as Happ by (by rewrite <-app_assoc).
  destruct (IH (g1 ++ [c])) as (script & Hscript & Hcovers); [by rewrite <-Happ..|done|by rewrite <-Happ|done|].
  rewrite length_app, Nat.add_1_r in Hscript. rewrite lens_snoc in Hcovers.
  destruct (Hfull (length g1) c) as [[Hc1 Hc2] Hc3]; [by rewrite lookup_app_r, Nat.sub_diag|].
  pose proof (lens_nonneg g1). pose proof (lens_nonneg g2). pose proof CHUNK_eq.
  assert (lens (g1 ++ c :: g2) = lens g1 + Z.of_nat (length c) + lens g2) as Hall by (rewrite Happ, lens_app, lens_snoc; lia).
  exists (IJob k (mkDownloadJob (mkDownloadChunkRequest volume_id (blake3_hash c)) (offset + lens g1) (Z.of_nat (length c))) :: script).
  split; [|split; [reflexivity|split; [reflexivity|split; [reflexivity|by rewrite <-Z.add_assoc]]]].
  rewrite refs_from_cons. cbn [script_of]. unfold download_chunk_item at 1. cbn [bc_chunk_index bc_chunk_id].
  rewrite u64_checked_mul_fits by lia. rewrite <-Hg1. cbn [ok_or mbind Result_bind].
  rewrite bool_decide_false by lia. rewrite (u64_checked_add_fits offset) by lia. cbn [ok_or mbind Result_bind].
  assert (Z.min VOLUME_RAW_CHUNK_SIZE (fbr_raw_len fb - lens g1) = Z.of_nat (length c)) as ->.
  { rewrite Hlen, Hall. destruct (decide (g2 = [])) as [->|Hne]; [change (lens []) with 0; lia|].
    assert (length c = CHUNK) as ->; [|lia]. apply Hc3. rewrite length_app. destruct g2; [exfalso; apply Hne; reflexivity|]. simpl. lia. }
  rewrite u64_checked_add_fits by lia. rewrite bool_decide_false by lia. cbn [mbind Result_bind].
  rewrite Hscript. reflexivity.
Qed.

(** the whole file *)
Lemma download_script_covers : ∀ m cs idx fbs, (length cs ≤ m)%nat →
  full cs → 0 ≤ idx → bundles_listed idx fbs (map bundle_of (chunks BUNDLE cs)) →
  idx * VOLUME_BUNDLE_RAW_SIZE + lens cs ≤ plan_size plan → plan_size plan ≤ u64_max →
  covers (idx * VOLUME_BUNDLE_RAW_SIZE) cs (download_script plan storages session_of listed fbs).
Proof.
  induction m as [|m IH]; intros cs idx fbs Hm Hfull Hidx Hlisted Hsize Hmax.
  { destruct cs; [|simpl in Hm; lia]. destruct fbs; done. }
  destruct (decide (cs = [])) as [->|Hne]; [by destruct fbs|].
  rewrite chunks_step in Hlisted by (done || (unfold BUNDLE; lia)). destruct fbs as [|fb fbs]; [done|].
  destruct Hlisted as [(Hi & Hraw & [[replica storage] Hpick] & chunks & Hchunks & Hperm) Hlisted].
  pose proof (take_drop BUNDLE cs) as Htd. set (g := take BUNDLE cs) in *. set (rest := drop BUNDLE cs) in *.
  assert (lens cs = lens g + lens rest) as Hlens by (by rewrite <-Htd, lens_app).
  pose proof (lens_nonneg g). pose proof (lens_nonneg rest).
  assert (0 ≤ idx * VOLUME_BUNDLE_RAW_SIZE) by (unfold VOLUME_BUNDLE_RAW_SIZE; lia).
  cbn [download_script]. unfold download_bundle_script. rewrite Hi. rewrite u64_checked_mul_fits by lia.
  cbn [ok_or mbind Result_bind]. rewrite Hpick. cbn [ok_or mbind Result_bind]. rewrite Hchunks. cbn [mbind Result_bind].
  assert (merge_sort chunk_ref_le chunks = refs_from 0 g) as ->.
  { apply (merge_sort_key_perm bc_chunk_index); [done|apply refs_from_sorted|exact Hperm]. }
  destruct (chunk_scripts (session_of storage) fb (rl_volume_id replica) (idx * VOLUME_BUNDLE_RAW_SIZE) g []) as (script & Hscript & Hcovers);
    [rewrite <-Htd in Hfull; by eapply full_app_l|done|done|rewrite app_nil_l; lia|done|].
  change (length []) with 0%nat in Hscript. rewrite Hscript. rewrite <-Htd. apply covers_app.
  - change (lens []) with 0 in Hcovers. by rewrite Z.add_0_r in Hcovers.
  - destruct (decide (rest = [])) as [Hrest|Hrest].
    + rewrite Hrest in *. rewrite chunks_nil in Hlisted. by destruct fbs.
    + assert (lens g = VOLUME_BUNDLE_RAW_SIZE) as Hg.
      { rewrite (lens_full g rest); [|by rewrite Htd|done]. assert (length g = BUNDLE) as ->; [|apply BUNDLE_eq].
        unfold g. rewrite length_take. destruct (decide (length cs ≤ BUNDLE)%nat); [|lia]. unfold rest in Hrest. by rewrite drop_ge in Hrest. }
      replace (idx * VOLUME_BUNDLE_RAW_SIZE + lens g) with ((idx + 1) * VOLUME_BUNDLE_RAW_SIZE) by lia.
      apply IH; try done; try lia.
      * unfold rest. rewrite length_drop. assert (0 < BUNDLE)%nat by (unfold BUNDLE; lia). destruct cs; [done|]. simpl in *. lia.
      * rewrite <-Htd in Hfull. by eapply full_app_r.
Qed.
End DownloadLayout.

(** ** Positions *)

Section Positions.
Context `{Blake3}.
Abbreviation Bytes := (list Byte.byte).

(** the job of a chunk, at its place *)
Definition job_for (offset : Z) (c : Bytes) (job : DownloadJob) : Prop :=
  dcr_chunk_id (dj_request job) = blake3_hash c ∧ dj_raw_offset job = offset ∧ dj_raw_len job = Z.of_nat (length c).

Lemma covers_jobs offset cs script : covers offset cs script →
  (∀ item, item ∈ script → ∃ k job pre c post, item = IJob k job ∧ cs = pre ++ c :: post ∧ job_for (offset + lens pre) c job) ∧
  (∀ pre c post, cs = pre ++ c :: post → ∃ k job, IJob k job ∈ script ∧ job_for (offset + lens pre) c job) ∧
  length script = length cs.
Proof.
  revert offset script. induction cs as [|c cs IH]; intros offset [|[k job|err] script]; simpl; try done.
  - intros _. split; [by intros item []%elem_of_nil|]. split; [|done]. by intros [|? ?].
  - intros (Hid & Ho & Hl & Hc). destruct (IH _ _ Hc) as (IH1 & IH2 & IH3). split; [|split; [|by f_equal]].
    + intros item [->|Hin]%elem_of_cons.
      * exists k, job, [], c, cs. split; [done|]. split; [done|]. split; [done|]. split; [|done]. change (lens []) with 0. lia.
      * destruct (IH1 item Hin) as (k' & job' & pre & c' & post & -> & -> & Hj). exists k', job', (c :: pre), c', post.
        split; [done|]. split; [done|]. change (lens (c :: pre)) with (Z.of_nat (length c) + lens pre). by rewrite Z.add_assoc.
    + intros [|c0 pre] c' post Heq; simpl in Heq; injection Heq as <- Hcs.
      * exists k, job. split; [by left|]. split; [done|]. split; [|done]. change (lens []) with 0. lia.
      * destruct (IH2 pre c' post Hcs) as (k' & job' & Hin & Hj). exists k', job'. split; [by right|].
        change (lens (c :: pre)) with (Z.of_nat (length c) + lens pre). by rewrite Z.add_assoc.
Qed.

Lemma lens_concat cs : lens cs = Z.of_nat (length (concat cs)).
Proof.
  induction cs as [|c cs IH]; [done|]. change (lens (c :: cs)) with (Z.of_nat (length c) + lens cs). simpl. rewrite length_app, IH. lia.
Qed.

(** every position is in a chunk *)
Lemma concat_position (cs : list Bytes) i : (i < length (concat cs))%nat →
  ∃ pre c post, cs = pre ++ c :: post ∧ (length (concat pre) ≤ i < length (concat pre) + length c)%nat.
Proof.
  revert i. induction cs as [|c cs IH]; simpl; [lia|]. intros i Hi. rewrite length_app in Hi.
  destruct (decide (i < length c)%nat) as [Hlt|Hge]; [exists [], c, cs; split; [done|simpl; lia]|].
  destruct (IH (i - length c)%nat) as (pre & c' & post & -> & Hpos); [lia|].
  exists (c :: pre), c', post. split; [done|]. simpl. rewrite length_app. lia.
Qed.

Lemma chunks_full (data : Bytes) : full (chunks CHUNK data).
Proof.
  intros i c Hi. destruct (chunks_lookup CHUNK data i c CHUNK_pos Hi) as [-> Hlt]. rewrite length_take, length_drop.
  pose proof CHUNK_pos. split; [lia|]. intros Hnext. destruct (lookup_lt_is_Some_2 _ _ Hnext) as [c' Hc'].
  destruct (chunks_lookup CHUNK data (S i) c' CHUNK_pos Hc') as [_ Hlt']. lia.
Qed.

Lemma chunks_lens (data : Bytes) : lens (chunks CHUNK data) = Z.of_nat (length data).
Proof. by rewrite lens_concat, chunks_concat by apply CHUNK_pos. Qed.

(** an upload over full reads *)
Lemma upload_layout lease volume_id local_path k (data : Bytes) : Z.of_nat (length data) ≤ u64_max →
  upload_loop lease volume_id local_path k (map Ok (chunks CHUNK data) ++ [Ok []; Ok []]) UploadLoop_new =
  (jobs_from lease volume_id local_path k 0 (chunks CHUNK data),
   Some (Z.of_nat (length data), map bundle_of (chunks BUNDLE (chunks CHUNK data)))).
Proof.
  intros Hlen. pose proof (upload_loop_from lease volume_id local_path k (chunks CHUNK data) 0 [] []) as Hloop. unfold lays_out in Hloop.
  rewrite app_nil_l, chunks_lens, Z.add_0_l in Hloop. apply Hloop; [apply chunks_full|simpl; lia|done|done].
Qed.
End Positions.
