(* ===== verification/ClientFiles.v ===== *)
(** * Uploading and downloading a file

    Models [upload_file_inner] and [download_file] of [fs0-client/src/client.rs] around their
    transfer ([ClientTransfer.v], an argument here): the lease, the session of the volume's storage, the
    bundles committed on the storage, the update committed or aborted at the central
    server; the read plan and the local file. *)

From S2P Require Import Prelude Types Link Conc Traces VolumeSample StorageSample ClientScheduler ClientSchedulerFacts ClientSession ClientTransfer ClientTransferFacts ClientLayout.

Section Files.
Context `{DebugResponse, ClientTexts, Blake3, Zstd}.

(** ** Upload *)

(** the transfer of an upload: the lease, the session and the volume; the size and the bundles *)
Context (upload_transfer : UpdateLease → nat → Z → ClientProg (Fs0Result (Z * list UploadBundle))).

(** [storages.iter().find_map(..)]: the storage that has the volume *)
Definition storage_of_volume (volume_id : Z) (s : Fs0Client) : option StoragePeerInfo :=
  lfind (λ storage, bool_decide (is_Some (lfind (λ volume, bool_decide (svi_volume_id volume = volume_id)) (spi_volumes storage))))
    (ces_storages (cl_central s)).

(** the loop over [upload_bundles] *)
Fixpoint commit_upload_bundles (i : nat) (lease : UpdateLease) (volume_id : Z) (bundles : list UploadBundle)
    (committed : list CommittedBundle) : ClientProg (Fs0Result (list CommittedBundle)) :=
  match bundles with
  | [] => mret (Ok committed)
  | bundle :: bundles =>
      existing ←? has_bundle i volume_id (ub_bundle_id bundle);
      match existing with
      | Some (raw_len, compressed_len) =>
          if bool_decide (raw_len ≠ ub_raw_len bundle)
          then mret (Err (InvalidData "existing bundle raw_len does not match uploaded bundle"))
          else commit_upload_bundles i lease volume_id bundles
                 (committed ++ [mkCommittedBundle (ub_bundle_id bundle) raw_len compressed_len])
      | None =>
          committed_bundle ←? commit_bundle i (mkCommitBundleRequest (ul_lease_id lease) (ul_file_id lease) volume_id
                                (ub_bundle_id bundle) (ub_chunks bundle));
          if bool_decide (cb_raw_len committed_bundle ≠ ub_raw_len bundle)
          then mret (Err (InvalidData "committed bundle raw_len does not match uploaded bundle"))
          else commit_upload_bundles i lease volume_id bundles (committed ++ [committed_bundle])
      end
  end.

(** the block whose failure aborts the update *)
Definition upload_contents (lease : UpdateLease) : ClientProg (Fs0Result (Z * list CommittedBundle)) :=
  storage ←? atomic (λ s, (ok_or NotFound (storage_of_volume (ul_volume_id lease) s), s));
  i ← storage_session storage;
  uploaded ←? upload_transfer lease i (ul_volume_id lease);
  committed ←? commit_upload_bundles i lease (ul_volume_id lease) uploaded.2 [];
  mret (Ok (uploaded.1, committed)).

Definition upload_file_inner (remote_path local_path : string) (prefer_volume_name : option string)
  : ClientProg (Fs0Result FileRecord) :=
  len ← ask (CFileLen local_path);
  len ←? mret (map_err Io len);
  file_call "open" local_path;;?
  lease ←? begin_update (mkBeginUpdateRequest remote_path 0 prefer_volume_name (Some len));
  upload ← upload_contents lease;
  match upload with
  | Ok (new_size, bundles) =>
      commit ← commit_update (mkCommitUpdateRequest (ul_lease_id lease) (ul_file_id lease) (ul_base_size lease) new_size bundles);
      _ ← match commit with Err _ => abort_update (ul_lease_id lease) (ul_file_id lease) | Ok _ => mret (Ok tt) end;
      mret commit
  | Err err =>
      _ ← abort_update (ul_lease_id lease) (ul_file_id lease);
      mret (Err err)
  end.

(** ** Download *)

Record TransferStats := mkTransferStats { ts_chunks : Z; ts_size : Z }.

(** the transfer of a download, with the writer it feeds *)
Context (download_transfer : FileReadPlan → list StoragePeerInfo → ClientProg (Fs0Result unit)).

Definition download_file (remote_path local_path : string) : ClientProg (Fs0Result TransferStats) :=
  plan ←? get_file_read_plan remote_path;
  storages ← atomic (λ s, (ces_storages (cl_central s), s));
  file_call "create" local_path;;?
  file_call "set_len" local_path;;?
  download_result ← download_transfer plan storages;
  joined ← ask CJoin;
  mret (match joined with Some message => Err (Internal message) | None => Ok tt end);;?
  writer_result ← file_call "write" local_path;
  mret download_result;;?
  mret writer_result;;?
  mret (Ok (mkTransferStats (u64_div_ceil (plan_size plan) VOLUME_RAW_CHUNK_SIZE) (plan_size plan))).

(** ** What an upload commits *)

(** the exchange of a request with the central server, and with a storage *)
Definition told_central (connection : Connection) (request : ControlRequest) (response : ControlResponse) :=
  said (CRpc connection (ReqControl request) false) (Ok (RespControl response)).
Definition told_storage (connection : Connection) (request : DataRequest) (response : DataResponse) :=
  said (CRpc connection (ReqData request) (chunk_timeout request)) (Ok (RespData response)).

Abbreviation does p tr a := (may_do client_answer_ok p tr a).

(** a call that succeeds ends with its answer *)
Lemma control_call_does {A} request (expected : ControlResponse → option A) tr a : does (control_call request expected) tr (Ok a) →
  ∃ before connection response, tr = before ++ [told_central connection request response] ∧ expected response = Some a.
Proof.
  unfold control_call. rewrite may_do_try. intros (tr1 & tr2 & response & -> & Hrequest & [-> Hexp]). rewrite app_nil_r.
  unfold central_request in Hrequest. rewrite may_do_try in Hrequest. destruct Hrequest as (tr0 & tr3 & connection & -> & _ & Hrpc).
  rewrite may_do_try in Hrpc. destruct Hrpc as (tr4 & tr5 & answer & -> & [_ ->]%may_do_ask & [-> Hanswer]).
  destruct answer as [|rs| | |]; try done. injection Hanswer as ->. exists tr0, connection, response. split; [done|].
  destruct (expected response); [|done]. by injection Hexp as ->.
Qed.
Lemma data_call_does {A} i request (expected : DataResponse → option A) tr a : does (data_call i request expected) tr (Ok a) →
  ∃ before connection response, tr = before ++ [told_storage connection request response] ∧ expected response = Some a.
Proof.
  unfold data_call. rewrite may_do_try. intros (tr1 & tr2 & response & -> & Hrequest & [-> Hexp]). rewrite app_nil_r.
  unfold ClientSession.request in Hrequest. rewrite may_do_try in Hrequest. destruct Hrequest as (tr0 & tr3 & connection & -> & _ & Hrpc).
  rewrite may_do_try in Hrpc. destruct Hrpc as (tr4 & tr5 & answer & -> & [_ ->]%may_do_ask & Hanswer).
  destruct answer as [| |rs| |].
  3:{ destruct Hanswer as [-> [= ->]]. exists tr0, connection, response. split; [done|]. destruct (expected response); [|done]. by injection Hexp as ->. }
  all: cbn beta iota in Hanswer; rewrite may_do_bind in Hanswer; destruct Hanswer as (? & ? & closed & _ & _ & Hanswer);
    rewrite may_do_bind in Hanswer; by destruct Hanswer as (? & ? & ? & _ & _ & [_ Hanswer]).
Qed.

(** the committed bundle is the uploaded one *)
Definition commits (ub : UploadBundle) (cb : CommittedBundle) : Prop := cb_bundle_id cb = ub_bundle_id ub ∧ cb_raw_len cb = ub_raw_len ub.

(** in [tr] a storage confirmed the uploaded bundle as the committed one: it has it already, or it committed it now *)
Definition confirmed (lease : UpdateLease) (tr : list (sigT (λ B : Type, (ClientQuery B * B)%type))) (ub : UploadBundle) (cb : CommittedBundle) : Prop :=
  commits ub cb ∧ ∃ connection,
    told_storage connection (DataHasBundleRq (ul_volume_id lease) (ub_bundle_id ub))
      (DataHasBundleRs true (Some (cb_raw_len cb)) (Some (cb_compressed_len cb))) ∈ tr ∨
    ∃ response, cbs_raw_len response = cb_raw_len cb ∧ cbs_compressed_len response = cb_compressed_len cb ∧
      told_storage connection (CommitBundleRq (mkCommitBundleRequest (ul_lease_id lease) (ul_file_id lease) (ul_volume_id lease)
        (ub_bundle_id ub) (ub_chunks ub))) (CommitBundleRs response) ∈ tr.

Lemma confirmed_mono lease tr tr' ub cb : tr ⊆ tr' → confirmed lease tr ub cb → confirmed lease tr' ub cb.
Proof.
  intros Hsub (Hcommits & connection & [Hin|(response & Hr & Hc & Hin)]); (split; [done|]; exists connection).
  - left. by apply Hsub.
  - right. exists response. split; [done|]. split; [done|]. by apply Hsub.
Qed.

Lemma commit_upload_bundles_does i lease bundles : ∀ committed tr all,
  does (commit_upload_bundles i lease (ul_volume_id lease) bundles committed) tr (Ok all) →
  ∃ new, all = committed ++ new ∧ Forall2 (confirmed lease tr) bundles new.
Proof.
  induction bundles as [|bundle bundles IH]; intros committed tr all Hdo; cbn [commit_upload_bundles] in Hdo.
  { destruct Hdo as [_ [= <-]]. exists []. by rewrite app_nil_r. }
  rewrite may_do_try in Hdo. destruct Hdo as (tr1 & tr2 & existing & -> & Hhas & Hdo).
  assert (∀ cb tr', confirmed lease (tr1 ++ tr2) bundle cb → tr' ⊆ tr2 →
    does (commit_upload_bundles i lease (ul_volume_id lease) bundles (committed ++ [cb])) tr' (Ok all) →
    ∃ new, all = committed ++ new ∧ Forall2 (confirmed lease (tr1 ++ tr2)) (bundle :: bundles) new) as Hnext.
  { intros cb tr' Hcb Hsub (new & -> & Hnew)%IH. exists (cb :: new). rewrite <- app_assoc. split; [done|].
    constructor; [done|]. eapply Forall2_impl; [exact Hnew|]. intros ub c. apply confirmed_mono. set_solver. }
  apply data_call_does in Hhas as (before & connection & response & -> & Hhas). destruct existing as [[raw_len compressed_len]|].
  - case_bool_decide as Hlen; [by destruct Hdo|]. eapply Hnext; [|reflexivity|exact Hdo].
    split; [split; [done|by destruct (decide (raw_len = ub_raw_len bundle)); [|tauto]]|]. exists connection. left.
    destruct response as [| | | |[] [r|] [c|]| |]; try done. injection Hhas as -> ->. set_solver.
  - rewrite may_do_try in Hdo. destruct Hdo as (tr3 & tr4 & cb & -> & Hcommit & Hdo). case_bool_decide as Hlen; [by destruct Hdo|].
    apply data_call_does in Hcommit as (before' & connection' & response' & -> & Hcommit).
    destruct response' as [| | | | |rs| ]; try done. injection Hcommit as <-. cbn [cb_raw_len] in Hlen.
    eapply Hnext; [|apply list_subseteq_app_r; reflexivity|exact Hdo].
    split; [split; [done|by destruct (decide (cbs_raw_len rs = ub_raw_len bundle)); [|tauto]]|]. exists connection'. right. exists rs.
    split; [done|]. split; [done|]. set_solver.
Qed.

(** an upload that succeeds: from the answer to [begin_update] to that to [commit_update] *)
Lemma upload_file_does remote_path local_path prefer tr file :
  does (upload_file_inner remote_path local_path prefer) tr (Ok file) →
  ∃ len lease i size bundles committed before during c c',
    tr = before ++ [told_central c (BeginUpdateRq (mkBeginUpdateRequest remote_path 0 prefer (Some len))) (BeginUpdateRs lease)] ++
         during ++ [told_central c' (CommitUpdateRq (mkCommitUpdateRequest (ul_lease_id lease) (ul_file_id lease) (ul_base_size lease) size committed))
                      (CommitUpdateRs file)] ∧
    may_return client_answer_ok (upload_transfer lease i (ul_volume_id lease)) (Ok (size, bundles)) ∧
    Forall2 (confirmed lease during) bundles committed.
Proof.
  unfold upload_file_inner. rewrite may_do_bind. intros (tr1 & tr2 & len & -> & _ & Hdo).
  rewrite may_do_try in Hdo. destruct Hdo as (tr3 & tr4 & len' & -> & _ & Hdo).
  rewrite may_do_try in Hdo. destruct Hdo as (tr5 & tr6 & [] & -> & _ & Hdo).
  rewrite may_do_try in Hdo. destruct Hdo as (tr7 & tr8 & lease & -> & Hbegin & Hdo).
  apply control_call_does in Hbegin as (before & c & rs & -> & Hrs). destruct rs; try done. injection Hrs as ->.
  rewrite may_do_bind in Hdo. destruct Hdo as (tr9 & tr10 & [[size committed]|err] & -> & Hup & Hdo);
    (rewrite may_do_bind in Hdo; destruct Hdo as (tr11 & tr12 & commit & -> & Hcommit & Hdo)); [|by destruct Hdo].
  rewrite may_do_bind in Hdo. destruct Hdo as (tr13 & tr14 & aborted & -> & Haborted & [-> ->]).
  destruct Haborted as [-> _]. apply control_call_does in Hcommit as (before' & c' & rs & -> & Hrs). destruct rs; try done. injection Hrs as ->.
  unfold upload_contents in Hup. rewrite may_do_try in Hup. destruct Hup as (tr15 & tr16 & storage & -> & _ & Hup).
  rewrite may_do_bind in Hup. destruct Hup as (tr17 & tr18 & i & -> & _ & Hup).
  rewrite may_do_try in Hup. destruct Hup as (tr19 & tr20 & [size' bundles] & -> & Htransfer & Hup).
  rewrite may_do_try in Hup. destruct Hup as (tr21 & tr22 & all & -> & Hall & [-> [= -> ->]]).
  apply commit_upload_bundles_does in Hall as (new & -> & Hnew).
  exists len', lease, i, size, bundles, new, (tr1 ++ tr3 ++ tr5 ++ before), (tr15 ++ tr17 ++ tr19 ++ tr21 ++ before'), c, c'.
  split; [by rewrite !app_nil_r, <- !app_assoc|]. split; [apply may_do_return; by exists tr19|].
  eapply Forall2_impl; [exact Hnew|]. intros ub cb. apply confirmed_mono. set_solver.
Qed.
End Files.

Section UploadedFile.
Context `{DebugResponse, ClientTexts, Blake3, Zstd}.

(** the transfer of an upload of [data], read in full chunks: it only succeeds with what the loop computed *)
Definition transfers_file (data : list Byte.byte) (local_path : string)
    (upload_transfer : UpdateLease → nat → Z → ClientProg (Fs0Result (Z * list UploadBundle))) : Prop :=
  ∀ lease i volume_id uploaded, may_return client_answer_ok (upload_transfer lease i volume_id) (Ok uploaded) →
  (upload_loop lease volume_id local_path i (map Ok (chunks CHUNK data) ++ [Ok []; Ok []]) UploadLoop_new).2 = Some uploaded.

Lemma commits_lens bundles committed : Forall2 commits bundles committed → zsum (map cb_raw_len committed) = zsum (map ub_raw_len bundles).
Proof. unfold zsum. induction 1 as [|ub cb bundles committed [_ Hlen] _ IH]; simpl in *; [done|]. by rewrite IH, Hlen. Qed.

Lemma groups_lens n (cs : list (list Byte.byte)) : (0 < n)%nat → zsum (map ub_raw_len (map bundle_of (chunks n cs))) = lens cs.
Proof.
  intros Hn. rewrite <-(chunks_concat n cs Hn) at 2. generalize (chunks n cs). intros gs. unfold zsum.
  induction gs as [|g gs IH]; [done|]. cbn [map foldr concat ub_raw_len bundle_of]. by rewrite IH, lens_app.
Qed.

(** C17. What an upload commits.  An upload that succeeds, whatever runs beside it, asked the central server for an
    update of the path, was given a lease, and at last had the update of that lease committed, with the size of the
    file and the bundles of its chunks: each of 128 chunks but the last, under the hash of its chunks' hashes, together
    as long as the file; in between a storage confirmed each of them with the lengths that are committed: it said that
    it has the bundle, or committed it under the lease from its chunks. *)
Theorem upload_commits_file data upload_transfer remote_path local_path prefer tr file :
  Z.of_nat (length data) ≤ u64_max → transfers_file data local_path upload_transfer →
  may_do client_answer_ok (upload_file_inner upload_transfer remote_path local_path prefer) tr (Ok file) →
  ∃ len lease committed before during c c',
    tr = before ++ [told_central c (BeginUpdateRq (mkBeginUpdateRequest remote_path 0 prefer (Some len))) (BeginUpdateRs lease)] ++
         during ++ [told_central c' (CommitUpdateRq (mkCommitUpdateRequest (ul_lease_id lease) (ul_file_id lease) (ul_base_size lease)
                      (Z.of_nat (length data)) committed)) (CommitUpdateRs file)] ∧
    Forall2 (confirmed lease during) (map bundle_of (chunks BUNDLE (chunks CHUNK data))) committed ∧
    zsum (map cb_raw_len committed) = Z.of_nat (length data).
Proof.
  intros Hlen Htransfer Hdo.
  destruct (upload_file_does _ _ _ _ _ _ Hdo) as (len & lease & i & size & bundles & committed & before & during & c & c' & Htr & Hup & Hconfirmed).
  apply Htransfer in Hup. rewrite upload_layout in Hup by done. injection Hup as <- <-. exists len, lease, committed, before, during, c, c'.
  split; [done|]. split; [done|]. rewrite (commits_lens (map bundle_of (chunks BUNDLE (chunks CHUNK data)))), groups_lens by
    (unfold BUNDLE; lia || (eapply Forall2_impl; [exact Hconfirmed|]; by intros ub cb [])). apply chunks_lens.
Qed.

End UploadedFile.

(** ** A file of one byte *)

Definition plain_texts : ClientTexts :=
  {| debug_control := λ _, ".."; debug_data := λ _, ".."; endpoint_decode_error := λ _, None |}.

Definition byte_data : list Byte.byte := [Byte.x07].
(** a digest function that tells that byte, and the bytes of its digest, from all others *)
Definition byte_tag (bytes : list Byte.byte) : Byte.byte :=
  if decide (bytes = byte_data) then Byte.x01 else if decide (bytes = replicate 32 Byte.x01) then Byte.x02 else Byte.x00.
Definition byte_blake3 : Blake3 := λ bytes, vreplicate 32 (byte_tag bytes).

Lemma byte_tag_known bytes raw : bytes = byte_data ∨ bytes = replicate 32 Byte.x01 →
  byte_blake3 raw = byte_blake3 bytes → raw = bytes.
Proof.
  intros Hbytes Heq. apply (f_equal Vector.hd) in Heq. change (byte_tag raw = byte_tag bytes) in Heq.
  unfold byte_tag in Heq. destruct Hbytes; subst; repeat case_decide; congruence.
Qed.

Section OneByte.
#[local] Existing Instances plain_debug plain_texts byte_blake3 plain_zstd.

Definition byte_id : HashId := blake3_hash byte_data.
Definition byte_lease : UpdateLease := mkUpdateLease 5 1 7 0 0 2000 None.
Definition byte_storages : list StoragePeerInfo := [mkStoragePeerInfo 3 "store" [mkStorageVolumeInfo 7 "v" 4096 0 false] []].
Definition byte_record : FileRecord := mkFileRecord 1 "/a" 1 1 0 0.

Lemma byte_chunks : chunks CHUNK byte_data = [byte_data].
Proof. apply chunks_small. pose proof CHUNK_pos. simpl. lia. Qed.

(** a client with its connections open, and servers that agree *)
Definition byte_client : Fs0Client :=
  mkFs0Client (mkClientConfig None "t" 4 4) (mkCentralSession 9 false (Some sample_connection) byte_storages [sample_connection])
    {[3 := 0%nat]} [mkStorageSessionInner 9 3 (Some sample_data_connection)].
Definition client_agree (request : ProtocolRequest) : ProtocolResponse :=
  match request with
  | ReqControl (BeginUpdateRq _) => RespControl (BeginUpdateRs byte_lease)
  | ReqControl (CommitUpdateRq _) => RespControl (CommitUpdateRs byte_record)
  | ReqData (DataHasBundleRq _ _) => RespData (DataHasBundleRs false None None)
  | ReqData (CommitBundleRq rq) => RespData (CommitBundleRs (mkCommitBundleResponse (cbr_bundle_id rq) 1 1))
  | ReqData (DownloadChunkRq _) => RespData (DownloadChunkRs byte_data)
  | _ => RespError InvalidRequest
  end.
Definition client_oracle : Oracle ClientQuery := λ _ B q,
  match q in ClientQuery B return B with
  | CIsClosed _ => false
  | CClose _ => tt
  | CConnectCentral | CConnectStorage _ => Ok sample_connection
  | CRpc _ request _ => Ok (client_agree request)
  | CJoin | CFileCall _ _ => None
  | CFileLen _ => Ok 1
  | CFileRead _ _ _ => Err "EIO"
  end.
Lemma client_oracle_ok n B (q : ClientQuery B) : client_answer_ok B q (client_oracle n B q).
Proof. by destruct q. Qed.

Definition byte_transfer (lease : UpdateLease) (i : nat) (volume_id : Z) : ClientProg (Fs0Result (Z * list UploadBundle)) :=
  mret (Ok (1, [bundle_of [byte_data]])).
Lemma byte_transfers : transfers_file byte_data "/tmp/a" byte_transfer.
Proof.
  intros lease i volume_id uploaded Hret. simpl in Hret. injection Hret as <-.
  rewrite upload_layout by (vm_compute; intros Hle; discriminate Hle). cbn [snd]. rewrite byte_chunks, chunks_small by (simpl; unfold BUNDLE; lia).
  reflexivity.
Qed.

Lemma upload_commits_file_witness :
  out_value (run client_oracle 0 (upload_file_inner byte_transfer "/a" "/tmp/a" None) byte_client) = Ok byte_record ∧
  ∃ tr c lease committed, length committed = 1%nat ∧
    told_central c (CommitUpdateRq (mkCommitUpdateRequest (ul_lease_id lease) (ul_file_id lease) (ul_base_size lease) 1 committed))
      (CommitUpdateRs byte_record) ∈ tr ∧
    map (λ x, existT (projT1 x) (projT2 x).1) tr = out_asked (run client_oracle 0 (upload_file_inner byte_transfer "/a" "/tmp/a" None) byte_client).
Proof.
  assert (out_value (run client_oracle 0 (upload_file_inner byte_transfer "/a" "/tmp/a" None) byte_client) = Ok byte_record) as Hrun
    by (vm_compute; reflexivity).
  split; [exact Hrun|].
  destruct (run_may_do client_answer_ok client_oracle 0 (upload_file_inner byte_transfer "/a" "/tmp/a" None) byte_client client_oracle_ok)
    as (tr & Hdo & Hasked). rewrite Hrun in Hdo.
  destruct (upload_commits_file byte_data byte_transfer "/a" "/tmp/a" None tr byte_record) as
    (len & lease & committed & before & during & c & c' & Htr & Hconfirmed & _).
  - vm_compute. intros Hle. discriminate Hle.
  - exact byte_transfers.
  - exact Hdo.
  - exists tr, c', lease, committed. apply Forall2_length in Hconfirmed. rewrite byte_chunks, chunks_small in Hconfirmed by (simpl; unfold BUNDLE; lia).
    split; [by rewrite <- Hconfirmed|]. split; [|exact Hasked]. rewrite Htr. change (Z.of_nat (length byte_data)) with 1. set_solver.
Defined.
End OneByte.
