(* ===== verification/ClientReads.v ===== *)
(** * Short reads

    [reader.read] may give less than there is room for, and [upload_file_inner] (fs0-client/src/client.rs) makes a chunk
    of what it got.  Such an upload succeeds, and its bundles are still closed at their full size; but
    [download_file_chunks] places the chunks of a bundle as if all but the last were full.  So a file with a short chunk
    that is not its last cannot be read back. *)

From S2P Require Import Prelude Types Conc ClientSession ClientTransfer ClientLayout ClientFiles.

Abbreviation Bytes := (list Byte.byte).

(** ** What an upload makes of any reads *)

Section UploadedPieces.
Context `{Blake3}.

(** every group but the last is a full bundle *)
Fixpoint closed (gs : list (list Bytes)) : Prop :=
  match gs with
  | [] => True
  | g :: gs => (gs ≠ [] → lens g = VOLUME_BUNDLE_RAW_SIZE) ∧ closed gs
  end.

Context (lease : UpdateLease) (volume_id : Z) (local_path : string) (k : nat).

(** a full bundle is closed before the next read *)
Lemma full_bundle_turn new_size g bundles : lens g = VOLUME_BUNDLE_RAW_SIZE → new_size + lens g ≤ u64_max →
  let u := mkUploadLoop new_size (lens g) (refs g) bundles in
  let u' := mkUploadLoop (new_size + lens g) (lens []) (refs []) (bundles ++ [bundle_of g]) in
  (∀ reads, upload_loop lease volume_id local_path k reads u = upload_loop lease volume_id local_path k reads u') ∧
  ∀ reads, reads_ok reads u → reads_ok reads u'.
Proof.
  intros Hg Hmax u u'. assert (upload_turn u = Ok u' ∧ upload_turn u' = Ok u') as [Hu Hu'].
  { split; [|done]. unfold upload_turn. cbn [ulp_raw_len u]. rewrite bool_decide_false by lia. by apply upload_bundle_fits. }
  split; intros [|read reads]; cbn [upload_loop reads_ok]; [done| |done|]; by rewrite Hu, Hu'.
Qed.

(** a chunk of what a read gave *)
Lemma piece_read c cs new_size g bundles : c ≠ [] → lens g < VOLUME_BUNDLE_RAW_SIZE → new_size + lens g ≤ u64_max →
  let u := mkUploadLoop new_size (lens g) (refs g) bundles in
  let u' := mkUploadLoop new_size (lens (g ++ [c])) (refs (g ++ [c])) bundles in
  (upload_loop lease volume_id local_path k (reads_of (c :: cs)) u).2 = (upload_loop lease volume_id local_path k (reads_of cs) u').2 ∧
  (reads_ok (reads_of (c :: cs)) u → lens (g ++ [c]) ≤ VOLUME_BUNDLE_RAW_SIZE ∧ (length c ≤ CHUNK)%nat ∧ reads_ok (reads_of cs) u').
Proof.
  intros Hc Hg Hmax u u'. assert (upload_turn u = Ok u) as Hturn by (unfold upload_turn; cbn [ulp_raw_len u]; by rewrite bool_decide_true).
  assert (mkUploadLoop new_size (lens g + Z.of_nat (length c))
    (refs g ++ [mkBundleChunkRef (Z.of_nat (length (refs g))) (blake3_hash c)]) bundles = u') as Hu'.
  { unfold u'. by rewrite lens_snoc, refs_snoc. }
  unfold reads_of. cbn [map app upload_loop reads_ok]. rewrite Hturn. destruct c as [|b c]; [done|]. cbn [ulp_new_size ulp_raw_len ulp_chunks ulp_bundles u].
  rewrite u64_checked_add_fits, Hu' by done. split.
  - by destruct (upload_loop _ _ _ _ _ u').
  - unfold upload_read_limit. cbn [ulp_raw_len]. rewrite lens_snoc. intros [Hlimit Hreads]. pose proof CHUNK_eq. cbn [ulp_raw_len u] in Hlimit. split; [lia|]. split; [lia|done].
Qed.

Lemma upload_pieces ps : ∀ new_size g bundles,
  Forall (λ c, c ≠ []) ps → lens g ≤ VOLUME_BUNDLE_RAW_SIZE → new_size + lens (g ++ ps) ≤ u64_max →
  reads_ok (reads_of ps) (mkUploadLoop new_size (lens g) (refs g) bundles) →
  Forall (λ c, (length c ≤ CHUNK)%nat) ps ∧ ∃ gs, concat gs = g ++ ps ∧ closed gs ∧
    (upload_loop lease volume_id local_path k (reads_of ps) (mkUploadLoop new_size (lens g) (refs g) bundles)).2 =
      Some (new_size + lens (g ++ ps), bundles ++ map bundle_of gs).
Proof.
  induction ps as [|c ps IH]; intros new_size g bundles Hne Hg Hmax Hreads.
  { split; [done|]. rewrite app_nil_r in *. destruct g as [|c g].
    - exists []. split_and!; [done..|]. cbn. by rewrite app_nil_r, Z.add_0_r.
    - exists [c :: g]. split; [by rewrite concat_cons, app_nil_r|]. split; [done|].
      destruct (decide (lens (c :: g) < VOLUME_BUNDLE_RAW_SIZE)) as [Hlt|Hge].
      + unfold reads_of. cbn [map app upload_loop]. unfold upload_turn at 1. cbn [ulp_raw_len]. rewrite bool_decide_true by done.
        cbn [ulp_chunks]. destruct (refs (c :: g)) eqn:Hr; [done|]. rewrite <- Hr, upload_bundle_fits by done. done.
      + rewrite (proj1 (full_bundle_turn new_size (c :: g) bundles ltac:(lia) Hmax)). cbn. done. }
  apply Forall_cons in Hne as [Hc Hne]. pose proof (lens_app g (c :: ps)). pose proof (lens_nonneg (c :: ps)).
  assert (g ++ c :: ps = (g ++ [c]) ++ ps) as Happ by (by rewrite <- app_assoc).
  destruct (decide (lens g < VOLUME_BUNDLE_RAW_SIZE)) as [Hlt|Hge].
  - destruct (piece_read c ps new_size g bundles Hc Hlt ltac:(lia)) as [Hloop Hok]. destruct (Hok Hreads) as (Hg' & Hlen & Hreads').
    rewrite Happ in *. destruct (IH new_size (g ++ [c]) bundles Hne Hg' Hmax Hreads') as (Hlens & gs & Hgs). split; [by constructor|].
    exists gs. by rewrite Hloop.
  - assert (lens g = VOLUME_BUNDLE_RAW_SIZE) as Hfull by lia.
    destruct (full_bundle_turn new_size g bundles Hfull ltac:(lia)) as [Hloop Hok]. rewrite Hloop. apply Hok in Hreads.
    destruct (piece_read c ps (new_size + lens g) [] (bundles ++ [bundle_of g]) Hc) as [Hloop' Hok']; [done|change (lens []) with 0; lia|].
    destruct (Hok' Hreads) as (Hg' & Hlen & Hreads'). rewrite Hloop'.
    destruct (IH (new_size + lens g) ([] ++ [c]) (bundles ++ [bundle_of g]) Hne Hg') as (Hlens & gs & Hgs & Hclosed & Hdone); [|done|].
    { change (([] ++ [c]) ++ ps) with (c :: ps). lia. }
    split; [by constructor|]. exists (g :: gs). split; [by rewrite concat_cons, Hgs|]. split; [done|].
    rewrite Hdone. change (([] ++ [c]) ++ ps) with (c :: ps). by rewrite <- Z.add_assoc, <- lens_app, <- app_assoc.
Qed.
End UploadedPieces.

(** ** What a download makes of it *)

(** the first short piece that is not the last is followed by another in its bundle *)
Lemma first_short (before : list Bytes) p after : Forall (λ c, (length c ≤ CHUNK)%nat) before → (length p < CHUNK)%nat → after ≠ [] →
  ∃ before' p' after', before ++ p :: after = before' ++ p' :: after' ∧ Forall (λ c, length c = CHUNK) before' ∧
    (length p' < CHUNK)%nat ∧ after' ≠ [].
Proof.
  intros Hle Hp Hafter. induction before as [|c before IH]; [by exists [], p, after|]. apply Forall_cons in Hle as [Hc Hle].
  destruct (decide (length c = CHUNK)) as [Heq|Hne].
  - destruct (IH Hle) as (before' & p' & after' & Happ & Hfull & ? & ?). exists (c :: before'), p', after'. simpl. rewrite Happ.
    split; [done|]. split; [by constructor|done].
  - exists [], c, (before ++ p :: after). split; [done|]. split; [done|]. split; [lia|]. by destruct before.
Qed.

Lemma lens_all_full (cs : list Bytes) : Forall (λ c, length c = CHUNK) cs → lens cs = Z.of_nat (length cs) * VOLUME_RAW_CHUNK_SIZE.
Proof.
  induction 1 as [|c cs Hc _ IH]; [done|]. change (lens (c :: cs)) with (Z.of_nat (length c) + lens cs). rewrite IH, Hc, CHUNK_eq. simpl length. lia.
Qed.

Lemma short_in_group (gs : list (list Bytes)) before p after : closed gs → concat gs = before ++ p :: after →
  Forall (λ c, length c = CHUNK) before → (0 < length p < CHUNK)%nat → after ≠ [] →
  ∃ g pre post, g ∈ gs ∧ g = pre ++ p :: post ∧ post ≠ [] ∧ Forall (λ c, length c = CHUNK) pre.
Proof.
  revert before. induction gs as [|g gs IH]; intros before Hclosed Hcat Hfull Hp Hafter; [by destruct before|].
  destruct Hclosed as [Hg Hclosed]. rewrite concat_cons in Hcat.
  assert (∀ before', concat gs = before' ++ p :: after → Forall (λ c, length c = CHUNK) before' →
    ∃ g0 pre post, g0 ∈ g :: gs ∧ g0 = pre ++ p :: post ∧ post ≠ [] ∧ Forall (λ c, length c = CHUNK) pre) as Hlater.
  { intros before' Hcat' Hfull'. destruct (IH before' Hclosed Hcat' Hfull' Hp Hafter) as (g0 & pre & post & Hin & Hg0).
    exists g0, pre, post. split; [by right|done]. }
  apply app_eq_inv in Hcat as [([|c rest] & -> & Hrest)|(rest & -> & Hrest)].
  - by apply (Hlater []).
  - injection Hrest as <- Hrest. destruct rest as [|c rest]; [|exists (before ++ p :: c :: rest), before, (c :: rest); split; [by left|done]].
    exfalso. assert (gs ≠ []) as Hgs by (intros ->; by apply Hafter). specialize (Hg Hgs).
    rewrite lens_snoc, (lens_all_full _ Hfull) in Hg. pose proof CHUNK_eq. unfold VOLUME_BUNDLE_RAW_SIZE, VOLUME_RAW_CHUNK_SIZE in *. nia.
  - apply Forall_app in Hfull as [_ Hfull]. by apply (Hlater rest).
Qed.

Section Script.
Context `{Blake3}.
Context (plan : FileReadPlan) (storages : list StoragePeerInfo) (session_of : StoragePeerInfo → nat)
  (listed : FileBundleRef → Fs0Result (list BundleChunkRef)).

(** a loop ends with an error, or runs its body for every element *)
Lemma script_of_in {A} (body : A → Fs0Result (list (Item DownloadJob))) xs x : x ∈ xs →
  (∃ err, IFail err ∈ (script_of body xs).1) ∨ ∃ items, body x = Ok items ∧ items ⊆ (script_of body xs).1.
Proof.
  induction xs as [|y xs IH]; [by intros ?%elem_of_nil|]. intros Hx. cbn [script_of].
  destruct (body y) as [items|err] eqn:Hy; [|left; exists err; by left]. apply elem_of_cons in Hx as [->|Hx].
  - right. exists items. split; [done|]. destruct (script_of body xs). simpl. set_solver.
  - destruct (IH Hx) as [[err Hin]|(items' & Hb & Hsub)]; destruct (script_of body xs); simpl in *; [left; exists err|right; exists items'].
    + set_solver.
    + split; [done|set_solver].
Qed.
Lemma script_of_ended {A} (body : A → Fs0Result (list (Item DownloadJob))) xs : (script_of body xs).2 = false →
  ∃ err, IFail err ∈ (script_of body xs).1.
Proof.
  induction xs as [|y xs IH]; [done|]. cbn [script_of]. destruct (body y) as [items|err]; [|intros _; exists err; by left].
  destruct (script_of body xs) as [script ended]. simpl. intros Hended. destruct (IH Hended) as [err Hin]. exists err. set_solver.
Qed.

(** the body of the inner loop *)
Abbreviation chunk_body k fb volume_id offset :=
  (λ chunk, item ← download_chunk_item plan k fb volume_id offset chunk; Ok [item] : Fs0Result (list (Item DownloadJob))).

Lemma download_script_in fb fbs : fb ∈ fbs →
  (∃ err, IFail err ∈ download_script plan storages session_of listed fbs) ∨
  ∃ offset k volume_id chunks, download_bundle_script storages session_of listed fb = Ok (offset, k, volume_id, chunks) ∧
    (script_of (chunk_body k fb volume_id offset) chunks).1 ⊆ download_script plan storages session_of listed fbs.
Proof.
  induction fbs as [|fb' fbs IH]; [by intros ?%elem_of_nil|]. intros Hin. cbn [download_script].
  destruct (download_bundle_script storages session_of listed fb') as [[[[offset k] volume_id] chunks]|err] eqn:Hfb'; [|left; exists err; by left].
  pose proof (script_of_ended (chunk_body k fb' volume_id offset) chunks) as Hended.
  destruct (script_of (chunk_body k fb' volume_id offset) chunks) as [script ended] eqn:Hs. simpl in Hended. apply elem_of_cons in Hin as [->|Hin].
  - right. exists offset, k, volume_id, chunks. split; [done|]. rewrite Hs. simpl. set_solver.
  - destruct ended; [|left; destruct (Hended eq_refl) as [err He]; exists err; set_solver].
    destruct (IH Hin) as [[err He]|(o & k' & v & cs & Hfb & Hsub)]; [left; exists err; set_solver|right].
    exists o, k', v, cs. split; [done|set_solver].
Qed.

(** the job of a chunk goes by the chunk's number, whatever its length *)
Lemma download_item_value k fb volume_id offset chunk item : download_chunk_item plan k fb volume_id offset chunk = Ok item →
  ∃ raw_offset, item = IJob k (mkDownloadJob (mkDownloadChunkRequest volume_id (bc_chunk_id chunk)) raw_offset
    (Z.min VOLUME_RAW_CHUNK_SIZE (fbr_raw_len fb - bc_chunk_index chunk * VOLUME_RAW_CHUNK_SIZE))).
Proof.
  unfold download_chunk_item. intros (chunk_offset & Ho%ok_or_Ok & Hitem)%Result_bind_Ok. 
  assert (chunk_offset = bc_chunk_index chunk * VOLUME_RAW_CHUNK_SIZE) as ->.
  { revert Ho. unfold u64_checked_mul. clear. by destruct (bool_decide _); [intros [= <-]|]. }
  destruct (bool_decide (fbr_raw_len fb ≤ _)); [done|].
  apply Result_bind_Ok in Hitem as (raw_offset & _ & Hitem). exists raw_offset.
  destruct (u64_checked_add raw_offset _) as [end_|]; [|done]. destruct (bool_decide (plan_size plan < end_)); [done|]. by injection Hitem as <-.
Qed.

Lemma bundles_listed_in index fbs ubs ub : bundles_listed storages listed index fbs ubs → ub ∈ ubs →
  ∃ i fb, fb ∈ fbs ∧ bundle_listed storages listed i fb ub.
Proof.
  revert index ubs. induction fbs as [|fb fbs IH]; intros index [|ub' ubs] Hlisted Hin; try done; [by apply elem_of_nil in Hin|].
  destruct Hlisted as [Hfb Hlisted]. apply elem_of_cons in Hin as [->|Hin]; [exists index, fb; split; [by left|done]|].
  destruct (IH _ _ Hlisted Hin) as (i & fb' & Hin' & Hfb'). exists i, fb'. split; [by right|done].
Qed.

(** a chunk of a bundle that is listed as uploaded *)
Lemma listed_item ubs ub chunk : bundles_listed storages listed 0 (plan_bundles plan) ubs → ub ∈ ubs → chunk ∈ ub_chunks ub →
  let script := download_script plan storages session_of listed (plan_bundles plan) in
  (∃ err, IFail err ∈ script) ∨
  ∃ k volume_id raw_offset, IJob k (mkDownloadJob (mkDownloadChunkRequest volume_id (bc_chunk_id chunk)) raw_offset
    (Z.min VOLUME_RAW_CHUNK_SIZE (ub_raw_len ub - bc_chunk_index chunk * VOLUME_RAW_CHUNK_SIZE))) ∈ script.
Proof.
  intros Hlisted Hub Hchunk script. destruct (bundles_listed_in _ _ _ _ Hlisted Hub) as (i & fb & Hfb & _ & Hraw & _ & cs & Hcs & Hperm).
  destruct (download_script_in fb (plan_bundles plan) Hfb) as [Herr|(offset & k & volume_id & chunks & Hscript & Hsub)]; [by left|].
  assert (chunk ∈ chunks) as Hin.
  { unfold download_bundle_script in Hscript. apply Result_bind_Ok in Hscript as (o & _ & Hscript).
    apply Result_bind_Ok in Hscript as ([replica storage] & _ & Hscript). rewrite Hcs in Hscript. injection Hscript as _ _ _ <-.
    by rewrite merge_sort_Permutation, Hperm. }
  destruct (script_of_in (chunk_body k fb volume_id offset) chunks chunk Hin)
    as [[err He]|(items & Hitems & Hsub')]; [left; exists err; by apply Hsub|].
  apply Result_bind_Ok in Hitems as (item & (raw_offset & ->)%download_item_value & [= <-]). right. exists k, volume_id, raw_offset.
  rewrite <- Hraw. apply Hsub, Hsub'. by left.
Qed.
End Script.

(** ** Short reads *)

(** C35. After a short read the file cannot be read back.  Let the reads of a file give any pieces, each at most what
    there is room for, and one of them, not the last, less than a whole chunk.  The upload gets to its end, with the
    size of the file and the bundles it made.  But whatever plan and storages list these bundles as they were uploaded,
    a download of them meets an error: its loop ends with one, or it asks for a piece of the file as of a chunk of
    another length, and its callback refuses the piece's own bytes and writes nothing. *)
Theorem short_read_unreadable `{Blake3} lease volume_id local_path k (before : list Bytes) p after :
  let pieces := before ++ p :: after in
  Forall (λ c, c ≠ []) pieces → reads_ok (reads_of pieces) UploadLoop_new → lens pieces ≤ u64_max →
  (length p < CHUNK)%nat → after ≠ [] →
  ∃ bundles, (upload_loop lease volume_id local_path k (reads_of pieces) UploadLoop_new).2 = Some (lens pieces, bundles) ∧
  ∀ plan storages session_of listed, bundles_listed storages listed 0 (plan_bundles plan) bundles →
    let script := download_script plan storages session_of listed (plan_bundles plan) in
    (∃ err, IFail err ∈ script) ∨
    ∃ i job piece, IJob i job ∈ script ∧ piece ∈ pieces ∧ dcr_chunk_id (dj_request job) = blake3_hash piece ∧
      ∀ receives, job_callback job (Ok (mkDownloadChunkResult (blake3_hash piece) piece)) receives =
        ([], Some (InvalidData "downloaded chunk metadata does not match request")).
Proof.
  intros pieces Hne Hreads Hmax Hp Hafter.
  destruct (upload_pieces lease volume_id local_path k pieces 0 [] [] Hne) as (Hlens & gs & Hcat & Hclosed & Hdone); [done|done|done|].
  exists (map bundle_of gs). split; [exact Hdone|]. intros plan storages session_of listed Hlisted script.
  apply Forall_app in Hlens as [Hbefore _]. destruct (first_short before p after Hbefore Hp Hafter) as (before' & q & after' & Heq & Hfull & Hq & Hafter').
  assert (q ∈ pieces) as Hin by (unfold pieces; rewrite Heq; set_solver).
  assert (0 < length q)%nat as Hq0. { rewrite Forall_forall in Hne. specialize (Hne q Hin). destruct q; [done|simpl; lia]. }
  destruct (short_in_group gs before' q after' Hclosed) as (g & pre & post & Hg & -> & Hpost & Hpre); [by rewrite Hcat, <- Heq|done|done|done|].
  destruct (listed_item plan storages session_of listed (map bundle_of gs) (bundle_of (pre ++ q :: post))
    (mkBundleChunkRef (Z.of_nat (length pre)) (blake3_hash q)) Hlisted) as [Herr|(i & vid & raw_offset & Hjob)]; [by apply list_elem_of_fmap_2| |by left|].
  { cbn [ub_chunks bundle_of]. unfold refs. rewrite imap_app. apply elem_of_app. right. rewrite imap_cons. simpl. rewrite Nat.add_0_r. by left. }
  right. eexists i, _, q. split; [exact Hjob|]. split; [done|]. split; [done|]. intros receives. cbn [job_callback download_kind].
  rewrite bool_decide_true; [done|]. right. cbn [dcs_raw_bytes dj_raw_len bc_chunk_index ub_raw_len bundle_of].
  rewrite lens_app, (lens_all_full _ Hpre). change (lens (q :: post)) with (Z.of_nat (length q) + lens post).
  assert (0 < lens post); [|pose proof CHUNK_eq; lia]. destruct post as [|c post]; [done|].
  assert (c ∈ pieces) as Hc. { change (concat gs = pieces) in Hcat. rewrite <- Hcat. apply list_elem_of_In, in_concat.
    exists (pre ++ q :: c :: post). rewrite <- !list_elem_of_In. split; [done|set_solver]. }
  rewrite Forall_forall in Hne. specialize (Hne c Hc). pose proof (lens_nonneg post). change (lens (c :: post)) with (Z.of_nat (length c) + lens post).
  destruct c; [done|]. simpl. lia.
Qed.

(** ** A file of three bytes, of which the first read gives one *)

Section Instances.
#[local] Existing Instance byte_blake3.

Definition short_pieces : list Bytes := [[Byte.x01]; [Byte.x02; Byte.x03]].
Definition short_bundle : UploadBundle := bundle_of short_pieces.
Definition short_plan : FileReadPlan :=
  mkFileReadPlan 1 "/a" 3 [mkFileBundleRef 0 3 3 (ub_bundle_id short_bundle) [mkReplicaLocation 3 7]].

Lemma short_read_unreadable_witness :
  (upload_loop byte_lease 7 "/tmp/a" 0 (reads_of short_pieces) UploadLoop_new).2 = Some (3, [short_bundle]) ∧
  let script := download_script short_plan byte_storages (λ _, 0%nat) (λ _, Ok (refs short_pieces)) (plan_bundles short_plan) in
  (∃ err, IFail err ∈ script) ∨
  ∃ i job piece, IJob i job ∈ script ∧ piece ∈ short_pieces ∧ dcr_chunk_id (dj_request job) = blake3_hash piece ∧
    ∀ receives, job_callback job (Ok (mkDownloadChunkResult (blake3_hash piece) piece)) receives =
      ([], Some (InvalidData "downloaded chunk metadata does not match request")).
Proof.
  assert (length [Byte.x01] < CHUNK)%nat as Hshort by (apply Nat2Z.inj_lt; rewrite CHUNK_eq; unfold VOLUME_RAW_CHUNK_SIZE; simpl; lia).
  destruct (short_read_unreadable byte_lease 7 "/tmp/a" 0 [] [Byte.x01] [[Byte.x02; Byte.x03]]) as (bundles & Hdone & Hread);
    [by repeat constructor|..|exact Hshort|discriminate|].
  - vm_compute. repeat split; discriminate.
  - vm_compute. discriminate.
  - assert (bundles = [short_bundle]) as ->.
    { change ((upload_loop byte_lease 7 "/tmp/a" 0 (reads_of short_pieces) UploadLoop_new).2 = Some (3, bundles)) in Hdone.
      vm_compute in Hdone. injection Hdone as <-. vm_compute. reflexivity. }
    split; [exact Hdone|]. apply (Hread short_plan byte_storages (λ _, 0%nat) (λ _, Ok (refs short_pieces))).
    split; [|exact I]. split; [reflexivity|]. split; [reflexivity|]. split; [vm_compute; eexists; reflexivity|]. eexists. split; reflexivity.
Defined.
End Instances.
