(* ===== verification/ClientDownload.v ===== *)
(** * A download reproduces the file that was uploaded

    The jobs of a download return the chunk they were asked for ([download_chunk_job_value]); the
    callbacks write each at its place; and the places are those the upload read from. *)

From S2P Require Import Prelude Types Link Conc ClientScheduler ClientSchedulerInv ClientSchedulerFacts.
From S2P Require Import VolumeSample StorageSample ClientSession ClientTransfer ClientTransferInv ClientTransferRuns ClientTransferFacts ClientLayout ClientFiles.

(** ** What the job of a chunk returns *)

Section Jobs.
Context `{DebugResponse, ClientTexts, Blake3, Zstd}.

Lemma download_chunk_job_value i rq r : may_return client_answer_ok (download_chunk_job i rq) (Ok r) →
  dcs_chunk_id r = dcr_chunk_id rq ∧ blake3_hash (dcs_raw_bytes r) = dcr_chunk_id rq ∧
  Z.of_nat (length (dcs_raw_bytes r)) ≤ VOLUME_RAW_CHUNK_SIZE.
Proof.
  unfold download_chunk_job. rewrite may_return_try. intros (compressed & _ & Hr). rewrite may_return_try in Hr.
  destruct Hr as (raw & Hraw & Hr). simpl in Hraw. simpl in Hr. injection Hr as <-. cbn [dcs_chunk_id dcs_raw_bytes].
  unfold decompress_chunk in Hraw. destruct (zstd_decompress compressed VOLUME_RAW_CHUNK_SIZE) as [raw'|]; [|done]. simpl in Hraw.
  case_bool_decide as Hbad; [done|]. injection Hraw as ->.
  split; [done|]. destruct (decide (blake3_hash raw = dcr_chunk_id rq)); [|tauto]. split; [done|]. lia.
Qed.
End Jobs.

(** ** What the callbacks have written *)

Section Explained.
Context `{TransferKind J Req Res W}.
Implicit Types t : Transfer J Req Res W.

(** outcomes and writes are what the callbacks made of results that satisfy [ans] *)
Inductive explained (ans : HashId → Fs0Result Res → Prop) : list (J * option Fs0Error) → list W → Prop :=
| explained_nil : explained ans [] []
| explained_snoc outcomes writes job r receives :
    explained ans outcomes writes → ans (job_hash job) r →
    explained ans (outcomes ++ [(job, (job_callback job r receives).2)]) (writes ++ (job_callback job r receives).1).

Lemma explained_impl (ans ans' : HashId → Fs0Result Res → Prop) outcomes writes : (∀ h r, ans h r → ans' h r) →
  explained ans outcomes writes → explained ans' outcomes writes.
Proof. intros Himpl He. induction He; constructor; auto. Qed.

(** a scheduler has the answer *)
Definition answers t (h : HashId) (r : Fs0Result Res) : Prop := ∃ k c, tr_scheds t !! k = Some c ∧ answered h r (cf_log c).

Lemma answers_mono t t' h r :
  (∀ k c, tr_scheds t !! k = Some c → ∃ c', tr_scheds t' !! k = Some c' ∧ ∃ log, cf_log c' = cf_log c ++ log) →
  answers t h r → answers t' h r.
Proof.
  intros Hlog (k & c & Hk & Ha). destruct (Hlog k c Hk) as (c' & Hk' & log & Heq). exists k, c'. split; [done|].
  rewrite Heq. by apply answered_app.
Qed.

Lemma insert_grows (scheds : list (Config Req Res)) k c c' log : scheds !! k = Some c → cf_log c' = cf_log c ++ log →
  ∀ k0 c0, scheds !! k0 = Some c0 → ∃ c1, <[k := c']> scheds !! k0 = Some c1 ∧ ∃ log, cf_log c1 = cf_log c0 ++ log.
Proof.
  intros Hk Hlog k0 c0 Hk0. destruct (decide (k0 = k)) as [->|Hne].
  - simplify_eq. exists c'. split; [apply list_lookup_insert_eq; by eapply lookup_lt_Some|by eexists].
  - exists c0. rewrite list_lookup_insert_ne by done. split; [done|]. exists []. by rewrite app_nil_r.
Qed.

Lemma explained_task concs script t k c c' log receives : transfer_inv concs script t → tr_scheds t !! k = Some c →
  task_step c c' → cf_log c' = cf_log c ++ log → explained (answers t) (tr_outcomes t) (tr_writes t) →
  let t' := foldl (call_back k receives) (set_tr_scheds t (<[k := c']> (tr_scheds t))) log in
  explained (answers t') (tr_outcomes t') (tr_writes t').
Proof.
  intros Hinv Hk Hstep Hlog He t'.
  assert (∀ h r, answers t h r → answers t' h r) as Hmono.
  { intros h r. apply answers_mono. subst t'. rewrite call_backs_scheds. cbn [tr_scheds set_tr_scheds]. by eapply insert_grows. }
  apply (explained_impl _ _ _ _ Hmono) in He.
  destruct (task_log c c' log Hstep Hlog) as [Hnone|(cb & h & r & rest & -> & Hrest)].
  { assert (t' = set_tr_scheds t (<[k := c']> (tr_scheds t))) as Ht' by (by apply call_back_uncalled). by rewrite Ht' in *. }
  destruct (inv_sched _ _ _ _ _ Hinv Hk) as (n & _ & Hc).
  assert (t' = call_back k receives (set_tr_scheds t (<[k := c']> (tr_scheds t))) (Called cb h r)) as Ht'.
  { subst t'. cbn [foldl]. by apply call_back_uncalled. }
  assert (answers t' h r) as Hans.
  { exists k, c'. split.
    - subst t'. rewrite call_backs_scheds. cbn. apply list_lookup_insert_eq. by eapply lookup_lt_Some.
    - apply (si_called n c' (task_sched_inv _ _ _ Hc Hstep) cb). rewrite Hlog. apply elem_of_app. right. by left. }
  destruct (find_job k cb (tr_jobs t)) as [job|] eqn:Hfind.
  - assert (h = job_hash job) as ->.
    { destruct (ti_jobs _ _ _ Hinv k cb job (find_job_Some _ _ _ _ Hfind)) as (c0 & Hk0 & Henq). simplify_eq.
      destruct (called_enqueued n c' cb h (task_sched_inv _ _ _ Hc Hstep)) as [_ Hmade].
      rewrite (task_enqueued _ _ Hstep), Henq in Hmade. assert (Some (job_hash job) = Some h) as Heq; [|by injection Heq].
      apply Hmade. rewrite Hlog, sum_list_with_app. simpl. rewrite one_true by done. lia. }
    assert (tr_outcomes t' = tr_outcomes t ++ [(job, (job_callback job r receives).2)] ∧
            tr_writes t' = tr_writes t ++ (job_callback job r receives).1) as [-> ->].
    { rewrite Ht'. cbn [call_back tr_jobs set_tr_scheds]. rewrite Hfind. by destruct (job_callback job r receives). }
    by constructor.
  - assert (tr_outcomes t' = tr_outcomes t ∧ tr_writes t' = tr_writes t) as [-> ->]; [|done].
    rewrite Ht'. cbn [call_back tr_jobs set_tr_scheds]. by rewrite Hfind.
Qed.

Lemma explained_step concs script t t' : transfer_inv concs script t → shared_step t t' →
  explained (answers t) (tr_outcomes t) (tr_writes t) → explained (answers t') (tr_outcomes t') (tr_writes t').
Proof.
  intros Hinv Hstep He.
  assert (∀ scheds' : Transfer J Req Res W, tr_outcomes scheds' = tr_outcomes t → tr_writes scheds' = tr_writes t →
    (∀ k c, tr_scheds t !! k = Some c → ∃ c', tr_scheds scheds' !! k = Some c' ∧ ∃ log, cf_log c' = cf_log c ++ log) →
    explained (answers scheds') (tr_outcomes scheds') (tr_writes scheds')) as Hsame.
  { intros t1 -> -> Hgrow. eapply explained_impl; [|exact He]. intros h r. by apply answers_mono. }
  assert (∀ k c, tr_scheds t !! k = Some c → ∃ c', tr_scheds t !! k = Some c' ∧ ∃ log, cf_log c' = cf_log c ++ log) as Hrefl.
  { intros k c Hk. exists c. split; [done|]. exists []. by rewrite app_nil_r. }
  destruct Hstep as [t t' []|t k c h req Hk]; try (by apply Hsame).
  - apply Hsame; [done..|]. eapply insert_grows; [done|]. rewrite app_nil_r. apply enqueue_fields.
  - by eapply explained_task.
  - apply Hsame; [done..|]. eapply insert_grows; [done|]. rewrite app_nil_r. apply enqueue_fields.
Qed.

Lemma explained_steps concs scheds script t : Z.of_nat (length script) ≤ u64_max →
  Forall2 (λ n c, rtc sched_step (Config_new n) c) concs scheds →
  rtc shared_step (Transfer_new scheds script) t → explained (answers t) (tr_outcomes t) (tr_writes t).
Proof.
  intros Hlen Hscheds Hsteps.
  assert (transfer_inv concs script (Transfer_new scheds script)) as Hinv by (eapply reachable_inv; [done..|apply rtc_refl]).
  assert (∀ t0 t, rtc shared_step t0 t → transfer_inv concs script t0 → explained (answers t0) (tr_outcomes t0) (tr_writes t0) →
    explained (answers t) (tr_outcomes t) (tr_writes t)) as Hgen.
  { clear -Hlen. intros t0 t Hsteps. induction Hsteps as [|t t1 t' Hstep _ IH]; [done|]. intros Hi He.
    apply IH; [by eapply transfer_inv_step|by eapply explained_step]. }
  apply (Hgen _ _ Hsteps); [done|]. constructor.
Qed.
End Explained.

(** ** What writes leave in a file *)

Section Written.
Implicit Types data file : list Byte.byte.

Lemma write_at_in_place offset bytes file : (Z.to_nat offset + length bytes ≤ length file)%nat →
  write_at offset bytes file = list_inserts (Z.to_nat offset) bytes file.
Proof.
  intros Hle. unfold write_at. replace (Z.to_nat offset + length bytes - length file)%nat with 0%nat by lia. simpl. by rewrite app_nil_r.
Qed.

(** the bytes of [data] at their place *)
Definition piece_of data (w : DownloadWriteJob) : Prop :=
  (Z.to_nat (dwj_raw_offset w) + length (dwj_raw_bytes w) ≤ length data)%nat ∧
  ∀ j, (j < length (dwj_raw_bytes w))%nat → dwj_raw_bytes w !! j = data !! (Z.to_nat (dwj_raw_offset w) + j)%nat.

Lemma written_pieces data writes : Forall (piece_of data) writes →
  length (written_file (Z.of_nat (length data)) writes) = length data ∧
  ∀ i w, w ∈ writes → (Z.to_nat (dwj_raw_offset w) ≤ i < Z.to_nat (dwj_raw_offset w) + length (dwj_raw_bytes w))%nat →
    written_file (Z.of_nat (length data)) writes !! i = data !! i.
Proof.
  induction writes as [|w writes IH] using rev_ind; intros Hall.
  { split; [unfold written_file; simpl; by rewrite length_replicate, Nat2Z.id|]. intros i w []%elem_of_nil. }
  apply Forall_app in Hall as [Hall [[Hle Hw] _]%Forall_cons]. destruct (IH Hall) as [Hlen Hold].
  assert (written_file (Z.of_nat (length data)) (writes ++ [w]) =
    list_inserts (Z.to_nat (dwj_raw_offset w)) (dwj_raw_bytes w) (written_file (Z.of_nat (length data)) writes)) as ->.
  { unfold written_file at 1. rewrite foldl_app. cbn [foldl]. apply write_at_in_place. fold (written_file (Z.of_nat (length data)) writes). lia. }
  split; [by rewrite length_inserts|]. intros i w' Hin Hi.
  destruct (decide (Z.to_nat (dwj_raw_offset w) ≤ i < Z.to_nat (dwj_raw_offset w) + length (dwj_raw_bytes w))%nat) as [Hcov|Hcov].
  - rewrite list_lookup_inserts by lia. rewrite Hw by lia. f_equal. lia.
  - assert (list_inserts (Z.to_nat (dwj_raw_offset w)) (dwj_raw_bytes w) (written_file (Z.of_nat (length data)) writes) !! i =
            written_file (Z.of_nat (length data)) writes !! i) as ->.
    { destruct (decide (i < Z.to_nat (dwj_raw_offset w))%nat); [by apply list_lookup_inserts_lt|apply list_lookup_inserts_ge; lia]. }
    apply elem_of_app in Hin as [Hin|Hin]; [by apply (Hold i w')|]. apply list_elem_of_singleton in Hin as ->. lia.
Qed.

Lemma written_whole data writes : Forall (piece_of data) writes →
  (∀ i, (i < length data)%nat → ∃ w, w ∈ writes ∧
    (Z.to_nat (dwj_raw_offset w) ≤ i < Z.to_nat (dwj_raw_offset w) + length (dwj_raw_bytes w))%nat) →
  written_file (Z.of_nat (length data)) writes = data.
Proof.
  intros Hall Hcov. destruct (written_pieces data writes Hall) as [Hlen Hw]. apply list_eq. intros i.
  destruct (decide (i < length data)%nat) as [Hi|Hi].
  - destruct (Hcov i Hi) as (w & Hin & Hiw). by apply (Hw i w).
  - rewrite !lookup_ge_None_2 by lia. done.
Qed.
End Written.

(** ** The whole way *)

Section Whole.
Context `{DebugResponse, ClientTexts, Blake3, Zstd}.
Abbreviation Download := (Transfer DownloadJob DownloadChunkRequest DownloadChunkResult DownloadWriteJob).

(** the write of a job whose chunk came *)
Definition good_write (ans : HashId → Fs0Result DownloadChunkResult → Prop) (job : DownloadJob) (w : DownloadWriteJob) : Prop :=
  dwj_raw_offset w = dj_raw_offset job ∧ Z.of_nat (length (dwj_raw_bytes w)) = dj_raw_len job ∧
  ∃ r, ans (dcr_chunk_id (dj_request job)) (Ok r) ∧ dwj_raw_bytes w = dcs_raw_bytes r.

Lemma explained_download ans outcomes writes : explained (J := DownloadJob) ans outcomes writes → omap snd outcomes = [] →
  (∀ w, w ∈ writes → ∃ job, job ∈ map fst outcomes ∧ good_write ans job w) ∧
  (∀ job, job ∈ map fst outcomes → ∃ w, w ∈ writes ∧ good_write ans job w).
Proof.
  induction 1 as [|outcomes writes job r receives He IH Hans]; intros Hfail; [by split; intros ? []%elem_of_nil|].
  rewrite omap_app in Hfail. apply app_eq_nil in Hfail as [Hfail Hlast]. destruct (IH Hfail) as [IH1 IH2].
  assert (∃ w, (job_callback job r receives).1 = [w] ∧ good_write ans job w) as (w & Hw & Hgood).
  { revert Hlast. cbn [job_callback download_kind] in *. destruct r as [response|err]; [|done].
    case_bool_decide as Hbad; [done|]. destruct receives; [|done]. intros _. eexists. split; [reflexivity|].
    split; [done|]. split; [|by exists response]. cbn [dwj_raw_bytes].
    destruct (decide (Z.of_nat (length (dcs_raw_bytes response)) = dj_raw_len job)); [done|]. exfalso. apply Hbad. by right. }
  rewrite map_app, Hw. cbn [map fst]. split.
  - intros w' [Hin|Hin]%elem_of_app.
    + destruct (IH1 w' Hin) as (job' & ? & ?). exists job'. split; [set_solver|done].
    + apply list_elem_of_singleton in Hin as ->. exists job. split; [set_solver|done].
  - intros job' [Hin|Hin]%elem_of_app.
    + destruct (IH2 job' Hin) as (w' & ? & ?). exists w'. split; [set_solver|done].
    + apply list_elem_of_singleton in Hin as ->. exists w. split; [set_solver|done].
Qed.

(** the results the handlers gave are those of [download_chunk_job] *)
Definition handled_by_jobs (t : Download) : Prop := ∀ k c h r, tr_scheds t !! k = Some c → Handled h (Ok r) ∈ cf_log c →
  ∃ i rq, dcr_chunk_id rq = h ∧ may_return client_answer_ok (download_chunk_job i rq) (Ok r).

(** what a good write of a chunk's job has, when no other bytes of its length have its hash *)
Lemma good_write_bytes (t : Download) offset c job w : handled_by_jobs t →
  (∀ raw, length raw = length c → blake3_hash raw = blake3_hash c → raw = c) →
  job_for offset c job → good_write (answers t) job w → dwj_raw_offset w = offset ∧ dwj_raw_bytes w = c.
Proof.
  intros Hjobs Hinj (Hid & <- & Hlen) (Ho & Hl & r & (k & sched & Hk & Hans) & Hw). split; [done|].
  rewrite Hw. apply Hinj; [rewrite <-Hw; lia|]. destruct Hans as [Hhandled|(err & Herr & _)]; [|done].
  destruct (Hjobs k sched _ r Hk Hhandled) as (i & rq & Hrq & Hret).
  destruct (download_chunk_job_value i rq r Hret) as (_ & Hhash & _). congruence.
Qed.

(** a download of the chunks of [data], laid out as [upload_loop] does it ([upload_layout]) *)
Lemma download_of_layout (data : list Byte.byte) plan storages session_of listed concs scheds (t : Download) :
  Z.of_nat (length data) ≤ u64_max → plan_size plan = Z.of_nat (length data) →
  bundles_listed storages listed 0 (plan_bundles plan) (map bundle_of (chunks BUNDLE (chunks CHUNK data))) →
  Forall2 (λ n c, rtc sched_step (Config_new n) c) concs scheds →
  rtc shared_step (Transfer_new scheds (download_script plan storages session_of listed (plan_bundles plan))) t →
  tr_phase t = Ended (Ok tt) → failures t = [] → handled_by_jobs t →
  (∀ c raw, c ∈ chunks CHUNK data → length raw = length c → blake3_hash raw = blake3_hash c → raw = c) →
  written_file (plan_size plan) (tr_writes t) = data.
Proof.
  intros Hmax Hsize Hlisted Hscheds Hsteps Hphase Hfail Hjobs Hinj.
  set (cs := chunks CHUNK data) in *.
  assert (concat cs = data) as Hdata by (by apply chunks_concat, CHUNK_pos).
  set (script := download_script plan storages session_of listed (plan_bundles plan)) in *.
  assert (covers 0 cs script) as Hcovers.
  { apply (download_script_covers plan storages session_of listed (length cs) cs 0); try done.
    - apply chunks_full.
    - rewrite Z.mul_0_l, Z.add_0_l. unfold cs. rewrite chunks_lens. lia.
    - lia. }
  destruct (covers_jobs 0 cs script Hcovers) as (Hjob1 & Hjob2 & Hlen).
  assert (length cs ≤ length data)%nat as Hcs by (unfold cs, chunks; apply chunks_fuel_length).
  assert (Z.of_nat (length script) ≤ u64_max) as Hscript by lia.
  pose proof (reachable_inv _ _ _ _ Hscript Hscheds Hsteps) as Hinv.
  destruct (ended_ok _ _ _ Hinv Hphase) as (Hitems & Hperm & _).
  destruct (explained_download _ _ _ (explained_steps _ _ _ _ Hscript Hscheds Hsteps) Hfail) as [Hw1 Hw2].
  assert (∀ job, job ∈ map fst (tr_outcomes t) ↔ ∃ k, IJob k job ∈ script) as Hin.
  { intros job. rewrite Hperm, Hitems, list_elem_of_fmap. setoid_rewrite list_elem_of_fmap. split.
    - intros ([[k cb] job'] & -> & Hin). exists k. by exists (k, cb, job').
    - intros (k & [[k' cb] job'] & [= -> ->] & Hin). by exists (k', cb, job'). }
  assert (∀ pre c post job w, cs = pre ++ c :: post → job_for (0 + lens pre) c job → good_write (answers t) job w →
    Z.to_nat (dwj_raw_offset w) = length (concat pre) ∧ dwj_raw_bytes w = c) as Hplace.
  { intros pre c post job w Hcs' Hjob Hgood.
    destruct (good_write_bytes t (0 + lens pre) c job w Hjobs) as [-> ->]; [|done|done|].
    - intros raw. apply Hinj. rewrite Hcs'. set_solver.
    - split; [|done]. rewrite lens_concat. lia. }
  rewrite Hsize. apply written_whole.
  - apply Forall_forall. intros w Hw. destruct (Hw1 w Hw) as (job & [k Hk]%Hin & Hgood).
    destruct (Hjob1 _ Hk) as (k' & job' & pre & c & post & [= <- <-] & Hcs' & Hjob).
    destruct (Hplace pre c post job w Hcs' Hjob Hgood) as [Hoff Hbytes]. unfold piece_of. rewrite Hoff, Hbytes, <-Hdata, Hcs'.
    rewrite concat_app. simpl. rewrite !length_app. split; [lia|]. intros j Hj.
    rewrite lookup_app_r, Nat.add_sub' by lia. by rewrite lookup_app_l.
  - intros i Hi. rewrite <-Hdata in Hi. destruct (concat_position cs i Hi) as (pre & c & post & Hcs' & Hpos).
    destruct (Hjob2 pre c post Hcs') as (k & job & Hk & Hjob).
    destruct (Hw2 job) as (w & Hw & Hgood); [apply Hin; by exists k|].
    exists w. split; [done|]. by destruct (Hplace pre c post job w Hcs' Hjob Hgood) as [-> ->].
Qed.

(** What was uploaded is downloaded.  Let [data] be a file whose reads all filled the buffer, uploaded as the
    loop of [upload_file] lays it out, and let the read plan have the uploaded bundles in their order, each with a
    replica whose storage lists the bundle's chunks (in any order).  Then, however the chunks are
    fetched, shared between transfers and delivered, a download that ends with [Ok] and lost no failure leaves exactly
    [data] in the file, unless two chunks of the same length collide under BLAKE3. *)
Theorem download_reproduces_upload (data : list Byte.byte) lease volume_id local_path k0 jobs size bundles
    plan storages session_of listed concs scheds (t : Download) :
  Z.of_nat (length data) ≤ u64_max →
  upload_loop lease volume_id local_path k0 (map Ok (chunks CHUNK data) ++ [Ok []; Ok []]) UploadLoop_new = (jobs, Some (size, bundles)) →
  plan_size plan = size → bundles_listed storages listed 0 (plan_bundles plan) bundles →
  Forall2 (λ n c, rtc sched_step (Config_new n) c) concs scheds →
  rtc shared_step (Transfer_new scheds (download_script plan storages session_of listed (plan_bundles plan))) t →
  tr_phase t = Ended (Ok tt) → failures t = [] → handled_by_jobs t →
  (∀ c raw, c ∈ chunks CHUNK data → length raw = length c → blake3_hash raw = blake3_hash c → raw = c) →
  written_file (plan_size plan) (tr_writes t) = data.
Proof.
  intros Hmax Hup Hsize Hlisted. rewrite upload_layout in Hup by done. injection Hup as _ <- <-. by apply download_of_layout.
Qed.
End Whole.

(** ** A file of one byte *)

Section OneByte.
#[local] Existing Instances plain_debug plain_texts byte_blake3 plain_zstd.

Definition byte_listed (bundle : FileBundleRef) : Fs0Result (list BundleChunkRef) := Ok [mkBundleChunkRef 0 byte_id].
Definition byte_plan : FileReadPlan :=
  mkFileReadPlan 1 "/a" 1 [mkFileBundleRef 0 1 1 (bundle_hash_from_chunks [mkBundleChunkRef 0 byte_id]) [mkReplicaLocation 3 7]].
Definition byte_new : Transfer DownloadJob DownloadChunkRequest DownloadChunkResult DownloadWriteJob :=
  Transfer_new [Config_new 1] (download_script byte_plan byte_storages (λ _, 0%nat) byte_listed (plan_bundles byte_plan)).
Definition byte_moves : list (Move DownloadChunkResult) :=
  [MCount; MEnqueue; task Turn; task (Permit (Ok tt)); MEnqueued; MFinish; task (HandlerReturns (Ok (mkDownloadChunkResult byte_id byte_data)));
   task Turn; task Turn; task Turn; task Turn; task Turn; MDone].
Definition byte_done : Transfer DownloadJob DownloadChunkRequest DownloadChunkResult DownloadWriteJob :=
  default byte_new (exec_moves byte_moves byte_new).

Lemma byte_run : rtc shared_step byte_new byte_done.
Proof.
  apply own_shared, (exec_moves_steps byte_moves). unfold byte_done.
  assert (bool_decide (is_Some (exec_moves byte_moves byte_new)) = true) as Hsome by (vm_compute; reflexivity).
  apply bool_decide_eq_true in Hsome as [c Hc]. by rewrite Hc.
Qed.

(** the job that fetched the byte, over a connection that was open *)
Lemma byte_job : may_return client_answer_ok (download_chunk_job 0 (mkDownloadChunkRequest 7 byte_id))
  (Ok (mkDownloadChunkResult byte_id byte_data)).
Proof.
  assert (out_value (run client_oracle 0 (download_chunk_job 0 (mkDownloadChunkRequest 7 byte_id)) byte_client) =
    Ok (mkDownloadChunkResult byte_id byte_data)) as <- by (vm_compute; reflexivity).
  apply run_may_return. exact client_oracle_ok.
Qed.

Lemma byte_handled : handled_by_jobs byte_done.
Proof.
  intros k c h r Hk Hin.
  assert (map cf_log (tr_scheds byte_done) = [[Returned 0 (Ok tt); Handled byte_id (Ok (mkDownloadChunkResult byte_id byte_data));
    Called 0 byte_id (Ok (mkDownloadChunkResult byte_id byte_data))]]) as Hlog by (vm_compute; reflexivity).
  apply (list_lookup_fmap_Some_2 cf_log) in Hk. 
  assert (map cf_log (tr_scheds byte_done) !! k = Some (cf_log c)) as Hk' by exact Hk. rewrite Hlog in Hk'.
  apply list_lookup_singleton_Some in Hk' as [_ Hc]. rewrite <-Hc in Hin.
  apply elem_of_cons in Hin as [Hin|[Hin|Hin]%elem_of_cons]; [discriminate Hin| |by apply list_elem_of_singleton in Hin].
  injection Hin as -> ->. exists 0%nat, (mkDownloadChunkRequest 7 byte_id). split; [reflexivity|exact byte_job].
Qed.

Lemma byte_injective raw : blake3_hash raw = byte_id → raw = byte_data.
Proof. intros Heq. apply byte_tag_known; [by left|exact (f_equal hash_bytes Heq)]. Qed.

Lemma download_reproduces_upload_witness :
  tr_phase byte_done = Ended (Ok tt) ∧ written_file 1 (tr_writes byte_done) = byte_data.
Proof.
  assert (tr_phase byte_done = Ended (Ok tt)) as Hph by (vm_compute; reflexivity).
  split; [exact Hph|].
  refine (download_reproduces_upload byte_data byte_lease 7 "/tmp/a" 0 _ 1 _ byte_plan byte_storages (λ _, 0%nat) byte_listed
    [1%nat] [Config_new 1] byte_done _ (upload_layout byte_lease 7 "/tmp/a" 0 byte_data _) eq_refl _ _ byte_run Hph _ byte_handled _).
  - vm_compute. intros Hle. discriminate Hle.
  - vm_compute. intros Hle. discriminate Hle.
  - rewrite byte_chunks, chunks_small by (simpl; unfold BUNDLE; lia). split; [|exact I].
    split; [reflexivity|]. split; [reflexivity|]. split; [vm_compute; eexists; reflexivity|].
    exists [mkBundleChunkRef 0 byte_id]. split; reflexivity.
  - apply Forall2_cons. split; [apply rtc_refl|apply Forall2_nil_2].
  - vm_compute. reflexivity.
  - rewrite byte_chunks. intros c raw Hc. apply list_elem_of_singleton in Hc as ->. intros _. apply byte_injective.
Defined.
End OneByte.
