(* ===== verification/System.v ===== *)
(** * The way of a file through the system

    What the client, the central server and the volumes do for one file, in one theorem:
    the commit of an upload at the central server, the read plan made of the tables later, the
    listings of the volumes and the download.  Bundles and chunks are named by digests, so that
    whatever replicas the plan finds list and hold what was uploaded. *)

From S2P Require Import Prelude Types Paths DirCache CentralDb DirTree CentralInv CentralDir.
From S2P Require Import CentralTables CentralFacts CentralRuns Link Conc CentralServer.
From S2P Require Import CentralHandlers CentralUpdate CentralFiles CentralReads.
From S2P Require Import VolumeDb VolumeIo Volume VolumeInv VolumeFacts VolumeBundles VolumeSafety VolumeCommits VolumeCatalog VolumeRuns VolumeLife.
From S2P Require Import VolumeSample StorageSample StorageSafety.
From S2P Require Import ClientScheduler ClientSession ClientTransfer ClientTransferInv ClientTransferRuns ClientTransferFacts ClientLayout ClientFiles ClientDownload.

Section Names.
Context `{Blake3}.
Abbreviation Bytes := (list Byte.byte).

(** no other bytes have the digest *)
Definition no_collision (bytes : Bytes) : Prop := ∀ bytes', blake3_hash bytes' = blake3_hash bytes → bytes' = bytes.

(** what the id of a bundle of these chunks is the digest of *)
Definition id_text (g : list Bytes) : Bytes := concat (map (λ c, vec_to_list (blake3_digest c)) g).

(** the digests of the file's chunks and of its bundles' ids are theirs only *)
Definition no_collisions (data : Bytes) : Prop :=
  Forall no_collision (chunks CHUNK data ++ map id_text (chunks BUNDLE (chunks CHUNK data))).

(** ** Ids determine chunks *)

Lemma refs_from_ids n g : map bc_chunk_id (refs_from n g) = map blake3_hash g.
Proof. revert n. induction g as [|c g IH]; intros n; [done|]. rewrite refs_from_cons. simpl. by rewrite IH. Qed.

Lemma refs_from_contiguous n g : contiguous_from (Z.of_nat n) (refs_from n g).
Proof.
  revert n. induction g as [|c g IH]; intros n; [done|]. rewrite refs_from_cons. cbn [contiguous_from bc_chunk_index].
  rewrite bool_decide_true by done. specialize (IH (S n)). by rewrite Nat2Z.inj_succ, <-Z.add_1_r in IH.
Qed.

(** the bytes the id of some chunks is the digest of *)
Definition refs_text (chunks : list BundleChunkRef) : Bytes := concat (map (λ c, vec_to_list (hash_bytes (bc_chunk_id c))) chunks).

Lemma refs_from_text n g : refs_text (refs_from n g) = id_text g.
Proof.
  unfold refs_text, id_text. rewrite <-(map_map bc_chunk_id (λ h, vec_to_list (hash_bytes h))), refs_from_ids, map_map. done.
Qed.

(** digests are as long as each other *)
Lemma refs_text_inj i chunks chunks' : contiguous_from i chunks → contiguous_from i chunks' →
  refs_text chunks = refs_text chunks' → chunks = chunks'.
Proof.
  revert i chunks'. induction chunks as [|[j h] chunks IH]; intros i [|[j' h'] chunks'] Hc Hc' Heq; [done|..].
  1,2: by apply (f_equal length) in Heq; cbn [refs_text map concat] in Heq; rewrite length_app, length_vec_to_list in Heq.
  cbn [contiguous_from bc_chunk_index] in *. apply andb_True in Hc as [Hj Hc], Hc' as [Hj' Hc'].
  apply bool_decide_unpack in Hj as ->, Hj' as ->.
  unfold refs_text in Heq. cbn [map concat bc_chunk_id] in Heq. apply app_inj_1 in Heq as [Hh Heq]; [|by rewrite !length_vec_to_list].
  apply vec_to_list_inj2 in Hh. f_equal; [|by eapply IH]. f_equal. destruct h, h'. simpl in Hh. by subst.
Qed.

Lemma bundle_of_id g : ub_bundle_id (bundle_of g) = blake3_hash (id_text g).
Proof. by rewrite <-(refs_from_text 0). Qed.

(** chunks under the id of a bundle whose text has no collision are its chunks *)
Lemma chunks_of_id g chunks : no_collision (id_text g) → contiguous_from 0 chunks →
  bundle_hash_from_chunks chunks = ub_bundle_id (bundle_of g) → chunks = refs g.
Proof.
  intros Hnc Hc Hid. rewrite bundle_of_id in Hid. apply Hnc in Hid. fold (refs_text chunks) in Hid.
  apply (refs_text_inj 0); [done|exact (refs_from_contiguous 0 g)|]. by rewrite Hid, <-(refs_from_text 0).
Qed.
End Names.

(** ** What a volume has of an uploaded bundle *)

Section Held.
Context `{SqliteText, RowIds, Blake3, Zstd, !RowIdLaws}.
(** uploads are checked, as storages do by default *)
#[local] Instance checked_content : ContentRule := stored_content true.

Lemma held_rows v claims g : volume_inv v claims → no_collision (id_text g) →
  bundle_rows (vl_db v) (ub_bundle_id (bundle_of g)) ≠ [] →
  bundle_rows (vl_db v) (ub_bundle_id (bundle_of g)) = rows_of (ub_bundle_id (bundle_of g)) (refs g).
Proof.
  intros Hinv Hnc Hne. destruct (bko_bundle _ (vi_bundles _ _ Hinv) (ub_bundle_id (bundle_of g))) as [|(chunks & Hrows & Hc & Hid)]; [done|].
  rewrite Hrows. f_equal. by apply chunks_of_id.
Qed.

(** it lists exactly the chunks *)
Lemma held_listed v claims g o n : volume_inv v claims → no_collision (id_text g) →
  bundle_rows (vl_db v) (ub_bundle_id (bundle_of g)) ≠ [] →
  out_value (run o n (Volume.list_bundle_chunks (ub_bundle_id (bundle_of g))) v) = Ok (refs g).
Proof.
  intros Hinv Hnc Hne. pose proof (held_rows v claims g Hinv Hnc Hne) as Hrows.
  unfold Volume.list_bundle_chunks, prog_try. rewrite run_bind, locked_run. cbn [out_value out_state].
  rewrite (with_db_run _ _ _ _ (list_bundle_chunks_run _ _ (refs g) (refs_from_contiguous 0 g) Hrows)). simpl.
  rewrite bool_decide_false; [done|]. intros Hnil. by rewrite Hrows, Hnil in Hne.
Qed.

(** each chunk is stored with its length *)
Lemma held_chunk v claims c : volume_inv v claims → no_collision c → blake3_hash c ∈ map cm_chunk_id (vd_chunks (vl_db v)) →
  ∃ m, find_chunk (vl_db v) (blake3_hash c) = Some m ∧ cm_raw_len m = Z.of_nat (length c).
Proof.
  intros Hinv Hnc Hin. destruct (find_chunk (vl_db v) (blake3_hash c)) as [m|] eqn:Hm; [|by apply find_chunk_None in Hm].
  exists m. split; [done|]. apply find_chunk_Some in Hm as [Hm Hid].
  destruct (proj1 (Forall_forall _ _) (vi_chunks _ _ Hinv) m Hm) as (_ & _ & bytes & _ & _ & _ & Hcontent).
  destruct (Hcontent eq_refl) as (raw & _ & <- & Hraw). rewrite Hid in Hraw. by rewrite (Hnc _ Hraw).
Qed.

(** and the bundle adds up to its chunks *)
Lemma held_length v claims g : volume_inv v claims → no_collision (id_text g) → Forall no_collision g →
  bundle_rows (vl_db v) (ub_bundle_id (bundle_of g)) ≠ [] →
  zsum (map cm_raw_len (bundle_members (vl_db v) (ub_bundle_id (bundle_of g)))) = lens g.
Proof.
  intros Hinv Hnc Hcs Hne. pose proof (held_rows v claims g Hinv Hnc Hne) as Hrows.
  assert (Forall (λ c, blake3_hash c ∈ map cm_chunk_id (vd_chunks (vl_db v))) g) as Hin.
  { apply Forall_forall. intros c Hc.
    pose proof (bko_chunk _ (vi_bundles _ _ Hinv)) as Hfk. rewrite Forall_forall in Hfk.
    assert (blake3_hash c ∈ map bcr_chunk_id (bundle_rows (vl_db v) (ub_bundle_id (bundle_of g)))) as (row & -> & Hrow)%list_elem_of_fmap.
    { rewrite Hrows. unfold rows_of. rewrite map_map. cbn [bcr_chunk_id].
      change (blake3_hash c ∈ map bc_chunk_id (refs_from 0 g)). rewrite refs_from_ids. by apply (list_elem_of_fmap_2 blake3_hash). }
    apply list_elem_of_filter in Hrow as [_ Hrow]. by apply Hfk. }
  unfold bundle_members. fold (bundle_rows (vl_db v) (ub_bundle_id (bundle_of g))). rewrite Hrows. clear Hrows Hne Hnc.
  change (refs g) with (refs_from 0 g). generalize (ub_bundle_id (bundle_of g)) as b. generalize 0%nat as n.
  induction Hcs as [|c g Hc _ IH]; intros n b; [done|]. apply Forall_cons in Hin as [Hc' Hin].
  rewrite refs_from_cons. destruct (held_chunk v claims c Hinv Hc Hc') as (m & Hm & Hlen).
  cbn [rows_of map omap list_omap bcr_chunk_id bc_chunk_id]. rewrite Hm. fold (rows_of b (refs_from (S n) g)).
  cbn [map]. change (lens (c :: g)) with (Z.of_nat (length c) + lens g). rewrite <-(IH Hin (S n) b), <-Hlen. done.
Qed.
End Held.

(** ** From the commit to the download *)

Section Way.
Context `{SqliteText, RowIds, Blake3, Zstd, DebugResponse, ClientTexts, !RowIdLaws}.
#[local] Existing Instance checked_content.
Abbreviation Bytes := (list Byte.byte).
Abbreviation Download := (Transfer DownloadJob DownloadChunkRequest DownloadChunkResult DownloadWriteJob).

(** the commit an upload of the file ends with: its size and its bundles *)
Definition file_commit (data : Bytes) (request : CommitUpdateRequest) : Prop :=
  cur_new_size request = Z.of_nat (length data) ∧
  Forall2 commits (map bundle_of (chunks BUNDLE (chunks CHUNK data))) (cur_bundles request).

(** the central server took it *)
Definition commit_accepted (request : CommitUpdateRequest) (s s1 : CentralTx) : Prop :=
  db_ok (tx_db s) ∧ cache_ok (db_dirs (tx_db s)) (tx_dir_cache s) ∧ commit_request_ok request ∧
  ∃ now now_lease record, 0 ≤ now ∧ Update.commit_update_tx request now now_lease s = (Ok record, s1).

(** since then the file was not updated; it may have moved *)
Definition content_kept (file_id : Z) (db db' : CentralDb) : Prop :=
  select_file_bundles db' file_id = select_file_bundles db file_id ∧
  ∀ f f', find_file db file_id = Some f → find_file db' file_id = Some f' → f_size_bytes f' = f_size_bytes f.

(** the plan was made of the tables *)
Definition plan_read (online : gmap Z Z) (file_id : Z) (s : CentralTx) (plan : FileReadPlan) : Prop :=
  db_ok (tx_db s) ∧ cache_ok (db_dirs (tx_db s)) (tx_dir_cache s) ∧
  (CentralHandlers.Client.read_plan_tx online file_id s).1 = Ok plan.

(** every replica the tables have on a mounted volume is the volume's, which is intact *)
Definition mounted_in_step (online : gmap Z Z) (db : CentralDb) (volumes : gmap Z VolumeState) : Prop :=
  ∀ r, r ∈ db_bundle_replicas db → is_Some (online !! br_volume_id r) →
    ∃ v claims, volumes !! br_volume_id r = Some v ∧ volume_inv v claims ∧
      catalog_row (br_volume_id r) (vl_db v) (br_bundle_id r) = Some r.

(** the client has heard of the storages of mounted volumes *)
Definition knows_storages (online : gmap Z Z) (storages : list StoragePeerInfo) : Prop :=
  ∀ volume_id storage_id, online !! volume_id = Some storage_id →
    is_Some (lfind (λ storage, bool_decide (spi_storage_id storage = storage_id)) storages).

(** the chunks of a bundle come from the volume of the replica picked *)
Definition lists_volumes (volumes : gmap Z VolumeState) (storages : list StoragePeerInfo)
    (listed : FileBundleRef → Fs0Result (list BundleChunkRef)) : Prop :=
  ∀ fb replica storage, pick_replica storages fb = Some (replica, storage) →
    ∀ v, volumes !! rl_volume_id replica = Some v →
    ∃ o n, listed fb = out_value (run o n (Volume.list_bundle_chunks (fbr_bundle_id fb)) v).

(** some shared transfer of the plan ended well and lost no failure *)
Definition downloaded (plan : FileReadPlan) (storages : list StoragePeerInfo) (session_of : StoragePeerInfo → nat)
    (listed : FileBundleRef → Fs0Result (list BundleChunkRef)) (t : Download) : Prop :=
  ∃ concs scheds, Forall2 (λ n c, rtc sched_step (Config_new n) c) concs scheds ∧
    rtc shared_step (Transfer_new scheds (download_script plan storages session_of listed (plan_bundles plan))) t ∧
    tr_phase t = Ended (Ok tt) ∧ failures t = [] ∧ handled_by_jobs t.

Lemma commits_ids bundles committed : Forall2 commits bundles committed → map cb_bundle_id committed = map ub_bundle_id bundles.
Proof. induction 1 as [|ub cb bundles committed [Hid _] _ IH]; [done|]. simpl. by rewrite IH, Hid. Qed.

(** what the tables say after the commit *)
Lemma accepted_commit request s s1 : commit_accepted request s s1 →
  cur_file_id request ≤ i64_max ∧ cur_new_size request ≤ u64_max ∧
  select_file_bundles (tx_db s1) (cur_file_id request) = numbered (cur_file_id request) 0 (map cb_bundle_id (cur_bundles request)) ∧
  ∃ f, find_file (tx_db s1) (cur_file_id request) = Some f ∧ f_size_bytes f = cur_new_size request.
Proof.
  intros (Hok & Hc & Hreq & now & now_lease & record & Hnow & Hrun).
  destruct (commit_tests _ _ _ _ _ _ Hok Hreq Hrun) as (_ & Hfid & _ & f0 & lens0 & (_ & _ & _ & _ & Hsum) & Hmax & _).
  destruct (commit_outcome _ _ _ _ _ _ Hok Hc Hreq Hnow Hrun) as (f & lens & cs & (_ & Hf & _) & _ & (eid & _ & Hdb & _) & _ & Hsel).
  split; [done|]. split; [by rewrite Hsum|]. split; [done|]. exists (resized (cur_new_size request) (zsum (map snd lens)) now f). split; [|done].
  rewrite Hdb. unfold committed.
  change (find_file (update_file (cur_file_id request) (resized (cur_new_size request) (zsum (map snd lens)) now) (tx_db s)) (cur_file_id request) =
    Some (resized (cur_new_size request) (zsum (map snd lens)) now f)).
  apply find_file_update; [done| |done]. by apply find_file_Some in Hf as [_ ?].
Qed.

Lemma lfind_map_head {A B} (f : A → option B) x l : is_Some (f x) → is_Some (lfind_map f (x :: l)).
Proof. intros [y Hy]. exists y. simpl. by rewrite Hy. Qed.
Lemma lfind_map_Some {A B} (f : A → option B) l y : lfind_map f l = Some y → ∃ x, x ∈ l ∧ f x = Some y.
Proof.
  induction l as [|x l IH]; [done|]. simpl. destruct (f x) eqn:Hf; [intros [= <-]; exists x; split; [by left|done]|].
  intros (x' & ? & ?)%IH. exists x'. split; [by right|done].
Qed.

Section Plan.
Context (online : gmap Z Z) (db : CentralDb) (volumes : gmap Z VolumeState) (storages : list StoragePeerInfo)
  (listed : FileBundleRef → Fs0Result (list BundleChunkRef)).
Hypotheses (Hstep : mounted_in_step online db volumes) (Hknows : knows_storages online storages)
  (Hlists : lists_volumes volumes storages listed).

(** a replica of an uploaded bundle is on a volume that lists it and has its length *)
Lemma replica_held g r : no_collision (id_text g) → Forall no_collision g →
  r ∈ online_replicas online db (ub_bundle_id (bundle_of g)) →
  br_raw_len r = lens g ∧ ∃ v, volumes !! br_volume_id r = Some v ∧
    ∀ o n, out_value (run o n (Volume.list_bundle_chunks (ub_bundle_id (bundle_of g))) v) = Ok (refs g).
Proof.
  intros Hnc Hcs [Hon [Hin Hb]%select_replicas_in]%list_elem_of_filter. apply list_elem_of_singleton in Hb.
  destruct (Hstep r Hin Hon) as (v & claims & Hv & Hinv & Hrow). rewrite Hb in Hrow.
  unfold catalog_row in Hrow. case_bool_decide as Hne; [done|]. injection Hrow as Hr. split.
  - rewrite <-Hr. cbn [br_raw_len]. by eapply held_length.
  - exists v. split; [done|]. intros o n. by eapply held_listed.
Qed.

Lemma plan_bundle_listed g row fb : no_collision (id_text g) → Forall no_collision g →
  fb_bundle_id row = ub_bundle_id (bundle_of g) → bundle_ref online db row = Some fb →
  bundle_listed storages listed (fb_bundle_index row) fb (bundle_of g).
Proof.
  intros Hnc Hcs Hid. unfold bundle_ref. rewrite Hid.
  pose proof (λ r, replica_held g r Hnc Hcs) as Hheld.
  assert (∀ r, r ∈ online_replicas online db (ub_bundle_id (bundle_of g)) → is_Some (online !! br_volume_id r)) as Hon
    by (by intros r [? _]%list_elem_of_filter).
  destruct (online_replicas online db _) as [|r rs]; [done|]. simpl. intros [= <-].
  assert (is_Some (pick_replica storages (mkFileBundleRef (fb_bundle_index row) (br_raw_len r) (br_compressed_len r)
    (ub_bundle_id (bundle_of g)) (location online r :: map (location online) rs)))) as Hpick.
  { apply lfind_map_head. destruct (Hon r) as [sid Hsid]; [by left|]. destruct (Hknows _ _ Hsid) as [st Hst].
    unfold location. cbn [rl_storage_id]. rewrite Hsid. cbn [default from_option id]. rewrite Hst. by eexists. }
  split; [done|]. split; [by apply (Hheld r); left|]. split; [done|].
  destruct Hpick as [[replica storage] Hpick]. exists (refs g). split; [|done].
  pose proof Hpick as (loc & Hloc & Hr)%lfind_map_Some. cbn [fbr_replicas] in Hloc.
  assert (loc = replica) as -> by (destruct (lfind _ storages); [by injection Hr|done]).
  apply (list_elem_of_fmap (location online) (r :: rs)) in Hloc as (r' & -> & Hr').
  destruct (Hheld r' Hr') as (_ & v & Hv & Hlist). destruct (Hlists _ _ _ Hpick v Hv) as (o & n & Heq). etrans; [exact Heq|apply Hlist].
Qed.

Lemma plan_bundles_listed file_id gs : ∀ i fbs, Forall no_collision (map id_text gs) → Forall no_collision (concat gs) →
  mapM (bundle_ref online db) (numbered file_id i (map ub_bundle_id (map bundle_of gs))) = Some fbs →
  bundles_listed storages listed i fbs (map bundle_of gs).
Proof.
  induction gs as [|g gs IH]; intros i fbs Hids Hcs Hm; [by injection Hm as <-|].
  apply Forall_cons in Hids as [Hid Hids]. apply Forall_app in Hcs as [Hc Hcs]. cbn [map numbered mapM] in Hm.
  apply bind_Some in Hm as (fb & Hfb & Hm). apply bind_Some in Hm as (fbs' & Hfbs & [= <-]).
  split; [by apply (plan_bundle_listed g (mkFileBundleTuple file_id i (ub_bundle_id (bundle_of g))))|by apply IH].
Qed.
End Plan.

(** C1. A file that was uploaded is what is downloaded.  Let the central server have taken the commit an upload
    of [data] ends with, of its size and its bundles ([upload_commits_file]), and let the file not have been updated
    since.  Take any read plan of it then, while the tables agree with the mounted volumes ([sync_converges]), which are
    intact ([storage_integrity]).  Then, whatever replicas the plan names and the client picks, and however the chunks are
    fetched, shared between transfers and delivered, a download that ends with [Ok] and lost no failure leaves exactly
    [data] in the local file, unless a digest of its chunks or bundles collides. *)
Theorem uploaded_file_is_downloaded (data : Bytes) request s s1 s2 online volumes storages listed session_of plan (t : Download) :
  no_collisions data →
  file_commit data request → commit_accepted request s s1 →
  content_kept (cur_file_id request) (tx_db s1) (tx_db s2) → plan_read online (cur_file_id request) s2 plan →
  mounted_in_step online (tx_db s2) volumes → knows_storages online storages → lists_volumes volumes storages listed →
  downloaded plan storages session_of listed t →
  written_file (plan_size plan) (tr_writes t) = data.
Proof.
  intros [Hcs Hids]%Forall_app [Hnew Hcommits] Hacc [Hkept Hsize] (Hok & Hc & Hplan) Hstep Hknows Hlists (concs & scheds & Hscheds & Hsteps & Hph & Hfail & Hjobs).
  destruct (accepted_commit _ _ _ Hacc) as (Hfid & Hmax & Hsel & f & Hf & Hfs). rewrite Hnew in Hfs, Hmax.
  rewrite <-Hkept, (commits_ids _ _ Hcommits) in Hsel.
  assert (plan_size plan = Z.of_nat (length data) ∧
    mapM (bundle_ref online (tx_db s2)) (select_file_bundles (tx_db s2) (cur_file_id request)) = Some (plan_bundles plan)) as [Hps Hm].
  { destruct (find_file (tx_db s2) (cur_file_id request)) as [f'|] eqn:Hf'.
    - pose proof Hf' as [Hin _]%find_file_Some; [|done]. destruct (file_dir_at _ f' Hok Hin) as (cs & Hat).
      rewrite (read_plan_run online _ s2 f' cs) in Hplan by done.
      destruct (mapM _ _) as [fbs|]; [|done]. injection Hplan as <-. split; [|done]. simpl. by rewrite (Hsize f f').
    - pose proof (get_file_by_id_run (cur_file_id request) s2 Hok Hfid) as Hget. rewrite Hf' in Hget.
      unfold CentralHandlers.Client.read_plan_tx in Hplan. by rewrite (ST_bind_run_Err _ _ _ _ _ Hget) in Hplan. }
  apply (download_of_layout data plan storages session_of listed concs scheds t); try done.
  - rewrite Hsel in Hm. eapply (plan_bundles_listed online (tx_db s2)); [exact Hstep|exact Hknows|exact Hlists|exact Hids| |exact Hm].
    rewrite chunks_concat by (unfold BUNDLE; lia). done.
  - intros c raw Hc' _. by apply (proj1 (Forall_forall _ _) Hcs c).
Qed.
End Way.

(** ** A file of one byte *)

Section OneByte.
#[local] Existing Instances plain_sqlite_text sequential_rowids sequential_rowid_laws plain_debug plain_texts byte_blake3 plain_zstd checked_content.

Definition byte_refs : list BundleChunkRef := [mkBundleChunkRef 0 byte_id].
Definition byte_bundle : HashId := bundle_hash_from_chunks byte_refs.

(** the tables while the file is being written, with the bundle reported *)
Definition byte_db : CentralDb := mkCentralDb
  [mkVolumeRow 7 "v" 4096 1] [root_dir_row] [mkFileRow 1 0 "a" 0 0 100 100] [] [mkBundleReplicaRow byte_bundle 7 1 1]
  [mkLeaseTuple 5 1 7 0 0 None 2000 100] [] 7 1 5 0.
Definition byte_commit : CommitUpdateRequest := mkCommitUpdateRequest 5 1 0 1 [mkCommittedBundle byte_bundle 1 1].
Definition byte_begun : CentralTx := mkCentralTx byte_db DirCacheState_new.
Definition byte_taken : CentralTx := (Update.commit_update_tx byte_commit 500 510 byte_begun).2.
(** the central server was restarted since *)
Definition byte_later : CentralTx := mkCentralTx (tx_db byte_taken) DirCacheState_new.

Definition byte_stored : VolumeState := out_state (run half_oracle 0 (Volume.put_chunk byte_id 1 byte_data) fresh_volume).
Definition byte_volume : VolumeState := out_state (run half_oracle 0 (Volume.commit_bundle byte_bundle byte_refs) byte_stored).

Lemma byte_stored_inv : volume_inv byte_stored [].
Proof.
  apply (put_chunk_runs half_oracle fresh_volume [] byte_id 1 byte_data fresh_volume_inv half_oracle_quiet half_oracle_ok).
  unfold can_put, i64_max. split_and!; try lia; try (vm_compute; done).
  intros _. exists byte_data. split_and!; vm_compute; reflexivity.
Qed.

Lemma byte_volume_inv : volume_inv byte_volume [].
Proof.
  pose proof (commit_bundle_branches half_oracle 0 byte_stored [] byte_bundle byte_refs byte_stored_inv ltac:(vm_compute; done)) as Hspec.
  cbv zeta in Hspec. fold byte_volume in Hspec.
  assert (out_value (run half_oracle 0 (Volume.commit_bundle byte_bundle byte_refs) byte_stored) = Ok (mkBundleMeta byte_bundle 1 1 1)) as Hv
    by (vm_compute; reflexivity).
  rewrite Hv in Hspec. rewrite bool_decide_false in Hspec by discriminate. change (negb (contiguous_from 0 byte_refs)) with false in Hspec.
  rewrite bool_decide_false in Hspec by tauto.
  assert (bundle_rows (vl_db byte_stored) byte_bundle = []) as Hrows by (vm_compute; reflexivity).
  rewrite Hrows, bool_decide_false in Hspec by tauto.
  assert (lfind (missing_chunk (vl_db byte_stored)) byte_refs = None) as Hmiss by (vm_compute; reflexivity).
  rewrite Hmiss in Hspec. by destruct Hspec as [(e & He & _)|(_ & _ & _ & Hinv)].
Qed.

Lemma byte_db_ok : db_ok byte_db.
Proof.
  split; try (by repeat constructor); cbn [byte_db db_volumes db_dirs db_files db_file_bundles
    db_bundle_replicas db_update_leases db_file_events seq_volumes seq_files seq_update_leases seq_file_events].
  all: repeat (apply Forall_cons_2 || apply Forall_nil_2 || constructor).
  all: try by (apply (bool_decide_unpack _); vm_compute).
  all: try (unfold is_i64_nonneg, i64_max; simpl; lia).
  all: unfold is_i64_nonneg, i64_max; simpl; split_and?; try lia; try set_solver; try done.
Qed.

Lemma byte_no_collisions : no_collisions byte_data.
Proof.
  unfold no_collisions. rewrite byte_chunks, chunks_small by (simpl; unfold BUNDLE; lia).
  assert (id_text [byte_data] = replicate 32 Byte.x01) as Htext by (vm_compute; reflexivity).
  apply Forall_cons. split; [|apply Forall_singleton]; intros raw Heq;
    apply byte_tag_known; [by left|exact (f_equal hash_bytes Heq)|by right|exact (f_equal hash_bytes Heq)].
Qed.

Lemma byte_commit_run : Update.commit_update_tx byte_commit 500 510 byte_begun = (Ok (mkFileRecord 1 "/a" 1 1 100 500), byte_taken).
Proof. apply run_value. vm_compute. reflexivity. Qed.
Lemma byte_commit_ok : commit_request_ok byte_commit.
Proof. unfold commit_request_ok, i64_max. simpl. split_and!; try lia. repeat constructor; simpl; lia. Qed.

Lemma byte_taken_ok : db_ok (tx_db byte_taken).
Proof.
  destruct (commit_outcome byte_commit 500 510 byte_begun _ _ byte_db_ok (empty_cache_ok _) byte_commit_ok ltac:(lia) byte_commit_run)
    as (f & lens & cs & _ & _ & (eid & _ & _ & Hok) & _). exact Hok.
Qed.

(** the chunks the storage lists *)
Definition byte_listing (fb : FileBundleRef) : Fs0Result (list BundleChunkRef) :=
  out_value (run half_oracle 0 (Volume.list_bundle_chunks (fbr_bundle_id fb)) byte_volume).

Lemma byte_in_step : mounted_in_step {[7 := 3]} (tx_db byte_later) {[7 := byte_volume]}.
Proof.
  assert (db_bundle_replicas (tx_db byte_later) = [mkBundleReplicaRow byte_bundle 7 1 1]) as Hrep by (vm_compute; reflexivity).
  intros r Hr _. rewrite Hrep in Hr. apply list_elem_of_singleton in Hr as ->. cbn [br_volume_id br_bundle_id].
  exists byte_volume, []. split; [apply lookup_singleton_eq|]. split; [exact byte_volume_inv|]. vm_compute. reflexivity.
Qed.

Lemma byte_script : download_script byte_plan byte_storages (λ _, 0%nat) byte_listing (plan_bundles byte_plan) =
  download_script byte_plan byte_storages (λ _, 0%nat) byte_listed (plan_bundles byte_plan).
Proof. vm_compute. reflexivity. Qed.

Lemma uploaded_file_is_downloaded_witness :
  (CentralHandlers.Client.read_plan_tx {[7 := 3]} 1 byte_later).1 = Ok byte_plan ∧ written_file (plan_size byte_plan) (tr_writes byte_done) = byte_data.
Proof.
  assert ((CentralHandlers.Client.read_plan_tx {[7 := 3]} 1 byte_later).1 = Ok byte_plan) as Hplan by (vm_compute; reflexivity).
  split; [exact Hplan|].
  apply (uploaded_file_is_downloaded byte_data byte_commit byte_begun byte_taken byte_later {[7 := 3]} {[7 := byte_volume]}
    byte_storages byte_listing (λ _, 0%nat) byte_plan byte_done byte_no_collisions).
  - split; [reflexivity|]. rewrite byte_chunks, chunks_small by (simpl; unfold BUNDLE; lia). repeat constructor.
  - split; [exact byte_db_ok|]. split; [apply empty_cache_ok|]. split; [exact byte_commit_ok|].
    exists 500, 510, (mkFileRecord 1 "/a" 1 1 100 500). split; [lia|exact byte_commit_run].
  - split; [reflexivity|]. intros f f' Hf Hf'. cbn [byte_later tx_db] in Hf'. rewrite Hf in Hf'. by injection Hf' as <-.
  - split; [exact byte_taken_ok|]. split; [apply empty_cache_ok|exact Hplan].
  - exact byte_in_step.
  - intros volume_id storage_id Hon. apply lookup_singleton_Some in Hon as [_ <-]. vm_compute. by eexists.
  - intros fb replica storage _ v Hv. apply lookup_singleton_Some in Hv as [_ <-]. by exists half_oracle, 0%nat.
  - exists [1%nat], [Config_new 1]. split; [by repeat constructor|]. split; [rewrite byte_script; exact byte_run|].
    split; [vm_compute; reflexivity|]. split; [vm_compute; reflexivity|exact byte_handled].
Defined.
End OneByte.
