(* ===== verification/Protocol.v ===== *)
(** * The protocol's typing

    Which responses a request may get ([control_answers], [data_answers]), that the handlers of the central
    server and of a storage give no others, and that the callers, the client, a storage and the
    central server, take each of them: no caller ends with an error of its own about a response it did not expect. *)

From S2P Require Import Prelude Types Link Conc CentralDb CentralServer CentralHandlers VolumeDb VolumeIo Volume Storage ClientSession.
From S2P Require Import VolumeSample StorageSample ClientFiles.

(** ** The responses to a request *)

Definition control_answers (request : ControlRequest) (response : ControlResponse) : bool :=
  match request, response with
  | RegisterClientRq _ _ _, RegisterClientRs _ _
  | RegisterStorageRq _ _ _ _ _, RegisterStorageRs _ _
  | UpdateStorageEndpointRq _ _, UpdateStorageEndpointRs
  | CreateVolumeRq _ _, CreateVolumeRs _
  | CentralStatusRq, CentralStatusRs _ _
  | ListDirectoryRq _ _ _, ListDirectoryRs _
  | GetFileReadPlanRq _, (GetFileReadPlanRs _ | GetFileReadPlanByIdRs _)
  | GetFileReadPlanByIdRq _, GetFileReadPlanByIdRs _
  | HasBundleRq _ _, HasBundleRs _
  | DeleteFileRq _, (DeleteFileRs | DeleteFileByIdRs)
  | DeleteFileByIdRq _, DeleteFileByIdRs
  | CopyFileRq _ _, (CopyFileRs _ | CopyFileByIdRs _)
  | CopyFileByIdRq _ _, CopyFileByIdRs _
  | RenameFileRq _ _, (RenameFileRs _ | RenameFileByIdRs _)
  | RenameFileByIdRq _ _, RenameFileByIdRs _
  | GetFileChangeLogsRq _ _, GetFileChangeLogsRs _
  | BeginUpdateRq _, BeginUpdateRs _
  | CommitUpdateRq _, CommitUpdateRs _
  | AbortUpdateRq _ _, AbortUpdateRs
  | RevokeUploadLeaseRq _, RevokeUploadLeaseRs
  | ReportBundleReplicaRq _, ReportBundleReplicaRs
  | UpdateStorageVolumeOffsetRq _ _, UpdateStorageVolumeOffsetRs => true
  | GrantUploadLeaseRq lease, GrantUploadLeaseRs lease_id => bool_decide (lease_id = gul_lease_id lease)
  | ValidateClientAuthRq client_id _, ValidateClientAuthRs client_id' => bool_decide (client_id' = client_id)
  | _, _ => false
  end.

(** the lengths are there when the chunk or the bundle is *)
Definition lens_given (exists_ : bool) (raw_len compressed_len : option Z) : bool :=
  negb exists_ || (bool_decide (is_Some raw_len) && bool_decide (is_Some compressed_len)).
Definition data_answers (request : DataRequest) (response : DataResponse) : bool :=
  match request, response with
  | AuthenticateRq client_id _, AuthenticateRs client_id' => bool_decide (client_id' = client_id)
  | HasChunkRq _ _, HasChunkRs exists_ raw_len compressed_len
  | DataHasBundleRq _ _, DataHasBundleRs exists_ raw_len compressed_len => lens_given exists_ raw_len compressed_len
  | UploadChunkRq rq, UploadChunkRs response => bool_decide (ucs_chunk_id response = ucr_chunk_id rq)
  | DownloadChunkRq _, DownloadChunkRs _ => true
  | CommitBundleRq rq, CommitBundleRs response => bool_decide (cbs_bundle_id response = cbr_bundle_id rq)
  | ListBundleChunksRq _ _, ListBundleChunksRs _ => true
  | _, _ => false
  end.

(** a response is an error or in kind *)
Definition answers (request : ProtocolRequest) (response : ProtocolResponse) : bool :=
  match request, response with
  | _, RespError _ => true
  | ReqControl request, RespControl response => control_answers request response
  | ReqData request, RespData response => data_answers request response
  | _, _ => false
  end.

(** ** The handlers *)

(** the environment may answer anything *)
Definition any_answer {Q : Type → Type} : ∀ B, Q B → B → Prop := λ _ _ _, True.

(** every success of the program has [P] *)
Definition succeeds_with {S Q A} (P : A → bool) (p : Prog S Q (Fs0Result A)) : Prop :=
  ∀ a, may_return any_answer p (Ok a) → P a = true.

Section Succeeds.
Context {S : Type} {Q : Type → Type} {A : Type} (P : A → bool).

Lemma succeeds_ret r : match r with Ok a => P a = true | Err _ => True end → succeeds_with P (mret r : Prog S Q (Fs0Result A)).
Proof. intros HP a ->. exact HP. Qed.

Lemma succeeds_bind {B} (p : Prog S Q B) (f : B → Prog S Q (Fs0Result A)) :
  (∀ b, may_return any_answer p b → succeeds_with P (f b)) → succeeds_with P (p ≫= f).
Proof. intros Hf a (b & Hb & Ha)%may_return_bind. by eapply Hf. Qed.

Lemma succeeds_try {B} (p : Prog S Q (Fs0Result B)) (f : B → Prog S Q (Fs0Result A)) :
  (∀ b, may_return any_answer p (Ok b) → succeeds_with P (f b)) → succeeds_with P (prog_try f p).
Proof. intros Hf a (b & Hb & Ha)%may_return_try. by eapply Hf. Qed.

Lemma succeeds_atomic (block : S → Fs0Result A * S) :
  (∀ s a, (block s).1 = Ok a → P a = true) → succeeds_with (Q := Q) P (atomic block).
Proof. intros HP a (s & Hs). by eapply HP. Qed.
End Succeeds.

(** one step of a program whose last value is in kind *)
Ltac succeeds_step :=
  match goal with
  | |- succeeds_with _ (mret _) => apply succeeds_ret; repeat case_match; simplify_eq; cbn [control_answers data_answers lens_given negb orb]; try done
  | |- succeeds_with _ (prog_try _ _) => apply succeeds_try; intros ? _
  | |- succeeds_with _ (_ ≫= _) => apply succeeds_bind; intros ? _
  | |- succeeds_with _ (match ?x with _ => _ end) => destruct x
  | |- succeeds_with _ (if ?x then _ else _) => destruct x
  end.
Ltac succeeds := repeat succeeds_step.

Section Central.
Context `{SqliteText, RowIds, DebugResponse}.

Lemma client_request_in_kind request : succeeds_with (control_answers request) (handle_client_request request).
Proof.
  destruct request; cbn [handle_client_request];
    unfold CentralHandlers.Client.central_status, CentralHandlers.Storage.create_volume, CentralHandlers.Client.list_directory, CentralHandlers.Client.get_file_read_plan,
      CentralHandlers.Client.get_file_read_plan_by_id, CentralHandlers.Client.has_bundle, CentralHandlers.Client.delete_file, CentralHandlers.Client.delete_file_by_id, CentralHandlers.Client.copy_file,
      CentralHandlers.Client.copy_file_by_id, CentralHandlers.Client.rename_file, CentralHandlers.Client.rename_file_by_id, CentralHandlers.Client.get_file_change_logs,
      CentralHandlers.Update.begin_update, CentralHandlers.Update.commit_update, CentralHandlers.Update.abort_update; succeeds.
Qed.

Lemma endpoint_update_in_kind storage_id iroh_endpoint request_id :
  succeeds_with (control_answers (UpdateStorageEndpointRq request_id iroh_endpoint))
    (CentralHandlers.Storage.update_storage_endpoint storage_id iroh_endpoint).
Proof. apply succeeds_atomic. intros s a. simpl. repeat case_match; naive_solver. Qed.

Lemma storage_request_in_kind storage_id request :
  succeeds_with (control_answers request) (handle_storage_request storage_id request).
Proof.
  destruct request as [| |request_id endpoint|name max| | | | | | | | | | | | | | | | | |events|volume_id offset|client_id token];
    cbn [handle_storage_request]; try by succeeds.
  - case_bool_decide; [by succeeds|]. apply succeeds_try. intros response Hresponse. apply succeeds_bind. intros _ _.
    apply succeeds_ret. by apply (endpoint_update_in_kind storage_id endpoint).
  - unfold CentralHandlers.Storage.create_volume. succeeds.
  - unfold CentralHandlers.Storage.report_bundle_replica. succeeds.
  - apply succeeds_bind. intros b _. succeeds. apply succeeds_atomic. intros s a. simpl. repeat case_match; naive_solver.
  - apply succeeds_atomic. intros s a. simpl. repeat case_match; try done. intros [= <-]. simpl. by rewrite bool_decide_true.
Qed.

Lemma to_response_in_kind request result :
  match result with Ok response => control_answers request response = true | Err _ => True end →
  answers (ReqControl request) (to_response result) = true.
Proof. destruct result; by simpl. Qed.

Lemma control_request_in_kind connection request identity r identity' :
  may_return any_answer (handle_control_request connection request identity) (r, identity') →
  answers (ReqControl request) r = true.
Proof.
  assert (may_return any_answer
    (result ← match identity with
              | IdClient _ => handle_client_request request
              | IdStorage storage_id => handle_storage_request storage_id request
              | Anonymous => mret (Err Unauthorized)
              end; mret (to_response result, identity)) (r, identity') → answers (ReqControl request) r = true) as Hrest.
  { intros (result & Hresult & [= <- <-])%may_return_bind. apply to_response_in_kind. destruct result as [response|e]; [|done].
    destruct identity; [done|by apply client_request_in_kind|by apply (storage_request_in_kind storage_id)]. }
  destruct request; try exact Hrest; cbn [handle_control_request]; destruct (validate_registration_version _); try by intros [= <- <-].
  - intros (registered & _ & Hr)%may_return_bind. destruct registered as [[client_id storages]|e]; by injection Hr as <- <-.
  - intros (registered & _ & Hr)%may_return_bind. destruct registered as [[storage_id storages]|e]; [|by injection Hr as <- <-].
    apply may_return_bind in Hr as (u & _ & Hr). by injection Hr as <- <-.
Qed.
End Central.

Section StorageServer.
Context `{SqliteText, RowIds, Blake3, Zstd, DebugResponse}.

Lemma storage_control_in_kind request : succeeds_with (control_answers request) (handle_storage_control request).
Proof.
  destruct request; cbn [handle_storage_control]; succeeds; apply succeeds_atomic; intros s a; simpl.
  - unfold grant_upload_lease. case_bool_decide; [|done]. intros [= <-]. simpl. by rewrite bool_decide_true.
  - by intros [= <-].
Qed.

Lemma data_request_in_kind fuel request : succeeds_with (data_answers request) (handle_data_request fuel request).
Proof.
  destruct request; cbn [handle_data_request];
    unfold Storage.has_chunk, Storage.upload_chunk, Storage.download_chunk, Storage.has_bundle, storage_commit_bundle, storage_list_bundle_chunks;
    succeeds; by apply bool_decide_eq_true.
Qed.

Lemma data_connection_in_kind fuel connection request r :
  may_return any_answer (handle_data_connection_request fuel connection request) r → answers request r = true.
Proof.
  intros (client & _ & (response & Hresponse & <-)%may_return_bind)%may_return_bind.
  destruct response as [response|e]; [|by destruct request]. destruct client as [client_id|].
  - destruct request as [|rq| | |]; try done. destruct (decide (data_answers rq response = true)) as [|Hno]; [done|].
    destruct Hno. apply (data_request_in_kind fuel). by destruct rq.
  - destruct request as [|[]| | |]; try done. apply may_return_try in Hresponse as (u & _ & Hresponse).
    apply may_return_bind in Hresponse as (v & _ & [= <-]). simpl. by rewrite bool_decide_true.
Qed.

Lemma central_request_in_kind request r :
  may_return any_answer (handle_central_request request) r → answers request r = true.
Proof.
  destruct request as [rq| | | |]; [|intros <-; done..]. intros (response & Hresponse & <-)%may_return_bind.
  destruct response as [response|e]; [|done]. by apply storage_control_in_kind.
Qed.
End StorageServer.

(** ** The callers *)

Section Fails.
Context {S : Type} {Q : Type → Type} (ok : ∀ B, Q B → B → Prop) (E : Fs0Error → Prop).

(** every failure of the program is in [E] *)
Definition fails_with {A} (p : Prog S Q (Fs0Result A)) : Prop := ∀ e, may_return ok p (Err e) → E e.

Lemma fails_ret {A} (r : Fs0Result A) : match r with Err e => E e | Ok _ => True end → fails_with (mret r).
Proof. intros HE e ->. exact HE. Qed.

Lemma fails_bind {A B} (p : Prog S Q B) (f : B → Prog S Q (Fs0Result A)) :
  (∀ b, may_return ok p b → fails_with (f b)) → fails_with (p ≫= f).
Proof. intros Hf e (b & Hb & He)%may_return_bind. by eapply Hf. Qed.

Lemma fails_try {A B} (p : Prog S Q (Fs0Result B)) (f : B → Prog S Q (Fs0Result A)) :
  fails_with p → (∀ b, may_return ok p (Ok b) → fails_with (f b)) → fails_with (prog_try f p).
Proof.
  intros Hp Hf e ([b|e'] & Hb & He)%may_return_bind; [by eapply Hf|]. injection He as ->. by apply Hp.
Qed.

Lemma fails_ask {A} (q : Q (Fs0Result A)) : (∀ e, ok _ q (Err e) → E e) → fails_with (ask q).
Proof. intros HE e He%may_return_ask. by apply HE. Qed.

Lemma fails_atomic {A} (block : S → Fs0Result A * S) : (∀ s e, (block s).1 = Err e → E e) → fails_with (atomic block).
Proof. intros HE e (s & Hs). by eapply HE. Qed.
End Fails.

(** what an rpc may give: an error of the transport or of the other side, or a response in kind *)
Definition rpc_in_kind (E : Fs0Error → Prop) (request : ProtocolRequest) (r : Fs0Result ProtocolResponse) : Prop :=
  match r with
  | Err e | Ok (RespError e) => E e
  | Ok response => answers request response = true
  end.
Definition connects {A} (E : Fs0Error → Prop) (r : Fs0Result A) : Prop := match r with Err e => E e | Ok _ => True end.

Definition client_in_kind (E : Fs0Error → Prop) (B : Type) (q : ClientQuery B) : B → Prop :=
  match q in ClientQuery B return B → Prop with
  | CConnectCentral | CConnectStorage _ => connects E
  | CRpc _ request _ => rpc_in_kind E request
  | _ => λ _, True
  end.

Section Client.
Context `{DebugResponse, ClientTexts, Blake3, Zstd}.
Context (E : Fs0Error → Prop) (Hnot_found : E NotFound) (Hpostcard : ∀ message, E (Postcard message)).
#[local] Abbreviation fails := (fails_with (client_in_kind E) E).

Lemma close_with_fails {A} connection err : E err → fails (close_with (A := A) connection err).
Proof. intros HE. apply fails_bind. intros u _. by apply fails_ret. Qed.

Lemma central_connected_fails : fails central_ensure_connected.
Proof.
  apply fails_bind. intros current _. apply fails_bind. intros existing _. destruct existing; [by apply fails_ret|].
  do 3 (apply fails_bind; intros ? _). apply fails_try; [apply fails_ask; by intros e|]. intros connection _.
  apply fails_bind. intros config _. apply fails_try; [apply fails_ask; by intros e|]. intros response Hresponse%may_return_ask.
  cbn [client_in_kind rpc_in_kind] in Hresponse. destruct response as [e|response| | |]; try done; [by apply close_with_fails|].
  destruct response; try done. do 4 (apply fails_bind; intros ? _). by apply fails_ret.
Qed.

Lemma control_call_fails {A} request (expected : ControlResponse → option A) :
  (∀ response, control_answers request response = true → is_Some (expected response)) → fails (control_call request expected).
Proof.
  intros Hexpected. apply fails_try.
  - apply fails_try; [apply central_connected_fails|]. intros connection _.
    apply fails_try; [apply fails_ask; by intros e|]. intros response Hresponse%may_return_ask. apply fails_ret.
    cbn [client_in_kind rpc_in_kind] in Hresponse. by destruct response.
  - intros response Hresponse. apply fails_ret. unfold central_request in Hresponse.
    apply may_return_try in Hresponse as (connection & _ & Hresponse). apply may_return_try in Hresponse as (r & Hr%may_return_ask & Hresponse).
    cbn [client_in_kind rpc_in_kind] in Hr. destruct r as [e|r| | |]; try done. injection Hresponse as ->.
    by destruct (Hexpected response Hr) as [x ->].
Qed.

Lemma connected_fails i : fails (ensure_connected i).
Proof.
  apply fails_bind. intros current _. apply fails_bind. intros existing _. destruct existing; [by apply fails_ret|].
  do 2 (apply fails_bind; intros ? _). apply fails_try.
  { apply fails_atomic. intros s e. cbn [fst]. destruct (storage_peer _ s); [done|]. by intros [= <-]. }
  intros storage _. apply fails_try; [apply fails_ret; by destruct (endpoint_decode_error _)|]. intros u _.
  apply fails_try; [apply fails_ask; by intros e|]. intros connection _. apply fails_try.
  - apply fails_bind. intros client_id _. apply fails_bind. intros config _. apply fails_bind. intros response Hresponse%may_return_ask.
    cbn [client_in_kind rpc_in_kind] in Hresponse. destruct response as [[e| |response| |]|e]; try done; try by apply close_with_fails.
    destruct response; try done. cbn [answers data_answers] in Hresponse. apply bool_decide_eq_true in Hresponse as ->.
    rewrite bool_decide_true by done. by apply fails_ret.
  - intros v _. apply fails_bind. intros w _. by apply fails_ret.
Qed.

Lemma data_call_fails {A} i rq (expected : DataResponse → option A) :
  (∀ response, data_answers rq response = true → is_Some (expected response)) → fails (data_call i rq expected).
Proof.
  intros Hexpected. apply fails_try.
  - apply fails_try; [apply connected_fails|]. intros connection _.
    apply fails_try; [apply fails_ask; by intros e|]. intros response Hresponse%may_return_ask.
    cbn [client_in_kind rpc_in_kind] in Hresponse. destruct response as [e| | | |]; try done.
    do 2 (apply fails_bind; intros ? _). by apply fails_ret.
  - intros response Hresponse. apply fails_ret. unfold request in Hresponse.
    apply may_return_try in Hresponse as (connection & _ & Hresponse). apply may_return_try in Hresponse as (r & Hr%may_return_ask & Hresponse).
    cbn [client_in_kind rpc_in_kind] in Hr. destruct r as [e| |r| |]; try done.
    + apply may_return_bind in Hresponse as (closed & _ & Hresponse). apply may_return_bind in Hresponse as (u & _ & Hresponse). discriminate Hresponse.
    + injection Hresponse as ->. by destruct (Hexpected response Hr) as [x ->].
Qed.
End Client.

(** ** A storage and the central server as callers *)

Definition storage_in_kind (E : Fs0Error → Prop) (B : Type) (q : StorageQuery B) : B → Prop :=
  match q in StorageQuery B return B → Prop with
  | SConnect => connects E
  | SRpc _ request => rpc_in_kind E request
  | SEndpoint => λ r, match r with Err err => E (InvalidFrame ("failed to encode storage endpoint: " +:+ err)) | Ok _ => True end
  | _ => λ _, True
  end.
Definition central_in_kind (E : Fs0Error → Prop) (B : Type) (q : CentralQuery B) : B → Prop :=
  match q in CentralQuery B return B → Prop with
  | QRpc _ request => rpc_in_kind E request
  | _ => λ _, True
  end.

Section StorageCalls.
Context `{SqliteText, RowIds, Blake3, Zstd, DebugResponse}.
Context (E : Fs0Error → Prop) (Hunavailable : E CentralUnavailable) (Hvolume : ∀ path, E (VolumeNotFound path)).
#[local] Abbreviation fails := (fails_with (storage_in_kind E) E).

Lemma expect_response_fails {A} what request (expected : ControlResponse → option A) r :
  (∀ response, control_answers request response = true → is_Some (expected response)) →
  rpc_in_kind E (ReqControl request) r → match expect_response what expected r with Err e => E e | Ok _ => True end.
Proof.
  intros Hexpected Hr. destruct r as [[e|response| | |]|e]; try done. cbn [expect_response].
  by destruct (Hexpected response Hr) as [x ->].
Qed.

Lemma central_connection_fails : fails central_connection.
Proof. apply fails_atomic. intros s e. cbn [fst]. destruct (cc_connection _); [done|]. by intros [= <-]. Qed.

Lemma volume_infos_fails config volumes e : storage_volume_infos config volumes = Err e → E e.
Proof.
  unfold storage_volume_infos. induction (sc_volumes config) as [|vc configs IH]; [done|]. cbn [collect].
  destruct (storage_volume_info volumes vc) as [info|err] eqn:Hinfo; cbn [mbind Result_bind].
  2:{ intros [= <-]. unfold storage_volume_info in Hinfo. revert Hinfo. generalize (lfind (λ v, bool_decide (ov_root v = svc_path vc)) (map snd (map_to_list volumes))).
      intros [ov|]; [done|]. by intros [= <-]. }
  destruct (collect _ configs) as [infos|e']; cbn [mbind Result_bind]; [done|]. intros [= ->]. by apply IH.
Qed.

(** a call over the connection to the central server *)
Lemma central_call_fails {A} what (rq : ControlRequest) (expected : ControlResponse → option A) :
  (∀ response, control_answers rq response = true → is_Some (expected response)) →
  fails (connection ←? central_connection;
         response ← ask (SRpc connection (ReqControl rq)); mret (expect_response what expected response)).
Proof.
  intros Hexpected. apply fails_try; [apply central_connection_fails|]. intros connection _.
  apply fails_bind. intros response Hresponse%may_return_ask. apply fails_ret. by apply (expect_response_fails what rq).
Qed.

Lemma register_fails connection : fails (register_with_central connection).
Proof.
  apply fails_try; [apply fails_atomic; intros s e He; by eapply volume_infos_fails|]. intros volumes _. apply fails_try.
  { apply fails_bind. intros endpoint Hendpoint%may_return_ask. apply fails_ret. by destruct endpoint. }
  intros data_endpoint _. apply fails_bind. intros config _. apply fails_bind. intros response Hresponse%may_return_ask.
  apply fails_ret. eapply expect_response_fails; [|exact Hresponse]. by intros [].
Qed.

Lemma connect_and_register_fails : fails connect_and_register.
Proof.
  apply fails_try; [apply fails_ask; by intros e|]. intros connection _. apply fails_bind. intros registered Hregistered.
  destruct registered as [[[storage_id storages] endpoint]|err].
  - do 3 (apply fails_bind; intros ? _). by apply fails_ret.
  - apply fails_bind. intros u _. apply fails_ret. by apply (register_fails connection).
Qed.

Lemma update_endpoint_fails endpoint : fails (update_storage_endpoint endpoint).
Proof.
  apply fails_bind. intros storage_id _. case_bool_decide; [by apply fails_ret|].
  apply fails_try; [apply central_connection_fails|]. intros connection _. apply fails_bind. intros response Hresponse%may_return_ask.
  pose proof (expect_response_fails "update storage endpoint" (UpdateStorageEndpointRq storage_id endpoint)
    (λ r, match r with UpdateStorageEndpointRs => Some tt | _ => None end) response) as Hfails.
  destruct (expect_response _ _ response) as [u|e].
  - apply fails_bind. intros v _. by apply fails_ret.
  - apply fails_ret. apply Hfails; [by intros []|exact Hresponse].
Qed.
End StorageCalls.

Section CentralCalls.
Context `{SqliteText, RowIds, DebugResponse}.

Lemma grant_fails (E : Fs0Error → Prop) storage_id lease : E NotFound →
  fails_with (central_in_kind E) E (CentralHandlers.Update.grant_upload_lease_to_specific_storage storage_id lease).
Proof.
  intros HE. apply fails_try.
  - apply fails_atomic. intros s e. cbn [fst]. destruct (storage_connection storage_id s); [done|]. by intros [= <-].
  - intros connection _. apply fails_try; [apply fails_ask; by intros e|]. intros response Hresponse%may_return_ask.
    apply fails_ret. cbn [central_in_kind rpc_in_kind] in Hresponse. destruct response as [e|response| | |]; try done.
    destruct response; try done. cbn [answers control_answers gul_lease_id] in Hresponse. apply bool_decide_eq_true in Hresponse as ->.
    by rewrite bool_decide_true.
Qed.
End CentralCalls.

(** ** The operations of the callers *)

(** the requests of the client, over the central session and over a storage session *)
Inductive client_call `{DebugResponse, ClientTexts, Blake3, Zstd} : ∀ A : Type, ClientProg (Fs0Result A) → Prop :=
| call_connect : client_call _ ClientSession.connect
| call_status : client_call _ ClientSession.central_status
| call_create_volume name max_bytes : client_call _ (ClientSession.create_volume name max_bytes)
| call_list_directory dir limit cursor : client_call _ (ClientSession.list_directory dir limit cursor)
| call_read_plan path : client_call _ (ClientSession.get_file_read_plan path)
| call_central_has_bundle bundle_id volume_id : client_call _ (central_has_bundle bundle_id volume_id)
| call_delete_file path : client_call _ (ClientSession.delete_file path)
| call_delete_file_by_id file_id : client_call _ (ClientSession.delete_file_by_id file_id)
| call_copy_file source target : client_call _ (ClientSession.copy_file source target)
| call_copy_file_by_id source target : client_call _ (ClientSession.copy_file_by_id source target)
| call_rename_file source target : client_call _ (ClientSession.rename_file source target)
| call_rename_file_by_id source target : client_call _ (ClientSession.rename_file_by_id source target)
| call_begin_update rq : client_call _ (ClientSession.begin_update rq)
| call_commit_update rq : client_call _ (ClientSession.commit_update rq)
| call_abort_update lease_id file_id : client_call _ (ClientSession.abort_update lease_id file_id)
| call_change_logs after limit : client_call _ (ClientSession.get_file_change_logs after limit)
| call_has_bundle i volume_id bundle_id : client_call _ (ClientSession.has_bundle i volume_id bundle_id)
| call_has_chunk i volume_id chunk_id : client_call _ (ClientSession.has_chunk i volume_id chunk_id)
| call_upload_chunk i rq : client_call _ (ClientSession.upload_chunk i rq)
| call_commit_bundle i rq : client_call _ (ClientSession.commit_bundle i rq)
| call_download_chunk i rq : client_call _ (ClientSession.download_chunk i rq)
| call_list_bundle_chunks i volume_id bundle_id : client_call _ (ClientSession.list_bundle_chunks i volume_id bundle_id).

(** the requests of a storage *)
Inductive storage_call `{SqliteText, RowIds, Blake3, Zstd, DebugResponse} : ∀ A : Type, StorageProg (Fs0Result A) → Prop :=
| call_register : storage_call _ connect_and_register
| call_validate client_id token : storage_call _ (validate_client_auth client_id token)
| call_endpoint endpoint : storage_call _ (update_storage_endpoint endpoint)
| call_report events : storage_call _ (report_bundle_replica events)
| call_offset volume_id offset : storage_call _ (update_storage_volume_offset volume_id offset).

Section Properties.
Context `{SqliteText, RowIds, Blake3, Zstd, DebugResponse, ClientTexts}.

Lemma client_call_fails (E : Fs0Error → Prop) A (p : ClientProg (Fs0Result A)) :
  E NotFound → (∀ message, E (Postcard message)) → client_call A p → fails_with (client_in_kind E) E p.
Proof.
  intros Hnot_found Hpostcard Hcall.
  destruct Hcall; try (by apply control_call_fails; intros []); try (apply data_call_fails; [done..|]; by intros []).
  - apply fails_try; [by apply central_connected_fails|]. intros connection _. by apply fails_ret.
  - apply fails_try; [by apply control_call_fails; intros []|]. intros status _. apply fails_bind. intros u _. by apply fails_ret.
  - apply data_call_fails; [done..|]. intros [| | | |exists_ raw_len compressed_len| |] Hr; try done.
    destruct exists_, raw_len, compressed_len; try done; by eexists.
  - apply data_call_fails; [done..|]. intros [|exists_ raw_len compressed_len| | | | |] Hr; try done.
    destruct exists_, raw_len, compressed_len; try done; by eexists.
Qed.

Lemma storage_call_fails (E : Fs0Error → Prop) A (p : StorageProg (Fs0Result A)) :
  E CentralUnavailable → (∀ path, E (VolumeNotFound path)) → storage_call A p → fails_with (storage_in_kind E) E p.
Proof.
  intros Hunavailable Hvolume Hcall.
  destruct Hcall as [|client_id token|endpoint|events|volume_id offset]; [by apply connect_and_register_fails| |by apply update_endpoint_fails| |];
    apply central_call_fails; try done; by intros [].
Qed.

(** C18. Servers answer in kind.  Whatever its environment answers, the response of the central server to a request
    on a control connection, of a storage on a data connection, and of a storage to the central server is an
    error or the response of that request, about the lease, the client, the chunk or the bundle it names. *)
Theorem servers_answer_in_kind :
  (∀ connection request identity r identity',
     may_return any_answer (handle_protocol_request connection request identity) (r, identity') → answers request r = true) ∧
  (∀ fuel connection request r,
     may_return any_answer (handle_data_connection_request fuel connection request) r → answers request r = true) ∧
  (∀ request r, may_return any_answer (handle_central_request request) r → answers request r = true).
Proof.
  split; [|split].
  - intros connection request identity r identity' Hr. destruct request; try (by injection Hr as <- <-).
    by apply control_request_in_kind in Hr.
  - apply data_connection_in_kind.
  - apply central_request_in_kind.
Qed.

(** C19. Callers take every answer in kind.  When every rpc ends with a response in kind or with an error from some
    set, the requests of the client, of a storage and the grant of a lease by the central server succeed or end with
    an error of that set, one for a storage that is not known or cannot be reached, or one for a volume that is not open: never with an error about an unexpected
    response. *)
Theorem callers_take_answers (E : Fs0Error → Prop) A (p : ClientProg (Fs0Result A)) B (q : StorageProg (Fs0Result B)) storage_id lease :
  E NotFound → E CentralUnavailable → (∀ message, E (Postcard message)) → (∀ path, E (VolumeNotFound path)) →
  client_call A p → storage_call B q →
  (∀ e, may_return (client_in_kind E) p (Err e) → E e) ∧
  (∀ e, may_return (storage_in_kind E) q (Err e) → E e) ∧
  (∀ e, may_return (central_in_kind E) (CentralHandlers.Update.grant_upload_lease_to_specific_storage storage_id lease) (Err e) → E e).
Proof.
  intros Hnot_found Hunavailable Hpostcard Hvolume Hp Hq. split; [by apply client_call_fails|].
  split; [by apply storage_call_fails|by apply grant_fails].
Qed.
End Properties.

Section Witnesses.
#[local] Existing Instances plain_sqlite_text sequential_rowids sum_blake3 plain_zstd plain_debug plain_texts.

Lemma servers_answer_in_kind_witness :
  answers (ReqData (UploadChunkRq sample_upload)) (out_value (run storage_oracle 0
    (handle_data_connection_request 9 sample_data_connection (ReqData (UploadChunkRq sample_upload)))
    (granted (sample_storage fresh_volume)))) = true.
Proof. apply (proj1 (proj2 servers_answer_in_kind)) with (fuel := 9%nat) (connection := sample_data_connection). by apply run_may_return. Defined.

(** errors of a server that refuses, and those the callers find themselves *)
Definition refused (e : Fs0Error) : Prop :=
  match e with NotFound | CentralUnavailable | Unauthorized | Postcard _ | VolumeNotFound _ => True | _ => False end.

Lemma callers_take_answers_witness :
  may_return (storage_in_kind refused) (validate_client_auth 21 "t") (Err CentralUnavailable) ∧
  (∀ e, may_return (client_in_kind refused) (ClientSession.create_volume "v" 4096) (Err e) → refused e) ∧
  (∀ e, may_return (storage_in_kind refused) (validate_client_auth 21 "t") (Err e) → refused e).
Proof.
  split; [by exists (sample_storage fresh_volume)|].
  destruct (callers_take_answers refused _ (ClientSession.create_volume "v" 4096) _ (validate_client_auth 21 "t") 3
    (mkUpdateLease 5 1 7 0 0 2000 None) I I (λ _, I) (λ _, I) (call_create_volume _ _) (call_validate _ _)) as (Hclient & Hstorage & _).
  split; [exact Hclient|exact Hstorage].
Defined.
End Witnesses.
