(* ===== verification/Config.v ===== *)
(** * The configuration file

    Models [fs0-config/src/lib.rs]: the sections of the TOML file with their fields and defaults,
    and the loaders.  A parsed document is a value of [Toml]; reading and parsing the file is the
    environment's (class [TomlFile]), as are the texts of the errors.  [of_toml] is what the
    derived [Deserialize] of a type makes of a value: a field that is missing is an error unless
    it is an [Option] or has a default, keys that no field names are ignored, and a [flatten]ed
    field is read from the table it stands in. *)

From S2P Require Import Prelude Types Storage ClientSession.

(** ** Documents *)

Inductive Toml :=
| TString (s : string)
| TInteger (n : Z)
| TBoolean (b : bool)
| TArray (values : list Toml)
| TTable (entries : list (string * Toml))
| TOther.                                    (* a float or a date *)

(** the type a document is deserialized as; it is all the text of an error depends on,
    besides the document *)
Inductive Target := TargetConfig | TargetCentral | TargetStorage | TargetClient.

(** [std::fs::read_to_string], the parser, the texts of [toml::de::Error], and the parsers of
    iroh's [EndpointId] and of [SocketAddr] *)
Class TomlFile := {
  EndpointId : Type; SocketAddr : Type;
  read_to_string : string → Result string string;
  toml_parse : string → option Toml;
  toml_error : Target → string → string;
  parse_endpoint_id : string → option EndpointId;
  parse_socket_addr : string → option SocketAddr }.

(** ** Deserializing *)

Class Deserialize (A : Type) := of_toml : Toml → option A.

Fixpoint assoc (key : string) (entries : list (string * Toml)) : option Toml :=
  match entries with
  | [] => None
  | (k, value) :: entries => if bool_decide (k = key) then Some value else assoc key entries
  end.
(** the entry of a table; [None] is a value that is no table *)
Definition get (key : string) (t : Toml) : option (option Toml) :=
  match t with TTable entries => Some (assoc key entries) | _ => None end.

(** a field: required, [#[serde(default)]], and of type [Option] *)
Definition field {A} `{Deserialize A} (key : string) (t : Toml) : option A :=
  value ← get key t;
  match value with Some value => of_toml value | None => None end.
Definition field_or {A} `{Deserialize A} (key : string) (d : A) (t : Toml) : option A :=
  value ← get key t;
  match value with Some value => of_toml value | None => Some d end.
Definition opt_field {A} `{Deserialize A} (key : string) (t : Toml) : option (option A) :=
  value ← get key t;
  match value with Some value => v ← of_toml value; Some (Some v) | None => Some None end.

#[export] Instance de_string : Deserialize string := λ t, match t with TString s => Some s | _ => None end.
#[export] Instance de_bool : Deserialize bool := λ t, match t with TBoolean b => Some b | _ => None end.
#[export] Instance de_list {A} `{Deserialize A} : Deserialize (list A) := λ t,
  match t with TArray values => mapM of_toml values | _ => None end.

(** the integers by their largest value: [u16], [u32], [u64] and [usize] *)
Definition de_unsigned (max : Z) : Deserialize Z := λ t,
  match t with TInteger n => if bool_decide (0 ≤ n ≤ max) then Some n else None | _ => None end.
Definition u16_max : Z := 2 ^ 16 - 1.
Definition u16_field (key : string) : Toml → option Z := field (H := de_unsigned u16_max) key.
Definition u16_field_or (key : string) : Z → Toml → option Z := field_or (H := de_unsigned u16_max) key.
Definition u16_opt_field (key : string) : Toml → option (option Z) := opt_field (H := de_unsigned u16_max) key.
Definition u32_field_or (key : string) : Z → Toml → option Z := field_or (H := de_unsigned u32_max) key.
Definition usize_field_or (key : string) : Z → Toml → option Z := field_or (H := de_unsigned u64_max) key.

(** ** The sections *)

Definition VOLUME_READ_CONCURRENCY : Z := 4.
Definition VOLUME_WRITE_CONCURRENCY : Z := 1.
Definition DEFAULT_CLIENT_DATA_CONCURRENCY : Z := 32.
Definition DEFAULT_REPLICATION_FACTOR : Z := 2.

Section Config.
Context `{TomlFile}.

Record CentralRelayConfig := mkCentralRelayConfig {
  crc_public_url : string; crc_token : string; crc_https_bind_port : Z;
  crc_cert_path : string; crc_key_path : string; crc_quic_bind_port : Z }.
Record CentralConfig := mkCentralConfig {
  cec_db_path : string; cec_secret_key : string; cec_bind_port : Z;
  cec_replication_factor : Z; cec_auth_tokens : list string; cec_relay : CentralRelayConfig }.
Record RelayClientConfig := mkRelayClientConfig {
  rcc_url : string; rcc_token : string; rcc_quic_port : Z; rcc_ca_cert : option string }.
Record EndpointConfig := mkEndpointConfig { ec_id : EndpointId; ec_addr : SocketAddr }.

(** [StorageConfig]; what the server reads is the record of [Storage.v], the rest goes to
    the transport *)
Record StorageSection := mkStorageSection {
  sts_storage : StorageConfig; sts_central_endpoint : EndpointConfig;
  sts_bind_port : option Z; sts_relay : option RelayClientConfig }.
(** [ClientConfig] likewise *)
Record ClientSection := mkClientSection {
  cls_client : ClientConfig; cls_central_endpoint : EndpointConfig; cls_relay : option RelayClientConfig }.

Record Fs0Config := mkFs0Config {
  fc_central : option CentralConfig; fc_storage : option StorageSection; fc_client : option ClientSection }.

#[export] Instance de_central_relay : Deserialize CentralRelayConfig := λ t,
  public_url ← field "public_url" t; token ← field "token" t; https_bind_port ← u16_field "https_bind_port" t;
  cert_path ← field "cert_path" t; key_path ← field "key_path" t; quic_bind_port ← u16_field "quic_bind_port" t;
  Some (mkCentralRelayConfig public_url token https_bind_port cert_path key_path quic_bind_port).

#[export] Instance de_central : Deserialize CentralConfig := λ t,
  db_path ← field "db_path" t; secret_key ← field "secret_key" t; bind_port ← u16_field "bind_port" t;
  replication_factor ← u16_field_or "replication_factor" DEFAULT_REPLICATION_FACTOR t;
  auth_tokens ← field_or "auth_tokens" [] t; relay ← field "relay" t;
  Some (mkCentralConfig db_path secret_key bind_port replication_factor auth_tokens relay).

#[export] Instance de_relay_client : Deserialize RelayClientConfig := λ t,
  url ← field "url" t; token ← field "token" t; quic_port ← u16_field "quic_port" t; ca_cert ← opt_field "ca_cert" t;
  Some (mkRelayClientConfig url token quic_port ca_cert).

#[export] Instance de_endpoint : Deserialize EndpointConfig := λ t,
  id ← field "central_endpoint_id" t; addr ← field "central_addr" t;
  id ← parse_endpoint_id id; addr ← parse_socket_addr addr;
  Some (mkEndpointConfig id addr).

#[export] Instance de_storage_volume : Deserialize StorageVolumeConfig := λ t,
  path ← field "path" t; name ← field "name" t; read_only ← field_or "read_only" false t;
  read_concurrency ← u32_field_or "read_concurrency" VOLUME_READ_CONCURRENCY t;
  write_concurrency ← u32_field_or "write_concurrency" VOLUME_WRITE_CONCURRENCY t;
  Some (mkStorageVolumeConfig path name read_only read_concurrency write_concurrency).

#[export] Instance de_storage : Deserialize StorageSection := λ t,
  name ← field "name" t; token ← field "token" t; central_endpoint ← of_toml t;
  bind_port ← u16_opt_field "bind_port" t; relay ← opt_field "relay" t; volumes ← field_or "volumes" [] t;
  check_hash_before_write ← field_or "check_hash_before_write" false t;
  Some (mkStorageSection (mkStorageConfig name token volumes check_hash_before_write) central_endpoint bind_port relay).

#[export] Instance de_client : Deserialize ClientSection := λ t,
  name ← opt_field "name" t; token ← field "token" t; central_endpoint ← of_toml t; relay ← opt_field "relay" t;
  upload_concurrency ← usize_field_or "upload_concurrency" DEFAULT_CLIENT_DATA_CONCURRENCY t;
  download_concurrency ← usize_field_or "download_concurrency" DEFAULT_CLIENT_DATA_CONCURRENCY t;
  Some (mkClientSection (mkClientConfig name token upload_concurrency download_concurrency) central_endpoint relay).

#[export] Instance de_config : Deserialize Fs0Config := λ t,
  central ← opt_field "central" t; storage ← opt_field "storage" t; client ← opt_field "client" t;
  Some (mkFs0Config central storage client).

(** [CentralRoot], [StorageRoot] and [ClientRoot]: one optional section each *)
Record Root (A : Type) := mkRoot { root_section : option A }.
Arguments mkRoot {A} _.
Arguments root_section {A} _.
Definition de_root {A} `{Deserialize A} (key : string) : Deserialize (Root A) := λ t,
  section ← opt_field key t; Some (mkRoot section).

(** ** Loading *)

Definition load_toml {A} (target : Target) (de : Deserialize A) (path : string) : Fs0Result A :=
  contents ← map_err Io (read_to_string path);
  ok_or (InvalidConfig (toml_error target contents)) (toml_parse contents ≫= @of_toml A de).

Definition load_from (path : string) : Fs0Result Fs0Config := load_toml TargetConfig de_config path.

Definition config_central (config : Fs0Config) : Fs0Result CentralConfig :=
  ok_or (InvalidConfig "missing [central] config section") (fc_central config).
Definition config_storage (config : Fs0Config) : Fs0Result StorageSection :=
  ok_or (InvalidConfig "missing [storage] config section") (fc_storage config).
Definition config_client (config : Fs0Config) : Fs0Result ClientSection :=
  ok_or (InvalidConfig "missing [client] config section") (fc_client config).

Definition load_central_from (path : string) : Fs0Result CentralConfig :=
  root ← load_toml TargetCentral (de_root "central") path;
  ok_or (InvalidConfig "missing [central] config section") (root_section root).
Definition load_storage_from (path : string) : Fs0Result StorageSection :=
  root ← load_toml TargetStorage (de_root "storage") path;
  ok_or (InvalidConfig "missing [storage] config section") (root_section root).
Definition load_client_from (path : string) : Fs0Result ClientSection :=
  root ← load_toml TargetClient (de_root "client") path;
  ok_or (InvalidConfig "missing [client] config section") (root_section root).

(** [ClientConfig::new] *)
Definition ClientConfig_new (token : string) (central_endpoint : EndpointConfig) (relay : option RelayClientConfig) : ClientSection :=
  mkClientSection (mkClientConfig None token DEFAULT_CLIENT_DATA_CONCURRENCY DEFAULT_CLIENT_DATA_CONCURRENCY) central_endpoint relay.
End Config.
Arguments mkRoot {A} _.
Arguments root_section {A} _.

(** ** The loaders *)

Section Loaders.
Context `{TomlFile}.

Lemma load_toml_Ok {A} target (de : Deserialize A) path a :
  load_toml target de path = Ok a ↔
  ∃ contents t, read_to_string path = Ok contents ∧ toml_parse contents = Some t ∧ de t = Some a.
Proof.
  unfold load_toml. rewrite Result_bind_Ok. setoid_rewrite ok_or_Ok. split.
  - intros (contents & Hread & Hde). destruct (read_to_string path) as [contents'|] eqn:Hr; [|done]. injection Hread as ->.
    destruct (toml_parse contents) as [t|] eqn:Ht; [|done]. by exists contents, t.
  - intros (contents & t & Hread & Ht & Hde). exists contents. by rewrite Hread, Ht.
Qed.

Lemma de_root_Some {A} `{Deserialize A} key t (o : option A) :
  de_root key t = Some (mkRoot o) ↔ opt_field key t = Some o.
Proof. unfold de_root. destruct (opt_field key t); simpl; naive_solver. Qed.

Lemma de_config_Some t c :
  de_config t = Some c ↔
  opt_field "central" t = Some (fc_central c) ∧ opt_field "storage" t = Some (fc_storage c) ∧ opt_field "client" t = Some (fc_client c).
Proof.
  unfold de_config. destruct (opt_field "central" t) as [central|]; simpl; [|naive_solver].
  destruct (opt_field "storage" t) as [storage|]; simpl; [|naive_solver].
  destruct (opt_field "client" t) as [client|]; simpl; [|naive_solver]. destruct c as [ce st cl]. simpl. naive_solver.
Qed.

(** one loader against the other: what the whole file has under the key *)
Lemma load_from_root {A} `{Deserialize A} key target path c (o : option A) :
  (∀ t, de_config t = Some c → opt_field key t = Some o) → load_from path = Ok c →
  load_toml target (de_root key) path = Ok (mkRoot o).
Proof.
  intros Hfield (contents & t & Hread & Ht & Hde)%load_toml_Ok. apply load_toml_Ok. exists contents, t.
  rewrite de_root_Some. auto.
Qed.

(** The loaders of one section and of the whole file.  When the whole file loads, each of the three
    loaders gives its section, or the error that it is missing.  A loader reads its own section
    only: two files that have the same under [central] give it the same configuration, whatever is wrong with the rest. *)
Theorem loaders_agree path c :
  load_from path = Ok c →
  (load_central_from path = config_central c ∧ load_storage_from path = config_storage c ∧
   load_client_from path = config_client c) ∧
  ∀ path' contents' t contents t', read_to_string path = Ok contents → toml_parse contents = Some t →
    read_to_string path' = Ok contents' → toml_parse contents' = Some t' → get "central" t' = get "central" t →
    load_central_from path' = load_central_from path.
Proof.
  intros Hload. unfold load_central_from, load_storage_from, load_client_from.
  rewrite (load_from_root "central" TargetCentral path c (fc_central c)) by (try done; by intros t (? & ? & ?)%de_config_Some).
  rewrite (load_from_root "storage" TargetStorage path c (fc_storage c)) by (try done; by intros t (? & ? & ?)%de_config_Some).
  rewrite (load_from_root "client" TargetClient path c (fc_client c)) by (try done; by intros t (? & ? & ?)%de_config_Some).
  split; [done|]. intros path' contents' t contents t' Hread Ht Hread' Ht' Hget.
  enough (load_toml TargetCentral (de_root "central") path' = Ok (mkRoot (fc_central c))) as -> by done.
  apply load_toml_Ok. exists contents', t'. split; [done|]. split; [done|]. rewrite de_root_Some.
  unfold opt_field. rewrite Hget. apply load_toml_Ok in Hload as (contents0 & t0 & Hread0 & Ht0 & Hde).
  rewrite Hread in Hread0. injection Hread0 as <-. rewrite Ht in Ht0. injection Ht0 as <-. by apply de_config_Some in Hde as (? & _).
Qed.
End Loaders.

(** ** A configuration of every section, and one with a broken client section *)

Definition sample_central : Toml := TTable
  [("db_path", TString "central.sqlite"); ("secret_key", TString "k"); ("bind_port", TInteger 7800);
   ("relay", TTable [("public_url", TString "https://relay"); ("token", TString "t"); ("https_bind_port", TInteger 7801);
                     ("cert_path", TString "cert.pem"); ("key_path", TString "key.pem"); ("quic_bind_port", TInteger 7802)])].
Definition sample_client : Toml := TTable
  [("token", TString "t"); ("central_endpoint_id", TString "id"); ("central_addr", TString "1.2.3.4:7800")].
Definition sample_storage : Toml := TTable
  [("name", TString "store"); ("token", TString "t"); ("central_endpoint_id", TString "id");
   ("central_addr", TString "1.2.3.4:7800"); ("volumes", TArray [TTable [("path", TString "/v"); ("name", TString "v")]])].
Definition sample_toml : Toml := TTable [("central", sample_central); ("client", sample_client); ("storage", sample_storage)].
Definition broken_toml : Toml := TTable [("client", TTable []); ("central", sample_central)].

Definition sample_file : TomlFile := {|
  EndpointId := string; SocketAddr := string;
  read_to_string := Ok;
  toml_parse := λ contents, if bool_decide (contents = "all") then Some sample_toml else Some broken_toml;
  toml_error := λ _ _, "bad";
  parse_endpoint_id := Some; parse_socket_addr := Some |}.

Section Sample.
#[local] Existing Instance sample_file.

(** the defaults of the source, and the error for the broken section *)
Example sample_defaults :
  (cec_replication_factor <$> load_central_from "all", cls_client <$> load_client_from "all",
   sc_volumes ∘ sts_storage <$> load_storage_from "all", load_client_from "broken", load_from "broken") =
  (Ok 2, Ok (mkClientConfig None "t" 32 32), Ok [mkStorageVolumeConfig "/v" "v" false 4 1],
   Err (InvalidConfig "bad"), Err (InvalidConfig "bad")).
Proof. reflexivity. Qed.

Lemma loaders_agree_witness : load_central_from "broken" = load_central_from "all" ∧ is_ok (load_central_from "broken") = true.
Proof.
  split; [|reflexivity]. destruct (load_from "all") as [c|e] eqn:Hload; [|discriminate Hload].
  exact (proj2 (loaders_agree "all" c Hload) "broken" "broken" sample_toml "all" broken_toml eq_refl eq_refl eq_refl eq_refl eq_refl).
Defined.
End Sample.
