(* ===== verification/TransportServe.v ===== *)
(** * The transport: the endpoint and the streams of a connection

    Models [Transport::bind] with its options, the relay and the roots it is given, and the timeout of an attempt to connect
    ([fs0-transport/src/transport.rs]), the timeout of an [rpc], and the loop that accepts the streams of a connection
    ([accept_loop], [spawn_accept] of [fs0-transport/src/connection.rs]).  What iroh makes of a text, of an address
    and of the settings of an endpoint are questions; a value it parses is kept as its text. *)

From S2P Require Import Prelude Types Link Conc Transport Config.

(** ** The endpoint *)

Definition TRANSPORT_CONTROL_ALPN : string := "/fs0/control/1".
Definition TRANSPORT_DATA_ALPN : string := "/fs0/data/1".

(** the [SocketAddr] [0.0.0.0:port], the one the servers bind *)
Record BindAddr := mkBindAddr { ba_port : Z }.
Definition bind_addr_text (addr : BindAddr) : string := "0.0.0.0:" +:+ pretty (ba_port addr).

Record TransportOptions := mkTransportOptions {
  tro_alpns : list string; tro_secret_key : option string; tro_bind_addr : option BindAddr;
  tro_relay : option RelayClientConfig }.
Definition TransportOptions_new (alpns : list string) : TransportOptions := mkTransportOptions alpns None None None.
Definition with_secret_key (key : string) (t : TransportOptions) : TransportOptions :=
  mkTransportOptions (tro_alpns t) (Some key) (tro_bind_addr t) (tro_relay t).
Definition with_bind_addr (addr : BindAddr) (t : TransportOptions) : TransportOptions :=
  mkTransportOptions (tro_alpns t) (tro_secret_key t) (Some addr) (tro_relay t).
Definition with_relay (relay : option RelayClientConfig) (t : TransportOptions) : TransportOptions :=
  mkTransportOptions (tro_alpns t) (tro_secret_key t) (tro_bind_addr t) relay.

(** iroh's [RelayMode]: none, or the one relay of a url, the port of its QUIC and the token to show *)
Inductive RelayMode := RelayDisabled | RelayCustom (url : string) (quic_port : Z) (auth_token : string).

(** what the builder of the endpoint holds when it is bound *)
Record EndpointSettings := mkEndpointSettings {
  es_alpns : list string; es_relay_mode : RelayMode; es_ca_roots : option string;
  es_secret_key : option string; es_bind_addr : option BindAddr }.

Inductive EndpointQuery : Type → Type :=
| EPem (text : string) : EndpointQuery (list (Result string unit))  (* a certificate each *)
| ERelayUrl (text : string) : EndpointQuery (Result string unit)
| EBindAddr (addr : BindAddr) : EndpointQuery (Result string unit)
| EBind (settings : EndpointSettings) : EndpointQuery (Result string unit).

Abbreviation EndpointProg := (Prog unit EndpointQuery).

Definition relay_mode (config : RelayClientConfig) : EndpointProg (Fs0Result RelayMode) :=
  url ← ask (ERelayUrl (rcc_url config));
  mret (map_err (λ err, InvalidConfig ("invalid relay url " +:+ rcc_url config +:+ ": " +:+ err)) url);;?
  mret (Ok (RelayCustom (rcc_url config) (rcc_quic_port config) (rcc_token config))).

Definition ca_roots_config (ca_cert : string) : EndpointProg (Fs0Result string) :=
  certs ← ask (EPem ca_cert);
  certs ←? mret (map_err (λ err, InvalidConfig ("invalid relay ca_cert: " +:+ err)) (collect id certs));
  if bool_decide (certs = []) then mret (Err (InvalidConfig "relay ca_cert contains no certificates"))
  else mret (Ok ca_cert).

(** [Transport::bind] *)
Definition transport_bind (options : TransportOptions) : EndpointProg (Fs0Result unit) :=
  ca_roots ←? match tro_relay options ≫= rcc_ca_cert with
              | Some ca_cert => roots ←? ca_roots_config ca_cert; mret (Ok (Some roots))
              | None => mret (Ok None)
              end;
  mode ←? match tro_relay options with Some relay => relay_mode relay | None => mret (Ok RelayDisabled) end;
  match tro_bind_addr options return EndpointProg (Fs0Result unit) with
  | Some addr =>
      r ← ask (EBindAddr addr);
      mret (map_err (λ err, InvalidConfig ("invalid transport bind address " +:+ bind_addr_text addr +:+ ": " +:+ err)) r)
  | None => mret (Ok tt)
  end;;?
  bound ← ask (EBind (mkEndpointSettings (tro_alpns options) mode ca_roots (tro_secret_key options) (tro_bind_addr options)));
  mret (map_err Internal bound).

(** the options of the three processes: [CentralServer::run], [StorageServer::run], [Fs0Client::connect] *)
Definition central_transport_options (secret_key : string) (bind_port : Z) : TransportOptions :=
  with_bind_addr (mkBindAddr bind_port) (with_secret_key secret_key (TransportOptions_new [TRANSPORT_CONTROL_ALPN])).
Definition storage_transport_options (bind_port : option Z) (relay : option RelayClientConfig) : TransportOptions :=
  let options := with_relay relay (TransportOptions_new [TRANSPORT_DATA_ALPN]) in
  match bind_port with Some port => with_bind_addr (mkBindAddr port) options | None => options end.
Definition client_transport_options (relay : option RelayClientConfig) : TransportOptions :=
  with_relay relay (TransportOptions_new []).

(** ** Timeouts *)

(** the text of a [Duration] ([{:?}]), which is in nanoseconds *)
Fixpoint trim_zeros (s : string) : string :=
  match s with
  | EmptyString => ""
  | String c s => let s := trim_zeros s in if bool_decide (c = "0"%char ∧ s = "") then "" else String c s
  end.
Definition pad_zeros (width : nat) (s : string) : string :=
  String.concat "" (replicate (width - String.length s) "0") +:+ s.
Definition fmt_decimal (integer fraction : Z) (width : nat) : string :=
  match trim_zeros (pad_zeros width (pretty fraction)) with
  | EmptyString => pretty integer
  | digits => pretty integer +:+ "." +:+ digits
  end.
Definition debug_duration (d : Z) : string :=
  let secs := d / 1000000000 in
  let nanos := d mod 1000000000 in
  if bool_decide (0 < secs) then fmt_decimal secs nanos 9 +:+ "s"
  else if bool_decide (1000000 ≤ nanos) then fmt_decimal (nanos / 1000000) (nanos mod 1000000) 6 +:+ "ms"
  else if bool_decide (1000 ≤ nanos) then fmt_decimal (nanos / 1000) (nanos mod 1000) 3 +:+ "µs"
  else pretty nanos +:+ "ns".

Record ConnectOptions := mkConnectOptions { cno_timeout : Z; cno_retry : ConnectRetry }.
Definition ConnectOptions_default : ConnectOptions := mkConnectOptions (15 * 1000000000) ConnectRetry_disabled.

(** what an attempt comes to; [None] is one that takes longer than the timeout *)
Definition attempt_outcome (timeout : Z) (attempt : option (Result string Connection)) : Fs0Result Connection :=
  match attempt with
  | None => Err (Internal ("transport connect timed out after " +:+ debug_duration timeout))
  | Some r => map_err Internal r
  end.
(** [Transport::connect] *)
Definition connect_with (options : option ConnectOptions) (attempts : nat → option (Result string Connection))
  : Fs0Result Connection * list Z :=
  let options := default ConnectOptions_default options in
  Transport.connect (λ attempt, attempt_outcome (cno_timeout options) (attempts attempt)) (cno_retry options).

Definition DEFAULT_RPC_TIMEOUT : Z := 15 * 1000000000.

Section Rpc.
Context `{!PostcardCodec ProtocolRequest, !PostcardCodec ProtocolResponse}.

(** [Connection::rpc]: [elapsed] when the timeout comes first, else what opening and finishing the stream come to *)
Definition rpc_within (timeout : option Z) (elapsed : bool) (opened finished : Result string unit)
    (answer : list Byte.byte → list Byte.byte) (request : ProtocolRequest) : Fs0Result ProtocolResponse :=
  if elapsed then Err (Internal ("transport rpc timed out after " +:+ debug_duration (default DEFAULT_RPC_TIMEOUT timeout)))
  else
    _ ← map_err Internal opened;
    bytes ← write_frame request;
    _ ← map_err Internal finished;
    '(response, _) ← read_frame (T := ProtocolResponse) (answer bytes);
    Ok response.
End Rpc.

(** ** Accepting *)

(** a task of the [JoinSet]: the bytes of its stream, for [serve_stream] or [serve_events] *)
Inductive StreamTask := RequestTask (stream : list Byte.byte) | EventsTask (stream : list Byte.byte).

(** what the [select!] of the loop, or the one around it, comes to next; [Joined] is a task that ends, of which only a panic
    matters, and with none running it is not waited for *)
Inductive AcceptEvent :=
| Joined (panic : option string)
| AcceptedBi (stream : Result string (list Byte.byte))
| AcceptedUni (stream : Result string (list Byte.byte))
| Exited.

(** the tasks spawned, in their order, and how many of them run *)
Record Accepting := mkAccepting { ac_spawned : list StreamTask; ac_running : nat }.
Definition accepting_new : Accepting := mkAccepting [] 0.
Definition spawn_task (t : StreamTask) (s : Accepting) : Accepting := mkAccepting (ac_spawned s ++ [t]) (S (ac_running s)).

(** one turn: it goes on, or ends with a result *)
Definition accept_turn (e : AcceptEvent) (s : Accepting) : Result (Fs0Result unit) Accepting :=
  match e with
  | Joined panic =>
      match ac_running s with
      | O => Ok s
      | S running =>
          match panic with
          | Some err => Err (Err (Internal ("transport stream task panicked: " +:+ err)))
          | None => Ok (mkAccepting (ac_spawned s) running)
          end
      end
  | AcceptedBi (Ok stream) => Ok (spawn_task (RequestTask stream) s)
  | AcceptedUni (Ok stream) => Ok (spawn_task (EventsTask stream) s)
  | AcceptedBi (Err err) | AcceptedUni (Err err) => Err (Err (Internal err))
  | Exited => Err (Ok tt)
  end.

(** [spawn_accept] of the loop over what happens; [None] when it is still waiting.  The [JoinSet] goes with the
    loop, which aborts the tasks that run *)
Fixpoint spawn_accept (events : list AcceptEvent) (s : Accepting) : option (Fs0Result unit) * Accepting :=
  match events with
  | [] => (None, s)
  | e :: events =>
      match accept_turn e s with
      | Ok s => spawn_accept events s
      | Err result => (Some result, mkAccepting (ac_spawned s) 0)
      end
  end.

(** ** What is bound *)

Definition mode_of (relay : option RelayClientConfig) : RelayMode :=
  match relay with Some relay => RelayCustom (rcc_url relay) (rcc_quic_port relay) (rcc_token relay) | None => RelayDisabled end.
(** the settings that hold every option *)
Definition settings_of (options : TransportOptions) : EndpointSettings :=
  mkEndpointSettings (tro_alpns options) (mode_of (tro_relay options)) (tro_relay options ≫= rcc_ca_cert)
    (tro_secret_key options) (tro_bind_addr options).

(** asked of iroh, that is: [Ok] only after the endpoint was bound *)
Definition binds (q : {B & EndpointQuery B}) : bool := match projT2 q with EBind _ => true | _ => false end.

(** Binding either refuses the options before iroh is asked for an endpoint, or asks for one, whose settings hold all of
    the options: no relay but the configured one is used, with its token, and its certificates are the only roots. *)
Theorem transport_bound o n options s :
  let out := run o n (transport_bind options) s in
  out_state out = s ∧
  ((∃ message, out_value out = Err (InvalidConfig message)) ∧ List.filter binds (out_asked out) = [] ∨
   (∃ n', out_value out = map_err Internal (o n' _ (EBind (settings_of options)))) ∧
   List.filter binds (out_asked out) = [existT _ (EBind (settings_of options))]).
Proof.
  destruct options as [alpns key [addr|] [[url token port [ca|]]|]]; unfold transport_bind, ca_roots_config, relay_mode, settings_of; cbn;
    repeat first [case_bool_decide|destruct (collect _ _)|match goal with |- context [o ?n ?B (ERelayUrl ?u)] => destruct (o n B (ERelayUrl u)) end
      |match goal with |- context [o ?n ?B (EBindAddr ?u)] => destruct (o n B (EBindAddr u)) end|progress cbn];
    (split; [done|]; first [left; split; [by eexists|done]|right; split; [by eexists|done]]).
Qed.

(** the default gives an attempt fifteen seconds, and makes one *)
Lemma connect_default attempts :
  connect_with None attempts =
  (match attempts 1%nat with
   | None => Err (Internal "transport connect timed out after 15s") | Some r => map_err Internal r end, []).
Proof. unfold connect_with, Transport.connect. cbn. by destruct (attempts 1%nat) as [[|]|]. Qed.

(** in time and on streams that open and finish, it is [rpc] *)
Lemma rpc_in_time `{!PostcardCodec ProtocolRequest, !PostcardCodec ProtocolResponse} timeout answer request :
  rpc_within timeout false (Ok tt) (Ok tt) answer request = rpc answer request.
Proof. done. Qed.

Example some_durations :
  map debug_duration [0; 150; 1500; 2050000; 15000000000; 30250000000] = ["0ns"; "150ns"; "1.5µs"; "2.05ms"; "15s"; "30.25s"].
Proof. vm_compute. reflexivity. Qed.

(** ** What a connection is served *)

Definition task_of (e : AcceptEvent) : option StreamTask :=
  match e with
  | AcceptedBi (Ok stream) => Some (RequestTask stream) | AcceptedUni (Ok stream) => Some (EventsTask stream) | _ => None
  end.
(** how an event can end the loop *)
Definition ends (e : AcceptEvent) (r : Fs0Result unit) : Prop :=
  match e with
  | Exited => r = Ok tt
  | AcceptedBi (Err err) | AcceptedUni (Err err) => r = Err (Internal err)
  | Joined (Some err) => r = Err (Internal ("transport stream task panicked: " +:+ err))
  | _ => False
  end.
Definition may_go_on (e : AcceptEvent) : Prop := is_Some (task_of e) ∨ ∃ panic, e = Joined panic.

Lemma accept_turn_spec e s :
  match accept_turn e s with
  | Ok s' => may_go_on e ∧ ac_spawned s' = ac_spawned s ++ option_list (task_of e) ∧
      (ac_running s' ≤ ac_running s + length (option_list (task_of e)))%nat
  | Err r => ends e r
  end.
Proof.
  destruct s as [spawned [|running]], e as [[err|]|[stream|err]|[stream|err]|]; cbn; rewrite ?app_nil_r;
    try done; (split; [|split; [done|lia]]); first [right; by eexists|left; by eexists].
Qed.

(** A task serves each stream the peer opens, in their order, until the first that cannot be accepted, a panic of
    one that runs, or the exit; a loop that has ended leaves no task running, and no others end it. *)
Theorem accepted_in_order events s :
  let '(r, s') := spawn_accept events s in
  ∃ pre post, events = pre ++ post ∧ Forall may_go_on pre ∧ ac_spawned s' = ac_spawned s ++ omap task_of pre ∧
    match r with
    | None => post = [] ∧ (ac_running s' ≤ ac_running s + length (omap task_of pre))%nat
    | Some r => ac_running s' = 0%nat ∧ ∃ e rest, post = e :: rest ∧ ends e r
    end.
Proof.
  revert s. induction events as [|e events IH]; intros s; cbn [spawn_accept].
  - exists [], []. cbn. rewrite app_nil_r. split_and!; [done..|lia].
  - pose proof (accept_turn_spec e s) as Hturn. destruct (accept_turn e s) as [s'|r].
    + destruct Hturn as (Hon & Hspawned & Hrunning). specialize (IH s').
      destruct (spawn_accept events s') as [r s'']. destruct IH as (pre & post & -> & Hpre & Hs'' & Hend).
      exists (e :: pre), post. split; [done|]. split; [by constructor|].
      assert (omap task_of (e :: pre) = option_list (task_of e) ++ omap task_of pre) as -> by (cbn; by destruct (task_of e)).
      split; [by rewrite Hs'', Hspawned, app_assoc|]. destruct r; [done|]. rewrite length_app. destruct Hend. split; [done|lia].
    + exists [], (e :: events). cbn. rewrite app_nil_r. split_and!; [done..|]. eauto.
Qed.
