(* ===== verification/CentralLife.v ===== *)
(** * The life of the central server's process

    Models [CentralServer::run] and [shutdown] (fs0-central/src/server.rs), the relay it starts (server/relay.rs), the
    protocol handler of its router (server/spawn.rs), the opening of its database (db.rs) and the command that runs it
    (fs0-cli/src/commands/server.rs).  The endpoint, the router and the relay are questions.  Over any number of
    runs, stopped at any point, the tables stay well formed; a shutdown happens once. *)

From S2P Require Import Prelude Types Paths DirCache CentralDb DirTree CentralInv CentralDir Sample.
From S2P Require Import CentralTables CentralFacts CentralRuns Link Conc CentralServer CentralHandlers CentralSafety.
From S2P Require Import Storage Config TransportServe.

(** ** Opening the database (db.rs, schema.sql) *)

(** [execute_batch(schema.sql)] on a file that has the tables, or has none yet: nothing that is there is replaced *)
Definition execute_schema (stored : option CentralDb) : CentralDb :=
  match stored with
  | None => schema_db
  | Some db => if bool_decide (0 ∈ dir_ids (db_dirs db)) then db else set_dirs db (root_dir_row :: db_dirs db)
  end.

(** [CentralDb::open] *)
Definition CentralDb_open_at `{SqliteText} (err : option SqlError) (stored : option CentralDb) : Fs0Result CentralTx :=
  match err with
  | Some e => Err (from_sqlite e)
  | None => Ok (mkCentralTx (execute_schema stored) DirCacheState_new)
  end.

(** ** The process *)

(** [CentralServer]: what the handlers use, [exit], and whether [tasks] is there *)
Record CentralProcess := mkCentralProcess { cp_server : CentralServer; cp_exit : bool; cp_tasks : bool }.
Definition set_cp_server (x : CentralServer) (s : CentralProcess) : CentralProcess := mkCentralProcess x (cp_exit s) (cp_tasks s).
Definition set_cp_exit (x : bool) (s : CentralProcess) : CentralProcess := mkCentralProcess (cp_server s) x (cp_tasks s).
Definition set_cp_tasks (x : bool) (s : CentralProcess) : CentralProcess := mkCentralProcess (cp_server s) (cp_exit s) x.
(** before [run] *)
Definition no_process : CentralProcess := mkCentralProcess (CentralServer_new []) false false.

(** what the relay is started with: the two ports and the token it asks for *)
Record RelaySettings := mkRelaySettings { rls_https_port : Z; rls_quic_port : Z; rls_token : string }.

(** what the process asks besides what its handlers do; an error carries its text *)
Inductive LifeQuery : Type → Type :=
| LCentral {B : Type} (q : CentralQuery B) : LifeQuery B
| LPemCerts (path : string) : LifeQuery (Result string (list (Result string unit)))
| LPemKey (path : string) : LifeQuery (Result string unit)
| LTlsProtocols : LifeQuery (Result string unit)
| LSingleCert : LifeQuery (Result string unit)
| LRelaySpawn (settings : RelaySettings) : LifeQuery (Result string unit)
| LSecretKey (text : string) : LifeQuery (Result string unit)
| LEndpointOf {B : Type} (q : EndpointQuery B) : LifeQuery B
| LOpen : LifeQuery (option SqlError)
| LUpgrade : LifeQuery bool  (* whether the server of a weak reference is still there *)
| LClose (connection : Connection) : LifeQuery unit
| LNotify : LifeQuery unit
| LRouterShutdown : LifeQuery (Result string unit)
| LRelayShutdown : LifeQuery unit
| LTransportClose : LifeQuery unit
| LEndpoint : LifeQuery string
| LPrint (line : string) : LifeQuery unit
| LSignal : LifeQuery (Result string unit)
| LInterrupt : LifeQuery (Result string unit).

Abbreviation LifeProg := (Prog CentralProcess LifeQuery).

Definition life_answer_ok (B : Type) (q : LifeQuery B) : B → Prop :=
  match q in LifeQuery B return B → Prop with
  | @LCentral B q => answer_ok B q
  | _ => λ _, True
  end.

Definition on_endpoint {A} (p : EndpointProg A) : LifeProg A := lift_prog (λ _, tt) (λ _ s, s) (@LEndpointOf) p.
Definition on_server {A} (p : Central A) : LifeProg A := lift_prog cp_server set_cp_server (@LCentral) p.

(** ** The relay (relay.rs) *)

(** [relay_access_config(token)] on a request's token *)
Definition relay_access (token : string) (auth_token : option string) : bool := bool_decide (auth_token = Some token).

Definition relay_tls_config (config : CentralRelayConfig) : LifeProg (Fs0Result unit) :=
  let certs_at (what : string) (message : string) :=
    InvalidConfig (what +:+ " central.relay cert_path " +:+ crc_cert_path config +:+ ": " +:+ message) in
  entries ← ask (LPemCerts (crc_cert_path config));
  certs ←? mret (entries ← map_err (certs_at "failed to open") entries; map_err (certs_at "failed to read") (collect id entries));
  if bool_decide (certs = [])
  then mret (Err (InvalidConfig ("central.relay cert_path " +:+ crc_cert_path config +:+ " contains no certificates")))
  else
    key ← ask (LPemKey (crc_key_path config));
    mret (map_err (λ err, InvalidConfig ("failed to read central.relay key_path " +:+ crc_key_path config +:+ ": " +:+ err)) key);;?
    protocols ← ask LTlsProtocols;
    mret (map_err (λ err, InvalidConfig ("failed to configure central.relay TLS protocols: " +:+ err)) protocols);;?
    single ← ask LSingleCert;
    mret (map_err (λ err, InvalidConfig ("invalid central.relay certificate or key: " +:+ err)) single).

Definition spawn_relay (config : CentralRelayConfig) : LifeProg (Fs0Result unit) :=
  if bool_decide (crc_token config = "")
  then mret (Err (InvalidConfig "central.relay.token must not be empty"))
  else
    relay_tls_config config;;?
    spawned ← ask (LRelaySpawn (mkRelaySettings (crc_https_bind_port config) (crc_quic_bind_port config) (crc_token config)));
    mret (map_err (λ err, Internal ("failed to start relay: " +:+ err)) spawned).

(** [tokio::select!] of both signals: only [ctrl_c] can fail; [terminate] and [interrupt] are the questions *)
Definition wait_for_shutdown_signal {S} {Q : Type → Type} (terminate interrupt : Q (Result string unit)) : Prog S Q (Fs0Result unit) :=
  registered ← ask terminate;
  mret (map_err Io registered);;?
  result ← ask interrupt;
  mret (map_err Io result).

Section Life.
Context `{SqliteText, RowIds, DebugResponse}.

(** ** Starting and stopping (server.rs, spawn.rs) *)

(** [CentralServer::run], on the file [stored] at [db_path] *)
Definition CentralServer_run (config : CentralConfig) (stored : option CentralDb) : LifeProg (Fs0Result unit) :=
  mret (check_replication_factor (cec_replication_factor config));;?
  spawn_relay (cec_relay config);;?
  key ← ask (LSecretKey (cec_secret_key config));
  mret (map_err (λ err, InvalidConfig ("invalid central.secret_key: " +:+ err)) key);;?
  on_endpoint (transport_bind (central_transport_options (cec_secret_key config) (cec_bind_port config)));;?
  err ← ask LOpen;
  db ←? mret (CentralDb_open_at err stored);
  atomic (λ s, (Ok tt, mkCentralProcess (mkCentralServer (cec_auth_tokens config) 1 ∅ ∅ ∅ db) false true)).

Definition process_exiting : LifeProg bool := atomic (λ s, (cp_exit s, s)).

(** [CentralTasks::shutdown] *)
Definition tasks_shutdown : LifeProg (Fs0Result unit) :=
  router ← ask LRouterShutdown;
  ask LRelayShutdown;;
  mret (map_err (λ err, Internal ("central transport router shutdown failed: " +:+ err)) router).

Definition central_shutdown : LifeProg unit :=
  exiting ← atomic (λ s, (cp_exit s, set_cp_exit true s));
  if (exiting : bool) then mret tt
  else
    ask LNotify;;
    tasks ← atomic (λ s, (cp_tasks s, set_cp_tasks false s));
    if (tasks : bool) then _ ← tasks_shutdown; mret tt else ask LTransportClose.

(** [Drop for CentralServer] *)
Definition central_drop : LifeProg unit := atomic (λ s, (tt, set_cp_exit true s));; ask LNotify.

(** a request whose task is aborted, as the connection is gone: the registration of a peer has no [await] before its identity
    is stored, everything else may stop after any number of steps *)
Definition cut_request (n : nat) (connection : Connection) (request : ProtocolRequest) (identity : ControlConnectionIdentity)
  : Central ControlConnectionIdentity :=
  match request with
  | ReqControl (RegisterClientRq _ _ _) =>
      '(_, identity) ← handle_protocol_request connection request identity; mret identity
  | ReqControl (RegisterStorageRq name token version volumes iroh_endpoint) =>
      match validate_registration_version version with
      | Err _ => mret identity
      | Ok _ =>
          registered ← register_storage name token volumes iroh_endpoint connection;
          match registered return Central ControlConnectionIdentity with
          | Ok (storage_id, _) => _ ← cut n (announce_storage storage_id); mret (IdStorage storage_id)
          | Err _ => mret identity
          end
      end
  | _ => _ ← cut n (handle_protocol_request connection request identity); mret identity
  end.

(** [handle_control_connection] on a connection that sends [requests] and then ends, or breaks off during one more *)
Definition serve_connection (connection : Connection) (requests : list ProtocolRequest) (broken : option (ProtocolRequest * nat))
  : Central unit :=
  match broken with
  | None => handle_control_connection connection requests
  | Some (request, n) =>
      identity ← serve_requests connection requests Anonymous;
      identity ← cut_request n connection request identity;
      event ← unregister_identity identity;
      match event return Central unit with
      | Some event => broadcast_event event
      | None => mret tt
      end;;
      await (QClose connection)
  end.

(** [CentralControlProtocol::accept]; an exiting server does not start to serve the connection, though it gets past the
    first test *)
Definition accept (connection : Connection) (requests : list ProtocolRequest) (broken : option (ProtocolRequest * nat)) : LifeProg unit :=
  alive ← ask LUpgrade;
  if negb alive then ask (LClose connection)
  else
    exiting ← process_exiting;
    if (exiting : bool) then ask (LClose connection)
    else
      exiting ← process_exiting;
      on_server (if (exiting : bool) then serve_connection connection [] None else serve_connection connection requests broken).

(** [CentralControlProtocol::shutdown] *)
Definition protocol_shutdown : LifeProg unit :=
  alive ← ask LUpgrade;
  if (alive : bool) then ask LNotify else mret tt.

(** ** The command (fs0-cli/src/commands/server.rs) *)

Definition run_central (config : Fs0Result CentralConfig) (stored : option CentralDb) : LifeProg (Fs0Result unit) :=
  config ←? mret config;
  CentralServer_run config stored;;?
  endpoint ← ask LEndpoint;
  ask (LPrint ("central endpoint: " +:+ endpoint));;
  wait_for_shutdown_signal LSignal LInterrupt;;?
  central_shutdown;;
  mret (Ok tt).
End Life.

(** ** What a start leaves *)

(** a program that ends with [Ok] got there by its first part *)
Lemma run_try_Ok {S Q E A B} (p : Prog S Q (Result E A)) (f : A → Prog S Q (Result E B)) o n s b :
  out_value (run o n (prog_try f p) s) = Ok b →
  ∃ a n', out_value (run o n p s) = Ok a ∧ out_value (run o n' (f a) (out_state (run o n p s))) = Ok b ∧
    out_state (run o n (prog_try f p) s) = out_state (run o n' (f a) (out_state (run o n p s))).
Proof.
  unfold prog_try. rewrite run_bind. cbv zeta. cbn [out_value out_state].
  destruct (out_value (run o n p s)) as [a|e]; [|done]. intros Hv. by exists a, (n + length (out_asked (run o n p s)))%nat.
Qed.

Section Started.
Context `{SqliteText, RowIds, DebugResponse}.

(** the process of a start *)
Definition fresh_process (config : CentralConfig) (stored : option CentralDb) : CentralProcess :=
  mkCentralProcess (mkCentralServer (cec_auth_tokens config) 1 ∅ ∅ ∅ (mkCentralTx (execute_schema stored) DirCacheState_new)) false true.

Lemma on_endpoint_state {A} o n (p : EndpointProg A) s : out_state (run o n (on_endpoint p) s) = s.
Proof. unfold on_endpoint. rewrite lift_run; [done|]. split; [done|]. split; [by intros []|done]. Qed.

Lemma spawn_relay_state o n config s : out_state (run o n (spawn_relay config) s) = s.
Proof.
  apply (keeps_run (λ _ _ _, True) (λ s', s' = s)); [done| |done]. unfold spawn_relay, relay_tls_config.
  repeat first [done|case_bool_decide|apply keeps_try; [|intros ?]|apply keeps_bind; [|intros ?]].
Qed.

Lemma CentralServer_run_Ok o n config stored s : out_value (run o n (CentralServer_run config stored) s) = Ok tt →
  out_state (run o n (CentralServer_run config stored) s) = fresh_process config stored ∧
  cec_replication_factor config ≠ 0 ∧ crc_token (cec_relay config) ≠ "".
Proof.
  unfold CentralServer_run. intros Hv. apply run_try_Ok in Hv as ([] & n1 & Hfactor & Hv & ->). simpl in Hfactor.
  cbn [run out_state mret Prog_ret] in Hv |- *. apply run_try_Ok in Hv as ([] & n2 & Hrelay & Hv & ->).
  assert (crc_token (cec_relay config) ≠ "") as Htoken.
  { intros Hempty. unfold spawn_relay in Hrelay. rewrite bool_decide_true in Hrelay by done. done. }
  rewrite spawn_relay_state in Hv |- *. clear Hrelay.
  split; [|split; [|done]]; [|unfold check_replication_factor in Hfactor; by case_bool_decide].
  revert Hv. rewrite run_bind. cbv zeta. cbn [out_value out_state run ask]. intros Hv.
  apply run_try_Ok in Hv as ([] & n3 & _ & Hv & ->). cbn [run out_state mret Prog_ret] in Hv |- *.
  apply run_try_Ok in Hv as ([] & n4 & _ & Hv & ->). rewrite on_endpoint_state in Hv |- *.
  revert Hv. rewrite run_bind. cbv zeta. cbn [out_value out_state run ask]. intros Hv.
  apply run_try_Ok in Hv as (db & n5 & Hdb & _ & ->). cbn [run out_state out_value mret Prog_ret atomic] in Hdb |- *.
  unfold CentralDb_open_at in Hdb. match type of Hdb with context [match ?e with _ => _ end] => destruct e end; [done|].
  injection Hdb as <-. done.
Qed.
End Started.

(** ** Over any number of runs *)

Section Lifetime.
Context `{SqliteText, RowIds, DebugResponse, !RowIdLaws}.

(** what runs in the process: connections that come in, [shutdown] by whoever calls it, the router's call, and the drop *)
Definition life_program (p : LifeProg unit) : Prop :=
  (∃ connection requests broken, Forall request_ok requests ∧ Forall (λ rn, request_ok rn.1) (option_list broken) ∧
     p = accept connection requests broken) ∨
  p = central_shutdown ∨ p = protocol_shutdown ∨ p = central_drop.
Definition life_steps := rtc (pool_step life_answer_ok life_program).

(** a start that succeeded *)
Definition started (config : CentralConfig) (stored : option CentralDb) (process : CentralProcess) : Prop :=
  ∃ o n, out_value (run o n (CentralServer_run config stored) no_process) = Ok tt ∧
    out_state (run o n (CentralServer_run config stored) no_process) = process.

(** the files at [db_path] there can be: none, or what a process left that was stopped at any point *)
Inductive central_file : option CentralDb → Prop :=
| file_none : central_file None
| file_left config stored process s pool :
    central_file stored → started config stored process → life_steps (process, []) (s, pool) →
    central_file (Some (tx_db (cs_db (cp_server s)))).

(** [Q] is what else the transactions keep of the tables, from those of a new file on *)
Section Kept.
Context (Q : CentralDb → Prop) (Hstable : tx_stable Q) (Hschema : Q schema_db).

Lemma schema_keeps db : db_ok db → execute_schema (Some db) = db.
Proof.
  intros Hok. unfold execute_schema. rewrite bool_decide_true; [done|]. pose proof (ok_dirs _ Hok) as Hds.
  induction Hds as [|ds id parent name _ IH]; [by left|]. unfold dir_ids. rewrite map_app. apply elem_of_app. by left.
Qed.

Lemma cut_request_safe n connection request identity : request_ok request →
  keeps answer_ok (central_ok Q) (cut_request n connection request identity).
Proof.
  intros Hrequest. assert (∀ identity, keeps answer_ok (central_ok Q) (handle_protocol_request connection request identity)) as Hwhole
    by (intros; destruct request; try done; by apply control_request_safe).
  assert (∀ identity, keeps answer_ok (central_ok Q) (_ ← cut n (handle_protocol_request connection request identity); mret identity)) as Hcut
    by (intros; by apply keeps_bind; [apply keeps_cut, Hwhole|]).
  unfold cut_request. destruct request as [request| | | |]; try apply Hcut.
  destruct request; try apply Hcut; [by apply keeps_bind; [apply Hwhole|intros []]|].
  destruct (validate_registration_version version); [|done]. apply keeps_bind; [by apply register_storage_safe|].
  intros [[storage_id peers]|e]; [|done]. by apply keeps_bind; [apply keeps_cut, announce_safe|].
Qed.

Lemma serve_connection_safe connection requests broken :
  Forall request_ok requests → Forall (λ rn, request_ok rn.1) (option_list broken) →
  keeps answer_ok (central_ok Q) (serve_connection connection requests broken).
Proof.
  intros Hrequests Hbroken. destruct broken as [[request n]|]; [|by apply connection_safe]. apply Forall_cons in Hbroken as [Hbroken _].
  apply keeps_bind; [by apply serve_requests_safe|]. intros identity. apply keeps_bind; [by apply cut_request_safe|]. apply leave_safe.
Qed.

Lemma life_program_keeps p : life_program p → keeps life_answer_ok (λ s, central_ok Q (cp_server s)) p.
Proof.
  intros [(connection & requests & broken & Hrequests & Hbroken & ->)|[->|[->| ->]]].
  - unfold accept. apply keeps_bind; [done|]. intros alive. destruct (negb alive); [done|].
    apply keeps_bind; [by apply keeps_atomic|]. intros [|]; [done|].
    apply keeps_bind; [by apply keeps_atomic|]. intros exiting. apply (lift_keeps _ _ _ answer_ok); [done|done|].
    destruct exiting; [by apply connection_safe|by apply serve_connection_safe].
  - unfold central_shutdown. apply keeps_bind; [by apply keeps_atomic|]. intros [|]; [done|].
    apply keeps_bind; [done|]. intros _. apply keeps_bind; [by apply keeps_atomic|]. by intros [|].
  - unfold protocol_shutdown. apply keeps_bind; [done|]. by intros [|].
  - unfold central_drop. apply keeps_bind; [by apply keeps_atomic|done].
Qed.

Lemma life_steps_ok s s' pool : central_ok Q (cp_server s) → life_steps (s, []) (s', pool) → central_ok Q (cp_server s').
Proof.
  intros Hs Hsteps. eapply (keeps_reachable life_answer_ok (λ s, central_ok Q (cp_server s)) life_program s [] s' pool); [|done|constructor|exact Hsteps].
  exact life_program_keeps.
Qed.

Lemma started_ok config stored process : (∀ db, stored = Some db → db_ok db ∧ Q db) → started config stored process → central_ok Q (cp_server process).
Proof.
  intros Hstored (o & n & Hv & <-). destruct (CentralServer_run_Ok _ _ _ _ _ Hv) as [-> _].
  assert (db_ok (execute_schema stored) ∧ Q (execute_schema stored)) as [? ?].
  { destruct stored as [db|]; [|split; [apply schema_db_ok|exact Hschema]]. by rewrite schema_keeps; apply Hstored. }
  split; [split; [split|]|]; simpl; [done|apply empty_cache_ok|done|apply map_Forall_empty].
Qed.

Lemma central_file_ok stored : central_file stored → ∀ db, stored = Some db → db_ok db ∧ Q db.
Proof.
  induction 1 as [|config stored process s pool _ IH Hstart Hsteps]; [done|]. intros db [= <-].
  destruct (life_steps_ok process s pool) as [[[? ?] ?] ?]; [by eapply started_ok|done|done].
Qed.

(** so over any number of runs *)
Lemma lifetime_kept config stored process s pool :
  central_file stored → started config stored process → life_steps (process, []) (s, pool) → central_ok Q (cp_server s).
Proof.
  intros Hfile Hstart Hsteps. apply (life_steps_ok process s pool); [|done].
  eapply started_ok; [exact (central_file_ok stored Hfile)|exact Hstart].
Qed.
End Kept.

(** C6. Whatever the connected peers send and however the server's work for them is interleaved, with each other
    and with shutdowns, and wherever their connections break off, over any number of runs that end at any point: every state it reaches has well-formed tables (unique
    keys, live references, no name both a file and a directory, numbers in range) and a directory cache that names only
    directories there are; this as long as no COMMIT fails. *)
Theorem central_lifetime config stored process s pool :
  central_file stored → started config stored process → life_steps (process, []) (s, pool) →
  db_ok (tx_db (cs_db (cp_server s))) ∧
  cache_ok (db_dirs (tx_db (cs_db (cp_server s)))) (tx_dir_cache (cs_db (cp_server s))) ∧
  map_Forall (λ id st, spi_storage_id (scc_peer st) = id) (cs_storages (cp_server s)).
Proof.
  intros Hfile Hstart Hsteps.
  by destruct (lifetime_kept (λ _, True) true_stable I config stored process s pool Hfile Hstart Hsteps) as [[[? ?] _] ?].
Qed.

(** ** Stopping *)

(** who comes first stops the router and the relay, the others do nothing; from then on a connection is
    closed and nothing is done for it *)
Theorem central_stops o n s :
  let out := run o n central_shutdown s in
  cp_server (out_state out) = cp_server s ∧ cp_exit (out_state out) = true ∧
  out_asked out = (if cp_exit s then [] else existT _ LNotify ::
    if cp_tasks s then [existT _ LRouterShutdown; existT _ LRelayShutdown] else [existT _ LTransportClose]) ∧
  ∀ o' n' connection requests broken, let out' := run o' n' (accept connection requests broken) (out_state out) in
    out_state out' = out_state out ∧ out_asked out' = [existT _ LUpgrade; existT _ (LClose connection)].
Proof.
  cbv zeta. assert (∀ s', cp_exit s' = true → ∀ o' n' connection requests broken,
    out_state (run o' n' (accept connection requests broken) s') = s' ∧
    out_asked (run o' n' (accept connection requests broken) s') = [existT _ LUpgrade; existT _ (LClose connection)]) as Haccept.
  { intros s' Hexit o' n' connection requests broken. unfold accept. rewrite run_bind, run_ask. cbv zeta. cbn [out_value out_state out_asked].
    destruct (o' n' bool LUpgrade); cbn [negb]; [|done]. rewrite run_bind. unfold process_exiting. rewrite run_atomic.
    cbv zeta. cbn [out_value out_state out_asked fst snd]. rewrite Hexit. done. }
  assert (cp_exit (out_state (run o n central_shutdown s)) = true ∧ cp_server (out_state (run o n central_shutdown s)) = cp_server s ∧
    out_asked (run o n central_shutdown s) = (if cp_exit s then [] else existT _ LNotify ::
      if cp_tasks s then [existT _ LRouterShutdown; existT _ LRelayShutdown] else [existT _ LTransportClose])) as (Hexit & Hserver & Hasked).
  { unfold central_shutdown, tasks_shutdown. destruct s as [server [] []]; done. }
  split_and!; [done..|]. by apply Haccept.
Qed.
End Lifetime.

(** ** Two runs *)

Section TwoRuns.
#[local] Existing Instances plain_sqlite_text sequential_rowids sequential_rowid_laws plain_debug.

(** everything succeeds *)
Definition life_oracle : Oracle LifeQuery := λ _ B q,
  match q in LifeQuery B return B with
  | @LCentral B q =>
      match q in CentralQuery B return B with
      | QNow => 1000 | QTx => tx_env_ok | QRpc _ _ => Err NotFound | QSendEvent _ _ => Ok tt | QClose _ => tt
      end
  | LPemCerts _ => Ok [Ok tt]
  | LPemKey _ | LTlsProtocols | LSingleCert | LRelaySpawn _ | LSecretKey _ | LSignal | LInterrupt | LRouterShutdown => Ok tt
  | @LEndpointOf B q =>
      match q in EndpointQuery B return B with EPem _ => [] | ERelayUrl _ | EBindAddr _ | EBind _ => Ok tt end
  | LOpen => None
  | LUpgrade => true
  | LClose _ | LNotify | LRelayShutdown | LTransportClose | LPrint _ => tt
  | LEndpoint => ".."
  end.
Lemma life_oracle_ok n B (q : LifeQuery B) : life_answer_ok B q (life_oracle n B q).
Proof. destruct q as [B q| | | | | | | | | | | | | | | | | |]; try done. by destruct q. Qed.

Definition life_config : CentralConfig :=
  mkCentralConfig "/db" "key" 1 2 ["token"] (mkCentralRelayConfig "https://r" "t" 443 "/c" "/k" 7842).
Definition life_requests : list ProtocolRequest :=
  [ReqControl (RegisterClientRq None "token" FS0_VERSION); ReqControl (CreateVolumeRq "disk" 4096)].

(** a start, a client that makes a volume, and the file left *)
Definition run_once (stored : option CentralDb) : CentralProcess :=
  out_state (run life_oracle 0 (accept (mkConnection 1) life_requests None) (fresh_process life_config stored)).
Definition first_file : option CentralDb := Some (tx_db (cs_db (cp_server (run_once None)))).

Lemma life_started stored : started life_config stored (fresh_process life_config stored).
Proof.
  exists life_oracle, 0%nat. assert (out_value (run life_oracle 0 (CentralServer_run life_config stored) no_process) = Ok tt) as Hv
    by (vm_compute; reflexivity).
  split; [exact Hv|]. apply (CentralServer_run_Ok _ _ _ _ _ Hv).
Qed.

Lemma run_once_steps stored : ∃ pool, life_steps (fresh_process life_config stored, []) (run_once stored, pool).
Proof.
  destruct (run_all_steps life_answer_ok life_program life_oracle (λ requests, accept (mkConnection 1) requests None) [life_requests]
    (fresh_process life_config stored) life_oracle_ok) as (pool & Hsteps); [|by exists pool].
  apply Forall_singleton. left. exists (mkConnection 1), life_requests, None. split; [|by split].
  apply Forall_cons_2; [exact I|apply Forall_singleton; simpl; lia].
Qed.

(** the second run has the volumes of both *)
Lemma central_lifetime_witness :
  length (db_volumes (tx_db (cs_db (cp_server (run_once first_file))))) = 2%nat ∧ db_ok (tx_db (cs_db (cp_server (run_once first_file)))).
Proof.
  split; [vm_compute; reflexivity|].
  destruct (run_once_steps None) as (pool & Hsteps). destruct (run_once_steps first_file) as (pool' & Hsteps').
  exact (proj1 (central_lifetime life_config first_file _ _ pool'
    (file_left life_config None _ _ pool file_none (life_started None) Hsteps) (life_started first_file) Hsteps')).
Defined.
End TwoRuns.
