(* ===== verification/Namespace.v ===== *)
(** * The namespace the central server keeps

    What the tables of directories, files, bundles and events mean together: a set of directories, the files by id,
    each with its path, size and bundles, and the names that one who follows the change log believes in.  The
    specification is a transition system of five operations; every transaction of the handlers (request_handlers/client.rs,
    update.rs, storage.rs) makes the one its request names, or none, and so does every interleaving of them. *)

From S2P Require Import Prelude Types Paths DirCache CentralDb DirTree CentralInv Sample CentralDir.
From S2P Require Import CentralTables CentralFacts CentralRuns Link Conc CentralServer CentralHandlers.
From S2P Require Import CentralUpdate CentralSafety CentralFiles CentralReads Config CentralLife.

(** ** The specification *)

Abbreviation Path := (list string).

Record FileView := mkFileView { fv_path : Path; fv_size : Z; fv_bundles : list (Z * HashId) }.
Record Namespace := mkNamespace { ns_dirs : gset Path; ns_files : gmap Z FileView; ns_log : gmap Z string }.

(** the root alone *)
Definition ns_init : Namespace := mkNamespace {[ [] ]} ∅ ∅.

Inductive NsOp :=
| NsCreate (id : Z) (path : Path)
| NsWrite (id size : Z) (hashes : list HashId)
| NsDelete (id : Z)
| NsCopy (source id : Z) (path : Path)
| NsMove (id : Z) (path : Path).

(** the directories on the way to a path *)
Definition parents (path : Path) : list Path := map (λ n, take n path) (seq 0 (length path)).
Definition with_parents (path : Path) (dirs : gset Path) : gset Path := dirs ∪ list_to_set (parents path).

(** no directory is there, and no file is there or on the way; the file [moving] may be there *)
Definition path_free (ns : Namespace) (moving : option Z) (path : Path) : Prop :=
  path ≠ [] ∧ Forall (λ c, valid_component c = true) path ∧ (path ∉ ns_dirs ns) ∧
  map_Forall (λ id v, fv_path v `prefix_of` path → fv_path v = path ∧ moving = Some id) (ns_files ns).

Definition ns_allowed (op : NsOp) (ns : Namespace) : Prop :=
  match op with
  | NsCreate id path => ns_files ns !! id = None ∧ path_free ns None path
  | NsWrite id _ _ | NsDelete id => is_Some (ns_files ns !! id)
  | NsCopy source id path => is_Some (ns_files ns !! source) ∧ ns_files ns !! id = None ∧ path_free ns None path
  | NsMove id path => is_Some (ns_files ns !! id) ∧ path_free ns (Some id) path
  end.
#[export] Instance ns_allowed_dec op ns : Decision (ns_allowed op ns).
Proof. unfold ns_allowed, path_free. destruct op; apply _. Defined.

Fixpoint indexed (i : Z) (hashes : list HashId) : list (Z * HashId) :=
  match hashes with [] => [] | h :: hashes => (i, h) :: indexed (i + 1) hashes end.

(** the file [id] becomes [v], which the log tells *)
Definition ns_put (id : Z) (v : FileView) (ns : Namespace) : Namespace :=
  mkNamespace (with_parents (fv_path v) (ns_dirs ns)) (<[id := v]> (ns_files ns)) (<[id := render (fv_path v)]> (ns_log ns)).

Definition ns_effect (op : NsOp) (ns : Namespace) : Namespace :=
  let view id := default (mkFileView [] 0 []) (ns_files ns !! id) in
  match op with
  | NsCreate id path =>
      mkNamespace (with_parents path (ns_dirs ns)) (<[id := mkFileView path 0 []]> (ns_files ns)) (ns_log ns)
  | NsWrite id size hashes => ns_put id (mkFileView (fv_path (view id)) size (indexed 0 hashes)) ns
  | NsDelete id => mkNamespace (ns_dirs ns) (delete id (ns_files ns)) (delete id (ns_log ns))
  | NsCopy source id path => ns_put id (mkFileView path (fv_size (view source)) (fv_bundles (view source))) ns
  | NsMove id path => ns_put id (mkFileView path (fv_size (view id)) (fv_bundles (view id))) ns
  end.

(** [None] changes nothing *)
Definition ns_apply (op : option NsOp) (ns : Namespace) : option Namespace :=
  match op with
  | None => Some ns
  | Some op => if decide (ns_allowed op ns) then Some (ns_effect op ns) else None
  end.
Fixpoint ns_run (ops : list NsOp) (ns : Namespace) : option Namespace :=
  match ops with [] => Some ns | op :: ops => ns ← ns_apply (Some op) ns; ns_run ops ns end.

Lemma ns_run_snoc ops op ns ns' ns'' : ns_run ops ns = Some ns' → ns_apply (Some op) ns' = Some ns'' →
  ns_run (ops ++ [op]) ns = Some ns''.
Proof.
  revert ns. induction ops as [|o ops IH]; intros ns; cbn [ns_run app].
  - intros [= ->] ->. done.
  - intros (ns1 & -> & Hrun)%bind_Some Happ. by apply IH.
Qed.

(** ** Its invariant *)

Lemma parents_in (p path : Path) : p ∈ parents path ↔ p `prefix_of` path ∧ p ≠ path.
Proof.
  unfold parents. rewrite list_elem_of_fmap. setoid_rewrite elem_of_seq. split.
  - intros (n & -> & _ & Hn). split; [apply prefix_take|]. intros Heq%(f_equal length). rewrite length_take in Heq. lia.
  - intros [[k ->] Hne]. exists (length p). rewrite take_app_length. split; [done|].
    rewrite length_app. destruct k; [by rewrite app_nil_r in Hne|simpl; lia].
Qed.
Lemma with_parents_in (p path : Path) dirs : p ∈ with_parents path dirs ↔ p ∈ dirs ∨ p `prefix_of` path ∧ p ≠ path.
Proof. unfold with_parents. by rewrite elem_of_union, elem_of_list_to_set, parents_in. Qed.

Record ns_ok (ns : Namespace) : Prop := {
  nok_dirs : ∀ d p, d ∈ ns_dirs ns → p `prefix_of` d → p ∈ ns_dirs ns;
  nok_files : ∀ id v, ns_files ns !! id = Some v →
    fv_path v ≠ [] ∧ Forall (λ c, valid_component c = true) (fv_path v) ∧ (fv_path v ∉ ns_dirs ns) ∧ ∀ p, p `prefix_of` fv_path v → p ≠ fv_path v → p ∈ ns_dirs ns;
  nok_paths : ∀ id id' v v', ns_files ns !! id = Some v → ns_files ns !! id' = Some v' → fv_path v = fv_path v' → id = id';
  nok_log : ∀ id p, ns_log ns !! id = Some p → ∃ v, ns_files ns !! id = Some v ∧ p = render (fv_path v);
  nok_logged : ∀ id v, ns_files ns !! id = Some v → fv_size v ≠ 0 → ns_log ns !! id = Some (render (fv_path v)) }.

Lemma ns_init_ok : ns_ok ns_init.
Proof.
  split; intros *; cbn [ns_init ns_dirs ns_files ns_log]; try (by rewrite lookup_empty).
  intros ->%elem_of_singleton ->%prefix_nil_inv. by apply elem_of_singleton.
Qed.

(** a file comes to a free path, whether the log tells it or its size is zero *)
Lemma ns_place_ok ns id v log : ns_ok ns → path_free ns (Some id) (fv_path v) →
  (log = <[id := render (fv_path v)]> (ns_log ns) ∨ log = ns_log ns ∧ ns_files ns !! id = None ∧ fv_size v = 0) →
  ns_ok (mkNamespace (with_parents (fv_path v) (ns_dirs ns)) (<[id := v]> (ns_files ns)) log).
Proof.
  intros [Hdirs Hfiles Hpaths Hlog Hlogged] (Hne & Hv & Hnd & Hfree) Hl.
  assert (∀ i w, i ≠ id → ns_files ns !! i = Some w → ¬ fv_path w `prefix_of` fv_path v) as Hclear.
  { intros i w Hi Hw Hpre. destruct (Hfree i w Hw Hpre) as [_ [= ->]]. done. }
  split; cbn [ns_dirs ns_files ns_log].
  - intros d p. rewrite !with_parents_in. intros [Hd|[Hd Hd']] Hp; [left; by eapply Hdirs|].
    right. split; [by etrans|]. intros ->. by apply Hd', (anti_symm prefix).
  - intros i w [[<- <-]|[Hi Hw]]%lookup_insert_Some.
    + split; [done|]. split; [done|]. rewrite with_parents_in. split; [intros [?|[_ ?]]; done|]. intros p Hp Hp'. apply with_parents_in. by right.
    + destruct (Hfiles i w Hw) as (Hwne & Hwv & Hwd & Hwp). split; [done|]. split; [done|]. rewrite with_parents_in. split.
      * intros [?|[Hpre _]]; [done|]. by apply (Hclear i w).
      * intros p Hp Hp'. apply with_parents_in. left. by apply Hwp.
  - intros i i' w w' [[<- <-]|[Hi Hw]]%lookup_insert_Some [[<- <-]|[Hi' Hw']]%lookup_insert_Some Heq; [done|..|by eapply Hpaths].
    + destruct (Hclear i' w'); [done|done|by rewrite Heq].
    + destruct (Hclear i w); [done|done|by rewrite Heq].
  - intros i p Hp. destruct (decide (i = id)) as [->|Hi].
    + exists v. split; [apply lookup_insert_eq|]. destruct Hl as [->|(-> & Hnone & _)]; [by rewrite lookup_insert_eq in Hp; injection Hp|].
      destruct (Hlog id p Hp) as (w & Hw & _). by rewrite Hw in Hnone.
    + rewrite lookup_insert_ne by done. apply Hlog. destruct Hl as [->|(-> & _)]; [by rewrite lookup_insert_ne in Hp|done].
  - intros i w [[<- <-]|[Hi Hw]]%lookup_insert_Some Hsz.
    + destruct Hl as [->|(_ & _ & Hz)]; [by rewrite lookup_insert_eq|done].
    + destruct Hl as [->|(-> & _)]; [rewrite lookup_insert_ne by done|]; by apply Hlogged.
Qed.

Lemma path_free_any ns moving path : path_free ns None path → path_free ns moving path.
Proof.
  intros (Hne & Hv & Hd & Hfree). split_and!; [done..|]. intros id v Hv' Hpre. by destruct (Hfree id v Hv' Hpre).
Qed.
(** a file may be put where it is *)
Lemma path_free_own ns id v : ns_ok ns → ns_files ns !! id = Some v →
  path_free ns (Some id) (fv_path v).
Proof.
  intros Hok Hid. destruct (nok_files _ Hok id v Hid) as (Hne & Hv & Hd & Hp). split_and!; [done..|].
  intros i w Hw Hpre. destruct (decide (fv_path w = fv_path v)) as [Heq|Hne'].
  - by rewrite (nok_paths _ Hok i id w v Hw Hid Heq).
  - destruct (nok_files _ Hok i w Hw) as (_ & _ & [] & _). by apply Hp.
Qed.

Lemma ns_put_ok ns id v : ns_ok ns → path_free ns (Some id) (fv_path v) → ns_ok (ns_put id v ns).
Proof. intros Hok Hfree. apply ns_place_ok; [done|done|by left]. Qed.

Lemma ns_effect_ok op ns : ns_ok ns → ns_allowed op ns → ns_ok (ns_effect op ns).
Proof.
  intros Hok. destruct op as [id path|id size hashes|id|source id path|id path]; cbn [ns_allowed ns_effect].
  - intros [Hnone Hfree]. apply (ns_place_ok ns id (mkFileView path 0 [])); [done|by apply path_free_any|by right].
  - intros [v Hv]. rewrite Hv. apply ns_put_ok; [done|]. by apply (path_free_own ns id v).
  - intros [v Hv]. destruct Hok as [Hdirs Hfiles Hpaths Hlog Hlogged]. split; cbn [ns_dirs ns_files ns_log]; [done|..].
    + intros i w [_ Hw]%lookup_delete_Some. by eapply Hfiles.
    + intros i i' w w' [_ Hw]%lookup_delete_Some [_ Hw']%lookup_delete_Some. by eapply Hpaths.
    + intros i p [Hi (w & Hw & ->)%Hlog]%lookup_delete_Some. exists w. by rewrite lookup_delete_ne.
    + intros i w [Hi Hw]%lookup_delete_Some Hsz. rewrite lookup_delete_ne by done. by apply Hlogged.
  - intros (Hs & _ & Hfree). apply ns_put_ok; [done|]. by apply path_free_any.
  - intros [Hs Hfree]. by apply ns_put_ok.
Qed.

Lemma ns_apply_ok op ns ns' : ns_ok ns → ns_apply op ns = Some ns' → ns_ok ns'.
Proof.
  destruct op as [op|]; cbn [ns_apply]; [|by intros ? [= <-]]. case_decide; [|done]. intros Hok [= <-]. by apply ns_effect_ok.
Qed.
Lemma ns_run_ok ops ns ns' : ns_ok ns → ns_run ops ns = Some ns' → ns_ok ns'.
Proof.
  revert ns. induction ops as [|op ops IH]; intros ns Hok; cbn [ns_run]; [by intros [= <-]|].
  intros (ns1 & Happ & Hrun)%bind_Some. eapply IH; [|exact Hrun]. by eapply ns_apply_ok.
Qed.

(** ** What the tables show *)

(** one entry of the log, and the names all of them leave: what a reader of [get_file_change_logs] knows *)
Definition follow_entry (names : gmap Z string) (entry : FileChangeLog) : gmap Z string :=
  match fcl_file_id entry with
  | None => names
  | Some id =>
      match fcl_kind entry with
      | KDeleted => delete id names
      | _ => match fcl_new_path entry with Some path => <[id := path]> names | None => names end
      end
  end.
Definition log_names (entries : list FileChangeLog) : gmap Z string := foldl follow_entry ∅ entries.

Definition file_view (db : CentralDb) (id : Z) (v : FileView) : Prop :=
  ∃ f cs, find_file db id = Some f ∧ dir_at (db_dirs db) (f_dir_id f) cs ∧
    v = mkFileView (cs ++ [f_name f]) (f_size_bytes f) (bundle_ids db id).

Record represents (db : CentralDb) (ns : Namespace) : Prop := {
  rep_dirs : ∀ p, p ∈ ns_dirs ns ↔ ∃ id, dir_at (db_dirs db) id p;
  rep_files : ∀ id v, ns_files ns !! id = Some v ↔ file_view db id v;
  rep_log : ns_log ns = log_names (map log_of (db_file_events db)) }.

Lemma schema_represents : represents schema_db ns_init.
Proof.
  split; cbn [ns_init ns_dirs ns_files ns_log].
  - intros p. rewrite elem_of_singleton. split; [intros ->; exists ROOT_DIR_ID; constructor|].
    intros (id & Hat). destruct p as [|c p _] using rev_ind; [done|].
    by apply dir_at_snoc_inv in Hat as (parent & _ & [=]%list_elem_of_singleton).
  - intros id v. rewrite lookup_empty. split; [done|]. by intros (f & cs & Hf & _).
  - done.
Qed.

(** the four tables are the same *)
Definition same_names (db db' : CentralDb) : Prop :=
  db_dirs db' = db_dirs db ∧ db_files db' = db_files db ∧ db_file_bundles db' = db_file_bundles db ∧
  db_file_events db' = db_file_events db.

Lemma same_represents db db' ns : same_names db db' → represents db ns → represents db' ns.
Proof.
  intros (Hd & Hf & Hb & He) [Hdirs Hfiles Hlog]. split; [by rewrite Hd| |by rewrite He].
  intros id v. rewrite Hfiles. unfold file_view, find_file, bundle_ids, select_file_bundles. by rewrite Hd, Hf, Hb.
Qed.

Lemma file_view_unique db id v v' : db_ok db → file_view db id v → file_view db id v' → v = v'.
Proof.
  intros Hok (f & cs & Hf & Hat & ->) (f' & cs' & Hf' & Hat' & ->). rewrite Hf in Hf'. injection Hf' as <-.
  by rewrite (dir_at_path_unique _ _ _ _ (ok_dirs _ Hok) Hat Hat').
Qed.

(** a file whose rows stay keeps its view *)
Lemma file_view_same db db' id v : db_ok db → db_ok db' → db_dirs db ⊆ db_dirs db' →
  find_file db' id = find_file db id → bundle_ids db' id = bundle_ids db id → file_view db' id v ↔ file_view db id v.
Proof.
  intros Hok Hok' Hsub Hf Hb. unfold file_view. rewrite Hf, Hb. split; intros (f & cs & Hfind & Hat & ->).
  - pose proof Hfind as [Hin _]%find_file_Some; [|done]. destruct (file_dir_at _ f Hok Hin) as (cs' & Hat').
    exists f, cs'. split_and!; [done..|]. do 2 f_equal.
    eapply dir_at_path_unique; [by apply ok_dirs|exact Hat|]. by eapply dir_at_mono.
  - exists f, cs. split_and!; [done| |done]. by eapply dir_at_mono.
Qed.

(** the view of one file changes *)
Lemma put_files db db' (files : gmap Z FileView) id v : db_ok db' → (∀ i w, files !! i = Some w ↔ file_view db i w) → file_view db' id v →
  (∀ i w, i ≠ id → file_view db' i w ↔ file_view db i w) →
  ∀ i w, <[id := v]> files !! i = Some w ↔ file_view db' i w.
Proof.
  intros Hok' Hfiles Hv Hsame i w. destruct (decide (i = id)) as [->|Hi].
  - rewrite lookup_insert_eq. split; [by intros [= <-]|]. intros Hw. f_equal. by eapply file_view_unique.
  - by rewrite lookup_insert_ne, Hfiles, Hsame.
Qed.

(** the directories that lead to a file appear *)
Lemma put_dirs (ds new : list DirRow) (dirs : gset Path) cs id name : (∀ p, p ∈ dirs ↔ ∃ i, dir_at ds i p) →
  dirs_along ds (ds ++ new) cs → dir_at (ds ++ new) id cs →
  ∀ p, p ∈ with_parents (cs ++ [name]) dirs ↔ ∃ i, dir_at (ds ++ new) i p.
Proof.
  intros Hdirs Halong Hat p. rewrite with_parents_in, Hdirs. split.
  - intros [[i Hi]|[[Hp| ->]%prefix_snoc_inv Hne]]; [exists i; eapply dir_at_mono; [|exact Hi]; set_solver|by eapply dir_at_prefix|done].
  - intros [i [Hi|Hp]%Halong]; [left; by exists i|right]. split; [by apply prefix_app_r|].
    intros ->. apply prefix_length in Hp. rewrite length_app in Hp. simpl in Hp. lia.
Qed.

(** a directory and a file are not at one path *)
Lemma not_dir_and_file db f id cs : db_ok db → f ∈ db_files db → dir_at (db_dirs db) (f_dir_id f) cs →
  ¬ dir_at (db_dirs db) id (cs ++ [f_name f]).
Proof.
  intros Hok Hf Hat (parent & Hat' & Hin)%dir_at_snoc_inv. rewrite <- (dir_at_id_unique _ _ _ _ (ok_dirs _ Hok) Hat Hat') in Hin.
  pose proof (ok_files _ Hok) as Hfs. rewrite Forall_forall in Hfs. destruct (Hfs f Hf) as (_ & _ & _ & Hchild & _).
  rewrite dir_child_None in Hchild. by apply (Hchild id).
Qed.

(** ** A file comes to a path *)

(** [f] is at [cs], after the directories that were missing on the way *)
Definition placed (db : CentralDb) (new : list DirRow) (cs : list string) (f : FileRow) (db' : CentralDb) : Prop :=
  db_dirs db' = db_dirs db ++ new ∧ dirs_grown db new cs ∧ db_ok db' ∧ find_file db' (f_file_id f) = Some f ∧
  dir_at (db_dirs db') (f_dir_id f) cs ∧ Forall (λ c, valid_component c = true) (cs ++ [f_name f]) ∧
  ∀ i, i ≠ f_file_id f → find_file db' i = find_file db i.

Lemma placed_free db new cs f db' ns : db_ok db → represents db ns → placed db new cs f db' →
  path_free ns (Some (f_file_id f)) (cs ++ [f_name f]).
Proof.
  intros Hok Hrep (Hds & [Hgrown _] & Hok' & Hf & Hat & Hv & Hother). pose proof Hf as [Hin _]%find_file_Some; [|done].
  assert (db_dirs db ⊆ db_dirs db') as Hsub by (rewrite Hds; set_solver).
  split_and!; [by destruct cs|done| |].
  - intros (i & Hi)%(rep_dirs _ _ Hrep). eapply (not_dir_and_file db' f i cs); [done..|]. by eapply dir_at_mono.
  - intros i v Hview Hpre. apply (rep_files _ _ Hrep) in Hview as (g & ds & Hg & Hgat & ->). cbn [fv_path] in *.
    pose proof Hg as [Hgin Hgid]%find_file_Some; [|done]. apply prefix_snoc_inv in Hpre as [Hpre|Heq].
    + destruct (dir_at_prefix (db_dirs db') (f_dir_id f) cs (ds ++ [f_name g])) as (j & Hj); [done..|].
      rewrite Hds in Hj. exfalso. eapply (not_dir_and_file _ g j ds Hgrown); [done| |done].
      eapply dir_at_mono; [|exact Hgat]. simpl. set_solver.
    + split; [done|]. f_equal. destruct (decide (i = f_file_id f)) as [->|Hi]; [done|].
      pose proof (Hother i Hi) as Hg'. rewrite Hg in Hg'. pose proof Hg' as [Hgin' _]%find_file_Some; [|done].
      apply app_inj_tail in Heq as [-> Hname].
      assert (g = f) as ->; [|done].
      eapply (NoDup_map_inj file_key); [by apply ok_file_keys, Hok'|done..|]. unfold file_key. f_equal; [|done].
      eapply (dir_at_id_unique (db_dirs db')); [by apply ok_dirs| |exact Hat]. by eapply dir_at_mono.
Qed.

Lemma placed_represents db new cs f db' ns log : db_ok db → represents db ns → placed db new cs f db' →
  log = log_names (map log_of (db_file_events db')) → (∀ i, i ≠ f_file_id f → bundle_ids db' i = bundle_ids db i) →
  represents db' (mkNamespace (with_parents (cs ++ [f_name f]) (ns_dirs ns))
    (<[f_file_id f := mkFileView (cs ++ [f_name f]) (f_size_bytes f) (bundle_ids db' (f_file_id f))]> (ns_files ns)) log).
Proof.
  intros Hok Hrep (Hds & [_ Halong] & Hok' & Hf & Hat & Hv & Hother) Hlog Hb. split; cbn [ns_dirs ns_files ns_log]; [|..|done].
  - rewrite Hds in Hat |- *. by eapply put_dirs; [apply Hrep|exact Halong|exact Hat].
  - apply (put_files db); [done|apply Hrep|by exists f, cs|].
    intros i w Hi. apply file_view_same; [done|done|rewrite Hds; set_solver|by apply Hother|by apply Hb].
Qed.

(** what the event and the bundles do leaves the file where it is *)
Lemma placed_after db new cs f db1 db' : placed db new cs f db1 → db_ok db' → db_dirs db' = db_dirs db1 →
  (∀ i, find_file db' i = find_file db1 i) → placed db new cs f db'.
Proof.
  intros (Hds & Hgrown & _ & Hf & Hat & Hv & Hother) Hok' Hds' Hfind. split_and!; [by rewrite Hds'|done|done|by rewrite Hfind|by rewrite Hds'|done|].
  intros i Hi. by rewrite Hfind, Hother.
Qed.

Lemma path_free_new ns id path : ns_files ns !! id = None → path_free ns (Some id) path → path_free ns None path.
Proof.
  intros Hnone (Hne & Hv & Hd & Hfree). split_and!; [done..|]. intros i v Hiv Hpre. destruct (Hfree i v Hiv Hpre) as [_ [= ->]]. congruence.
Qed.

(** an answer that describes the file [id] *)
Definition describes (ns : Namespace) (record : FileRecord) (id : Z) : Prop :=
  fr_file_id record = id ∧ ∃ v, ns_files ns !! id = Some v ∧ fr_path record = render (fv_path v) ∧ fr_size_bytes record = fv_size v.

Lemma describes_put ns cs f v : fv_path v = cs ++ [f_name f] → fv_size v = f_size_bytes f →
  describes (ns_put (f_file_id f) v ns) (record_of cs f) (f_file_id f).
Proof. intros Hp Hs. split; [done|]. exists v. cbn [ns_put ns_files]. rewrite lookup_insert_eq, Hp, Hs. done. Qed.

(** *** and the log tells *)

Lemma log_names_snoc entries entry : log_names (entries ++ [entry]) = follow_entry (log_names entries) entry.
Proof. unfold log_names. by rewrite foldl_app. Qed.

Abbreviation log_known db := (log_names (map log_of (db_file_events db))).

Lemma event_followed db kind target fid now db' : event_added db kind target fid now db' →
  log_known db' = follow_entry (log_known db) (mkFileChangeLog 0 kind fid ((λ t, path_of_target t.1 t.2) <$> target) now).
Proof.
  intros (eid & _ & -> & _). cbn [set_file_events db_file_events]. rewrite map_app. cbn [map]. rewrite log_names_snoc.
  unfold follow_entry, log_of. cbn [fcl_file_id fcl_kind fcl_new_path e_event_type]. by destruct kind, target as [[d n]|].
Qed.

Lemma event_told db kind cs name id now db' : kind ≠ KDeleted → Forall (λ c, valid_component c = true) cs →
  event_added db kind (Some (render cs, name)) (Some id) now db' → log_known db' = <[id := render (cs ++ [name])]> (log_known db).
Proof.
  intros Hkind Hcs ->%event_followed. unfold follow_entry. cbn [fcl_file_id fcl_kind fcl_new_path fmap option_fmap option_map fst snd].
  rewrite target_path by done. by destruct kind.
Qed.

(** so a file that is placed and told is put *)
Lemma placed_told db new cs f db1 kind now db' ns v : db_ok db → represents db ns → placed db new cs f db' →
  event_added db1 kind (Some (render cs, f_name f)) (Some (f_file_id f)) now db' → kind ≠ KDeleted →
  db_file_events db1 = db_file_events db → (∀ i, i ≠ f_file_id f → bundle_ids db' i = bundle_ids db i) →
  v = mkFileView (cs ++ [f_name f]) (f_size_bytes f) (bundle_ids db' (f_file_id f)) → represents db' (ns_put (f_file_id f) v ns).
Proof.
  intros Hok Hrep Hplaced Hev Hkind Hevents Hb ->. apply (placed_represents db new); [done..| |done].
  cbn [fv_path]. destruct Hplaced as (_ & _ & _ & _ & _ & [Hcs _]%Forall_app & _).
  by rewrite (rep_log _ _ Hrep), (event_told _ _ _ _ _ _ _ Hkind Hcs Hev), Hevents.
Qed.

(** ** Every transaction makes its operation *)

Section Refinement.
Context `{SqliteText, RowIds, !RowIdLaws, DebugResponse}.

(** the path of a file that is found by path *)
Lemma file_of_path_at db path f : db_ok db → file_of_path db path = Ok f →
  ∃ cs, path = render (cs ++ [f_name f]) ∧ f ∈ db_files db ∧ dir_at (db_dirs db) (f_dir_id f) cs.
Proof.
  intros Hok. unfold file_of_path. destruct (split_fs0_path_dir_and_name path) as [[d n]|] eqn:Hsplit; [|done].
  rewrite Ok_bind. intros (id & Hid & Hf%ok_or_Ok)%Result_bind_Ok. apply find_file_by_name_Some in Hf as [Hin [= <- <-]]; [|done].
  apply dir_id_of_path_Ok in Hid as (ds & -> & Hvd & Hat); [|by apply ok_dirs].
  apply split_dir_and_name_render in Hsplit as (cs & -> & Hren & Hv). exists cs. split_and!; [done..|].
  apply render_inj in Hren as ->; [done|done|by apply Forall_app in Hv as [? _]].
Qed.

Lemma view_of db ns f cs : db_ok db → represents db ns → f ∈ db_files db → dir_at (db_dirs db) (f_dir_id f) cs →
  ns_files ns !! f_file_id f = Some (mkFileView (cs ++ [f_name f]) (f_size_bytes f) (bundle_ids db (f_file_id f))).
Proof. intros Hok Hrep Hin Hat. apply (rep_files _ _ Hrep). exists f, cs. split_and!; [by apply find_file_Some|done..]. Qed.
Lemma file_path_valid db f cs : db_ok db → f ∈ db_files db → dir_at (db_dirs db) (f_dir_id f) cs →
  Forall (λ c, valid_component c = true) (cs ++ [f_name f]).
Proof.
  intros Hok Hin Hat. apply Forall_app. split; [by eapply dir_at_valid; [apply ok_dirs|]|]. apply Forall_singleton.
  pose proof (ok_files _ Hok) as Hfs. rewrite Forall_forall in Hfs. apply (Hfs f Hin).
Qed.
Lemma no_view db ns id : represents db ns → (id ∉ file_ids db) → ns_files ns !! id = None.
Proof.
  intros Hrep Hid%find_file_None. destruct (ns_files ns !! id) as [v|] eqn:Hv; [|done].
  apply (rep_files _ _ Hrep) in Hv as (f & cs & Hf & _). congruence.
Qed.

Lemma added_placed db path f db' : db_ok db → file_added db path f db' →
  ∃ new cs, path = render (cs ++ [f_name f]) ∧ placed db new cs f db' ∧
    db_file_events db' = db_file_events db ∧ ∀ i, bundle_ids db' i = bundle_ids db i.
Proof.
  intros Hok Hadd. pose proof (λ i, find_file_added _ _ _ _ i Hok Hadd) as Hfind.
  destruct Hadd as (new & cs & Hdb & Hp & Hv & Hat & Hni & Hok' & Hgrown). exists new, cs. split_and!; [done| | |].
  - split_and!; [by rewrite Hdb|done|done|by rewrite Hfind, bool_decide_true|done|done|].
    intros i Hi. by rewrite Hfind, bool_decide_false.
  - by rewrite Hdb.
  - intros i. by rewrite Hdb.
Qed.

Lemma create_refines db path f db' ns : db_ok db → represents db ns → file_added db path f db' → f_size_bytes f = 0 →
  ∃ p, path = render p ∧ ns_allowed (NsCreate (f_file_id f) p) ns ∧ represents db' (ns_effect (NsCreate (f_file_id f) p) ns).
Proof.
  intros Hok Hrep Hadd Hsz. destruct (file_added_facts _ _ _ _ Hok Hadd) as (_ & _ & _ & Hfresh & _).
  assert (ns_files ns !! f_file_id f = None) as Hnone.
  { apply (no_view _ _ _ Hrep). by destruct Hadd as (? & ? & _ & _ & _ & _ & ? & _). }
  destruct (added_placed _ _ _ _ Hok Hadd) as (new & cs & -> & Hplaced & Hev & Hb). exists (cs ++ [f_name f]). split; [done|]. split.
  - split; [done|]. by eapply path_free_new, placed_free.
  - cbn [ns_effect]. pose proof (placed_represents db new cs f db' ns (ns_log ns) Hok Hrep Hplaced) as Hrep'. rewrite Hsz in Hrep'.
    assert (bundle_ids db' (f_file_id f) = []) as Hempty.
    { unfold bundle_ids, select_file_bundles. rewrite (proj2 (filter_nil_iff _ _)); [done|]. intros b Hin Heq. by apply (Hfresh b). }
    rewrite Hempty in Hrep'. apply Hrep'; [by rewrite Hev; apply Hrep|by intros].
Qed.
(** only the leases change after the file is opened *)
Lemma begin_refines request volume_id now s lease s' ns : tx_ok s → represents (tx_db s) ns → 0 ≤ now → 0 ≤ bur_offset request →
  Update.begin_update_tx request volume_id now s = (Ok lease, s') →
  ∃ p, bur_path request = render p ∧
    ((∃ v, ns_files ns !! ul_file_id lease = Some v ∧ fv_path v = p) ∧ represents (tx_db s') ns ∨
     ns_allowed (NsCreate (ul_file_id lease) p) ns ∧ represents (tx_db s') (ns_effect (NsCreate (ul_file_id lease) p) ns)).
Proof.
  intros [Hok Hc] Hrep Hn Ho Hrun. destruct (begin_update_run request volume_id now s Hok Hc Hn Ho) as (r & db' & c' & Hrun' & _ & Hb).
  rewrite Hrun in Hrun'. injection Hrun' as <- ->. destruct Hb as (f & base & db0 & Hopen & _ & _ & _ & -> & _ & _ & _ & _ & _ & _ & _ & Hdb' & _).
  assert (same_names db0 db') as Hsame by (by rewrite Hdb').
  destruct Hopen as [(Hf & _ & _ & ->)|(_ & _ & _ & Hsz & Hadd)].
  - destruct (file_of_path_at _ _ _ Hok Hf) as (cs & Hp & Hin & Hat). exists (cs ++ [f_name f]). split; [done|]. left.
    split; [|by eapply same_represents]. eexists. split; [by eapply view_of|done].
  - destruct (create_refines _ _ _ _ _ Hok Hrep Hadd Hsz) as (p & Hp & Hallowed & Hrep'). exists p. split; [done|]. right.
    split; [done|]. by eapply same_represents.
Qed.

Lemma indexed_numbered id i hashes : map (λ b, (fb_bundle_index b, fb_bundle_id b)) (numbered id i hashes) = indexed i hashes.
Proof. revert i. induction hashes as [|h hashes IH]; intros i; simpl; [done|]. by rewrite IH. Qed.

Lemma commit_refines request now now_lease s record s' ns : tx_ok s → represents (tx_db s) ns → commit_request_ok request → 0 ≤ now →
  Update.commit_update_tx request now now_lease s = (Ok record, s') →
  let op := NsWrite (cur_file_id request) (cur_new_size request) (map cb_bundle_id (cur_bundles request)) in
  ns_allowed op ns ∧ represents (tx_db s') (ns_effect op ns) ∧ describes (ns_effect op ns) record (cur_file_id request).
Proof.
  intros [Hok Hc] Hrep Hreq Hn Hrun. destruct (commit_outcome request now now_lease s record s' Hok Hc Hreq Hn Hrun)
    as (f & lens & cs & (_ & Hf & _) & Hat & Hev & -> & Hsel).
  pose proof Hf as [Hin Hid]%find_file_Some; [|done]. pose proof (view_of _ _ _ _ Hok Hrep Hin Hat) as Hview. rewrite Hid in Hview.
  split; [by eexists|]. cbn [ns_effect]. rewrite Hview. cbn [default fv_path].
  split; [|rewrite <- Hid; by apply (describes_put ns cs (resized (cur_new_size request) (zsum (map snd lens)) now f))].
  pose proof (event_added_same _ _ _ _ _ _ Hev) as (Hfind & Hb & Hds & Hfl & _ & _ & Hok').
  set (h := resized (cur_new_size request) (zsum (map snd lens)) now) in *.
  assert (∀ i, find_file (tx_db s') i = if bool_decide (i = cur_file_id request) then Some (h f) else find_file (tx_db s) i) as Hmap.
  { intros i. by apply find_file_mapped. }
  assert (represents (tx_db s') (ns_put (f_file_id (h f)) (mkFileView (cs ++ [f_name (h f)]) (f_size_bytes (h f))
    (bundle_ids (tx_db s') (f_file_id (h f)))) ns)) as Hrep'.
  { change (f_name f) with (f_name (h f)) in Hev. rewrite <- Hid in Hev. eapply (placed_told (tx_db s) []); [done..| |exact Hev| | | |done].
    - unfold h. split_and!; [by rewrite app_nil_r| |done|by rewrite Hmap, bool_decide_true| | |].
      + split; [by rewrite app_nil_r, set_dirs_id|rewrite app_nil_r; apply dirs_along_refl].
      + by rewrite Hds.
      + by apply (file_path_valid (tx_db s) f).
      + intros i Hi. rewrite Hmap, bool_decide_false; [done|]. by rewrite <- Hid.
    - unfold commit_kind. by case_bool_decide.
    - done.
    - intros i Hi. apply bundle_ids_same. rewrite Hb. apply (select_file_bundles_other (tx_db s)). by rewrite <- Hid. }
  cbn [h resized f_file_id f_name f_size_bytes] in Hrep'. rewrite Hid in Hrep'. unfold bundle_ids in Hrep' at 1.
  by rewrite Hsel, indexed_numbered in Hrep'.
Qed.
Lemma delete_refines fid now s s' ns : tx_ok s → represents (tx_db s) ns → 0 ≤ now → Client.delete_file_tx fid now s = (Ok tt, s') →
  ns_allowed (NsDelete fid) ns ∧ represents (tx_db s') (ns_effect (NsDelete fid) ns).
Proof.
  intros [Hok Hc] Hrep Hn Hrun. destruct (delete_file_effect fid now s _ _ Hok Hn Hrun) as [Heffect _].
  destruct (Heffect eq_refl) as ((f & -> & Hin)%list_elem_of_fmap & Hev & Hgone & Hother). destruct (file_dir_at _ f Hok Hin) as (cs & Hat).
  split; [eexists; by eapply view_of|]. pose proof (event_added_same _ _ _ _ _ _ Hev) as (_ & _ & Hds & _ & _ & _ & Hok').
  split; cbn [ns_effect ns_dirs ns_files ns_log].
  - rewrite Hds. apply Hrep.
  - intros i v. destruct (decide (i = f_file_id f)) as [->|Hi].
    + rewrite lookup_delete_eq. split; [done|]. intros (g & ds & Hg & _). congruence.
    + rewrite lookup_delete_ne, (rep_files _ _ Hrep) by done. symmetry. destruct (Hother i Hi). by apply file_view_same; [..|rewrite Hds| |].
  - rewrite (event_followed _ _ _ _ _ _ Hev), (rep_log _ _ Hrep). done.
Qed.

Lemma copy_refines source path now s record s' ns : tx_ok s → represents (tx_db s) ns → 0 ≤ now →
  Client.copy_file_tx source path now s = (Ok record, s') →
  ∃ p, path = render p ∧ ns_allowed (NsCopy source (fr_file_id record) p) ns ∧
    represents (tx_db s') (ns_effect (NsCopy source (fr_file_id record) p) ns) ∧
    describes (ns_effect (NsCopy source (fr_file_id record) p) ns) record (fr_file_id record).
Proof.
  intros [Hok Hc] Hrep Hn Hrun. destruct (copy_outcome source path now s record s' Hok Hc Hn Hrun)
    as (g & f & db1 & cs & Hg & Hadd & Hsz & _ & _ & _ & Hp & Hv & Hev & ->). cbn [record_of fr_file_id].
  destruct (file_added_facts _ _ _ _ Hok Hadd) as (Hok1 & _ & _ & Hfresh & _).
  assert (ns_files ns !! f_file_id f = None) as Hnone.
  { apply (no_view _ _ _ Hrep). by destruct Hadd as (? & ? & _ & _ & _ & _ & ? & _). }
  destruct (added_placed _ _ _ _ Hok Hadd) as (new & cs' & Hp' & Hplaced & Hev1 & Hb1).
  assert (cs' ++ [f_name f] = cs ++ [f_name f]) as [-> _]%app_inj_tail
    by (apply render_inj; [by destruct Hplaced as (_ & _ & _ & _ & _ & ? & _)|done|congruence]).
  destruct (select_bundles_copied db1 source (f_file_id f) Hok1 Hfresh) as [Hsel Hother].
  pose proof (event_added_same _ _ _ _ _ _ Hev) as (Hf3 & Hb3 & Hd3 & _ & _ & _ & Hok3).
  apply (placed_after _ _ _ _ _ _ Hplaced Hok3 Hd3) in Hf3 as Hplaced3.
  pose proof Hg as [Hgin Hgid]%find_file_Some; [|done]. destruct (file_dir_at _ g Hok Hgin) as (gcs & Hgat).
  pose proof (view_of _ _ _ _ Hok Hrep Hgin Hgat) as Hview. rewrite Hgid in Hview.
  exists (cs ++ [f_name f]). split; [done|]. split.
  - split; [by eexists|]. split; [done|]. by apply (path_free_new ns (f_file_id f)), (placed_free (tx_db s) new cs f db1).
  - cbn [ns_effect]. rewrite Hview. cbn [default fv_size fv_bundles]. split; [|by apply describes_put].
    eapply (placed_told (tx_db s) new); [done..|exact Hev|done|done| |].
    + intros i Hi. rewrite <- Hb1. apply bundle_ids_same. rewrite Hb3. by apply Hother.
    + rewrite <- Hsz. f_equal. rewrite <- Hb1. unfold bundle_ids. rewrite Hb3. setoid_rewrite Hsel. by rewrite map_map.
Qed.

Lemma move_refines fid path now s record s' ns : tx_ok s → represents (tx_db s) ns → 0 ≤ now →
  Client.rename_file_tx fid path now s = (Ok record, s') →
  ∃ p, path = render p ∧ ns_allowed (NsMove fid p) ns ∧ represents (tx_db s') (ns_effect (NsMove fid p) ns) ∧
    describes (ns_effect (NsMove fid p) ns) record fid.
Proof.
  intros [Hok Hc] Hrep Hn Hrun. destruct (rename_outcome fid path now s record s' Hok Hc Hn Hrun) as (f & db1 & cs & Hmoved & Hp & Hv & Hev & ->).
  destruct Hmoved as (new & cs' & g & Hg & Hf & Hdb & Hp' & Hv' & Hat & Hok1 & Hgrown).
  assert (cs' ++ [f_name f] = cs ++ [f_name f]) as [-> _]%app_inj_tail by (apply render_inj; [done|done|congruence]).
  pose proof Hg as [Hgin Hgid]%find_file_Some; [|done]. assert (f_file_id f = fid) as <- by (rewrite Hf; exact Hgid).
  destruct (file_dir_at _ g Hok Hgin) as (gcs & Hgat).
  pose proof (view_of _ _ _ _ Hok Hrep Hgin Hgat) as Hview. rewrite Hgid in Hview.
  assert (∀ i, find_file db1 i = if bool_decide (i = f_file_id f) then Some f else find_file (tx_db s) i) as Hfind.
  { intros i. pose proof (find_file_mapped (tx_db s) db1 (f_file_id f) (moved (f_dir_id f) (f_name f) now) g i) as Hm. rewrite <- Hf in Hm. apply Hm; try done. by rewrite Hdb. }
  assert (∀ i, bundle_ids db1 i = bundle_ids (tx_db s) i) as Hb1 by (intros i; by rewrite Hdb).
  assert (placed (tx_db s) new cs f db1) as Hplaced.
  { split_and!; [by rewrite Hdb|done|done|by rewrite Hfind, bool_decide_true|done|done|]. intros i Hi. by rewrite Hfind, bool_decide_false. }
  pose proof (event_added_same _ _ _ _ _ _ Hev) as (Hf3 & Hb3 & Hd3 & _ & _ & _ & Hok3).
  apply (placed_after _ _ _ _ _ _ Hplaced Hok3 Hd3) in Hf3 as Hplaced3.
  assert (∀ i, bundle_ids (tx_db s') i = bundle_ids (tx_db s) i) as Hb by (intros i; rewrite <- Hb1; by apply bundle_ids_same).
  exists (cs ++ [f_name f]). split; [done|]. split; [split; [by eexists|by apply (placed_free (tx_db s) new cs f db1)]|].
  cbn [ns_effect]. rewrite Hview. cbn [default fv_size fv_bundles]. split; [|apply describes_put; [done|by rewrite Hf]].
  eapply (placed_told (tx_db s) new); [done..|exact Hev|done|by rewrite Hdb|by intros|]. rewrite Hb. f_equal. by rewrite Hf.
Qed.

(** *** The transactions that leave the namespace alone *)

(** the four tables are the same, and the leases [P] are still there *)
Definition spares {A} (P : LeaseTuple → Prop) (body : Tx A) : Prop := ∀ s a s', body s = (Ok a, s') →
  same_names (tx_db s) (tx_db s') ∧ ∀ l, P l → l ∈ db_update_leases (tx_db s) → l ∈ db_update_leases (tx_db s').

Lemma spares_pure {A} P (r : Fs0Result A) : spares P (st_lift r).
Proof. by intros s a s' [= _ <-]. Qed.
Lemma spares_query {A} P (q : CentralDb → A) : spares P (query q).
Proof. by intros s a s' [= _ <-]. Qed.
Lemma spares_cache {A} P (f : DirCacheState → A * DirCacheState) : spares P (with_cache f).
Proof. intros s a s'. unfold with_cache. destruct (f _). by intros [= _ <-]. Qed.
Lemma spares_sql {A} (P : LeaseTuple → Prop) (stmt : Stmt A) :
  (∀ db a db', stmt db = Ok (a, db') →
     same_names db db' ∧ ∀ l, P l → l ∈ db_update_leases db → l ∈ db_update_leases db') → spares P (sql stmt).
Proof. intros Hstmt s a s'. unfold sql. destruct (stmt _) as [[x db]|e] eqn:Hs; [|done]. intros [= _ <-]. by eapply Hstmt. Qed.
Lemma spares_bind {A B} P (m : Tx A) (f : A → Tx B) : spares P m → (∀ a, spares P (f a)) → spares P (m ≫= f).
Proof.
  intros Hm Hf s b s' (a & s1 & [(? & ? & ? & ?) Hl]%Hm & [(? & ? & ? & ?) Hl']%Hf)%ST_bind_Ok.
  split; [split_and!; by etrans|]. intros l Hp Hin. by apply Hl', Hl.
Qed.
Lemma spares_map_err {A} P g (m : Tx A) : spares P m → spares P (st_map_err g m).
Proof. intros Hm s a s'. unfold st_map_err. destruct (m s) as [[x|e] s1] eqn:Hs; [|done]. intros [= -> ->]. by eapply Hm. Qed.

Ltac spares_step :=
  match goal with
  | |- spares _ (mret ?a) => exact (spares_pure _ (Ok a))
  | |- spares _ (st_fail ?e) => exact (spares_pure _ (Err e))
  | |- spares _ (st_lift _) => apply spares_pure
  | |- spares _ (query _) => apply spares_query
  | |- spares _ (with_cache _) => apply spares_cache
  | |- spares _ (st_map_err _ _) => apply spares_map_err
  | |- spares _ (_ ≫= _) => apply spares_bind; [|intros ?]
  | |- spares _ (match ?x with _ => _ end) => destruct x
  | |- spares _ (sql _) => apply spares_sql; intros ? ? ?; try (by intros [= _ <-])
  end.
Ltac spares := repeat spares_step.

Lemma volume_offset_spares P volume_id offset : spares P (update_volume_offset volume_id offset).
Proof. unfold update_volume_offset, get_volume. spares. Qed.
Lemma register_volumes_spares P volumes : spares P (register_volumes volumes).
Proof.
  induction volumes as [|v volumes IH]; cbn [register_volumes]; unfold get_volume; spares; try apply volume_offset_spares. exact IH.
Qed.
Lemma list_directory_spares P dir limit cursor : spares P (list_directory dir limit cursor).
Proof.
  assert (∀ names id path, spares P (get_dir_id_loop names id path)) as Hloop.
  { induction names as [|n names IH]; intros id path; cbn [get_dir_id_loop]; unfold get_dir_id_step, select_dir_id; spares; apply IH. }
  unfold list_directory, get_dir_id_by_path. spares. apply Hloop.
Qed.
Lemma report_spares P events : spares P (Storage.report_bundle_replica_tx events).
Proof.
  unfold Storage.report_bundle_replica_tx. induction events as [|e events IH]; cbn [st_for]; [spares|]. apply spares_bind; [|by intros].
  unfold Storage.report_event, insert_bundle_replica, delete_bundle_replica. spares.
  unfold upsert_replica_row. repeat case_bool_decide; by intros [= _ <-].
Qed.
Lemma create_volume_spares P name max : spares P (create_volume name max).
Proof.
  unfold create_volume, get_volume. spares. unfold insert_volume. destruct (autoincrement_rowid _ _); [|done]. by intros [= _ <-].
Qed.
Lemma delete_lease_spares lease_id : spares (λ l, l_lease_id l ≠ lease_id) (delete_update_lease lease_id).
Proof.
  intros s [] s' (? & ? & (-> & -> & _)%lift_u64_inv & [= <-])%ST_bind_Ok. split; [done|]. intros l Hl Hin. by apply list_elem_of_filter.
Qed.
Lemma lease_volume_spares P lease_id file_id now : spares P (active_update_lease_volume lease_id file_id now).
Proof. unfold active_update_lease_volume. spares. Qed.
Lemma abort_spares lease_id file_id now : spares (λ l, l_lease_id l ≠ lease_id) (Update.abort_update_tx lease_id file_id now).
Proof.
  unfold Update.abort_update_tx. apply spares_bind; [apply lease_volume_spares|]. intros v.
  apply spares_bind; [apply delete_lease_spares|]. intros _. spares.
Qed.

(** ** The refinement *)

(** the operation a transaction makes, and what its answer says of it *)
Definition tx_op {A} (ns : Namespace) (t : HandlerTx A) : A → option NsOp → Prop :=
  match t in HandlerTx A return A → option NsOp → Prop with
  | HtBeginUpdate request _ _ => λ lease op, ∃ path, bur_path request = render path ∧
      (op = Some (NsCreate (ul_file_id lease) path) ∨
       op = None ∧ ∃ v, ns_files ns !! ul_file_id lease = Some v ∧ fv_path v = path)
  | HtCommitUpdate request _ _ => λ record op,
      let write := NsWrite (cur_file_id request) (cur_new_size request) (map cb_bundle_id (cur_bundles request)) in
      op = Some write ∧ describes (ns_effect write ns) record (cur_file_id request)
  | HtDeleteFile id _ => λ _ op, op = Some (NsDelete id)
  | HtCopyFile source target _ => λ record op, ∃ path, target = render path ∧
      let copy := NsCopy source (fr_file_id record) path in
      op = Some copy ∧ describes (ns_effect copy ns) record (fr_file_id record)
  | HtRenameFile id target _ => λ record op, ∃ path, target = render path ∧
      op = Some (NsMove id path) ∧ describes (ns_effect (NsMove id path) ns) record id
  | _ => λ _ op, op = None
  end.

Lemma spared_refines {A} P (t : HandlerTx A) s a s' ns : spares P (tx_body t) → tx_body t s = (Ok a, s') → represents (tx_db s) ns →
  tx_op ns t a None → ∃ op ns', tx_op ns t a op ∧ ns_apply op ns = Some ns' ∧ represents (tx_db s') ns'.
Proof. intros Hs Hrun Hrep Hop. exists None, ns. split_and!; [done..|]. eapply same_represents; [|exact Hrep]. by eapply Hs. Qed.

Lemma made_refines {A} (t : HandlerTx A) a op s' ns : ns_allowed op ns → represents (tx_db s') (ns_effect op ns) → tx_op ns t a (Some op) →
  ∃ op ns', tx_op ns t a op ∧ ns_apply op ns = Some ns' ∧ represents (tx_db s') ns'.
Proof. intros Hallowed Hrep Hop. exists (Some op), (ns_effect op ns). cbn [ns_apply]. rewrite decide_True by done. done. Qed.

Lemma tx_refines {A} (t : HandlerTx A) s a s' ns : tx_values t → tx_ok s → represents (tx_db s) ns → tx_body t s = (Ok a, s') →
  ∃ op ns', tx_op ns t a op ∧ ns_apply op ns = Some ns' ∧ represents (tx_db s') ns'.
Proof.
  intros Hv Hok Hrep Hrun. destruct t.
  - destruct Hv as [Ho Hn]. destruct (begin_refines _ _ _ _ _ _ ns Hok Hrep Hn Ho Hrun) as (p & Hp & [[Hv Hrep']|[Hallowed Hrep']]).
    + exists None, ns. split_and!; [exists p; eauto|done|done].
    + eapply made_refines; [done..|]. exists p. eauto.
  - by eapply spared_refines; [apply delete_lease_spares|..].
  - eapply (spared_refines (λ _, True)); [|done..]. apply spares_map_err, lease_volume_spares.
  - destruct Hv as [Hreq Hn]. destruct (commit_refines _ _ _ _ _ _ ns Hok Hrep Hreq Hn Hrun) as (Hallowed & Hrep' & Hd). by eapply made_refines.
  - by eapply spared_refines; [apply abort_spares|..].
  - by eapply spared_refines; [apply (create_volume_spares (λ _, True))|..].
  - by eapply spared_refines; [apply (report_spares (λ _, True))|..].
  - by eapply spared_refines; [apply (volume_offset_spares (λ _, True))|..].
  - by eapply spared_refines; [apply (register_volumes_spares (λ _, True))|..].
  - by eapply spared_refines; [apply (list_directory_spares (λ _, True))|..].
  - destruct a. destruct (delete_refines _ _ _ _ ns Hok Hrep Hv Hrun) as (Hallowed & Hrep'). by eapply made_refines.
  - destruct (copy_refines _ _ _ _ _ _ ns Hok Hrep Hv Hrun) as (p & Hp & Hallowed & Hrep' & Hd). eapply made_refines; [done..|]. by exists p.
  - destruct (move_refines _ _ _ _ _ _ ns Hok Hrep Hv Hrun) as (p & Hp & Hallowed & Hrep' & Hd). eapply made_refines; [done..|]. by exists p.
Qed.
End Refinement.

(** C7. Whatever transaction a handler commits, on tables that represent a namespace: it makes the one operation its
    request names, with the answer's id, which that namespace allows, or (a read, a volume, a replica report, a lease)
    none, and the tables it leaves represent the namespace after it, which the answer describes. *)
Theorem requests_refine `{SqliteText, RowIds, !RowIdLaws, DebugResponse} {A} (t : HandlerTx A) s a s' ns :
  tx_values t → tx_ok s → represents (tx_db s) ns → tx_body t s = (Ok a, s') →
  ∃ op ns', tx_op ns t a op ∧ ns_apply op ns = Some ns' ∧ represents (tx_db s') ns'.
Proof. exact (tx_refines t s a s' ns). Qed.

(** ** What is refused *)

Section Refusals.
Context `{SqliteText, RowIds, !RowIdLaws, DebugResponse}.

(** the database has no more ids, or a number is beyond its integers *)
Definition no_room (id now : Z) (e : Fs0Error) : Prop :=
  e = from_sqlite DatabaseFull ∨ (i64_max < id ∨ i64_max < now) ∧ ∃ m, e = IntegerConversion m.

(** the text is no path of a file, or what is at [p] is in the way: a directory at the path itself, a file there or before *)
Definition path_refused (ns : Namespace) (moving : option Z) (target : string) (e : Fs0Error) : Prop :=
  split_fs0_path_dir_and_name target = Err e ∨
  ∃ path p, target = render path ∧ Forall (λ c, valid_component c = true) path ∧ e = AlreadyExists (render p) ∧ p `prefix_of` path ∧
    ((p = path ∧ p ∈ ns_dirs ns) ∨ ∃ id v, ns_files ns !! id = Some v ∧ fv_path v = p ∧ ¬ (p = path ∧ moving = Some id)).

Lemma path_refused_not_free ns moving path e : path_refused ns moving (render path) e → ¬ path_free ns moving path.
Proof.
  intros Href (Hne & Hv & Hd & Hfree). destruct Href as [Hsplit|(path' & p & Heq & Hv' & -> & Hp & Hin)].
  - destruct path as [|n cs _] using rev_ind; [done|]. by rewrite split_dir_and_name_of_render in Hsplit.
  - apply render_inj in Heq as <-; [|done|done]. destruct Hin as [[-> Hin]|(id & v & Hv1 & <- & Hn)]; [done|].
    destruct (Hfree id v Hv1 Hp) as [? ?]. by apply Hn.
Qed.

Lemma source_refusal db ns id now e : represents db ns → source_refused db id now e →
  no_room id now e ∨ e = NotFound ∧ ns_files ns !! id = None.
Proof.
  intros Hrep [[-> Hf]|Hm]; [right|left; by right]. split; [done|]. apply (no_view _ _ _ Hrep). by apply find_file_None.
Qed.

Lemma target_refusal db ns moving target id now e : db_ok db → represents db ns → target_refused db moving target e →
  no_room id now e ∨ path_refused ns moving target e.
Proof.
  intros Hok Hrep [Hs|[->|(cs & p & -> & Hv & -> & Hp & Hin)]]; [right; by left|left; by left|right; right].
  exists cs, p. do 4 (split; [done|]). destruct Hin as [[-> (i & Hi)]|(f & [Hf (ds & Hat & ->)] & Hm)].
  - left. split; [done|]. apply (rep_dirs _ _ Hrep). by exists i.
  - right. exists (f_file_id f). eexists. split; [by eapply view_of|]. split; [done|]. intros [Heq ->]. by apply Hm.
Qed.

(** C9. A deletion, a copy or a rename of a file is refused, but for want of ids or integers in the database, only for
    what the namespace shows, and the error names it: NotFound when the file is not there, the error of the text that is
    no path, or AlreadyExists with the path of the directory or file in the way; and the namespace does not allow it then. *)
Theorem refusals_explained s ns : tx_ok s → represents (tx_db s) ns →
  (∀ id now e s', 0 ≤ now → Client.delete_file_tx id now s = (Err e, s') →
     no_room id now e ∨ e = NotFound ∧ ns_files ns !! id = None) ∧
  (∀ source target now e s', 0 ≤ now → Client.copy_file_tx source target now s = (Err e, s') →
     (no_room source now e ∨ e = NotFound ∧ ns_files ns !! source = None) ∨ path_refused ns None target e) ∧
  (∀ id target now e s', 0 ≤ now → Client.rename_file_tx id target now s = (Err e, s') →
     (no_room id now e ∨ e = NotFound ∧ ns_files ns !! id = None) ∨ path_refused ns (Some id) target e) ∧
  ∀ moving path e, path_refused ns moving (render path) e → ¬ path_free ns moving path.
Proof.
  intros [Hok Hc] Hrep. split_and!.
  - intros id now e s' Hn Hrun. destruct (delete_file_effect id now s _ _ Hok Hn Hrun) as (_ & _ & Href).
    destruct (Href e eq_refl) as [Hs| ->]; [by eapply source_refusal|left; by left].
  - intros source target now e s' Hn Hrun. destruct (copy_file_tx_run source target now s Hok Hc Hn) as (r & s1 & Hrun' & Hr).
    rewrite Hrun in Hrun'. injection Hrun' as <- <-. destruct Hr as [Hs|Ht]; [left; by eapply source_refusal|].
    destruct (target_refusal _ _ _ _ source now _ Hok Hrep Ht); auto.
  - intros id target now e s' Hn Hrun. destruct (rename_file_tx_run id target now s Hok Hc Hn) as (r & s1 & Hrun' & Hr).
    rewrite Hrun in Hrun'. injection Hrun' as <- <-. destruct Hr as [Hs|Ht]; [left; by eapply source_refusal|].
    destruct (target_refusal _ _ _ _ id now _ Hok Hrep Ht); auto.
  - apply path_refused_not_free.
Qed.
End Refusals.

(** ** Over any number of runs *)

Section Lifetime.
Context `{SqliteText, RowIds, DebugResponse, !RowIdLaws}.

(** a namespace that allowed operations lead to *)
Definition has_namespace (db : CentralDb) : Prop := ∃ ops ns, ns_run ops ns_init = Some ns ∧ represents db ns.

Lemma schema_has_namespace : has_namespace schema_db.
Proof. exists [], ns_init. split; [done|apply schema_represents]. Qed.

Lemma has_namespace_stable : tx_stable has_namespace.
Proof.
  intros A t s a s' Hv Hok (ops & ns & Hrun & Hrep) Hs.
  destruct (tx_refines t s a s' ns Hv Hok Hrep Hs) as ([op|] & ns' & _ & Happly & Hrep').
  - exists (ops ++ [op]), ns'. split; [by eapply ns_run_snoc|done].
  - injection Happly as <-. by exists ops, ns.
Qed.

(** every event comes after 0 *)
Lemma events_after_start db : db_ok db → events_after db 0 = db_file_events db.
Proof.
  intros Hok. apply filter_all. intros e He. pose proof (ok_events _ Hok) as Hev. rewrite Forall_forall in Hev.
  destruct (Hev e He) as [[? _] _]. done.
Qed.

(** the log names files that are there, at their paths, and every file that is not empty *)
Lemma log_names_files db ns : db_ok db → represents db ns → ns_ok ns →
  (∀ id path, log_known db !! id = Some path → ∃ f, file_of_path db path = Ok f ∧ f_file_id f = id) ∧
  ∀ f, f ∈ db_files db → f_size_bytes f ≠ 0 → is_Some (log_known db !! f_file_id f).
Proof.
  intros Hok Hrep Hns. rewrite <- (rep_log _ _ Hrep). split.
  - intros id path Hid. apply (nok_log _ Hns) in Hid as (v & Hv & ->). apply (rep_files _ _ Hrep) in Hv as (f & cs & Hf & Hat & ->).
    apply find_file_Some in Hf as [Hin Hid]; [|done]. exists f. split; [|done]. apply file_at_path; [done..|by apply (file_path_valid db)].
  - intros f Hin Hsz. destruct (file_dir_at _ f Hok Hin) as (cs & Hat). eexists. by eapply (nok_logged _ Hns); [eapply view_of|].
Qed.

(** C8. Over any number of runs of the central server that end at any point, with whatever requests interleaved, as long
    as no COMMIT fails (the steps of [life_steps] answer so; [failed_commit_leaves_stale_cache] shows that a failed one
    can break the tree): the tables represent a namespace that a sequence of allowed operations makes from the root alone, and a client that
    follows the whole change log, in pages of any size, knows only names under which the file with that id is found,
    and knows every file that is not empty. *)
Theorem namespace_lifetime config stored process s pool :
  central_file stored → started config stored process → life_steps (process, []) (s, pool) →
  let tx := cs_db (cp_server s) in
  has_namespace (tx_db tx) ∧
  ∀ fuel limit, (length (db_file_events (tx_db tx)) < fuel)%nat →
  ∃ entries, follow_log fuel 0 limit tx = (Ok entries, tx) ∧
    (∀ id path, log_names entries !! id = Some path → ∃ f, file_of_path (tx_db tx) path = Ok f ∧ f_file_id f = id) ∧
    ∀ f, f ∈ db_files (tx_db tx) → f_size_bytes f ≠ 0 → is_Some (log_names entries !! f_file_id f).
Proof.
  intros Hfile Hstart Hsteps tx.
  destruct (lifetime_kept has_namespace has_namespace_stable schema_has_namespace config stored process s pool Hfile Hstart Hsteps) as [[[Hok _] Hname] _].
  fold tx in Hok, Hname. split; [done|]. intros fuel limit Hfuel. eexists. split; [by apply follow_log_complete; [|unfold i64_max|]|].
  rewrite events_after_start by done. destruct Hname as (ops & ns & Hrun & Hrep).
  eapply log_names_files; [done|exact Hrep|by eapply ns_run_ok; [apply ns_init_ok|]].
Qed.
End Lifetime.

(** ** Instances *)

Section Instances.
#[local] Existing Instances plain_sqlite_text sequential_rowids sequential_rowid_laws plain_debug.

(** a new database with a volume, and an update of a path there is no file at *)
Definition one_volume : CentralTx := (tx_body (HtCreateVolume "disk" 4096) (mkCentralTx schema_db DirCacheState_new)).2.
Definition first_update : HandlerTx UpdateLease := HtBeginUpdate (mkBeginUpdateRequest "/docs/a.txt" 0 None None) 1 100.

Lemma one_volume_ok : tx_ok one_volume.
Proof.
  pose proof (handler_tx_keeps (HtCreateVolume "disk" 4096) ltac:(simpl; lia) (mkCentralTx schema_db DirCacheState_new)
    (conj schema_db_ok (empty_cache_ok _))) as Hkeeps.
  unfold one_volume. destruct (tx_body (HtCreateVolume "disk" 4096) _) as [[a|e] s] eqn:Hrun; [exact Hkeeps|]. vm_compute in Hrun. discriminate.
Qed.
Lemma one_volume_represents : represents (tx_db one_volume) ns_init.
Proof. apply (same_represents schema_db); [|apply schema_represents]. split_and!; vm_compute; reflexivity. Qed.

Definition first_lease : UpdateLease := mkUpdateLease 1 1 1 0 0 60100 None.
Definition first_tx : CentralTx := (tx_body first_update one_volume).2.
Definition first_ns : Namespace := ns_effect (NsCreate 1 ["docs"; "a.txt"]) ns_init.

Lemma first_run : tx_body first_update one_volume = (Ok first_lease, first_tx).
Proof. apply run_value. vm_compute. reflexivity. Qed.
Lemma first_values : tx_values first_update.
Proof. split; simpl; lia. Qed.

Lemma first_made op ns : tx_op ns_init first_update first_lease op → ns_apply op ns_init = Some ns → ns = first_ns.
Proof.
  intros (path & Hpath & [->|[_ (v & Hv & _)]]) Happly; [|discriminate Hv]. revert Happly. cbn [ns_apply].
  case_decide as Hallowed; [|discriminate]. intros [= <-].
  assert (path = ["docs"; "a.txt"]) as ->; [|reflexivity].
  apply render_inj; [apply Hallowed|repeat constructor|by rewrite <- Hpath].
Qed.

Lemma first_tx_ok : tx_ok first_tx.
Proof. pose proof (handler_tx_keeps first_update first_values one_volume one_volume_ok) as Hkeeps. by rewrite first_run in Hkeeps. Qed.
Lemma first_tx_represents : represents (tx_db first_tx) first_ns.
Proof.
  destruct (tx_refines first_update one_volume _ _ ns_init first_values one_volume_ok one_volume_represents first_run) as (op & ns & Hop & Happly & Hrep).
  by rewrite (first_made op ns Hop Happly) in Hrep.
Qed.

Lemma requests_refine_witness :
  represents (tx_db first_tx) first_ns ∧ ns_files first_ns !! 1 = Some (mkFileView ["docs"; "a.txt"] 0 []).
Proof.
  split; [|vm_compute; reflexivity].
  destruct (requests_refine first_update one_volume _ _ ns_init first_values one_volume_ok one_volume_represents first_run) as (op & ns & Hop & Happly & Hrep).
  rewrite (first_made op ns Hop Happly) in Hrep. exact Hrep.
Defined.

(** the directory of the file is in the way of a copy of it *)
Lemma refusals_explained_witness :
  (Client.copy_file_tx 1 "/docs" 700 first_tx).1 = Err (AlreadyExists "/docs") ∧ ¬ path_free first_ns None ["docs"].
Proof.
  assert ((Client.copy_file_tx 1 "/docs" 700 first_tx).1 = Err (AlreadyExists "/docs")) as Hrun by (vm_compute; reflexivity).
  split; [exact Hrun|].
  destruct (refusals_explained first_tx first_ns first_tx_ok first_tx_represents) as (_ & Hcopy & _ & Hfree).
  destruct (Hcopy 1 "/docs" 700 _ (Client.copy_file_tx 1 "/docs" 700 first_tx).2 ltac:(lia) (run_value _ _ _ Hrun))
    as [[[Hfull|[_ [m Hm]]]|[Hnot _]]|Href]; [discriminate Hfull|discriminate Hm|discriminate Hnot|].
  exact (Hfree None ["docs"] _ Href).
Defined.

Lemma namespace_lifetime_witness :
  length (db_volumes (tx_db (cs_db (cp_server (run_once first_file))))) = 2%nat ∧ has_namespace (tx_db (cs_db (cp_server (run_once first_file)))).
Proof.
  split; [vm_compute; reflexivity|].
  destruct (run_once_steps None) as (pool & Hsteps). destruct (run_once_steps first_file) as (pool' & Hsteps').
  exact (proj1 (namespace_lifetime life_config first_file _ _ pool'
    (file_left life_config None _ _ pool file_none (life_started None) Hsteps) (life_started first_file) Hsteps')).
Defined.
End Instances.
