(* ===== verification/CentralLeases.v ===== *)
(** * The update lease excludes

    What an update lease promises to its holder (request_handlers/update.rs): from the transaction that gives it until it
    expires, or until the transactions of its own update end it, no other update of its file begins, whatever else the
    server does meanwhile. *)

From S2P Require Import Prelude Types Paths DirCache CentralDb DirTree CentralInv Sample CentralDir.
From S2P Require Import CentralTables CentralFacts CentralRuns Link Conc CentralServer CentralHandlers.
From S2P Require Import CentralUpdate CentralSafety CentralFiles Namespace.

(** ** What else the server does *)

(** a transaction that neither ends the lease nor deletes or renames its file; an expired lease may be taken over *)
Definition leaves_lease {A} (lease : UpdateLease) (t : HandlerTx A) : Prop :=
  match t with
  | HtBeginUpdate _ _ now => now < ul_expires_at_ms lease
  | HtDeleteLease lease_id | HtAbortUpdate lease_id _ _ => lease_id ≠ ul_lease_id lease
  | HtCommitUpdate request _ _ => cur_lease_id request ≠ ul_lease_id lease
  | HtDeleteFile file_id _ | HtRenameFile file_id _ _ => file_id ≠ ul_file_id lease
  | _ => True
  end.

Section Leases.
Context `{SqliteText, RowIds, !RowIdLaws, DebugResponse}.

(** one step of a server that holds the lease: such a transaction, committed or rolled back, a transaction that reads,
    or work that leaves the database and its cache alone *)
Inductive other_work (lease : UpdateLease) : CentralServer → CentralServer → Prop :=
| OtherTx {A} env (t : HandlerTx A) s : tx_commit_error env = None → tx_values t → leaves_lease lease t →
    other_work lease s (locked_tx env (tx_body t) s).2
| OtherRead {A} env (body : Tx A) s : tx_reads body → other_work lease s (locked_tx_read env body s).2
| OtherMemory s s' : cs_db s' = cs_db s → other_work lease s s'.

(** the lease is recorded, for the file that is at the path *)
Definition lease_held (path : string) (lease : UpdateLease) (db : CentralDb) : Prop :=
  ∃ created f, lease_row lease created ∈ db_update_leases db ∧ f_file_id f = ul_file_id lease ∧
    f_size_bytes f = ul_base_size lease ∧ file_of_path db path = Ok f.

(** ** It stays *)

Lemma file_of_path_kept db db' path f : db_ok db → db_ok db' → db_dirs db ⊆ db_dirs db' →
  find_file db' (f_file_id f) = find_file db (f_file_id f) → file_of_path db path = Ok f → file_of_path db' path = Ok f.
Proof.
  intros Hok Hok' Hsub Hf Hp. destruct (file_of_path_at db path f Hok Hp) as (cs & -> & Hin & Hat).
  rewrite (proj2 (find_file_Some db (f_file_id f) f Hok) (conj Hin eq_refl)) in Hf. apply find_file_Some in Hf as [Hin' _]; [|done].
  apply file_at_path; [done|done|by eapply dir_at_mono|]. by apply (file_path_valid db).
Qed.

Lemma lease_held_kept path lease db db' : db_ok db → db_ok db' → db_dirs db ⊆ db_dirs db' →
  find_file db' (ul_file_id lease) = find_file db (ul_file_id lease) →
  (∀ created, lease_row lease created ∈ db_update_leases db → lease_row lease created ∈ db_update_leases db') →
  lease_held path lease db → lease_held path lease db'.
Proof.
  intros Hok Hok' Hsub Hf Hl (created & f & Hin & Hid & Hsz & Hp). exists created, f. do 3 (split; [auto|]).
  apply (file_of_path_kept db); [done..| |done]. by rewrite Hid.
Qed.

Lemma spared_lease {A} (P : LeaseTuple → Prop) path lease (body : Tx A) s a s' : spares P body → body s = (Ok a, s') →
  db_ok (tx_db s) → db_ok (tx_db s') → (∀ created, P (lease_row lease created)) →
  lease_held path lease (tx_db s) → lease_held path lease (tx_db s').
Proof.
  intros Hs Hrun Hok Hok' HP. destruct (Hs s a s' Hrun) as [(Hd & Hf & _) Hl]. apply lease_held_kept; [done|done|by rewrite Hd| |].
  - unfold find_file. by rewrite Hf.
  - intros created. by apply Hl.
Qed.

(** who holds another lease does not commit to the file *)
Lemma lease_of_file db path lease lease_id now l : db_ok db → lease_held path lease db →
  find_active_lease db lease_id (ul_file_id lease) now = Some l → lease_id = ul_lease_id lease.
Proof.
  intros Hok (created & f & Hin & _) Hfind. apply find_active_lease_Some in Hfind as (Hin' & <- & Hf & _); [|done].
  assert (l = lease_row lease created) as ->; [|done].
  eapply (NoDup_map_inj l_file_id); [by apply ok_lease_files|done..].
Qed.

Lemma held_file db path lease : db_ok db → lease_held path lease db → ul_file_id lease ∈ file_ids db.
Proof. intros Hok (created & f & _ & <- & _ & Hp). apply list_elem_of_fmap. exists f. split; [done|]. by eapply file_of_path_in. Qed.

(** a file that comes is another *)
Lemma added_spares_held db path lease path' f db' : db_ok db → lease_held path lease db → file_added db path' f db' →
  find_file db' (ul_file_id lease) = find_file db (ul_file_id lease).
Proof.
  intros Hok Hheld%held_file Hadd; [|done]. rewrite (find_file_added _ _ _ _ _ Hok Hadd), bool_decide_false; [done|]. intros Heq.
  destruct Hadd as (? & ? & _ & _ & _ & _ & Hfresh & _). by rewrite <- Heq in Hfresh.
Qed.

Lemma begin_keeps_lease path lease request volume_id now s lease' s' : tx_ok s → 0 ≤ bur_offset request → 0 ≤ now →
  now < ul_expires_at_ms lease → Update.begin_update_tx request volume_id now s = (Ok lease', s') →
  lease_held path lease (tx_db s) → lease_held path lease (tx_db s').
Proof.
  intros [Hok Hc] Ho Hn Hexp Hrun Hheld. destruct (begin_update_run request volume_id now s Hok Hc Hn Ho) as (r & db' & c' & Hrun' & _ & Hb).
  rewrite Hrun in Hrun'. injection Hrun' as <- ->. destruct Hb as (f & base & db0 & Hopen & Hrest).
  destruct (opened_facts _ _ _ _ _ _ Hok Hopen) as (_ & _ & _ & _ & Hls & _ & Hds & _).
  destruct Hrest as (_ & _ & _ & _ & _ & _ & _ & _ & _ & _ & _ & -> & Hok'). 
  apply (lease_held_kept path lease (tx_db s)); [done|done|done| | |done].
  - destruct Hopen as [(_ & _ & _ & ->)|(_ & _ & _ & _ & Hadd)]; [done|]. by apply (added_spares_held _ path lease _ _ _ Hok Hheld Hadd).
  - intros created Hin. simpl. apply elem_of_app. left. apply list_elem_of_filter. rewrite Hls. split; [simpl; lia|done].
Qed.

Lemma commit_keeps_lease path lease request now now_lease s record s' : tx_ok s → commit_request_ok request → 0 ≤ now →
  cur_lease_id request ≠ ul_lease_id lease → Update.commit_update_tx request now now_lease s = (Ok record, s') →
  lease_held path lease (tx_db s) → lease_held path lease (tx_db s').
Proof.
  intros [Hok Hc] Hreq Hn Hne Hrun Hheld. destruct (commit_outcome request now now_lease s record s' Hok Hc Hreq Hn Hrun)
    as (f & lens & cs & ((l & Hl & _) & Hf & _) & _ & Hev & _). pose proof (event_added_same _ _ _ _ _ _ Hev) as (_ & _ & Hds & Hfs & Hls & _ & Hok').
  apply (lease_held_kept path lease (tx_db s)); [done|done|by rewrite Hds| | |done].
  - rewrite (find_file_mapped (tx_db s) (tx_db s') (cur_file_id request)
      (resized (cur_new_size request) (zsum (map snd lens)) now) f) by (done || by rewrite Hfs).
    rewrite bool_decide_false; [done|]. intros Heq. rewrite <- Heq in Hl. by apply (lease_of_file _ path) in Hl.
  - intros created Hin. rewrite Hls. simpl. by apply list_elem_of_filter.
Qed.

Lemma delete_keeps_lease path lease fid now s s' : tx_ok s → 0 ≤ now → fid ≠ ul_file_id lease →
  Client.delete_file_tx fid now s = (Ok tt, s') → lease_held path lease (tx_db s) → lease_held path lease (tx_db s').
Proof.
  intros [Hok Hc] Hn Hne Hrun. destruct (delete_file_effect fid now s _ _ Hok Hn Hrun) as [Heffect _].
  destruct (Heffect eq_refl) as (_ & Hev & _ & Hother). pose proof (event_added_same _ _ _ _ _ _ Hev) as (_ & _ & Hds & _ & Hls & _ & Hok').
  apply lease_held_kept; [done|done|by rewrite Hds|by apply Hother|].
  intros created Hin. rewrite Hls. simpl. apply list_elem_of_filter. done.
Qed.

Lemma copy_keeps_lease path lease source target now s record s' : tx_ok s → 0 ≤ now →
  Client.copy_file_tx source target now s = (Ok record, s') → lease_held path lease (tx_db s) → lease_held path lease (tx_db s').
Proof.
  intros [Hok Hc] Hn Hrun Hheld. destruct (copy_outcome source target now s record s' Hok Hc Hn Hrun)
    as (g & f & db1 & cs & _ & Hadd & _ & _ & _ & _ & _ & _ & Hev & _).
  pose proof (event_added_same _ _ _ _ _ _ Hev) as (Hf & _ & Hds & _ & Hls & _ & Hok').
  destruct (file_added_facts _ _ _ _ Hok Hadd) as (_ & _ & _ & _ & Hsub).
  apply (lease_held_kept path lease (tx_db s)); [done|done|by rewrite Hds| | |done].
  - rewrite Hf. by apply (added_spares_held _ path lease _ _ _ Hok Hheld Hadd).
  - intros created Hin. rewrite Hls. by destruct Hadd as (? & ? & -> & _).
Qed.

Lemma rename_keeps_lease path lease fid target now s record s' : tx_ok s → 0 ≤ now → fid ≠ ul_file_id lease →
  Client.rename_file_tx fid target now s = (Ok record, s') → lease_held path lease (tx_db s) → lease_held path lease (tx_db s').
Proof.
  intros [Hok Hc] Hn Hne Hrun Hheld. destruct (rename_outcome fid target now s record s' Hok Hc Hn Hrun)
    as (f & db1 & cs & (new & cs' & g & Hg & Hf & Hdb & _ & _ & _ & Hok1 & _) & _ & _ & Hev & _).
  pose proof (event_added_same _ _ _ _ _ _ Hev) as (Hfind & _ & Hds & _ & Hls & _ & Hok').
  apply (lease_held_kept path lease (tx_db s)); [done|done|rewrite Hds, Hdb; set_solver| | |done].
  - rewrite Hfind, (find_file_mapped (tx_db s) db1 fid (moved (f_dir_id f) (f_name f) now) g) by (done || by rewrite Hdb).
    by rewrite bool_decide_false.
  - intros created Hin. by rewrite Hls, Hdb.
Qed.

Lemma tx_keeps_lease {A} path lease (t : HandlerTx A) s a s' : tx_values t → leaves_lease lease t → tx_ok s →
  tx_body t s = (Ok a, s') → lease_held path lease (tx_db s) → lease_held path lease (tx_db s').
Proof.
  intros Hv Hleaves Hok Hrun. pose proof (handler_tx_keeps t Hv s Hok) as Hok'. rewrite Hrun in Hok'.
  destruct Hok' as [Hok' _]. pose proof (proj1 Hok) as Hdb. destruct t; cbn [tx_body tx_values leaves_lease] in *.
  - destruct Hv. by eapply begin_keeps_lease.
  - by eapply spared_lease; [apply delete_lease_spares|done..].
  - eapply (spared_lease (λ _, True)); [apply spares_map_err, lease_volume_spares|done..].
  - destruct Hv. by eapply commit_keeps_lease.
  - by eapply spared_lease; [apply abort_spares|done..].
  - by eapply (spared_lease (λ _, True)); [apply create_volume_spares|done..].
  - by eapply (spared_lease (λ _, True)); [apply report_spares|done..].
  - by eapply (spared_lease (λ _, True)); [apply volume_offset_spares|done..].
  - by eapply (spared_lease (λ _, True)); [apply register_volumes_spares|done..].
  - by eapply (spared_lease (λ _, True)); [apply list_directory_spares|done..].
  - destruct a. by eapply delete_keeps_lease.
  - by eapply copy_keeps_lease.
  - by eapply rename_keeps_lease.
Qed.

(** ** Over the server's work *)

Definition holding (path : string) (lease : UpdateLease) (s : CentralServer) : Prop :=
  tx_ok (cs_db s) ∧ lease_held path lease (tx_db (cs_db s)).

Lemma other_work_holds path lease s s' : other_work lease s s' → holding path lease s → holding path lease s'.
Proof.
  intros [A env t s0 Henv Hv Hl|A env body s0 Hreads|s0 s1 Heq] [Hok Hheld]; [..|unfold holding; by rewrite Heq].
  - unfold locked_tx, run_tx. rewrite Henv. destruct (tx_begin_error env); [done|].
    pose proof (handler_tx_keeps t Hv (cs_db s0) Hok) as Hkeeps. destruct (tx_body t (cs_db s0)) as [[a|e] s1] eqn:Hrun; [|split; [exact (conj (proj1 Hok) Hkeeps)|exact Hheld]].
    split; [exact Hkeeps|]. exact (tx_keeps_lease path lease t _ _ _ Hv Hl Hok Hrun Hheld).
  - unfold locked_tx_read, run_tx_read. destruct (tx_begin_error env); [done|].
    specialize (Hreads (cs_db s0) Hok). destruct (body (cs_db s0)) as [r s1]. split; [|done]. split; [apply Hok|exact Hreads].
Qed.

Lemma begin_holds request volume_id now s lease s' : tx_ok s → 0 ≤ now → 0 ≤ bur_offset request →
  Update.begin_update_tx request volume_id now s = (Ok lease, s') → lease_held (bur_path request) lease (tx_db s').
Proof.
  intros [Hok Hc] Hn Ho Hrun. destruct (begin_update_run request volume_id now s Hok Hc Hn Ho) as (r & db' & c' & Hrun' & _ & Hb).
  rewrite Hrun in Hrun'. injection Hrun' as <- ->.
  destruct Hb as (f & base & db0 & Hopen & _ & _ & _ & Hfid & _ & Hbase & _ & _ & _ & _ & _ & -> & _).
  destruct (opened_facts _ _ _ _ _ _ Hok Hopen) as (_ & _ & Hsz & _ & _ & _ & _ & Hp). exists now, f.
  split; [simpl; set_solver|]. split; [done|]. split; [congruence|done].
Qed.

(** whoever asks for the path then is refused *)
Lemma held_refuses path lease request volume_id now s : tx_ok s → lease_held path lease (tx_db s) →
  bur_path request = path → 0 ≤ now < ul_expires_at_ms lease →
  (Update.begin_update_tx request volume_id now s).1 =
  Err (if bool_decide (bur_offset request ≤ ul_base_size lease) then AlreadyExists path else InvalidRequest).
Proof.
  intros [Hok Hc] (created & f & Hin & Hfid & Hsz & Hp) Hpath Hnow.
  pose proof (ok_leases _ Hok) as Hls. rewrite Forall_forall in Hls. destruct (Hls _ Hin) as (_ & _ & _ & _ & _ & [_ Hexp]). cbn [lease_row l_expires_at_ms] in Hexp.
  assert (now ≤ i64_max) as Hmax by lia.
  unfold Update.begin_update_tx, Update.open_update_file.
  destruct (get_file_by_path_run (bur_path request) s _ Hok eq_refl Hc) as (c2 & Hget & Hc2). rewrite Hpath, Hp in Hget.
  set (s2 := mkCentralTx (tx_db s) c2) in *.
  assert (st_try (get_file_by_path (bur_path request)) s = (Ok (Ok f), s2)) as Htry by (unfold st_try; by rewrite Hpath, Hget).
  rewrite <- Hsz. destruct (decide (bur_offset request ≤ f_size_bytes f)) as [Ho|Ho];
    [rewrite (bool_decide_true (bur_offset request ≤ _)) by done|rewrite (bool_decide_false (bur_offset request ≤ _)) by done].
  - rewrite (ST_bind_run _ _ s (f, f_size_bytes f) s2)
      by (rewrite (ST_bind_run _ _ _ _ _ Htry); by rewrite bool_decide_false by lia).
    destruct (delete_expired_run now s2 Hok Hmax) as [Hdel Hok2].
    rewrite (ST_bind_run _ _ _ _ _ Hdel). pose proof (file_id_nonneg _ f Hok (file_of_path_in _ _ _ Hok Hp)) as Hidm.
    rewrite (ST_bind_run _ _ _ _ _ (file_has_lease_run _ _ (proj2 Hidm))). cbn [tx_db].
    rewrite bool_decide_true; [by rewrite Hpath|].
    unfold file_leased. apply (list_elem_of_fmap_2' l_file_id _ (lease_row lease created)); [|done].
    simpl. apply list_elem_of_filter. split; [simpl; lia|done].
  - by rewrite (ST_bind_run_Err _ _ s InvalidRequest s2)
      by (rewrite (ST_bind_run _ _ _ _ _ Htry); by rewrite bool_decide_true by lia).
Qed.

(** C16. Once a transaction has given out a lease on a path, whatever else the server does ([other_work]: transactions of
    all handlers, committed or rolled back, that do not end this lease or delete or rename its file, reads, and work
    that leaves the database alone; COMMIT does not fail), no other update of that path begins before the lease expires:
    whoever asks, for whatever volume and at whatever offset, AlreadyExists is the answer, or InvalidRequest to an
    offset beyond the file. *)
Theorem update_lease_excludes env request volume_id now s0 lease s s' :
  tx_ok (cs_db s0) → 0 ≤ now → 0 ≤ bur_offset request →
  locked_tx env (tx_body (HtBeginUpdate request volume_id now)) s0 = (Ok lease, s) → rtc (other_work lease) s s' →
  ∀ env' request' volume_id' now', tx_begin_error env' = None → bur_path request' = bur_path request →
    0 ≤ now' < ul_expires_at_ms lease →
    (locked_tx env' (tx_body (HtBeginUpdate request' volume_id' now')) s').1 =
    Err (if bool_decide (bur_offset request' ≤ ul_base_size lease) then AlreadyExists (bur_path request) else InvalidRequest).
Proof.
  intros Hok Hn Ho Hrun Hwork env' request' volume_id' now' Henv Hpath Hnow.
  assert (holding (bur_path request) lease s) as Hholds.
  { revert Hrun. unfold locked_tx, run_tx. destruct (tx_begin_error env); [done|]. cbn [tx_body].
    pose proof (begin_update_keeps request volume_id now Ho Hn (cs_db s0) Hok) as Hkeeps.
    destruct (Update.begin_update_tx request volume_id now (cs_db s0)) as [[l|e] s1] eqn:Hbegin; [|done].
    destruct (tx_commit_error env); [done|]. intros [= <- <-]. split; [exact Hkeeps|exact (begin_holds request volume_id now _ _ _ Hok Hn Ho Hbegin)]. }
  assert (holding (bur_path request) lease s') as [Hok' Hheld].
  { clear Hrun. induction Hwork as [s|s s1 s2 Hstep _ IH]; [done|]. by eapply IH, other_work_holds. }
  pose proof (held_refuses (bur_path request) lease request' volume_id' now' (cs_db s') Hok' Hheld Hpath Hnow) as Href.
  unfold locked_tx, run_tx. rewrite Henv. cbn [tx_body].
  destruct (Update.begin_update_tx request' volume_id' now' (cs_db s')) as [r s1]. cbn [fst] in Href. by subst r.
Qed.
End Leases.

(** ** Instances *)

Section Instances.
#[local] Existing Instances plain_sqlite_text sequential_rowids sequential_rowid_laws plain_debug.

Definition leased_server : CentralServer :=
  (locked_tx tx_env_ok (tx_body (HtBeginUpdate sample_update 2 300)) (mkCentralServer [] 1 ∅ ∅ ∅ sample_tx)).2.

(** the file is copied, another update is committed, and a deletion is rolled back *)
Definition copied_server : CentralServer := (locked_tx tx_env_ok (tx_body (HtCopyFile 1 "/new/c.txt" 400)) leased_server).2.
Definition committed_server : CentralServer := (locked_tx tx_env_ok (tx_body (HtCommitUpdate sample_commit 500 510)) copied_server).2.
Definition worked_server : CentralServer := (locked_tx tx_env_ok (tx_body (HtDeleteFile 99 520)) committed_server).2.

Lemma leased_server_works : rtc (other_work sample_grant) leased_server worked_server.
Proof.
  apply (rtc_l _ leased_server copied_server).
  { refine (OtherTx sample_grant tx_env_ok (HtCopyFile 1 "/new/c.txt" 400) leased_server eq_refl _ I). cbn [tx_values]. lia. }
  apply (rtc_l _ copied_server committed_server).
  { refine (OtherTx sample_grant tx_env_ok (HtCommitUpdate sample_commit 500 510) copied_server eq_refl _ _); [|discriminate].
    split; [exact sample_commit_ok|lia]. }
  apply rtc_once.
  refine (OtherTx sample_grant tx_env_ok (HtDeleteFile 99 520) committed_server eq_refl _ _); [|discriminate]. cbn [tx_values]. lia.
Qed.

Lemma update_lease_excludes_witness :
  (locked_tx tx_env_ok (tx_body (HtBeginUpdate sample_update 1 60299)) worked_server).1 = Err (AlreadyExists "/docs/a.txt") ∧
  length (db_files (tx_db (cs_db worked_server))) = 3%nat.
Proof.
  split; [|vm_compute; reflexivity].
  assert (locked_tx tx_env_ok (tx_body (HtBeginUpdate sample_update 2 300)) (mkCentralServer [] 1 ∅ ∅ ∅ sample_tx) =
    (Ok sample_grant, leased_server)) as Hrun by (apply run_value; vm_compute; reflexivity).
  refine (update_lease_excludes tx_env_ok sample_update 2 300 (mkCentralServer [] 1 ∅ ∅ ∅ sample_tx) sample_grant leased_server worked_server
    (conj sample_db_ok (empty_cache_ok _)) _ _ Hrun leased_server_works tx_env_ok sample_update 1 60299 eq_refl eq_refl _);
    simpl; lia.
Defined.
End Instances.
