(* ===== verification/StorageLife.v ===== *)
(** * The life of a storage's process

    Models [StorageServer::run] and [shutdown] (fs0-storage/src/server.rs) around what [Storage.v] has of them, and the
    command that runs it (fs0-cli/src/commands/server.rs).  The endpoint, the router and the tasks are questions. *)

From S2P Require Import Prelude Types Link Conc CentralDb VolumeDb VolumeIo Volume VolumeSample Storage StorageSample Config TransportServe CentralLife.

(** [StorageServer] with its router and the number of its tasks *)
Record StorageProcess := mkStorageProcess { sp_server : StorageServer; sp_router : bool; sp_tasks : nat }.
Definition set_sp_server (x : StorageServer) (s : StorageProcess) : StorageProcess := mkStorageProcess x (sp_router s) (sp_tasks s).

Inductive HostQuery : Type → Type :=
| HStorage {B : Type} (q : StorageQuery B) : HostQuery B
| HEndpointOf {B : Type} (q : EndpointQuery B) : HostQuery B
| HNotify : HostQuery unit
| HRouterShutdown : HostQuery (Result string unit)
| HTransportClose : HostQuery unit
| HAbort : HostQuery unit
| HSignal : HostQuery (Result string unit)
| HInterrupt : HostQuery (Result string unit).

Abbreviation HostProg := (Prog StorageProcess HostQuery).
Definition on_storage {A} (p : StorageProg A) : HostProg A := lift_prog sp_server set_sp_server (@HStorage) p.

Fixpoint abort_all (tasks : nat) : HostProg unit :=
  match tasks with
  | O => mret tt
  | S tasks => ask HAbort;; abort_all tasks
  end.

(** [shutdown]: the lists of tasks and the router are taken first, so nothing is stopped twice *)
Definition storage_shutdown : HostProg unit :=
  exiting ← atomic (λ s, (ss_exit (sp_server s), set_sp_server (set_ss_exit (sp_server s) true) s));
  if (exiting : bool) then mret tt
  else
    ask HNotify;;
    on_storage close_central_connection;;
    router ← atomic (λ s, (sp_router s, mkStorageProcess (sp_server s) false (sp_tasks s)));
    (if (router : bool) then _ ← ask HRouterShutdown; mret tt else ask HTransportClose);;
    tasks ← atomic (λ s, (sp_tasks s, mkStorageProcess (sp_server s) (sp_router s) 0));
    abort_all tasks.

Section Host.
Context `{SqliteText, RowIds, Blake3, Zstd, DebugResponse} `{TomlFile}.

(** [StorageServer::run]: three tasks next to the one of the central connection, which is not kept *)
Definition storage_run (config : StorageSection) (disks : Disks) : HostProg (Fs0Result unit) :=
  server ←? mret (StorageServer_open disks (sts_storage config));
  lift_prog (λ _, tt) (λ _ s, s) (@HEndpointOf) (transport_bind (storage_transport_options (sts_bind_port config) (sts_relay config)));;?
  atomic (λ _, (Ok tt, mkStorageProcess server false 0));;?
  on_storage storage_start;;?
  atomic (λ s, (Ok tt, mkStorageProcess (sp_server s) true 3)).

Definition run_storage (config : Fs0Result StorageSection) (disks : Disks) : HostProg (Fs0Result unit) :=
  config ←? mret config;
  storage_run config disks;;?
  wait_for_shutdown_signal HSignal HInterrupt;;?
  storage_shutdown;;
  mret (Ok tt).
End Host.

(** ** Stopping *)

Lemma run_abort_all o n tasks s : run o n (abort_all tasks) s = mkOutcome tt s (replicate tasks (existT _ HAbort)).
Proof.
  revert n. induction tasks as [|tasks IH]; intros n; [done|]. cbn [abort_all]. rewrite run_bind, run_ask. cbv zeta.
  cbn [out_value out_state out_asked length]. by rewrite IH.
Qed.

(** the connection to the central server is closed, then the router and the tasks are stopped, once; what the storage
    keeps is what [shutdown] of [Storage.v] leaves *)
Theorem storage_stops `{SqliteText, RowIds, Blake3, Zstd, DebugResponse} o n s :
  let out := run o n storage_shutdown s in
  sp_server (out_state out) = out_state (run storage_oracle 0 Storage.shutdown (sp_server s)) ∧
  out_asked out = (if ss_exit (sp_server s) then [] else
    existT _ HNotify :: match cc_connection (ss_central (sp_server s)) with Some c => [existT _ (HStorage (SClose c))] | None => [] end ++
    (if sp_router s then existT _ HRouterShutdown else existT _ HTransportClose) :: replicate (sp_tasks s) (existT _ HAbort)).
Proof.
  cbv zeta. destruct s as [server router tasks]. unfold storage_shutdown, Storage.shutdown.
  rewrite !run_bind, !run_atomic. cbv zeta. cbn [out_value out_state out_asked fst snd sp_server app].
  destruct (ss_exit server); [done|]. 
  destruct (cc_connection (ss_central server)) as [c|] eqn:Hc; destruct router;
    (split; [|]; repeat (cbn; rewrite ?Hc, ?run_abort_all); done).
Qed.
