(* ===== verification/Cli.v ===== *)
(** * The command line: text, local directories and the commands

    Models [fs0-cli/src/{commands,output}.rs] and [commands/{client,volume}.rs] with
    [commands/client/put_dir.rs].  Strings are the bytes of the text, so the parts of [str], [Path] and
    [OsStr] the source uses are written out on bytes: UTF-8 validity, the lossy [display], [trim], [join].
    A local directory is a tree ([LocalNode]), read at one time, with the failures of the file system at the places
    where a call would meet them.  A command gives the lines it prints on its standard output. *)

From S2P Require Import Prelude Types Paths Link Conc CentralDb VolumeDb VolumeIo Volume.
From S2P Require Import ClientSession ClientTransfer ClientFiles.

(** ** UTF-8 *)

Definition byte_of (c : ascii) : Z := Z.of_N (N_of_ascii c).

(** the length of the character a byte starts; 0 when it starts none *)
Definition utf8_width (c : ascii) : nat :=
  let b := byte_of c in
  if bool_decide (b < 128) then 1%nat
  else if bool_decide (194 ≤ b ≤ 223) then 2%nat
  else if bool_decide (224 ≤ b ≤ 239) then 3%nat
  else if bool_decide (240 ≤ b ≤ 244) then 4%nat
  else 0%nat.
(** whether [c] may follow the first byte [a]: no overlong forms, no surrogates, nothing above U+10FFFF *)
Definition utf8_second (a c : ascii) : bool :=
  let a := byte_of a in
  let c := byte_of c in
  if bool_decide (a = 224) then bool_decide (160 ≤ c ≤ 191)
  else if bool_decide (a = 237) then bool_decide (128 ≤ c ≤ 159)
  else if bool_decide (a = 240) then bool_decide (144 ≤ c ≤ 191)
  else if bool_decide (a = 244) then bool_decide (128 ≤ c ≤ 143)
  else bool_decide (128 ≤ c ≤ 191).
(** the continuation bytes at the front of [s], at most [n] *)
Fixpoint continuation (n : nat) (s : string) : nat :=
  match n, s with
  | S n, String c s => if bool_decide (128 ≤ byte_of c ≤ 191) then S (continuation n s) else 0%nat
  | _, _ => 0%nat
  end.
(** the character at the front: whether it is valid, and how many bytes after the first belong to it *)
Definition utf8_front (a : ascii) (s : string) : bool * nat :=
  let width := utf8_width a in
  let more := match width with
              | O | S O => 0%nat
              | S (S n) =>
                  match s with
                  | String c s => if utf8_second a c then S (continuation n s) else 0%nat
                  | EmptyString => 0%nat
                  end
              end in
  (bool_decide (width = S more), more).

(** [OsStr::to_str] and [Path::display]; [skip] bytes belong to the character before *)
Fixpoint utf8_valid_from (skip : nat) (s : string) : bool :=
  match s with
  | EmptyString => true
  | String a s =>
      match skip with
      | S skip => utf8_valid_from skip s
      | O => let '(valid, more) := utf8_front a s in (valid : bool) && utf8_valid_from more s
      end
  end.
Definition to_str (s : string) : option string := if utf8_valid_from 0 s then Some s else None.

(** U+FFFD *)
Definition replacement_character : string :=
  String (ascii_of_nat 239) (String (ascii_of_nat 191) (String (ascii_of_nat 189) EmptyString)).
Fixpoint lossy_from (keep : bool) (skip : nat) (s : string) : string :=
  match s with
  | EmptyString => EmptyString
  | String a s =>
      match skip with
      | S skip => if keep then String a (lossy_from keep skip s) else lossy_from keep skip s
      | O =>
          let '(valid, more) := utf8_front a s in
          if (valid : bool) then String a (lossy_from true more s) else replacement_character +:+ lossy_from false more s
      end
  end.
Definition display (path : string) : string := lossy_from true 0 path.

(** ** Methods of [str] *)

Definition bytes_string (bytes : list nat) : string := foldr (λ b s, String (ascii_of_nat b) s) EmptyString bytes.

(** the characters of [char::is_whitespace] *)
Definition whitespace : list string := map bytes_string
  ([[9]; [10]; [11]; [12]; [13]; [32]; [194; 133]; [194; 160]; [225; 154; 128]] ++
   map (λ b, [226; 128; b]) [128; 129; 130; 131; 132; 133; 134; 135; 136; 137; 138; 168; 169; 175] ++
   [[226; 129; 159]; [227; 128; 128]])%nat.

Fixpoint strip_prefix (prefix s : string) : option string :=
  match prefix, s with
  | EmptyString, _ => Some s
  | String a prefix, String b s => if bool_decide (a = b) then strip_prefix prefix s else None
  | String _ _, EmptyString => None
  end.
(** [fuel] is the length of the string: a step removes a character *)
Fixpoint trim_start (fuel : nat) (s : string) : string :=
  match fuel with
  | O => s
  | S fuel => match lfind_map (λ w, strip_prefix w s) whitespace with Some s => trim_start fuel s | None => s end
  end.
(** the string up to the suffix that [all] accepts *)
Fixpoint trim_suffix (all : string → bool) (s : string) : string :=
  if all s then EmptyString
  else match s with EmptyString => EmptyString | String a s => String a (trim_suffix all s) end.

Definition trim (s : string) : string :=
  let s := trim_start (String.length s) s in
  trim_suffix (λ s, bool_decide (trim_start (String.length s) s = "")) s.

Fixpoint all_char (c : ascii) (s : string) : bool :=
  match s with EmptyString => true | String a s => bool_decide (a = c) && all_char c s end.
(** [trim_end_matches(c)] *)
Definition trim_end_matches (c : ascii) (s : string) : string := trim_suffix (all_char c) s.

(** [str::parse::<u64>]: a sign [+], digits, and no overflow *)
Definition digit (c : ascii) : option Z :=
  if bool_decide (48 ≤ byte_of c ≤ 57) then Some (byte_of c - 48) else None.
Fixpoint parse_digits (acc : Z) (s : string) : option Z :=
  match s with
  | EmptyString => Some acc
  | String c s =>
      d ← digit c; acc ← u64_checked_mul acc 10; acc ← u64_checked_add acc d;
      parse_digits acc s
  end.
Definition parse_u64 (s : string) : option Z :=
  let s := match s with String "+" s => s | _ => s end in
  if bool_decide (s = "") then None else parse_digits 0 s.

(** ** Local directories (put_dir.rs) *)

Inductive LocalNode :=
| LFile (metadata : Result string Z)                  (* its length, or why there is none *)
| LDir (entries : list (string * LocalNode))
| LUnreadable (message : string)                      (* a directory [read_dir] or an entry of it fails for *)
| LUntyped (message : string)                         (* [file_type] fails *)
| LOther.                                             (* a symbolic link, a socket, .. *)

(** [local_dir.canonicalize()], and what is at a path *)
Record LocalFs := mkLocalFs {
  canonicalize : string → Result string string; node_at : string → LocalNode }.

Definition is_dir (node : LocalNode) : bool := match node with LDir _ | LUnreadable _ => true | _ => false end.

(** [Path::join] of one name *)
Definition path_join (base name : string) : string :=
  if bool_decide (base = "") then name
  else if ends_with_char slash base then base +:+ name else base +:+ "/" +:+ name.

Record UploadFile := mkUploadFile { uf_local_path : string; uf_remote_path : string; uf_bytes : Z }.

Definition normalize_remote_dir (remote_dir : string) : string :=
  let trimmed := trim remote_dir in
  if bool_decide (trimmed = "") || bool_decide (trimmed = "/") then "/"
  else
    let trimmed := trim_end_matches slash trimmed in
    if starts_with_char slash trimmed then trimmed else "/" +:+ trimmed.

(** the loop over [relative_path.components()] *)
Fixpoint push_components (relative_path : string) (components : list string) (remote_path : string) : Fs0Result string :=
  match components with
  | [] => Ok remote_path
  | component :: components =>
      component ← ok_or (InvalidPath (display relative_path)) (to_str component);
      push_components relative_path components (remote_path +:+ "/" +:+ component)
  end.
Definition upload_remote_path (remote_dir : string) (relative_path : list string) : Fs0Result string :=
  push_components (String.concat "/" relative_path) relative_path (trim_end_matches slash remote_dir).

(** [sort_by_key(|entry| entry.path())]: the entries of a directory differ in their last component *)
Definition entry_le {A} (a b : string * A) : Prop := String.le a.1 b.1.
#[export] Instance entry_le_dec {A} : RelDecision (@entry_le A).
Proof. intros a b. unfold entry_le. apply _. Defined.

(** the loop over the sorted entries, up to the first that fails *)
Fixpoint all_files (entries : list (string * Fs0Result (list UploadFile))) : Fs0Result (list UploadFile) :=
  match entries with
  | [] => Ok []
  | (_, files) :: entries => files ← files; rest ← all_files entries; Ok (files ++ rest)
  end.

(** [collect_upload_files_from], and the body of its loop: [path] is [root] joined with [relative]; the
    results of the entries are put in the order in which the source computes them *)
Fixpoint collect_upload_files_from (remote_dir path : string) (relative : list string) (node : LocalNode)
  : Fs0Result (list UploadFile) :=
  match node with
  | LUntyped message | LUnreadable message => Err (Io message)
  | LDir entries =>
      all_files (merge_sort entry_le (map (λ '(name, node),
        (name, collect_upload_files_from remote_dir (path_join path name) (relative ++ [name]) node)) entries))
  | LFile metadata =>
      remote_path ← upload_remote_path remote_dir relative;
      bytes ← map_err Io metadata;
      Ok [mkUploadFile path remote_path bytes]
  | LOther => Ok []
  end.

Definition remote_path_le (a b : UploadFile) : Prop := String.le (uf_remote_path a) (uf_remote_path b).
#[export] Instance remote_path_le_dec : RelDecision remote_path_le.
Proof. intros a b. unfold remote_path_le. apply _. Defined.

Definition collect_upload_files (fs : LocalFs) (local_dir remote_dir : string) : Fs0Result (list UploadFile) :=
  local_root ← map_err Io (canonicalize fs local_dir);
  if negb (is_dir (node_at fs local_root)) then Err (InvalidPath (display local_dir))
  else
    files ← collect_upload_files_from remote_dir local_root [] (node_at fs local_root);
    Ok (merge_sort remote_path_le files).

(** ** Printing (output.rs) *)

Definition tab : string := String (ascii_of_nat 9) EmptyString.
Definition tabbed (columns : list string) : string := String.concat tab columns.

Definition print_directory_entries (entries : DirectoryEntries) : list string :=
  map (λ entry, tabbed [pretty (de_file_id entry); pretty (de_size_bytes entry);
                        pretty (de_compressed_size_bytes entry); de_path entry]) (des_entries entries) ++
  match des_next_cursor entries with Some cursor => ["next_cursor: " +:+ pretty cursor] | None => [] end.

Definition print_file_record (file : FileRecord) : list string :=
  [tabbed [pretty (fr_file_id file); pretty (fr_size_bytes file); pretty (fr_compressed_size_bytes file); fr_path file]].

Definition print_file_read_plan (plan : FileReadPlan) : list string :=
  ("file " +:+ tabbed [pretty (plan_file_id plan); plan_path plan; pretty (plan_size plan) +:+ " bytes"]) ::
  map (λ bundle, "  bundle " +:+ tabbed [pretty (fbr_bundle_index bundle); pretty (fbr_raw_len bundle) +:+ " raw";
                   pretty (fbr_compressed_len bundle) +:+ " compressed"; pretty (length (fbr_replicas bundle)) +:+ " replicas"])
    (plan_bundles plan).

(** [{:?}] of a change's kind *)
Definition debug_kind (kind : FileChangeLogKind) : string :=
  match kind with KCreated => "Created" | KUpdated => "Updated" | KMoved => "Moved" | KDeleted => "Deleted" end.
Definition print_file_change_logs (logs : FileChangeLogs) : list string :=
  map (λ operation, tabbed [pretty (fcl_event_id operation); debug_kind (fcl_kind operation);
         "file=" +:+ match fcl_file_id operation with Some file_id => pretty file_id | None => "-" end;
         "new=" +:+ default "-" (fcl_new_path operation)]) (fcls_operations logs) ++
  match fcls_next_event_id logs with Some next => ["next_event_id: " +:+ pretty next] | None => [] end.

Definition print_volume_meta (meta : VolumeMeta) : list string :=
  ["volume_id: " +:+ pretty (vm_volume_id meta); "format_version: " +:+ pretty (vm_format_version meta);
   "max_bytes: " +:+ pretty (vm_max_bytes meta); "active_volume_offset: " +:+ pretty (vm_active_volume_offset meta);
   "created_at_ms: " +:+ pretty (vm_created_at_ms meta); "updated_at_ms: " +:+ pretty (vm_updated_at_ms meta)].

Definition print_write_result (file : FileRecord) : list string :=
  [fr_path file +:+ " " +:+ pretty (fr_size_bytes file) +:+ " bytes"].

Definition print_dry_run (files : list UploadFile) : list string :=
  map (λ file, display (uf_local_path file) +:+ " -> " +:+ uf_remote_path file +:+ " " +:+ pretty (uf_bytes file) +:+ " bytes") files.

Record PutDirSummary := mkPutDirSummary {
  pds_uploaded_files : Z; pds_uploaded_bytes : Z; pds_skipped_files : Z; pds_skipped_bytes : Z }.
Definition print_summary (summary : PutDirSummary) : list string :=
  ["uploaded " +:+ pretty (pds_uploaded_files summary) +:+ " files " +:+ pretty (pds_uploaded_bytes summary) +:+ " bytes, skipped "
   +:+ pretty (pds_skipped_files summary) +:+ " files " +:+ pretty (pds_skipped_bytes summary) +:+ " bytes"].

Definition print_peers (peers : list StoragePeerInfo) : list string :=
  flat_map (λ peer, ("storage " +:+ pretty (spi_storage_id peer) +:+ " " +:+ spi_name peer) ::
    map (λ volume, "  volume " +:+ pretty (svi_volume_id volume) +:+ " " +:+ svi_name volume +:+ " max=" +:+
           pretty (svi_max_bytes volume) +:+ " used=" +:+ pretty (svi_max_volume_offset volume)) (spi_volumes peer)) peers.

(** ** The commands of the client (commands/client.rs) *)

Section ClientCommands.
Context `{DebugResponse, ClientTexts, Blake3, Zstd}.
Context (upload_transfer : UpdateLease → nat → Z → ClientProg (Fs0Result (Z * list UploadBundle))).
Context (download_transfer : FileReadPlan → list StoragePeerInfo → ClientProg (Fs0Result unit)).
(** [Fs0Config::load_client_from(config_path(config))] *)
Context (config : Fs0Result ClientConfig).

(** [connect_client], once the transport is bound *)
Definition connect_client : ClientProg (Fs0Result unit) :=
  config ←? mret config;
  _ ← atomic (λ _, (tt, Fs0Client_new config));
  connect.

(** a call of the client between [connect_client] and [shutdown], and what is printed of its result *)
Definition with_client {A} (call : ClientProg (Fs0Result A)) (print : A → list string) : ClientProg (Fs0Result (list string)) :=
  connect_client;;?
  result ←? call;
  shutdown;;?
  mret (Ok (print result)).

Definition cmd_ls (dir : string) (limit : Z) (cursor : option Z) := with_client (list_directory dir limit cursor) print_directory_entries.
Definition cmd_stat (remote_path : string) := with_client (get_file_read_plan remote_path) print_file_read_plan.
Definition cmd_get (remote_path local_path : string) := with_client (download_file download_transfer remote_path local_path) (λ _, []).
Definition cmd_put (remote_path local_path : string) (prefer_volume : option string) : ClientProg (Fs0Result (list string)) :=
  connect_client;;?
  if bool_decide (local_path = "-") then mret (Err Unsupported)
  else
    plan ←? upload_file_inner upload_transfer remote_path local_path prefer_volume;
    shutdown;;?
    mret (Ok (print_write_result plan)).
Definition cmd_rm (remote_path : string) := with_client (delete_file remote_path) (λ _, []).
Definition cmd_cp (source_path target_path : string) := with_client (copy_file source_path target_path) print_file_record.
Definition cmd_mv (source_path target_path : string) := with_client (rename_file source_path target_path) print_file_record.
Definition cmd_changes (cursor limit : Z) := with_client (get_file_change_logs cursor limit) print_file_change_logs.
Definition cmd_peers := with_client (atomic (λ s, (Ok (ces_storages (cl_central s)), s))) print_peers.

(** ** put-dir *)

(** the [match] on the read plan of a file: whether the remote file has its size *)
Definition remote_exists_with_same_size (file : UploadFile) : ClientProg (Fs0Result bool) :=
  plan ← get_file_read_plan (uf_remote_path file);
  mret (match plan with
        | Ok plan => Ok (bool_decide (plan_size plan = uf_bytes file))
        | Err NotFound => Ok false
        | Err err => Err err
        end).

Definition skipped (file : UploadFile) (summary : PutDirSummary) : PutDirSummary :=
  mkPutDirSummary (pds_uploaded_files summary) (pds_uploaded_bytes summary)
    (u64_wrapping_add (pds_skipped_files summary) 1) (u64_wrapping_add (pds_skipped_bytes summary) (uf_bytes file)).
Definition put_one (uploaded : FileRecord) (summary : PutDirSummary) : PutDirSummary :=
  mkPutDirSummary (u64_wrapping_add (pds_uploaded_files summary) 1)
    (u64_wrapping_add (pds_uploaded_bytes summary) (fr_size_bytes uploaded))
    (pds_skipped_files summary) (pds_skipped_bytes summary).

Fixpoint upload_files (files : list UploadFile) (prefer_volume : option string) (summary : PutDirSummary)
  : ClientProg (Fs0Result PutDirSummary) :=
  match files with
  | [] => mret (Ok summary)
  | file :: files =>
      same_size ←? remote_exists_with_same_size file;
      if (same_size : bool) then upload_files files prefer_volume (skipped file summary)
      else
        uploaded ←? upload_file_inner upload_transfer (uf_remote_path file) (uf_local_path file) prefer_volume;
        upload_files files prefer_volume (put_one uploaded summary)
  end.

(** the lines of the single files are left out *)
Definition put_dir (fs : LocalFs) (remote_dir local_dir : string) (prefer_volume : option string) (dry_run : bool)
  : ClientProg (Fs0Result (list string)) :=
  let remote_dir := normalize_remote_dir remote_dir in
  files ←? mret (collect_upload_files fs local_dir remote_dir);
  if dry_run then mret (Ok (print_dry_run files))
  else
    connect_client;;?
    result ← upload_files files prefer_volume (mkPutDirSummary 0 0 0 0);
    shutdown_result ← shutdown;
    summary ←? mret result;
    mret shutdown_result;;?
    mret (Ok (print_summary summary)).
End ClientCommands.

(** ** The commands on volumes (commands/volume.rs) *)

(** the largest number of a [value[..len - 1]]: all but the last byte *)
Fixpoint split_last (s : string) : option (string * ascii) :=
  match s with
  | EmptyString => None
  | String a EmptyString => Some (EmptyString, a)
  | String a s => '(front, c) ← split_last s; Some (String a front, c)
  end.

Definition multiplier_of (c : ascii) : option Z :=
  if bool_decide (c = "k"%char ∨ c = "K"%char) then Some 1024
  else if bool_decide (c = "m"%char ∨ c = "M"%char) then Some (1024 ^ 2)
  else if bool_decide (c = "g"%char ∨ c = "G"%char) then Some (1024 ^ 3)
  else if bool_decide (c = "t"%char ∨ c = "T"%char) then Some (1024 ^ 4)
  else None.
Definition number_and_multiplier (value : string) : string * Z :=
  match split_last value with
  | Some (front, c) => match multiplier_of c with Some multiplier => (front, multiplier) | None => (value, 1) end
  | None => (value, 1)
  end.
Definition parse_bytes (value : string) : Fs0Result Z :=
  let '(number, multiplier) := number_and_multiplier (trim value) in
  number ← ok_or InvalidRequest (parse_u64 number);
  ok_or InvalidRequest (u64_checked_mul number multiplier).

(** a process that runs a command: its client, and the database files of the volumes' directories *)
Record CliState := mkCliState { cli_client : Fs0Client; cli_disks : gmap string VolumeDb }.
Definition set_cli_client (client : Fs0Client) (s : CliState) : CliState := mkCliState client (cli_disks s).
Definition set_cli_disk (path : string) (disk : option VolumeDb) (s : CliState) : CliState :=
  mkCliState (cli_client s) (partial_alter (λ _, disk) path (cli_disks s)).

Inductive CliQuery : Type → Type :=
| CliClient {B : Type} (q : ClientQuery B) : CliQuery B
| CliNow : CliQuery Z
| CliMkdir : CliQuery (option string)
| CliSql : CliQuery (option SqlError)
| CliCreate : CliQuery (option (SqlError * bool)).  (* of a new database file: a failure, and whether the file is there then *)
Abbreviation CliProg := (Prog CliState CliQuery).

Definition on_client {A} (p : ClientProg A) : CliProg A := lift_prog cli_client set_cli_client (@CliClient) p.

Section VolumeCommands.
Context `{DebugResponse, ClientTexts, Blake3, Zstd, SqliteText, RowIds}.
(** [load_storage_from(config)], and [ClientConfig::new] of it *)
Context (config : Fs0Result ClientConfig).

Definition volume_init_fs (path : string) (max_bytes : Z) : CliProg (Fs0Result unit) :=
  mkdir_err ← ask CliMkdir; open_err ← ask CliCreate; insert_err ← ask CliSql; now ← ask CliNow;
  atomic (λ s, let '(r, disk) := init_fs path max_bytes now mkdir_err open_err insert_err (cli_disks s !! path) in
               (r, set_cli_disk path disk s)).
Definition volume_init_id (path : string) (volume_id : Z) : CliProg (Fs0Result VolumeMeta) :=
  err ← ask CliSql; now ← ask CliNow;
  atomic (λ s, let '(r, disk) := init_volume_id path volume_id now err (cli_disks s !! path) in
               (r, set_cli_disk path disk s)).

Definition cmd_create_volume (path name max_bytes : string) : CliProg (Fs0Result (list string)) :=
  max_bytes ←? mret (parse_bytes max_bytes);
  volume_init_fs path max_bytes;;?
  on_client (connect_client config);;?
  volume_id ←? on_client (create_volume name max_bytes);
  on_client shutdown;;?
  meta ←? volume_init_id path volume_id;
  mret (Ok (print_volume_meta meta)).

(** the data files do not matter for the meta data *)
Definition cmd_inspect_volume (path : string) : CliProg (Fs0Result (list string)) :=
  volume ←? atomic (λ s, (Volume_open path (cli_disks s !! path) ∅, s));
  mret (Ok (print_volume_meta (vd_meta (vl_db volume)))).
End VolumeCommands.

(** ** The dispatch (commands.rs) *)

(** the commands of [cli.rs]; those that run a server are in [CentralLife.v] and [StorageLife.v] *)
Inductive Command :=
| Ls (dir : string) (limit : Z) (cursor : option Z)
| Stat (remote_path : string)
| Get (remote_path local_path : string)
| Put (remote_path local_path : string) (prefer_volume : option string)
| PutDir (remote_dir local_dir : string) (prefer_volume : option string) (dry_run : bool)
| Rm (remote_path : string)
| Cp (source_path target_path : string)
| Mv (source_path target_path : string)
| Changes (cursor limit : Z)
| Peers
| CreateVolume (path name max_bytes : string)
| InspectVolume (path : string).

Section Dispatch.
Context `{DebugResponse, ClientTexts, Blake3, Zstd, SqliteText, RowIds}.
Context (upload_transfer : UpdateLease → nat → Z → ClientProg (Fs0Result (Z * list UploadBundle))).
Context (download_transfer : FileReadPlan → list StoragePeerInfo → ClientProg (Fs0Result unit)).
Context (client_config storage_config : Fs0Result ClientConfig) (fs : LocalFs).

Definition run_command (command : Command) : CliProg (Fs0Result (list string)) :=
  match command with
  | Ls dir limit cursor => on_client (cmd_ls client_config dir limit cursor)
  | Stat remote_path => on_client (cmd_stat client_config remote_path)
  | Get remote_path local_path => on_client (cmd_get download_transfer client_config remote_path local_path)
  | Put remote_path local_path prefer_volume => on_client (cmd_put upload_transfer client_config remote_path local_path prefer_volume)
  | PutDir remote_dir local_dir prefer_volume dry_run =>
      on_client (put_dir upload_transfer client_config fs remote_dir local_dir prefer_volume dry_run)
  | Rm remote_path => on_client (cmd_rm client_config remote_path)
  | Cp source_path target_path => on_client (cmd_cp client_config source_path target_path)
  | Mv source_path target_path => on_client (cmd_mv client_config source_path target_path)
  | Changes cursor limit => on_client (cmd_changes client_config cursor limit)
  | Peers => on_client (cmd_peers client_config)
  | CreateVolume path name max_bytes => cmd_create_volume storage_config path name max_bytes
  | InspectVolume path => cmd_inspect_volume path
  end.
End Dispatch.

(** [default_config_path] *)
Definition default_config_path (home : option string) : string :=
  path_join (path_join (default "." home) ".fs0") "config.toml".
Definition config_path (home config : option string) : string := default (default_config_path home) config.
