(* ===== verification/CliFacts.v ===== *)
(** * What put-dir collects and uploads, and sizes on the command line

    The files a local directory gives, with their remote paths: all regular files, sorted, two of them never at
    one remote path, and every path one the central server accepts.  A second run of put-dir
    uploads nothing.  [parse_bytes] reads back a printed number. *)

From S2P Require Import Prelude Types Paths Link Conc CentralDb VolumeDb VolumeIo Volume.
From S2P Require Import VolumeSample StorageSample ClientSession ClientTransfer ClientFiles Cli.

(** ** The files of a local directory *)

Section LocalNodeInd.
Context (P : LocalNode → Prop).
Context (Hfile : ∀ metadata, P (LFile metadata)).
Context (Hdir : ∀ entries, Forall (λ e, P e.2) entries → P (LDir entries)).
Context (Hunreadable : ∀ m, P (LUnreadable m)) (Huntyped : ∀ m, P (LUntyped m)) (Hother : P LOther).

Fixpoint LocalNode_nested_ind (node : LocalNode) : P node :=
  match node with
  | LFile metadata => Hfile metadata
  | LDir entries =>
      Hdir entries ((fix go (entries : list (string * LocalNode)) : Forall (λ e, P e.2) entries :=
        match entries with
        | [] => Forall_nil_2 _
        | (name, node) :: entries => Forall_cons_2 (λ e, P e.2) (name, node) entries (LocalNode_nested_ind node) (go entries)
        end) entries)
  | LUnreadable m => Hunreadable m
  | LUntyped m => Huntyped m
  | LOther => Hother
  end.
End LocalNodeInd.

(** the regular files below a node: their relative path and their length *)
Fixpoint tree_files (node : LocalNode) : list (list string * Z) :=
  match node with
  | LFile (Ok len) => [([], len)]
  | LDir entries => flat_map (λ e, map (λ f, (e.1 :: f.1, f.2)) (tree_files e.2)) entries
  | _ => []
  end.

(** nothing below the node fails: directories can be read, files have a length and their paths are text *)
Inductive readable : list string → LocalNode → Prop :=
| readable_file relative len : Forall (λ c, utf8_valid_from 0 c = true) relative → readable relative (LFile (Ok len))
| readable_dir relative entries :
    (∀ name node, (name, node) ∈ entries → readable (relative ++ [name]) node) → readable relative (LDir entries)
| readable_other relative : readable relative LOther.

(** what the file system guarantees of a directory: distinct names, none empty, [.], [..] or with a slash *)
Inductive named : LocalNode → Prop :=
| named_dir entries :
    NoDup (map fst entries) → (∀ name node, (name, node) ∈ entries → valid_component name = true) →
    (∀ name node, (name, node) ∈ entries → named node) → named (LDir entries)
| named_leaf node : is_dir node = false → named node
| named_unreadable m : named (LUnreadable m).

(** the upload of such a file, from a node at [path] that is [base] below the root *)
Definition upload_of (remote_dir path : string) (base : list string) (file : list string * Z) : UploadFile :=
  mkUploadFile (foldl path_join path file.1) (trim_end_matches slash remote_dir +:+ render_rel (base ++ file.1)) file.2.

Lemma push_components_Ok path components remote remote' :
  push_components path components remote = Ok remote' ↔
  remote' = remote +:+ render_rel components ∧ Forall (λ c, utf8_valid_from 0 c = true) components.
Proof.
  revert remote. induction components as [|c components IH]; intros remote; simpl.
  - rewrite append_nil_r. naive_solver.
  - unfold to_str. rewrite Forall_cons. destruct (utf8_valid_from 0 c); cbn [ok_or mbind Result_bind].
    + rewrite IH, !append_assoc. naive_solver.
    + naive_solver.
Qed.

Lemma all_files_Ok entries files :
  all_files entries = Ok files ↔ ∃ parts, map snd entries = map Ok parts ∧ files = concat parts.
Proof.
  revert files. induction entries as [|[name part] entries IH]; intros files; cbn [all_files map].
  - split; [intros [= <-]; by exists []|]. intros ([|] & Hparts & ->); [done|discriminate Hparts].
  - destruct part as [part|e]; cbn [mbind Result_bind].
    + split.
      * intros (rest & (parts & Hparts & ->)%IH & [= <-])%Result_bind_Ok. exists (part :: parts). simpl. by rewrite Hparts.
      * intros ([|p parts] & Hparts & ->); [done|]. simpl in Hparts. injection Hparts as -> Hparts.
        apply Result_bind_Ok. exists (concat parts). split; [|done]. apply IH. by exists parts.
    + split; [done|]. intros ([|p parts] & Hparts & _); discriminate Hparts.
Qed.

(** the results of sorted entries, without their order *)
Lemma all_files_sorted {A} (f : string * A → Fs0Result (list UploadFile)) (entries : list (string * A)) files :
  all_files (merge_sort entry_le (map (λ e, (e.1, f e)) entries)) = Ok files →
  ∃ parts, Forall2 (λ e part, f e = Ok part) entries parts ∧ files ≡ₚ concat parts.
Proof.
  intros (parts & Hparts & ->)%all_files_Ok.
  pose proof (merge_sort_Permutation entry_le (map (λ e, (e.1, f e)) entries)) as Hperm.
  apply (fmap_Permutation snd) in Hperm. change (snd <$> ?l) with (map snd l) in Hperm. rewrite Hparts, map_map in Hperm.
  cbn [snd] in Hperm. symmetry in Hperm.
  apply Permutation_map_inv in Hperm as (parts' & Hmap & Hperm).
  exists parts'. split; [|by apply concat_Permutation].
  clear -Hmap. revert parts' Hmap. induction entries as [|e entries IH]; intros [|p parts'] Hmap; try discriminate Hmap; constructor.
  - by injection Hmap.
  - apply IH. by injection Hmap.
Qed.

Lemma all_files_readable {A} (f : string * A → Fs0Result (list UploadFile)) (entries : list (string * A)) :
  (∀ e, e ∈ entries → ∃ part, f e = Ok part) → ∃ files, all_files (merge_sort entry_le (map (λ e, (e.1, f e)) entries)) = Ok files.
Proof.
  intros Hf.
  assert (∀ r, r ∈ merge_sort entry_le (map (λ e, (e.1, f e)) entries) → ∃ part, r.2 = Ok part) as Hparts.
  { intros r Hr. rewrite merge_sort_Permutation in Hr. apply list_elem_of_fmap in Hr as (e & -> & He). apply Hf, He. }
  revert Hparts. generalize (merge_sort entry_le (map (λ e, (e.1, f e)) entries)). clear. intros l Hl.
  induction l as [|[name r] l IH]; [by exists []|]. destruct (Hl (name, r)) as [part Hr]; [by left|]. simpl in Hr. subst r.
  destruct IH as [rest Hrest]; [intros r Hr; apply Hl; by right|]. exists (part ++ rest). cbn [all_files mbind Result_bind]. by rewrite Hrest.
Qed.

(** the body of the loop as a function of the entry *)
Lemma collect_dir remote_dir path relative entries :
  collect_upload_files_from remote_dir path relative (LDir entries) =
  all_files (merge_sort entry_le (map (λ e, (e.1,
    collect_upload_files_from remote_dir (path_join path e.1) (relative ++ [e.1]) e.2)) entries)).
Proof. simpl. do 2 f_equal. apply map_ext. by intros [name node]. Qed.

Lemma collect_from_files remote_dir node : ∀ path base files,
  collect_upload_files_from remote_dir path base node = Ok files →
  files ≡ₚ map (upload_of remote_dir path base) (tree_files node).
Proof.
  induction node as [metadata|entries IH|m|m|] using LocalNode_nested_ind; intros path base files Hfiles.
  - simpl in Hfiles. apply Result_bind_Ok in Hfiles as (remote & Hremote & Hfiles).
    apply push_components_Ok in Hremote as [-> _]. destruct metadata as [len|]; [|done]. simpl in Hfiles. injection Hfiles as <-.
    simpl. unfold upload_of. simpl. by rewrite app_nil_r.
  - rewrite collect_dir in Hfiles. apply all_files_sorted in Hfiles as (parts & Hparts & ->). cbn [tree_files].
    induction Hparts as [|[name node] part entries parts Hpart Hparts IHparts]; [done|].
    apply Forall_cons in IH as [IHnode IH]. cbn [concat flat_map]. rewrite map_app, (IHparts IH). f_equiv.
    cbn [fst snd] in *. rewrite (IHnode _ _ _ Hpart), map_map. apply reflexive_eq, map_ext. intros [rel len].
    unfold upload_of. cbn [fst snd foldl]. by rewrite <-app_assoc.
  - done.
  - done.
  - injection Hfiles as <-. done.
Qed.

Lemma collect_from_readable remote_dir node : ∀ path base,
  readable base node → ∃ files, collect_upload_files_from remote_dir path base node = Ok files.
Proof.
  induction node as [metadata|entries IH|m|m|] using LocalNode_nested_ind; intros path base Hread; inversion Hread as [? len Htext| |]; subst.
  - eexists. simpl. unfold upload_remote_path.
    rewrite (proj2 (push_components_Ok _ base _ _) (conj eq_refl Htext)). done.
  - rewrite collect_dir. apply all_files_readable. intros [name node] He.
    apply (proj1 (Forall_forall _ _) IH _ He). eauto.
  - by eexists.
Qed.

Lemma tree_files_valid node : named node → ∀ f, f ∈ tree_files node → Forall (λ c, valid_component c = true) f.1.
Proof.
  induction 1 as [entries _ Hvalid _ IH|node Hleaf|m]; intros f Hf.
  - cbn [tree_files] in Hf. apply list_elem_of_In, in_flat_map in Hf as ([name node] & He & Hf).
    apply list_elem_of_In in He. apply list_elem_of_In, list_elem_of_fmap in Hf as ([rel len] & -> & Hf).
    constructor; [by eapply Hvalid|]. by apply (IH _ _ He (rel, len)).
  - destruct node as [[len|]| | | |]; try done; simpl in Hf; [|by apply elem_of_nil in Hf..].
    apply list_elem_of_singleton in Hf as ->. constructor.
  - by apply elem_of_nil in Hf.
Qed.

Lemma tree_files_NoDup node : named node → NoDup (map fst (tree_files node)).
Proof.
  induction 1 as [entries Hnames _ _ IH|node Hleaf|m]; [|destruct node as [[]| | | |]; try done; simpl; repeat constructor; by intros ?%elem_of_nil|constructor].
  cbn [tree_files]. induction entries as [|[name node] entries IHe]; [constructor|]. cbn [flat_map map fst snd] in *.
  apply NoDup_cons in Hnames as [Hname Hnames]. rewrite map_app, map_map. cbn [fst]. apply NoDup_app. split_and!.
  - rewrite <-(map_map fst (cons name)). apply NoDup_fmap_2; [by intros a b [= ->]|]. eapply IH. by left.
  - intros rel (f & -> & Hf)%list_elem_of_fmap (g & Hg & Hin)%list_elem_of_fmap.
    apply list_elem_of_In, in_flat_map in Hin as ([name' node'] & He & Hin).
    apply list_elem_of_In, list_elem_of_fmap in Hin as (h & -> & _). cbn [fst] in Hg. injection Hg as -> _.
    apply Hname. apply list_elem_of_In in He. by apply (list_elem_of_fmap_2 fst _ (name', node')).
  - apply IHe; [done|]. intros name' node' He. eapply IH. by right.
Qed.

Lemma tree_files_nonempty node : is_dir node = true → ∀ f, f ∈ tree_files node → f.1 ≠ [].
Proof.
  intros Hdir f Hf. destruct node as [|entries|m|m|]; try done; [|by apply elem_of_nil in Hf].
  cbn [tree_files] in Hf. apply list_elem_of_In, in_flat_map in Hf as ([name node] & _ & Hf).
  by apply list_elem_of_In, list_elem_of_fmap in Hf as (g & -> & _).
Qed.

(** ** The remote directory *)

(** a suffix that cannot be removed *)
Lemma trim_suffix_id (all : string → bool) s :
  (∀ a b, s = a +:+ b → b ≠ "" → all b = false) → trim_suffix all s = s.
Proof.
  induction s as [|c s IH]; intros Hall; cbn [trim_suffix]; [by destruct (all _)|].
  rewrite (Hall "" (String c s)) by done. f_equal. apply IH. intros a b -> Hb. by apply (Hall (String c a)).
Qed.

Lemma all_char_ends c s : s ≠ "" → all_char c s = true → ends_with_char c s = true.
Proof.
  induction s as [|a s IH]; [done|]. cbn [all_char]. intros _ [Ha Hs]%andb_true_iff.
  destruct s as [|b s]; [done|]. by apply IH.
Qed.

Lemma trim_end_no_slash s : ends_with_char slash s = false → trim_end_matches slash s = s.
Proof.
  intros Hs. apply trim_suffix_id. intros a b -> Hb. rewrite ends_with_char_app in Hs by done.
  destruct (all_char slash b) eqn:Hall; [|done]. by rewrite all_char_ends in Hs.
Qed.

Lemma trim_end_render cs : Forall (λ c, valid_component c = true) cs → trim_end_matches slash (render cs) = render_rel cs.
Proof.
  intros Hcs. destruct cs as [|c cs _] using rev_ind; [done|]. rewrite render_rel_render by (by destruct cs).
  apply Forall_app in Hcs as [_ [(Hne & _ & Hc)%valid_component_alt _]%Forall_cons]. apply trim_end_no_slash.
  rewrite render_rel_snoc, ends_with_char_app by done. rewrite (ends_with_char_app slash "/" c) by done.
  by apply ends_with_char_no.
Qed.

Lemma upload_of_render path cs f : Forall (λ c, valid_component c = true) cs → f.1 ≠ [] →
  uf_remote_path (upload_of (render cs) path [] f) = render (cs ++ f.1).
Proof.
  intros Hcs Hf. unfold upload_of. cbn [uf_remote_path app]. rewrite trim_end_render by done.
  rewrite <-render_rel_app. symmetry. apply render_rel_render. destruct cs; [by destruct f.1|done].
Qed.

Lemma remote_paths_NoDup root cs node : named node → Forall (λ c, valid_component c = true) cs →
  NoDup (map uf_remote_path (map (λ f, mkUploadFile (foldl path_join root f.1) (render (cs ++ f.1)) f.2) (tree_files node))).
Proof.
  intros Hnamed Hcs. rewrite map_map. cbn [uf_remote_path].
  pose proof (tree_files_NoDup _ Hnamed) as Hnd. pose proof (tree_files_valid _ Hnamed) as Hvalid.
  clear -Hnd Hvalid Hcs. induction (tree_files node) as [|f l IH]; [constructor|]. cbn [map] in *. apply NoDup_cons in Hnd as [Hf Hnd].
  constructor; [|apply IH; [done|]; intros g Hg; apply Hvalid; by right].
  intros (g & Heq & Hg)%list_elem_of_fmap. apply render_inj in Heq.
  - apply app_inv_head in Heq. apply Hf. rewrite Heq. by apply (list_elem_of_fmap_2 fst).
  - apply Forall_app. split; [done|]. apply Hvalid. by left.
  - apply Forall_app. split; [done|]. apply Hvalid. by right.
Qed.

Lemma remote_path_accepted cs rel : Forall (λ c, valid_component c = true) cs → Forall (λ c, valid_component c = true) rel → rel ≠ [] →
  ∃ ds name, split_fs0_path_dir_and_name (render (cs ++ rel)) = Ok (render ds, name) ∧
    split_fs0_path_components (render ds) = Ok ds ∧ cs `prefix_of` ds.
Proof.
  intros Hcs Hrel Hne. destruct rel as [|name rel _] using rev_ind; [done|]. apply Forall_app in Hrel as [Hrel Hname].
  exists (cs ++ rel), name. rewrite app_assoc. split; [|split; [|by apply prefix_app_r]].
  - apply split_dir_and_name_render. exists (cs ++ rel). rewrite !Forall_app. auto.
  - apply split_components_render. rewrite Forall_app. auto.
Qed.

(** C36. What put-dir uploads.  A directory that can be read is collected without an error: each of its regular files
    once, to the components of the remote directory followed by those of its own path, sorted by the remote path, no
    two files to one.  The central server accepts each of these paths. *)
Theorem collect_upload_files_spec fs local_dir remote_dir root cs :
  canonicalize fs local_dir = Ok root → is_dir (node_at fs root) = true →
  named (node_at fs root) → readable [] (node_at fs root) →
  normalize_remote_dir remote_dir = render cs → Forall (λ c, valid_component c = true) cs →
  ∃ files, collect_upload_files fs local_dir (normalize_remote_dir remote_dir) = Ok files ∧
    files ≡ₚ map (λ f, mkUploadFile (foldl path_join root f.1) (render (cs ++ f.1)) f.2) (tree_files (node_at fs root)) ∧
    StronglySorted remote_path_le files ∧ NoDup (map uf_remote_path files) ∧
    ∀ f, f ∈ files → ∃ ds name, split_fs0_path_dir_and_name (uf_remote_path f) = Ok (render ds, name) ∧
      split_fs0_path_components (render ds) = Ok ds ∧ cs `prefix_of` ds.
Proof.
  intros Hroot Hdir Hnamed Hread Hnorm Hcs. rewrite Hnorm. unfold collect_upload_files. rewrite Hroot. cbn [map_err mbind Result_bind].
  rewrite Hdir. cbn [negb]. destruct (collect_from_readable (render cs) _ root [] Hread) as (found & Hfound). rewrite Hfound.
  cbn [mbind Result_bind]. eexists. split; [done|].
  set (node := node_at fs root) in *. apply collect_from_files in Hfound.
  assert (map (upload_of (render cs) root []) (tree_files node) =
          map (λ f, mkUploadFile (foldl path_join root f.1) (render (cs ++ f.1)) f.2) (tree_files node)) as Hmap.
  { apply map_ext_in. intros f Hf%list_elem_of_In. pose proof (upload_of_render root cs f Hcs (tree_files_nonempty _ Hdir _ Hf)) as Hremote.
    unfold upload_of in *. cbn [uf_remote_path] in Hremote. by rewrite Hremote. }
  rewrite Hmap in Hfound. clear Hmap.
  assert (merge_sort remote_path_le found ≡ₚ map (λ f, mkUploadFile (foldl path_join root f.1) (render (cs ++ f.1)) f.2) (tree_files node)) as Hperm
    by (by rewrite merge_sort_Permutation).
  split; [done|]. split; [|split].
  - apply StronglySorted_merge_sort.
    + intros a b c. unfold remote_path_le. apply transitivity.
    + intros a b. unfold remote_path_le. apply (total String.le).
  - rewrite Hperm. by apply remote_paths_NoDup.
  - intros f Hf. rewrite Hperm in Hf. apply list_elem_of_fmap in Hf as (g & -> & Hg). cbn [uf_remote_path].
    apply remote_path_accepted; [done|by apply (tree_files_valid _ Hnamed)|by apply (tree_files_nonempty _ Hdir)].
Qed.

(** [/home/x] with [b], [a/c] and a link, uploaded below [docs/] *)
Definition sample_tree : LocalNode := LDir [("b", LFile (Ok 2)); ("l", LOther); ("a", LDir [("c", LFile (Ok 1))])].
Definition sample_fs : LocalFs := mkLocalFs (λ _, Ok "/home/x") (λ _, sample_tree).

Lemma sample_named : named sample_tree.
Proof.
  apply named_dir.
  - apply (bool_decide_unpack _). vm_compute. exact I.
  - intros name node Hin. repeat (apply elem_of_cons in Hin as [[= -> ->]|Hin]; [reflexivity|]). by apply elem_of_nil in Hin.
  - intros name node Hin. apply elem_of_cons in Hin as [[= -> ->]|Hin]; [by apply named_leaf|].
    apply elem_of_cons in Hin as [[= -> ->]|Hin]; [by apply named_leaf|]. apply list_elem_of_singleton in Hin as [= -> ->].
    apply named_dir; [repeat constructor; by intros ?%elem_of_nil|intros ?? [= -> ->]%list_elem_of_singleton; reflexivity|].
    intros ?? [= -> ->]%list_elem_of_singleton. by apply named_leaf.
Qed.

Lemma sample_readable : readable [] sample_tree.
Proof.
  apply readable_dir. intros name node Hin. apply elem_of_cons in Hin as [[= -> ->]|Hin]; [repeat constructor|].
  apply elem_of_cons in Hin as [[= -> ->]|Hin]; [constructor|]. apply list_elem_of_singleton in Hin as [= -> ->].
  apply readable_dir. intros ?? [= -> ->]%list_elem_of_singleton. repeat constructor.
Qed.

Lemma collect_upload_files_spec_witness :
  collect_upload_files sample_fs "." (normalize_remote_dir " docs/ ") =
    Ok [mkUploadFile "/home/x/a/c" "/docs/a/c" 1; mkUploadFile "/home/x/b" "/docs/b" 2] ∧
  ∃ files, collect_upload_files sample_fs "." (normalize_remote_dir " docs/ ") = Ok files ∧ NoDup (map uf_remote_path files).
Proof.
  split; [vm_compute; reflexivity|].
  destruct (collect_upload_files_spec sample_fs "." " docs/ " "/home/x" ["docs"] eq_refl eq_refl sample_named sample_readable eq_refl
    ltac:(repeat constructor)) as (files & Hfiles & _ & _ & Hnd & _). by exists files.
Defined.

(** ** A second run of put-dir *)

Section Skips.
Context `{DebugResponse, ClientTexts, Blake3, Zstd}.
Context (upload_transfer : UpdateLease → nat → Z → ClientProg (Fs0Result (Z * list UploadBundle))).

(** the connection stays open and the central server has a file of this size at the path *)
Definition has_remote (o : Oracle ClientQuery) (c : Connection) (file : UploadFile) : Prop :=
  ∀ n, o n _ (CIsClosed c) = false ∧
    ∃ plan, plan_size plan = uf_bytes file ∧
      o n _ (CRpc c (ReqControl (GetFileReadPlanRq (uf_remote_path file))) false) = Ok (RespControl (GetFileReadPlanRs plan)).

(** what it is asked about a file *)
Definition plan_questions (c : Connection) (file : UploadFile) : list (sigT ClientQuery) :=
  [existT _ (CIsClosed c); existT _ (CRpc c (ReqControl (GetFileReadPlanRq (uf_remote_path file))) false)].

Lemma same_size_run o n c file s : ces_connection (cl_central s) = Some c → has_remote o c file →
  run o n (remote_exists_with_same_size file) s = mkOutcome (Ok true) s (plan_questions c file).
Proof.
  intros Hc Hremote. destruct (Hremote n) as [Hopen _]. destruct (Hremote (S n)) as [_ (plan & Hsize & Hplan)].
  unfold remote_exists_with_same_size, get_file_read_plan, control_call, central_request, central_ensure_connected.
  rewrite !run_bind. cbv zeta. unfold prog_try at 1. rewrite !run_bind. cbn. rewrite Hc. cbn. rewrite Hopen. cbn. rewrite Hplan. cbn.
  by rewrite bool_decide_true.
Qed.

Lemma skip_all_run o c prefer s files : ces_connection (cl_central s) = Some c → Forall (has_remote o c) files → ∀ n summary,
  run o n (upload_files upload_transfer files prefer summary) s =
  mkOutcome (Ok (foldl (λ summary file, skipped file summary) summary files)) s (flat_map (plan_questions c) files).
Proof.
  intros Hc Hfiles. induction Hfiles as [|file files Hfile Hfiles IH]; intros n summary; [done|].
  cbn [upload_files]. unfold prog_try. rewrite run_bind. cbv zeta. rewrite (same_size_run o n c) by done.
  cbn [out_value out_state out_asked]. by rewrite IH.
Qed.

Lemma skipped_count up upb files : ∀ n b,
  foldl (λ summary file, skipped file summary) (mkPutDirSummary up upb (n mod 2 ^ 64) (b mod 2 ^ 64)) files =
  mkPutDirSummary up upb ((n + Z.of_nat (length files)) mod 2 ^ 64) ((b + zsum (map uf_bytes files)) mod 2 ^ 64).
Proof.
  unfold zsum. induction files as [|file files IH]; intros n b; cbn [foldl map foldr length].
  - by rewrite !Z.add_0_r.
  - unfold skipped at 2, u64_wrapping_add. cbn [pds_uploaded_files pds_uploaded_bytes pds_skipped_files pds_skipped_bytes].
    rewrite !Zplus_mod_idemp_l, IH. do 2 f_equal; lia.
Qed.

(** C38. A second run of put-dir.  When the central server has a file of the same size at the path of every
    collected file, put-dir only asks for their read plans: nothing is uploaded, the state of the client is the one before, and
    all files are counted as skipped, whatever the local files hold. *)
Theorem put_dir_skips o n c files prefer s :
  ces_connection (cl_central s) = Some c → Forall (has_remote o c) files →
  run o n (upload_files upload_transfer files prefer (mkPutDirSummary 0 0 0 0)) s =
  mkOutcome (Ok (mkPutDirSummary 0 0 (Z.of_nat (length files) mod 2 ^ 64) (zsum (map uf_bytes files) mod 2 ^ 64))) s
    (flat_map (plan_questions c) files).
Proof. intros Hc Hfiles. rewrite (skip_all_run o c) by done. do 2 f_equal. apply (skipped_count 0 0 files 0 0). Qed.
End Skips.

Section SkipsWitness.
#[local] Existing Instances plain_debug plain_texts sum_blake3 plain_zstd.

Definition remote_oracle : Oracle ClientQuery := λ _ B q,
  match q in ClientQuery B return B with
  | CIsClosed _ => false
  | CClose _ => tt
  | CConnectCentral | CConnectStorage _ => Err CentralUnavailable
  | CRpc _ _ _ => Ok (RespControl (GetFileReadPlanRs (mkFileReadPlan 1 "/docs/b" 2 [])))
  | CJoin | CFileCall _ _ => None
  | CFileLen _ => Ok 2
  | CFileRead _ _ _ => Err "EIO"
  end.

Lemma put_dir_skips_witness :
  out_value (run remote_oracle 0 (upload_files byte_transfer [mkUploadFile "/home/x/b" "/docs/b" 2] None (mkPutDirSummary 0 0 0 0)) byte_client) =
    Ok (mkPutDirSummary 0 0 1 2).
Proof.
  rewrite (put_dir_skips byte_transfer remote_oracle 0 sample_connection [mkUploadFile "/home/x/b" "/docs/b" 2] None byte_client); [reflexivity|reflexivity|].
  repeat constructor. by exists (mkFileReadPlan 1 "/docs/b" 2 []).
Defined.
End SkipsWitness.

(** ** Sizes *)

(** [s] has no byte that starts a whitespace character *)
Definition no_space (c : ascii) : bool :=
  forallb (λ w, match w with String b _ => negb (bool_decide (b = c)) | EmptyString => false end) whitespace.
Fixpoint plain_string (s : string) : bool :=
  match s with EmptyString => true | String c s => no_space c && plain_string s end.

Lemma no_space_start c s fuel : no_space c = true → trim_start fuel (String c s) = String c s.
Proof.
  intros Hc. destruct fuel as [|fuel]; [done|]. cbn [trim_start].
  enough (lfind_map (λ w, strip_prefix w (String c s)) whitespace = None) as -> by done.
  unfold no_space in Hc. induction whitespace as [|w ws IH]; [done|]. cbn [forallb lfind_map] in *.
  apply andb_true_iff in Hc as [Hw Hc]. destruct w as [|b w]; [done|]. cbn [strip_prefix].
  apply negb_true_iff in Hw. rewrite Hw. auto.
Qed.

Lemma plain_trim s : plain_string s = true → trim s = s.
Proof.
  intros Hs. unfold trim.
  assert (trim_start (String.length s) s = s) as ->.
  { destruct s as [|c s]; [done|]. apply andb_true_iff in Hs as [Hc _]. by apply no_space_start. }
  apply trim_suffix_id. intros a b -> Hb. destruct b as [|c b]; [done|]. apply bool_decide_eq_false.
  rewrite no_space_start; [done|]. induction a as [|x a IH]; simpl in Hs.
  - by apply andb_true_iff in Hs as [? _].
  - apply andb_true_iff in Hs as [_ Hs]. auto.
Qed.

(** the number digits spell, without a bound *)
Fixpoint digits_value (acc : Z) (s : string) : option Z :=
  match s with
  | EmptyString => Some acc
  | String c s => d ← digit c; digits_value (acc * 10 + d) s
  end.

Lemma digit_range c d : digit c = Some d → 0 ≤ d ≤ 9.
Proof. unfold digit. case_bool_decide; naive_solver lia. Qed.

Lemma digits_value_ge s : ∀ acc v, 0 ≤ acc → digits_value acc s = Some v → acc ≤ v.
Proof.
  induction s as [|c s IH]; intros acc v Hacc; cbn [digits_value]; [intros [= ->]; lia|].
  destruct (digit c) as [d|] eqn:Hd; [|done]. apply digit_range in Hd. cbn [mbind option_bind]. intros Hv. apply IH in Hv; lia.
Qed.

Lemma parse_digits_value s : ∀ acc v, 0 ≤ acc → digits_value acc s = Some v →
  parse_digits acc s = if bool_decide (v ≤ u64_max) then Some v else if bool_decide (s = "") then Some v else None.
Proof.
  induction s as [|c s IH]; intros acc v Hacc Hv; cbn [digits_value parse_digits] in *.
  { injection Hv as ->. by case_bool_decide. }
  destruct (digit c) as [d|] eqn:Hd; [|done]. pose proof (digit_range c d Hd) as Hrange. cbn [mbind option_bind] in *.
  assert (acc * 10 + d ≤ v) as Hge by (apply (digits_value_ge s); [lia|done]). rewrite (bool_decide_false (String c s = "")) by done.
  specialize (IH (acc * 10 + d) v ltac:(lia) Hv). unfold u64_checked_mul, u64_checked_add.
  destruct (decide (acc * 10 ≤ u64_max)) as [Hmul|Hmul].
  - rewrite (bool_decide_true (acc * 10 ≤ u64_max)) by done. cbn [mbind option_bind].
    destruct (decide (acc * 10 + d ≤ u64_max)) as [Hadd|Hadd].
    + rewrite (bool_decide_true (acc * 10 + d ≤ u64_max)) by done. cbn [mbind option_bind]. rewrite IH.
      case_bool_decide; [done|]. case_bool_decide as Hs; [|done]. subst s. injection Hv as <-. lia.
    + rewrite (bool_decide_false (acc * 10 + d ≤ u64_max)) by done. cbn [mbind option_bind]. by rewrite bool_decide_false by lia.
  - rewrite (bool_decide_false (acc * 10 ≤ u64_max)) by done. cbn [mbind option_bind]. by rewrite bool_decide_false by lia.
Qed.

Lemma pretty_N_char_digit x : (x < 10)%N → digit (pretty_N_char x) = Some (Z.of_N x) ∧ no_space (pretty_N_char x) = true ∧ pretty_N_char x ≠ "+"%char.
Proof.
  intros Hx. assert (x = 0 ∨ x = 1 ∨ x = 2 ∨ x = 3 ∨ x = 4 ∨ x = 5 ∨ x = 6 ∨ x = 7 ∨ x = 8 ∨ x = 9)%N as Hcases by lia.
  repeat (destruct Hcases as [->|Hcases]; [by vm_compute|]). subst x. by vm_compute.
Qed.

(** what [pretty_N_go] puts in front of [s] *)
Lemma pretty_N_go_value x : ∀ s,
  digits_value 0 (pretty_N_go x s) = digits_value (Z.of_N x) s ∧
  (plain_string s = true → plain_string (pretty_N_go x s) = true) ∧
  ((0 < x)%N → ∃ c r, pretty_N_go x s = String c r ∧ c ≠ "+"%char).
Proof.
  induction (N.lt_wf_0 x) as [x _ IH]. intros s. destruct (decide (x = 0%N)) as [->|Hx]; [rewrite pretty_N_go_0; repeat split; [done|lia]|].
  assert (0 < x)%N as Hpos by lia. rewrite pretty_N_go_step by done.
  assert (x `mod` 10 < 10)%N as Hmod by (by apply N.mod_lt).
  destruct (pretty_N_char_digit _ Hmod) as (Hdigit & Hspace & Hplus).
  destruct (IH (x `div` 10)%N (N.div_lt x 10 Hpos eq_refl) (String (pretty_N_char (x `mod` 10)) s)) as (Hvalue & Hplain & Hfront).
  split; [|split].
  - rewrite Hvalue. cbn [digits_value]. rewrite Hdigit. cbn [mbind option_bind]. f_equal.
    rewrite N2Z.inj_div, N2Z.inj_mod. pose proof (Z.div_mod (Z.of_N x) 10). lia.
  - intros Hs. apply Hplain. cbn [plain_string]. by rewrite Hspace, Hs.
  - intros _. destruct (decide (x `div` 10 = 0)%N) as [->|Hne]; [rewrite pretty_N_go_0; eauto|]. apply Hfront. by apply N.neq_0_lt_0.
Qed.

(** a printed number is one digit at least, none of them a sign or a space, and reads back *)
Lemma pretty_digits n : 0 ≤ n →
  digits_value 0 (pretty n) = Some n ∧ plain_string (pretty n) = true ∧ ∃ c r, pretty n = String c r ∧ c ≠ "+"%char.
Proof.
  intros Hn. destruct n as [|p|p]; [|change (pretty (Z.pos p)) with (pretty_N (N.pos p)); unfold pretty_N|lia].
  - split; [reflexivity|]. split; [reflexivity|]. by exists "0"%char, "".
  - rewrite decide_False by done. destruct (pretty_N_go_value (N.pos p) "") as (Hvalue & Hplain & Hfront).
    split; [rewrite Hvalue; done|]. split; [by apply Hplain|]. by apply Hfront.
Qed.

Lemma parse_u64_pretty n : 0 ≤ n → parse_u64 (pretty n) = if bool_decide (n ≤ u64_max) then Some n else None.
Proof.
  intros Hn. destruct (pretty_digits n Hn) as (Hvalue & _ & c & r & Heq & Hplus). unfold parse_u64. rewrite Heq in *.
  assert (parse_digits 0 (String c r) = if bool_decide (n ≤ u64_max) then Some n else None) as Hparse
    by (rewrite (parse_digits_value _ 0 n) by done; by rewrite (bool_decide_false (String c r = ""))).
  rewrite <-Hparse. clear Hparse Hvalue Heq.
  destruct c as [[] [] [] [] [] [] [] []]; done.
Qed.

Lemma split_last_snoc s c : split_last (s +:+ String c "") = Some (s, c).
Proof.
  induction s as [|a s IH]; [done|]. cbn [String.append split_last]. rewrite IH.
  destruct s as [|b s]; simpl; done.
Qed.

Lemma plain_string_app s t : plain_string (s +:+ t) = plain_string s && plain_string t.
Proof. induction s as [|c s IH]; simpl; [done|]. by rewrite IH, andb_assoc. Qed.

Lemma multiplier_plain c m : multiplier_of c = Some m → no_space c = true.
Proof. unfold multiplier_of. intros Hc. repeat case_bool_decide; try done; destruct_or!; subst c; reflexivity. Qed.

Lemma digit_no_multiplier c d : digit c = Some d → multiplier_of c = None.
Proof.
  unfold digit, multiplier_of. case_bool_decide as Hc; [|done]. intros _.
  rewrite !bool_decide_false; [done|..]; intros [-> | ->]; by destruct Hc.
Qed.

(** the last byte of digits is a digit *)
Lemma digits_last s : ∀ acc v, digits_value acc s = Some v → s ≠ "" → ∃ front c d, s = front +:+ String c "" ∧ digit c = Some d.
Proof.
  induction s as [|a s IH]; [done|]. intros acc v Hv _. cbn [digits_value] in Hv.
  destruct (digit a) as [d|] eqn:Ha; [|done]. cbn [mbind option_bind] in Hv.
  destruct s as [|b s]; [by exists "", a, d|]. destruct (IH _ _ Hv) as (front & c & d' & Heq & Hc); [done|].
  exists (String a front), c, d'. by rewrite Heq.
Qed.

Lemma number_of_suffix n suffix m : 0 ≤ n →
  (suffix = "" ∧ m = 1) ∨ (∃ c, suffix = String c "" ∧ multiplier_of c = Some m) →
  number_and_multiplier (trim (pretty n +:+ suffix)) = (pretty n, m).
Proof.
  intros Hn Hsuffix. destruct (pretty_digits n Hn) as (Hvalue & Hplain & c0 & r & Heq & _).
  unfold number_and_multiplier. destruct Hsuffix as [[-> ->]|(c & -> & Hm)].
  - rewrite append_nil_r, plain_trim by done.
    destruct (digits_last _ _ _ Hvalue) as (front & c & d & Hlast & Hc); [by rewrite Heq|].
    rewrite Hlast at 1. by rewrite split_last_snoc, (digit_no_multiplier c d).
  - rewrite plain_trim by (rewrite plain_string_app, Hplain; simpl; by rewrite (multiplier_plain c m)).
    by rewrite split_last_snoc, Hm.
Qed.

Lemma parse_digits_nonneg s : ∀ acc v, 0 ≤ acc → parse_digits acc s = Some v → 0 ≤ v.
Proof.
  induction s as [|c s IH]; intros acc v Hacc; cbn [parse_digits]; [by intros [= ->]|].
  destruct (digit c) as [d|] eqn:Hd; [|done]. apply digit_range in Hd. unfold u64_checked_mul, u64_checked_add.
  case_bool_decide; [|done]. cbn [mbind option_bind]. case_bool_decide; [|done]. cbn [mbind option_bind]. apply IH. lia.
Qed.

Lemma number_multiplier_pos value : 1 ≤ (number_and_multiplier value).2.
Proof.
  unfold number_and_multiplier, multiplier_of. destruct (split_last value) as [[front c]|]; [|done].
  repeat case_bool_decide; done.
Qed.

Lemma parse_bytes_u64 value bytes : parse_bytes value = Ok bytes → is_u64 bytes.
Proof.
  unfold parse_bytes. pose proof (number_multiplier_pos (trim value)) as Hm.
  destruct (number_and_multiplier (trim value)) as [number m]. cbn [snd] in Hm.
  destruct (parse_u64 number) as [x|] eqn:Hx; cbn [ok_or mbind Result_bind]; [|done].
  assert (0 ≤ x) as Hpos. { unfold parse_u64 in Hx. case_bool_decide; [done|]. by apply parse_digits_nonneg in Hx. }
  unfold u64_checked_mul. case_bool_decide; [|done]. intros [= <-]. split; [nia|done].
Qed.

(** Sizes on the command line.  A printed number, followed by nothing or by [k], [m], [g] or [t] in either
    case, is parsed to the number times the power of 1024 when that is a [u64], and refused otherwise; whatever is
    given, the result is a [u64] or the error is [InvalidRequest]. *)
Theorem parse_bytes_spec n suffix m value : 0 ≤ n →
  (suffix = "" ∧ m = 1) ∨ (∃ c, suffix = String c "" ∧ multiplier_of c = Some m) →
  parse_bytes (pretty n +:+ suffix) = (if bool_decide (n * m ≤ u64_max) then Ok (n * m) else Err InvalidRequest) ∧
  match parse_bytes value with Ok bytes => is_u64 bytes | Err err => err = InvalidRequest end.
Proof.
  intros Hn Hsuffix. assert (1 ≤ m) as Hm.
  { destruct Hsuffix as [[_ ->]|(c & _ & Hc)]; [done|]. unfold multiplier_of in Hc. repeat case_bool_decide; by simplify_eq. }
  split.
  - unfold parse_bytes. rewrite number_of_suffix with (m := m) by done. rewrite parse_u64_pretty by done.
    unfold u64_checked_mul. destruct (decide (n ≤ u64_max)) as [Hle|Hle].
    + rewrite (bool_decide_true (n ≤ u64_max)) by done. cbn [ok_or mbind Result_bind]. by case_bool_decide.
    + rewrite (bool_decide_false (n ≤ u64_max)) by done. cbn [ok_or mbind Result_bind].
      by rewrite bool_decide_false by nia.
  - destruct (parse_bytes value) as [bytes|err] eqn:Hvalue; [by apply (parse_bytes_u64 value)|]. unfold parse_bytes in Hvalue.
    destruct (number_and_multiplier (trim value)) as [number multiplier].
    destruct (parse_u64 number) as [x|]; cbn [ok_or mbind Result_bind] in Hvalue; [|congruence].
    unfold u64_checked_mul in Hvalue. case_bool_decide; cbn [ok_or] in Hvalue; congruence.
Qed.

Lemma parse_bytes_spec_witness : parse_bytes "4g" = Ok (4 * 1024 ^ 3) ∧ parse_bytes "16777216T" = Err InvalidRequest.
Proof.
  split.
  - apply (parse_bytes_spec 4 "g" (1024 ^ 3) ""); [lia|]. right. by exists "g"%char.
  - apply (parse_bytes_spec 16777216 "T" (1024 ^ 4) ""); [lia|]. right. by exists "T"%char.
Defined.
