(* ===== verification/CliVolumes.v ===== *)
(** * Creating a volume on the command line

    The database file of the directory, the central server's record and the file again: what each
    outcome of [create-volume] leaves behind. *)

From S2P Require Import Prelude Types Paths Link Conc CentralDb VolumeDb VolumeIo Volume.
From S2P Require Import VolumeInv VolumeSample StorageSample VolumeLife ClientSession ClientTransfer ClientFiles Cli CliFacts.

(** ** What a command ends with *)

Section Ends.
Context (o : Oracle CliQuery).

(** the value, the state and the questions, whenever they are asked *)
Definition ends {A} (p : CliProg A) (s : CliState) (Post : A → CliState → list (sigT CliQuery) → Prop) : Prop :=
  ∀ n, Post (out_value (run o n p s)) (out_state (run o n p s)) (out_asked (run o n p s)).

Lemma ends_bind {A B} (p : CliProg A) (f : A → CliProg B) s M Post :
  ends p s M → (∀ a s' l, M a s' l → ends (f a) s' (λ b s'' l', Post b s'' (l ++ l'))) → ends (p ≫= f) s Post.
Proof. intros Hp Hf n. rewrite run_bind. cbv zeta. cbn [out_value out_state out_asked]. apply Hf, Hp. Qed.

Lemma ends_try {A B} (p : CliProg (Fs0Result A)) (f : A → CliProg (Fs0Result B)) s
    (M : Fs0Result A → CliState → list (sigT CliQuery) → Prop) (Post : Fs0Result B → CliState → list (sigT CliQuery) → Prop) :
  ends p s M → (∀ a s' l, M (Ok a) s' l → ends (f a) s' (λ b s'' l', Post b s'' (l ++ l'))) →
  (∀ e s' l, M (Err e) s' l → Post (Err e) s' l) → ends (prog_try f p) s Post.
Proof.
  intros Hp Hok Herr. unfold prog_try. eapply ends_bind; [exact Hp|]. intros [a|e] s' l HM; [by apply Hok|].
  intros n. rewrite run_ret. cbn [out_value out_state out_asked]. rewrite app_nil_r. by apply Herr.
Qed.

Lemma ends_ret {A} (a : A) s (Post : A → CliState → list (sigT CliQuery) → Prop) : Post a s [] → ends (mret a) s Post.
Proof. intros HP n. exact HP. Qed.

Lemma ends_ask {A} (q : CliQuery A) s : ends (ask q) s (λ a s' l, s' = s ∧ l = [existT A q] ∧ ∃ m, o m A q = a).
Proof. intros n. rewrite run_ask. simpl. eauto. Qed.

Lemma ends_atomic {A} (block : CliState → A * CliState) s :
  ends (atomic block) s (λ a s' l, (a, s') = block s ∧ l = []).
Proof. intros n. rewrite run_atomic. simpl. split; [by destruct (block s)|done]. Qed.

Lemma ends_conseq {A} (p : CliProg A) s (M Post : A → CliState → list (sigT CliQuery) → Prop) :
  ends p s M → (∀ a s' l, M a s' l → Post a s' l) → ends p s Post.
Proof. intros Hp HP n. apply HP, Hp. Qed.

(** the client leaves the directories alone; its answers come from the oracle *)
Lemma ends_client {A} (p : ClientProg A) s :
  ends (on_client p) s (λ a s' l, cli_disks s' = cli_disks s ∧ may_return (λ B q x, ∃ m, o m B (CliClient q) = x) p a).
Proof.
  intros n. unfold on_client. rewrite lift_run by (by destruct s). cbn [out_value out_state]. split; [done|].
  apply run_may_return. intros m B q. by exists m.
Qed.
End Ends.

(** a question to the process's own machine *)
Definition local_query (q : sigT CliQuery) : Prop := match projT2 q with CliClient _ => False | _ => True end.
(** the clock and the ids the central server gives are [u64] values *)
Definition answers_u64 (o : Oracle CliQuery) : Prop :=
  (∀ n, is_u64 (o n _ CliNow)) ∧
  ∀ n c name max volume_id, o n _ (CliClient (CRpc c (ReqControl (CreateVolumeRq name max)) false)) =
    Ok (RespControl (CreateVolumeRs volume_id)) → is_u64 volume_id.

Section Create.
Context `{DebugResponse, ClientTexts, Blake3, Zstd, SqliteText, RowIds, ContentRule, !RowIdLaws}.
Context (config : Fs0Result ClientConfig) (o : Oracle CliQuery) (Hu64 : answers_u64 o).

(** a volume that was never given an id: it is not there, cannot be opened, or has id 0 *)
Definition unassigned (path : string) (disk : option VolumeDb) : Prop :=
  match disk with
  | Some db => vm_volume_id (vd_meta db) = 0 ∧
      ∀ files v, Volume_open path (Some db) files = Ok v → vm_volume_id (vd_meta (vl_db v)) = 0
  | None => True
  end.

Lemma init_fs_unassigned path max now e1 e2 e3 r disk :
  init_fs path max now e1 e2 e3 None = (r, disk) →
  unassigned path disk ∧ match disk with Some db => vm_max_bytes (vd_meta db) = max | None => ∃ e, r = Err e end.
Proof.
  unfold init_fs. case_bool_decide; [intros [= <- <-]; split; [done|eauto]|]. destruct e1; [intros [= <- <-]; split; [done|eauto]|].
  set (meta := mkVolumeMeta 0 VOLUME_FORMAT_VERSION max 0 now now).
  destruct e2 as [[e []]|]; [by intros [= <- <-]|intros [= <- <-]; split; [done|eauto]|].
  destruct (VolumeDb_create e3 meta) as [r0 db] eqn:Hc. intros [= _ <-].
  assert (db = schema_volume_db meta ∨ db = set_vd_meta_row (schema_volume_db meta) (Some meta)) as [-> | ->].
  { unfold VolumeDb_create, mbind, ST_bind, st_lift, vexec in Hc. subst meta.
    repeat match type of Hc with context [u64_to_i64 ?a ?b] =>
      let Hu := fresh in destruct (u64_to_i64 a b) eqn:Hu; [apply u64_to_i64_Ok in Hu as [-> _]|by left; injection Hc as _ <-] end.
    destruct e3; injection Hc as _ <-; auto. }
  - by split.
  - split; [|done]. split; [done|]. intros files v. unfold Volume_open, VolumeDb_open, load_meta_from_conn, vquery, mbind, ST_bind. simpl.
    unfold st_lift, row_to_meta. simpl. unfold mbind, Result_bind.
    repeat (match goal with |- context [row_u64 ?a ?b ?c] => destruct (row_u64 a b c) eqn:? end; [|done]).
    by intros [= <-].
Qed.

Lemma volume_init_fs_ends path max s : is_u64 max →
  ends o (volume_init_fs path max) s (λ r s' l,
    Forall local_query l ∧
    match cli_disks s !! path with
    | Some db => (∃ e, r = Err e) ∧ cli_disks s' = cli_disks s
    | None =>
        (∃ disk, cli_disks s' = partial_alter (λ _, disk) path (cli_disks s) ∧ unassigned path disk ∧
           (r = Ok tt → ∃ db, disk = Some db ∧ vm_max_bytes (vd_meta db) = max ∧ ∀ files, disk_reachable db files))
    end).
Proof.
  intros Hmax. unfold volume_init_fs.
  eapply ends_bind; [apply ends_ask|]. intros mkdir_err s1 l1 (-> & -> & _).
  eapply ends_bind; [apply ends_ask|]. intros open_err s1 l2 (-> & -> & _).
  eapply ends_bind; [apply ends_ask|]. intros insert_err s1 l3 (-> & -> & _).
  eapply ends_bind; [apply ends_ask|]. intros now s1 l4 (-> & -> & m & <-).
  eapply ends_conseq; [apply ends_atomic|]. intros r s' l [Hblock ->]. split; [by repeat constructor|].
  destruct (cli_disks s !! path) as [db|] eqn:Hdisk.
  - destruct (init_fs path max (o m Z CliNow) mkdir_err open_err insert_err (Some db)) as [r0 disk] eqn:Hinit. injection Hblock as -> ->.
    assert ((∃ e, r0 = Err e) ∧ disk = Some db) as [He ->].
    { unfold init_fs in Hinit. case_bool_decide; [naive_solver|]. destruct mkdir_err; naive_solver. }
    split; [done|]. cbn [cli_disks set_cli_disk]. rewrite <-Hdisk. apply partial_alter_self.
  - destruct (init_fs path max (o m Z CliNow) mkdir_err open_err insert_err None) as [r0 disk] eqn:Hinit. injection Hblock as -> ->.
    destruct (init_fs_unassigned _ _ _ _ _ _ _ _ Hinit) as [Hun Hmeta].
    exists disk. split; [done|]. split; [done|]. intros ->. destruct disk as [db|]; [|by destruct Hmeta].
    exists db. split; [done|]. split; [done|]. intros files. by eapply disk_init; [exact Hmax|apply Hu64|exact Hinit].
Qed.

Lemma disk_reachable_meta db files : disk_reachable db files → meta_ok db.
Proof. intros Hdb. apply (vi_meta _ _ (disk_reachable_inv db files Hdb)). Qed.

Lemma volume_init_id_ends path volume_id db s : is_u64 volume_id → cli_disks s !! path = Some db →
  (∀ files, disk_reachable db files) →
  ends o (volume_init_id path volume_id) s (λ r s' l, Forall local_query l ∧ ∃ db',
    cli_disks s' = <[path := db']> (cli_disks s) ∧
    match r with
    | Ok meta => meta = vd_meta db' ∧ vm_volume_id meta = volume_id ∧ vm_max_bytes meta = vm_max_bytes (vd_meta db) ∧
        ∀ files, disk_reachable db' files
    | Err _ => db' = db
    end).
Proof.
  intros Hid Hdisk Hdb. unfold volume_init_id.
  eapply ends_bind; [apply ends_ask|]. intros err s1 l1 (-> & -> & _).
  eapply ends_bind; [apply ends_ask|]. intros now s1 l2 (-> & -> & m & <-).
  eapply ends_conseq; [apply ends_atomic|]. intros r s' l [Hblock ->]. split; [by repeat constructor|].
  rewrite Hdisk in Hblock.
  destruct (init_volume_id path volume_id (o m Z CliNow) err (Some db)) as [r0 disk] eqn:Hinit. injection Hblock as -> ->.
  assert (∃ db', disk = Some db') as [db' ->].
  { unfold init_volume_id in Hinit. destruct ((VolumeDb_open;; _) db) as [r db']. injection Hinit as _ <-. by exists db'. }
  exists db'. split; [done|].
  assert (∀ files, disk_reachable db' files) as Hdb' by (intros files; by eapply disk_assign; [apply Hdb| |apply Hu64|exact Hinit]).
  unfold init_volume_id in Hinit. rewrite assign_run in Hinit by (by apply (disk_reachable_meta db ∅)).
  case_bool_decide; [by injection Hinit as <- <-|].
  destruct (u64_to_i64 volume_id "volume_id"); [|by injection Hinit as <- <-].
  destruct (u64_to_i64 (o m Z CliNow) "updated_at_ms"); [|by injection Hinit as <- <-].
  destruct err; [by injection Hinit as <- <-|]. by injection Hinit as <- <-.
Qed.

(** the id a call of the client returns is one the central server gave *)
Lemma create_volume_value name max volume_id :
  may_return (λ B q x, ∃ m, o m B (CliClient q) = x) (create_volume name max) (Ok volume_id) →
  ∃ n c, o n _ (CliClient (CRpc c (ReqControl (CreateVolumeRq name max)) false)) = Ok (RespControl (CreateVolumeRs volume_id)).
Proof.
  unfold create_volume, control_call, central_request. rewrite may_return_try. intros (response & Hret & Hexpected).
  rewrite may_return_try in Hret. destruct Hret as (c & _ & Hret).
  rewrite may_return_try in Hret. destruct Hret as (r & (x & [m Hx] & Hr) & Hret).
  cbn [may_return] in Hr. subst x. cbn [may_return mret Prog_ret] in Hret, Hexpected.
  destruct r as [| | |response'|]; try done. injection Hret as ->. destruct response; try done. injection Hexpected as ->. by exists m, c.
Qed.

(** the size is parsed, and then the directory is looked at *)
Lemma create_ends path name text s (Post : Fs0Result (list string) → CliState → list (sigT CliQuery) → Prop) :
  (∀ e, parse_bytes text = Err e → Post (Err e) s []) →
  (∀ max, parse_bytes text = Ok max → is_u64 max →
    ends o (volume_init_fs path max;;? on_client (connect_client config);;?
            volume_id ←? on_client (create_volume name max); on_client shutdown;;?
            meta ←? volume_init_id path volume_id; mret (Ok (print_volume_meta meta))) s Post) →
  ends o (cmd_create_volume config path name text) s Post.
Proof.
  intros Herr Hok. unfold cmd_create_volume.
  eapply ends_try; [apply (ends_ret o _ _ (λ r s' l, r = parse_bytes text ∧ s' = s ∧ l = [])); done| |].
  - intros max s' l (Hmax & -> & ->). cbn [app]. symmetry in Hmax. apply Hok; [done|by apply (parse_bytes_u64 text)].
  - intros e s' l (Hmax & -> & ->). by apply Herr.
Qed.

Lemma create_on_existing path name text db s : cli_disks s !! path = Some db →
  ends o (cmd_create_volume config path name text) s (λ r s' l,
    (∃ e, r = Err e) ∧ cli_disks s' = cli_disks s ∧ Forall local_query l).
Proof.
  intros Hdisk. apply create_ends; [by eauto|]. intros max _ Hmax.
  eapply ends_try; [by apply volume_init_fs_ends| |]; intros a s' l [Hlocal Hinit]; rewrite Hdisk in Hinit.
  - by destruct Hinit as [[e ?] _].
  - destruct Hinit as [_ Hs]. eauto.
Qed.

Lemma create_fresh path name text s : cli_disks s !! path = None →
  ends o (cmd_create_volume config path name text) s (λ r s' l,
    match r with
    | Err _ => ∃ disk, cli_disks s' = partial_alter (λ _, disk) path (cli_disks s) ∧ unassigned path disk
    | Ok lines => ∃ db max,
        cli_disks s' = <[path := db]> (cli_disks s) ∧ lines = print_volume_meta (vd_meta db) ∧
        parse_bytes text = Ok max ∧ vm_max_bytes (vd_meta db) = max ∧
        (∃ m c, o m _ (CliClient (CRpc c (ReqControl (CreateVolumeRq name max)) false)) =
           Ok (RespControl (CreateVolumeRs (vm_volume_id (vd_meta db))))) ∧
        ∀ files, disk_reachable db files
    end).
Proof.
  intros Hdisk. apply create_ends.
  { intros e _. exists None. split; [|done]. rewrite <-Hdisk. symmetry. apply partial_alter_self. }
  intros max Htext Hmax. eapply ends_try; [by apply volume_init_fs_ends| |]; intros a s1 l1 [_ Hinit]; rewrite Hdisk in Hinit.
  2:{ destruct Hinit as (disk & Hs & Hun & _). eauto. }
  destruct Hinit as (disk & Hs1 & Hun & Hok). destruct a. destruct (Hok eq_refl) as (db & -> & Hdbmax & Hdb). clear Hok.
  eapply ends_try; [apply ends_client| |]; intros a s2 l2 [Hs2 _]; rewrite Hs1 in Hs2; [|by eauto].
  eapply ends_try; [apply ends_client| |]; intros volume_id s3 l3 [Hs3 Hid]; rewrite Hs2 in Hs3; [|by eauto].
  apply create_volume_value in Hid as (m & c & Hid).
  eapply ends_try; [apply ends_client| |]; intros b s4 l4 [Hs4 _]; rewrite Hs3 in Hs4; [|by eauto].
  eapply ends_try; [apply (volume_init_id_ends path volume_id db)| |].
  - by eapply Hu64.
  - by rewrite Hs4, lookup_partial_alter_eq.
  - done.
  - intros meta s5 l5 (_ & db' & Hs5 & -> & Hid' & Hmax' & Hdb'). apply ends_ret. exists db', max.
    rewrite Hs5, Hs4, Hid', Hmax'. split; [apply (partial_alter_partial_alter_eq (λ _, _))|]. eauto 10.
  - intros e s5 l5 (_ & db' & Hs5 & ->). exists (Some db). rewrite Hs5, Hs4. split; [apply (partial_alter_partial_alter_eq (λ _, _))|done].
Qed.

(** C37. What creating a volume leaves behind.  Where the directory has a database already, the command
    fails before it asks the central server for anything.  A command that succeeds leaves a database of the size asked for and
    with an id the central server gave, from which the volume opens.  A command that fails on the way leaves no
    database, or one without an id: the next command fails on it, and no storage serves it. *)
Theorem create_volume_outcomes n path name text s :
  let out := run o n (cmd_create_volume config path name text) s in
  match cli_disks s !! path, out_value out with
  | Some _, r => (∃ e, r = Err e) ∧ cli_disks (out_state out) = cli_disks s ∧ Forall local_query (out_asked out)
  | None, Err _ => ∃ disk, cli_disks (out_state out) = partial_alter (λ _, disk) path (cli_disks s) ∧ unassigned path disk
  | None, Ok lines => ∃ db max,
      cli_disks (out_state out) = <[path := db]> (cli_disks s) ∧ lines = print_volume_meta (vd_meta db) ∧
      parse_bytes text = Ok max ∧ vm_max_bytes (vd_meta db) = max ∧
      (∃ m c, o m _ (CliClient (CRpc c (ReqControl (CreateVolumeRq name max)) false)) =
         Ok (RespControl (CreateVolumeRs (vm_volume_id (vd_meta db))))) ∧
      ∀ files, disk_reachable db files ∧ Volume_open path (Some db) files = Ok (opened db files)
  end.
Proof.
  cbv zeta. destruct (cli_disks s !! path) as [db|] eqn:Hdisk; [by apply (create_on_existing path name text db)|].
  pose proof (create_fresh path name text s Hdisk n) as Hout.
  destruct (out_value (run o n (cmd_create_volume config path name text) s)) as [lines|e]; [|done].
  destruct Hout as (db & max & Hs & Hlines & Htext & Hmax & Hid & Hdb). exists db, max. do 5 (split; [done|]).
  intros files. split; [done|]. by apply Volume_open_run, (disk_reachable_meta db files).
Qed.
End Create.

(** ** A volume of 4 GiB at [/v] *)

Section CreateSample.
#[local] Existing Instances plain_debug plain_texts sum_blake3 plain_zstd plain_sqlite_text sequential_rowids sequential_rowid_laws any_content.

Definition central_agrees (request : ProtocolRequest) : ProtocolResponse :=
  match request with
  | ReqControl (RegisterClientRq _ _ _) => RespControl (RegisterClientRs 9 [])
  | ReqControl (CreateVolumeRq _ _) => RespControl (CreateVolumeRs 7)
  | _ => RespError InvalidRequest
  end.
Definition client_answer {B} (q : ClientQuery B) : B :=
  match q in ClientQuery B return B with
  | CIsClosed _ => false
  | CClose _ => tt
  | CConnectCentral | CConnectStorage _ => Ok sample_connection
  | CRpc _ request _ => Ok (central_agrees request)
  | CJoin | CFileCall _ _ => None
  | CFileLen _ => Ok 0
  | CFileRead _ _ _ => Err "EIO"
  end.
Definition cli_oracle : Oracle CliQuery := λ _ B q,
  match q in CliQuery B return B with CliClient q => client_answer q | CliNow => 1000 | CliMkdir => None | CliSql => None | CliCreate => None end.
Lemma cli_oracle_u64 : answers_u64 cli_oracle.
Proof. split; [done|]. intros n c name max volume_id [= <-]. done. Qed.

Definition cli_fresh : CliState := mkCliState (Fs0Client_new (mkClientConfig None "t" 4 4)) ∅.
Definition cli_create : CliProg (Fs0Result (list string)) :=
  cmd_create_volume (Ok (mkClientConfig None "t" 4 4)) "/v" "v" "4g".

Lemma create_volume_outcomes_witness :
  is_ok (out_value (run cli_oracle 0 cli_create cli_fresh)) = true ∧
  ∃ db, cli_disks (out_state (run cli_oracle 0 cli_create cli_fresh)) !! "/v" = Some db ∧ vm_volume_id (vd_meta db) = 7.
Proof.
  assert (is_ok (out_value (run cli_oracle 0 cli_create cli_fresh)) = true) as Hok by (vm_compute; reflexivity).
  split; [exact Hok|]. revert Hok.
  generalize (create_volume_outcomes (Ok (mkClientConfig None "t" 4 4)) cli_oracle cli_oracle_u64 0 "/v" "v" "4g" cli_fresh).
  unfold cli_create. generalize (run cli_oracle 0 (cmd_create_volume (Ok (mkClientConfig None "t" 4 4)) "/v" "v" "4g") cli_fresh).
  intros out. cbv zeta. assert (cli_disks cli_fresh !! "/v" = None) as Hnone by apply lookup_empty. rewrite Hnone.
  destruct (out_value out) as [lines|e]; [|intros _ Hok; discriminate Hok].
  intros (db & max & Hdisks & _ & _ & _ & (m & c & Hid) & _) _. exists db. rewrite Hdisks, lookup_insert_eq. split; [reflexivity|].
  injection Hid as Hid. symmetry. exact Hid.
Defined.
End CreateSample.
